(* ===== verification/_CoqProject ===== *)
-Q . S2P
Prelude.v
Header.v
Proto.v
Kv.v
Dbi.v
DupSort.v
Lmdb.v
Strategy.v
Iterators.v
Convergence.v
Config.v
Shadow.v
Name.v
Utils.v
ShortHash.v
Snapshot.v
Syncer.v
Transfer.v
Cluster.v
Cleaner.v
Trackers.v
SyncLoop.v
Receiver.v
NodeSync.v
LimitScanner.v
Sweeper.v
DBIFlags.v
Storage.v
Topics.v
Subscription.v
Migrate.v
PdnsFix.v
Commands.v
SnapshotCmds.v
Startup.v
Options.v
Run.v
Stats.v
Hooks.v
StatusPage.v
