(* ===== verification/Prelude.v ===== *)
(** * Lightning Stream: a verification library

    Lightning Stream keeps the LMDB databases of several instances in sync
    through snapshots in an object storage.  Every instance dumps its
    databases into a snapshot when they change and stores it; every instance
    lists the storage, downloads the newest snapshots of the others and merges
    them into its own databases.  An entry carries a header with a timestamp
    and a deletion flag, and the newest entry of a key wins.  An application
    without such headers is served through shadow databases.  A cleaner removes
    old snapshots, a sweeper removes old deletion markers.

    ** Parts and files

    The files follow the packages of the repository, in dependency order.

    - Prelude.v: bytes, machine integers, the error type, the [outcome] monad
      (value, error, panic, loop without end), slices, byte order, automation.
    - Header.v: lmdbenv/header, the header in front of every value.
    - Proto.v: snapshot/utils.go on the csproto primitives.
    - Kv.v, Dbi.v: snapshot/kv.go and dbi.go, the entries and the dump of one
      database, read and written by hand on a byte buffer.
    - DupSort.v: syncer/dupsorthack.go, DupSort pairs as unique keys.
    - Lmdb.v: the operations of lmdb-go as the class [LMDB], its documented
      behaviour as [LMDBLaws] and a reference implementation.
    - Strategy.v: lmdbenv/strategy, the ways to write an iterator into a
      database, proved against [LMDBLaws] and the iterator interface.
    - Iterators.v: syncer/iterators.go, the iterators that merge a dump.
    - Convergence.v: loads of many instances in any order and grouping.
    - Config.v: config, config/logger and lmdbenv/new.go.
    - Shadow.v: lmdbenv (reading databases), syncer/shadow.go and the dump of
      syncer/utils.go.
    - Name.v: snapshot/name.go with the formatting of times.
    - Utils.v: utils/utils.go, sleeping and the display of bytes and times.
    - ShortHash.v: the short hash of a name, with SHA-256, and the extra items.
    - Snapshot.v: snapshot/snapshot.go, meta.go, load.go, transforms.go.
    - Syncer.v: [SendOnce] and [LoadOnce] of syncer/send.go and sync.go.
    - Transfer.v: a snapshot from one instance's environment into another's.
    - Cluster.v: any number of instances over one storage, as an implementation
      of a replicated last-writer-wins store.
    - Cleaner.v: syncer/cleaner.
    - Trackers.v: status/healthtracker and status/starttracker.
    - SyncLoop.v: the loop of syncer/sync.go against the interface
      [SyncWorld], with the promises it relies on as [SyncWorldLaws].
    - Receiver.v: syncer/receiver and utils/climit as interleaved goroutines:
      downloaders, the syncer, and a listing in the sections of its [RunOnce].
    - NodeSync.v: the loop's interface implemented by the models of Syncer.v,
      Receiver.v and Cleaner.v.
    - LimitScanner.v, Sweeper.v: lmdbenv/limitscanner and syncer/sweeper.
    - DBIFlags.v: lmdbenv/dbiflags, the text form of database flags.
    - Storage.v: snapshot/storage, the global storage handle.
    - Topics.v, Subscription.v: utils/topics, values published to subscribers,
      and the loop of [Handle] next to other goroutines.
    - Migrate.v, PdnsFix.v: the experimental commands that copy timestamps
      between databases and rename duplicate PowerDNS domains.
    - Commands.v, SnapshotCmds.v: the commands drop-shadow, dump and those on
      snapshots, the storage backend as the class [BlobStore].
    - Startup.v: loading and printing the configuration, the root command and
      the log formats.
    - Options.v: the options of a syncer with its events and hooks, the records
      of syncer/options.go, syncer/events and syncer/hooks.
    - Run.v: the constructor of a syncer, the commands sync and receive, the
      loops of the cleaner and the receiver.
    - Stats.v: lmdbenv/stats, the command stats, the registry and the listing
      of the status page.
    - StatusPage.v: the HTML page and the routes of status/httpd.go.
    - Hooks.v: [SendOnce] with its hooks, events and reports, its equality with
      the one of Syncer.v without hooks, and the hooks of the loop.

    ** How the code is translated

    A function keeps the name of its source.  A Go function that can fail
    returns an [outcome]; state it changes is passed and returned.  Integers
    are [Z] with the conversions of the source ([uint64], [int64], ...) written
    out where a value can leave its range.  A slice that may be nil is an
    option.  Times are nanoseconds.  Goroutines are steps of a relation that
    interleave at their locks, channels and tokens.

    Code outside the repository (csproto, gzip, lmdb-go, lmdbscan, the storage
    backend, the YAML package, the sort of a listing) is a class or a parameter.  A class has its
    documented behaviour as a second class of laws, and an instance that meets
    the laws, so that every theorem has a concrete instance.  Clocks,
    cancellation, other processes, the results of storage calls and the
    SyncerOptionsCallback an embedding program may set are arbitrary functions.

    ** Fuel

    Loops over a cursor, an iterator, a scanner or a retry counter take fuel
    and give [Hang] when it runs out.  Theorems that say what a call returns
    assume fuel above the number of entries, databases or attempts it works
    on, which is shown to be enough; [Hang] for every fuel is how a loop that
    does not end is stated.

    ** What is shown

    - Encodings: headers, dumps, DupSort pairs, names and snapshots are read
      back as they were written (Header, Dbi, DupSort, Name, Snapshot), and
      the encoders accept exactly the input they can represent.
    - Merging: a merge is last-writer-wins with a fixed order for ties, loads
      commute, and replicas that loaded the same entries agree (Iterators,
      Convergence); every strategy leaves the content its name promises and
      refuses unsorted input (Strategy).
    - Shadows: the copies to and from shadow databases, and the empty values
      they lose (Shadow).
    - Sending and loading: retries of the store, reporting of local changes
      (Syncer), the effect of a transfer on whole environments and agreement
      after a two-way exchange (Transfer).
    - Clusters: any run of writes, sends, loads and removals over one storage is
      a run of the abstract store, and instances that exchanged snapshots after
      the last write hold the newest of all writes (Cluster).
    - The loop: the own old snapshot is loaded before anything is sent, local
      changes are sent in the same pass, the synced transactions are those sent or
      reported by loads, a pass ends (SyncLoop); the node's operations implement the
      interface (NodeSync).
    - The receiver: memory stays within the configured tokens, notifications
      are not lost between the sections of a listing, listings yield the newest
      snapshots (Receiver).
    - Cleaning: every instance keeps a snapshot, deletion is delayed
      (Cleaner); a sweep removes exactly the stale deletion markers and never
      a live row, with other writers in between (Sweeper).
    - Topics: every subscriber gets every value in order (Topics), and a call
      of [Handle] ends only by its context or its function (Subscription).
    - Maintenance: a migration of timestamps changes exactly what it should
      (Migrate); renaming duplicate domains ends although the scan meets its own
      rows, and leaves every name once (PdnsFix); dropping shadows leaves the
      application's databases alone (Commands); an uploaded snapshot is
      downloaded as it was, listings are in order (SnapshotCmds).
    - Running: secrets are masked, flags override the file (Startup); every
      selected database gets a syncer, a receive-only one stores and deletes
      nothing (Run); a send reports what it did whatever the hooks do (Hooks); no
      text of a database adds markup to the status page (StatusPage).
    - The rest: health and start checks (Trackers), the configuration
      (Config), the text of flags (DBIFlags), sleeping and display (Utils),
      short hashes (ShortHash), statistics and the registry (Stats).

    Where the code departs from its comments or fails, a theorem shows a
    concrete or general instance, such as [negative_skip_never_returns] (Dbi),
    [newest_deleted_after_late_older] (Cleaner),
    [change_after_empty_load_missed] (NodeSync),
    [shadow_empty_value_dropped] (Shadow), [reappearing_snapshot_missed]
    (Receiver), [sweep_error_retried] (Sweeper), [GetGlobal_never_returns]
    (Storage), [close_deadlocks] (Topics), [root_zone_renamed] (PdnsFix),
    [account_key_is_shown] and [timeout_leaves_no_grace] (Startup) and
    [smaps_tail_panics] (Stats).

    ** Not modelled

    Most log lines; the declarations of metrics; the network side of the HTTP
    server; the registration of flags with the command package, the version and
    docs commands; the YAML package, which is a pair of functions; calls of the
    garbage collector; generated code; timers, whose waits are parameters of the
    loops around them.  Sweeping and shadow databases are not part of the cluster
    of Cluster.v.  A database whose map fills up is outside the laws of
    [LMDB]. *)

From Stdlib Require Import ZArith Lia.
From Stdlib Require Strings.Byte Strings.String.
From stdpp Require Export base tactics list gmap numbers.

Export String.StringSyntax.


(** ** Bytes

    Go's [byte] is [Byte.byte]; a byte slice and a Go string are lists of
    bytes.  A slice that may be [nil] where the source tells [nil] and the
    empty slice apart is a [gobytes]. *)

Abbreviation byte := Byte.byte.
Abbreviation bytes := (list Byte.byte).
Abbreviation gobytes := (option (list Byte.byte)).

#[export] Instance byte_eq_decision : EqDecision byte := Byte.byte_eq_dec.

#[export] Instance byte_countable : Countable byte :=
  inj_countable Byte.to_N Byte.of_N Byte.of_to_N.

(** The literal bytes of a string constant of the source. *)
Definition str (s : String.string) : bytes := String.list_byte_of_string s.

Arguments str s%_string_scope.

(** [len(b)] of a slice that may be nil. *)
Definition glen (b : gobytes) : nat :=
  match b with Some l => length l | None => 0 end.

(** The content of a slice that may be nil. *)
Definition gdata (b : gobytes) : bytes := default [] b.

Open Scope Z_scope.

(** The unsigned value of a byte, and the conversion [uint8(z)]. *)
Definition bz (b : byte) : Z := Z.of_N (Byte.to_N b).

Definition zb (z : Z) : byte := default Byte.x00 (Byte.of_N (Z.to_N (z mod 256))).

(** [uint64(z)], [uint32(z)], [uint16(z)] and [int(z)] on a 64-bit platform. *)
Definition uint64 (z : Z) : Z := z mod 2 ^ 64.
Definition uint32 (z : Z) : Z := z mod 2 ^ 32.
Definition uint16 (z : Z) : Z := z mod 2 ^ 16.
Definition int64 (z : Z) : Z := (z + 2 ^ 63) mod 2 ^ 64 - 2 ^ 63.

(** [len(b)] as a Go [int]. *)
Definition zlen {A} (b : list A) : Z := Z.of_nat (length b).

(** ** Errors and outcomes

    [error] is the sum of the error values the modelled code creates or
    compares with; [EWrap] is [fmt.Errorf] with a [%w] verb.  An [outcome]
    separates an ordinary return from an error return, a run-time panic and a
    loop that provably never returns. *)
Inductive error : Type :=
  | EOF
  | ErrUnexpectedEOF
  | ErrTooShort
  | ErrVersion
  | ErrNotSorted
  | ErrNoTxnID
  | Canceled
  | ErrUnexpectedWireType (tag got exp : Z)
  | ELmdb (code : Z)
  | EMsg (msg : String.string)
  | EWrap (msg : String.string) (e : error).

Arguments EMsg msg%_string_scope.
Arguments EWrap msg%_string_scope e.

#[export] Instance error_eq_dec : EqDecision error.
Proof. solve_decision. Defined.

(** [errors.Is(e, target)]: the chain of wrapped errors contains [target]. *)
Fixpoint errors_Is (e target : error) : bool :=
  bool_decide (e = target) ||
  match e with EWrap _ e' => errors_Is e' target | _ => false end.

Inductive outcome (A : Type) : Type :=
  | Ok (a : A)
  | Err (e : error)
  | Panic
  | Hang.
Arguments Ok {A} _.
Arguments Err {A} _.
Arguments Panic {A}.
Arguments Hang {A}.

#[export] Instance outcome_eq_dec {A} `{EqDecision A} : EqDecision (outcome A).
Proof. solve_decision. Defined.

#[export] Instance outcome_ret : MRet outcome := fun A a => Ok a.
#[export] Instance outcome_bind : MBind outcome := fun A B f m =>
  match m with Ok a => f a | Err e => Err e | Panic => Panic | Hang => Hang end.
#[export] Instance outcome_fmap : FMap outcome := fun A B f m =>
  match m with Ok a => Ok (f a) | Err e => Err e | Panic => Panic | Hang => Hang end.

(** [if err != nil { return fmt.Errorf("msg: %w", err) }] *)
Definition wrap_err {A} (msg : String.string) (m : outcome A) : outcome A :=
  match m with Err e => Err (EWrap msg e) | _ => m end.

Arguments wrap_err {A} msg%_string_scope m.

Definition is_ok {A} (m : outcome A) : Prop := ∃ a, m = Ok a.

(** ** Times

    A [time.Time] is a number of nanoseconds; its zero value is the start of
    year one, and [a.Sub(b)] saturates at the range of a duration. *)
Definition zeroTime : Z := - 62135596800 * 10 ^ 9.
Definition time_Sub (a b : Z) : Z := Z.max (- 2 ^ 63) (Z.min (2 ^ 63 - 1) (a - b)).

(** ** Slices

    [b[lo:hi]] panics out of range; [splice] is a fixed-size write into a
    buffer (a store that panics when it does not fit) and [copy_at] is
    [copy(b[off:], s)], which truncates instead. *)
Definition gslice (b : bytes) (lo hi : Z) : outcome bytes :=
  if (0 <=? lo) && (lo <=? hi) && (hi <=? zlen b)
  then Ok (take (Z.to_nat (hi - lo)) (drop (Z.to_nat lo) b)) else Panic.

Definition gfrom (b : bytes) (lo : Z) : outcome bytes := gslice b lo (zlen b).

Definition gindex (b : bytes) (i : Z) : outcome byte :=
  if 0 <=? i then match b !! Z.to_nat i with Some x => Ok x | None => Panic end
  else Panic.

Definition splice (b : bytes) (off : Z) (s : bytes) : outcome bytes :=
  if (0 <=? off) && (off + zlen s <=? zlen b)
  then Ok (take (Z.to_nat off) b ++ s ++ drop (Z.to_nat off + length s) b) else Panic.

Definition copy_at (b : bytes) (off : Z) (s : bytes) : outcome (bytes * Z) :=
  if (0 <=? off) && (off <=? zlen b)
  then let n := Z.to_nat (Z.min (zlen s) (zlen b - off)) in
       Ok (take (Z.to_nat off) b ++ take n s ++ drop (Z.to_nat off + n) b, Z.of_nat n)
  else Panic.

(** ** Fixed-width integers in memory

    [binary.LittleEndian] and [binary.BigEndian] on [n]-byte words. *)
Fixpoint le_put (n : nat) (v : Z) : bytes :=
  match n with O => [] | S n' => zb v :: le_put n' (v / 256) end.

Fixpoint le_get (l : bytes) : Z :=
  match l with [] => 0 | b :: r => bz b + 256 * le_get r end.

Definition be_put (n : nat) (v : Z) : bytes := rev (le_put n v).
Definition be_get (l : bytes) : Z := le_get (rev l).

(** [bytes.Compare] *)
Fixpoint bytes_Compare (a b : bytes) : comparison :=
  match a, b with
  | [], [] => Eq
  | [], _ :: _ => Lt
  | _ :: _, [] => Gt
  | x :: a', y :: b' =>
      match bz x ?= bz y with Eq => bytes_Compare a' b' | c => c end
  end.

(** ** Automation *)

Create Rewrite HintDb golen.

(** Split every conjunction of boolean tests in the context and the goal into
    arithmetic facts. *)
Ltac bool_arith :=
  repeat match goal with
  | H : _ && _ = true |- _ => apply andb_true_iff in H as [? ?]
  | H : _ || _ = false |- _ => apply orb_false_iff in H as [? ?]
  | H : negb _ = true |- _ => apply negb_true_iff in H
  | H : negb _ = false |- _ => apply negb_false_iff in H
  | H : (_ <=? _) = true |- _ => apply Z.leb_le in H
  | H : (_ <=? _) = false |- _ => apply Z.leb_gt in H
  | H : (_ <? _) = true |- _ => apply Z.ltb_lt in H
  | H : (_ <? _) = false |- _ => apply Z.ltb_ge in H
  | H : (_ =? _) = true |- _ => apply Z.eqb_eq in H
  | H : (_ =? _) = false |- _ => apply Z.eqb_neq in H
  end.

(** Case on the scrutinee of an [if] of the goal and turn it into arithmetic. *)
Ltac case_if :=
  match goal with
  | |- context [if ?b then _ else _] => destruct b eqn:?; bool_arith
  end.

(** Case on the [if] tests of a hypothesis. *)
Ltac case_if_in H :=
  match type of H with
  | context [if ?b then _ else _] => destruct b eqn:?; bool_arith
  end.

(** Invert [m ≫= f = Ok r] chains into the intermediate results. *)
Ltac inv_bind :=
  repeat match goal with
  | H : mbind ?f ?m = Ok _ |- _ =>
      destruct m eqn:?; simpl in H; try discriminate H
  | H : Ok _ = Ok _ |- _ => injection H as H; subst
  end.

(** ** Lemmas on outcomes *)

Lemma bind_ok {A B} (a : A) (f : A → outcome B) : (Ok a ≫= f) = f a.
Proof. done. Qed.

Lemma bind_err {A B} e (f : A → outcome B) : (Err e ≫= f) = Err e.
Proof. done. Qed.

(** ** Lemmas on bytes and machine integers *)

Lemma bz_range b : 0 <= bz b < 256.
Proof. unfold bz. pose proof (Byte.to_N_bounded b). lia. Qed.

Lemma bz_zb z : bz (zb z) = z mod 256.
Proof.
  unfold bz, zb.
  pose proof (Z.mod_pos_bound z 256 ltac:(lia)) as Hb.
  destruct (Byte.of_N (Z.to_N (z mod 256))) as [b|] eqn:E; simpl.
  - apply Byte.to_of_N in E. rewrite E. lia.
  - apply Byte.of_N_None_iff in E. lia.
Qed.

Lemma zb_bz b : zb (bz b) = b.
Proof.
  unfold zb, bz. pose proof (bz_range b) as Hb. unfold bz in Hb.
  rewrite Z.mod_small by lia. rewrite N2Z.id, Byte.of_to_N. done.
Qed.

Lemma bz_inj a b : bz a = bz b → a = b.
Proof. intros H. rewrite <- (zb_bz a), <- (zb_bz b). by f_equal. Qed.

Lemma zb_mod z : zb (z mod 256) = zb z.
Proof. apply bz_inj. rewrite !bz_zb. apply Z.mod_mod. lia. Qed.

Lemma zlen_nonneg {A} (l : list A) : 0 <= zlen l.
Proof. unfold zlen. lia. Qed.

Lemma zlen_app {A} (l k : list A) : zlen (l ++ k) = zlen l + zlen k.
Proof. unfold zlen. rewrite length_app. lia. Qed.

Lemma zlen_cons {A} (x : A) l : zlen (x :: l) = 1 + zlen l.
Proof. unfold zlen. simpl. lia. Qed.

Lemma zlen_nil {A} : zlen (@nil A) = 0.
Proof. done. Qed.

Lemma zlen_replicate {A} n (x : A) : zlen (replicate n x) = Z.of_nat n.
Proof. unfold zlen. by rewrite length_replicate. Qed.

#[export] Hint Rewrite @zlen_app @zlen_cons @zlen_nil @zlen_replicate : golen.

Lemma int64_small z : - 2 ^ 63 <= z < 2 ^ 63 → int64 z = z.
Proof. intros H. unfold int64. rewrite Z.mod_small; lia. Qed.

Lemma int64_range z : - 2 ^ 63 <= int64 z < 2 ^ 63.
Proof.
  unfold int64. pose proof (Z.mod_pos_bound (z + 2 ^ 63) (2 ^ 64) ltac:(lia)). lia.
Qed.

Lemma uint64_small z : 0 <= z < 2 ^ 64 → uint64 z = z.
Proof. apply Z.mod_small. Qed.

Lemma uint32_small z : 0 <= z < 2 ^ 32 → uint32 z = z.
Proof. apply Z.mod_small. Qed.

(** *** Fixed-width words *)

Lemma length_le_put n v : length (le_put n v) = n.
Proof. revert v. induction n; intros v; simpl; [done|]. by rewrite IHn. Qed.

Lemma length_be_put n v : length (be_put n v) = n.
Proof. unfold be_put. by rewrite length_rev, length_le_put. Qed.

Lemma zlen_le_put n v : zlen (le_put n v) = Z.of_nat n.
Proof. unfold zlen. by rewrite length_le_put. Qed.

Lemma zlen_be_put n v : zlen (be_put n v) = Z.of_nat n.
Proof. unfold zlen. by rewrite length_be_put. Qed.

#[export] Hint Rewrite zlen_le_put zlen_be_put : golen.

Lemma le_get_range l : 0 <= le_get l < 256 ^ Z.of_nat (length l).
Proof.
  induction l as [|b l IH]; simpl length; [simpl; lia|].
  rewrite Nat2Z.inj_succ, Z.pow_succ_r by lia. simpl.
  pose proof (bz_range b). nia.
Qed.

Lemma le_get_put n v : le_get (le_put n v) = v mod 256 ^ Z.of_nat n.
Proof.
  revert v. induction n as [|n IH]; intros v.
  - simpl. by rewrite Z.mod_1_r.
  - simpl le_put. simpl le_get. rewrite IH, bz_zb.
    rewrite Nat2Z.inj_succ, Z.pow_succ_r by lia.
    rewrite Z.rem_mul_r by lia. lia.
Qed.

Lemma le_put_get l : le_put (length l) (le_get l) = l.
Proof.
  induction l as [|b l IH]; [done|]. simpl.
  pose proof (bz_range b) as Hb.
  rewrite <- (Z.div_unique (bz b + 256 * le_get l) 256 (le_get l) (bz b)) by lia.
  rewrite IH. f_equal. rewrite <- zb_mod.
  rewrite <- (Z.mod_unique (bz b + 256 * le_get l) 256 (le_get l) (bz b)) by lia.
  apply zb_bz.
Qed.

Lemma be_get_range l : 0 <= be_get l < 256 ^ Z.of_nat (length l).
Proof. unfold be_get. rewrite <- length_rev. apply le_get_range. Qed.

Lemma be_get_put n v : be_get (be_put n v) = v mod 256 ^ Z.of_nat n.
Proof. unfold be_get, be_put. rewrite rev_involutive. apply le_get_put. Qed.

Lemma be_get_put_small n v : 0 <= v < 256 ^ Z.of_nat n → be_get (be_put n v) = v.
Proof. intros H. rewrite be_get_put. by apply Z.mod_small. Qed.

Lemma le_get_put_small n v : 0 <= v < 256 ^ Z.of_nat n → le_get (le_put n v) = v.
Proof. intros H. rewrite le_get_put. by apply Z.mod_small. Qed.

Lemma be_put_get n l : length l = n → be_put n (be_get l) = l.
Proof.
  intros <-. unfold be_get, be_put.
  rewrite <- length_rev, le_put_get. apply rev_involutive.
Qed.

(** *** [bytes.Compare] is a total order *)

Lemma bytes_Compare_refl a : bytes_Compare a a = Eq.
Proof. induction a as [|x a IH]; simpl; [done|]. by rewrite Z.compare_refl. Qed.

Lemma bytes_Compare_eq a b : bytes_Compare a b = Eq ↔ a = b.
Proof.
  split; [|intros ->; apply bytes_Compare_refl].
  revert b. induction a as [|x a IH]; intros [|y b]; simpl; try done.
  destruct (bz x ?= bz y) eqn:E; try done. intros H.
  apply Z.compare_eq, bz_inj in E. f_equal; [done|]. by apply IH.
Qed.

Lemma bytes_Compare_antisym a b : bytes_Compare b a = CompOpp (bytes_Compare a b).
Proof.
  revert b. induction a as [|x a IH]; intros [|y b]; simpl; try done.
  rewrite Z.compare_antisym. destruct (bz x ?= bz y); simpl; auto.
Qed.

Lemma bytes_Compare_lt_trans a b c :
  bytes_Compare a b = Lt → bytes_Compare b c = Lt → bytes_Compare a c = Lt.
Proof.
  revert b c. induction a as [|x a IH]; intros [|y b] [|z c]; simpl; try done.
  destruct (Z.compare_spec (bz x) (bz y)), (Z.compare_spec (bz y) (bz z));
    try done; intros ??;
    destruct (Z.compare_spec (bz x) (bz z)); try lia; try done.
  by eapply IH.
Qed.

Lemma bytes_Compare_app p q s t :
  length p = length q →
  bytes_Compare (p ++ s) (q ++ t) =
    match bytes_Compare p q with Eq => bytes_Compare s t | c => c end.
Proof.
  revert q. induction p as [|x p IH]; intros [|y q] H; try done. simpl in *.
  destruct (bz x ?= bz y); [|done..]. apply IH. lia.
Qed.

(** Big-endian words are ordered like their values. *)
Lemma bytes_Compare_be n x y :
  0 <= x < 256 ^ Z.of_nat n → 0 <= y < 256 ^ Z.of_nat n →
  bytes_Compare (be_put n x) (be_put n y) = (x ?= y).
Proof.
  revert x y. induction n as [|n IH]; intros x y Hx Hy.
  { simpl in *. assert (x = y) as -> by lia. by rewrite Z.compare_refl. }
  rewrite Nat2Z.inj_succ, Z.pow_succ_r in Hx, Hy by lia.
  pose proof (Z.div_mod x 256 ltac:(lia)) as Dx. pose proof (Z.mod_pos_bound x 256 ltac:(lia)) as Mx.
  pose proof (Z.div_mod y 256 ltac:(lia)) as Dy. pose proof (Z.mod_pos_bound y 256 ltac:(lia)) as My.
  assert (Hb : ∀ z, be_put (S n) z = be_put n (z / 256) ++ [zb z]) by done.
  rewrite !Hb, bytes_Compare_app by by rewrite !length_be_put. rewrite IH.
  - simpl. rewrite !bz_zb. destruct (Z.compare_spec (x / 256) (y / 256)) as [E|E|E];
      destruct (Z.compare_spec (x mod 256) (y mod 256)), (Z.compare_spec x y); try done; lia.
  - split; [apply Z.div_pos; lia|apply Z.div_lt_upper_bound; lia].
  - split; [apply Z.div_pos; lia|apply Z.div_lt_upper_bound; lia].
Qed.

Lemma bytes_le_trans a b c : bytes_Compare a b ≠ Gt → bytes_Compare b c ≠ Gt → bytes_Compare a c ≠ Gt.
Proof.
  destruct (bytes_Compare a b) eqn:E1; [apply bytes_Compare_eq in E1 as ->; done| |done].
  destruct (bytes_Compare b c) eqn:E2; [apply bytes_Compare_eq in E2 as ->| |done].
  - by rewrite E1.
  - by rewrite (bytes_Compare_lt_trans _ _ _ E1 E2).
Qed.

Lemma bytes_not_le a b : ¬ (bytes_Compare a b ≠ Gt) ↔ bytes_Compare b a = Lt.
Proof. rewrite (bytes_Compare_antisym a b). destruct (bytes_Compare a b); naive_solver. Qed.

Lemma bytes_Compare_nil a : bytes_Compare [] a ≠ Gt.
Proof. by destruct a. Qed.

(** *** Slices *)

Lemma gslice_ok b lo hi :
  0 <= lo → lo <= hi → hi <= zlen b →
  gslice b lo hi = Ok (take (Z.to_nat (hi - lo)) (drop (Z.to_nat lo) b)).
Proof.
  intros. unfold gslice.
  rewrite (proj2 (Z.leb_le 0 lo)), (proj2 (Z.leb_le lo hi)),
    (proj2 (Z.leb_le hi (zlen b))) by done. done.
Qed.

(** Reading the middle of an appended buffer. *)
Lemma gslice_mid p s q :
  gslice (p ++ s ++ q) (zlen p) (zlen p + zlen s) = Ok s.
Proof.
  rewrite gslice_ok; autorewrite with golen;
    [|pose proof (zlen_nonneg p); pose proof (zlen_nonneg s);
      pose proof (zlen_nonneg q); lia..].
  f_equal. unfold zlen. rewrite Nat2Z.id, drop_app_length.
  replace (Z.to_nat (Z.of_nat (length p) + Z.of_nat (length s) - Z.of_nat (length p)))
    with (length s) by lia.
  by rewrite take_app_length.
Qed.

Lemma gfrom_app p q : gfrom (p ++ q) (zlen p) = Ok q.
Proof.
  unfold gfrom. rewrite gslice_ok; autorewrite with golen;
    [|pose proof (zlen_nonneg p); pose proof (zlen_nonneg q); lia..].
  f_equal. unfold zlen. rewrite Nat2Z.id, drop_app_length.
  apply take_ge. lia.
Qed.

(** A write that fits in the front part of a buffer leaves the rest alone. *)
Lemma splice_app p q off s :
  off + zlen s <= zlen p →
  splice (p ++ q) off s = (λ p', p' ++ q) <$> splice p off s.
Proof.
  intros H. unfold splice. autorewrite with golen.
  destruct (Z.leb_spec 0 off); [|done]. simpl.
  pose proof (zlen_nonneg q).
  destruct (Z.leb_spec (off + zlen s) (zlen p)); [|lia].
  destruct (Z.leb_spec (off + zlen s) (zlen p + zlen q)); [|lia].
  simpl. unfold zlen in *.
  rewrite take_app_le, drop_app_le by lia. by rewrite !app_assoc.
Qed.

(** Writing into the unused tail of a buffer. *)
Lemma splice_tail p s z n :
  (length s <= n)%nat →
  splice (p ++ replicate n z) (zlen p) s = Ok ((p ++ s) ++ replicate (n - length s) z).
Proof.
  intros Hn. unfold splice.
  replace ((0 <=? zlen p) && (zlen p + zlen s <=? zlen (p ++ replicate n z))) with true.
  2: { symmetry. apply andb_true_iff. autorewrite with golen.
       pose proof (zlen_nonneg p). rewrite !Z.leb_le. unfold zlen in *. lia. }
  f_equal. unfold zlen. rewrite Nat2Z.id, take_app_length, <- app_assoc. f_equal. f_equal.
  rewrite drop_app_ge by lia. rewrite drop_replicate. f_equal. lia.
Qed.

Lemma copy_at_tail p s z n :
  (length s <= n)%nat →
  copy_at (p ++ replicate n z) (zlen p) s =
    Ok ((p ++ s) ++ replicate (n - length s) z, zlen s).
Proof.
  intros Hn. unfold copy_at.
  replace ((0 <=? zlen p) && (zlen p <=? zlen (p ++ replicate n z))) with true.
  2: { symmetry. apply andb_true_iff. autorewrite with golen.
       pose proof (zlen_nonneg p). rewrite !Z.leb_le. lia. }
  autorewrite with golen.
  replace (Z.to_nat (Z.min (zlen s) (zlen p + Z.of_nat n - zlen p))) with (length s)
    by (unfold zlen; lia).
  f_equal. f_equal.
  unfold zlen. rewrite Nat2Z.id, take_app_length, <- app_assoc. f_equal.
  rewrite (take_ge s) by lia. f_equal.
  rewrite drop_app_ge by lia. rewrite drop_replicate. f_equal. lia.
Qed.

(** *** Filters *)

Lemma filter_all {A} (P : A → Prop) `{∀ x, Decision (P x)} (l : list A) :
  (∀ x, x ∈ l → P x) → filter P l = l.
Proof.
  induction l as [|x l IH]; intros Hl; [done|].
  rewrite filter_cons_True by (apply Hl; left). f_equal. apply IH. intros y Hy. apply Hl. by right.
Qed.

Lemma filter_none {A} (P : A → Prop) `{∀ x, Decision (P x)} (l : list A) :
  (∀ x, x ∈ l → ¬ P x) → filter P l = [].
Proof.
  induction l as [|x l IH]; intros Hl; [done|].
  rewrite filter_cons_False by (apply Hl; left). apply IH. intros y Hy. apply Hl. by right.
Qed.

(** ** Numbers in text

    [strconv.FormatUint(v, 10)] and the hexadecimal digits of [fmt].  Sixty-four
    bits have at most twenty decimal digits. *)
Definition decDigit (d : Z) : byte := zb (48 + d).
Definition hexDigit (d : Z) : byte := zb (if d <? 10 then 48 + d else 87 + d).

Fixpoint itoaLoop (fuel : nat) (v : Z) (acc : bytes) : bytes :=
  match fuel with
  | O => acc
  | S fuel =>
      let acc := decDigit (v mod 10) :: acc in
      if v / 10 =? 0 then acc else itoaLoop fuel (v / 10) acc
  end.

Definition itoa (v : Z) : bytes := itoaLoop 20 v [].

(** The number a row of decimal digits stands for. *)
Definition undecimal (s : bytes) : Z := foldl (λ n b, n * 10 + (bz b - 48)) 0 s.

Lemma decDigit_range d : 0 <= d < 10 → 48 <= bz (decDigit d) <= 57 ∧ bz (decDigit d) - 48 = d.
Proof. intros H. unfold decDigit. rewrite bz_zb, Z.mod_small by lia. lia. Qed.

Lemma hexDigit_range d : 0 <= d < 16 → 48 <= bz (hexDigit d) <= 102.
Proof. intros H. unfold hexDigit. rewrite bz_zb. case_if; rewrite Z.mod_small by lia; lia. Qed.

Lemma itoaLoop_digits fuel v acc :
  0 <= v → Forall (λ b, 48 <= bz b <= 57) acc → Forall (λ b, 48 <= bz b <= 57) (itoaLoop fuel v acc).
Proof.
  revert v acc. induction fuel as [|fuel IH]; intros v acc Hv Hacc; [done|]. simpl.
  assert (Forall (λ b, 48 <= bz b <= 57) (decDigit (v mod 10) :: acc)).
  { constructor; [|done]. apply decDigit_range, Z.mod_pos_bound. lia. }
  case_if; [done|]. apply IH; [|done]. apply Z.div_pos; lia.
Qed.

Lemma itoa_digits v : 0 <= v → Forall (λ b, 48 <= bz b <= 57) (itoa v).
Proof. intros Hv. by apply itoaLoop_digits. Qed.

Lemma undecimal_app n s s' :
  foldl (λ n b, n * 10 + (bz b - 48)) n (s ++ s') =
  foldl (λ n b, n * 10 + (bz b - 48)) (foldl (λ n b, n * 10 + (bz b - 48)) n s) s'.
Proof. apply foldl_app. Qed.

Lemma itoaLoop_value fuel v acc :
  0 <= v < 10 ^ Z.of_nat fuel → (0 < fuel)%nat →
  undecimal (itoaLoop fuel v acc) = foldl (λ n b, n * 10 + (bz b - 48)) v acc.
Proof.
  revert v acc. induction fuel as [|fuel IH]; intros v acc Hv Hf; [lia|]. simpl.
  pose proof (Z.mod_pos_bound v 10 ltac:(lia)) as Hm.
  pose proof (Z.div_mod v 10 ltac:(lia)) as Hd. destruct (decDigit_range (v mod 10) Hm) as [_ Ed].
  case_if.
  - unfold undecimal. cbn [foldl]. rewrite Ed. f_equal. lia.
  - assert (0 <= v / 10) by (apply Z.div_pos; lia).
    assert (v / 10 < 10 ^ Z.of_nat fuel).
    { apply Z.div_lt_upper_bound; [lia|]. rewrite Nat2Z.inj_succ, Z.pow_succ_r in Hv; lia. }
    destruct fuel as [|fuel]; [simpl in *; lia|]. rewrite IH by lia. cbn [foldl]. rewrite Ed. f_equal. lia.
Qed.

Lemma undecimal_itoa v : 0 <= v < 2 ^ 64 → undecimal (itoa v) = v.
Proof. intros H. unfold itoa. rewrite itoaLoop_value; [done| |lia]. lia. Qed.

Lemma itoa_length fuel v acc : (length (itoaLoop fuel v acc) <= fuel + length acc)%nat.
Proof.
  revert v acc. induction fuel as [|fuel IH]; intros v acc; simpl; [lia|].
  case_if; [simpl; lia|]. etrans; [apply IH|]. simpl. lia.
Qed.
