(* ===== verification/Header.v ===== *)
(** * The native header (lmdbenv/header)

    Every LMDB value Lightning Stream merges starts with a header: an 8-byte
    timestamp, an 8-byte transaction ID, a version byte, a flags byte, four
    reserved bytes, a 16-bit count of 8-byte extension blocks and the blocks.
    This file models the record, its serialisation ([Bytes], [doBytes],
    [PutBasic]) and the readers ([Parse], [Skip], [ParseTimestamp]). *)

From S2P Require Import Prelude.

Definition MinHeaderSize : Z := 24.
Definition PreAllocSize : Z := 64.
Definition BlockSize : Z := 8.

Definition VersionOffset : Z := 16.
Definition FlagsOffset : Z := 17.
Definition reserved1Offset : Z := 18.
Definition reserved2Offset : Z := 19.
Definition reserved3Offset : Z := 20.
Definition reserved4Offset : Z := 21.
Definition NumExtraOffsetHigh : Z := 22.
Definition NumExtraOffsetLow : Z := 23.

(** [Timestamp] and [TxnID] are [uint64], [Flags] is [uint8]. *)
Abbreviation Timestamp := Z.
Abbreviation TxnID := Z.
Abbreviation Flags := Z.

(** [TimestampFromTime] takes the nanoseconds of [t.UnixNano()]. *)
Definition TimestampFromTime (unixNano : Z) : Timestamp := uint64 unixNano.

Definition FlagDeleted : Flags := 1.
Definition NoFlags : Flags := 0.
Definition FlagSyncMask : Flags := FlagDeleted.

Definition IsDeleted (f : Flags) : bool := 0 <? Z.land f FlagDeleted.
Definition Masked (f : Flags) : Flags := Z.land f FlagSyncMask.

Record Header : Type := MkHeader {
  hTimestamp : Timestamp;
  hTxnID : TxnID;
  hVersion : Z;
  hFlags : Flags;
  hNumExtra : Z;
  hExtra : bytes;
}.

#[export] Instance Header_eq_dec : EqDecision Header.
Proof. solve_decision. Defined.

(** The block count [doBytes] settles on: [NumExtra], raised when the extra
    bytes do not fit. *)
Definition extraBlocks (h : Header) : Z :=
  let extraLen := zlen (hExtra h) in
  let n := hNumExtra h in
  if (0 <? n) || (0 <? extraLen) then
    if int64 (n * BlockSize) <? extraLen
    then extraLen / BlockSize + (if 0 <? extraLen mod BlockSize then 1 else 0)
    else n
  else n.

(** The buffer [doBytes] writes the fixed part into: the given one, resliced
    within its capacity, or a fresh one, with the extra bytes copied in. *)
Definition extraBuffer (h : Header) (b : bytes) (capb : Z) : outcome bytes :=
  let extraLen := zlen (hExtra h) in
  let n := extraBlocks h in
  if ((0 <? hNumExtra h) || (0 <? extraLen)) && (0 <? n) then
    let newLen := int64 (MinHeaderSize + int64 (n * BlockSize)) in
    if newLen <? 0 then Panic
    else
      let b := if capb <? newLen then replicate (Z.to_nat newLen) Byte.x00
               else b ++ replicate (Z.to_nat (newLen - zlen b)) Byte.x00 in
      splice b MinHeaderSize (hExtra h)
  else Ok b.

Definition doBytes (h : Header) (b : bytes) (capb : Z) : outcome bytes :=
  b ← extraBuffer h b capb;
  b ← splice b 0 (be_put 8 (hTimestamp h));
  b ← splice b 8 (be_put 8 (hTxnID h));
  b ← splice b VersionOffset [zb (hVersion h)];
  b ← splice b FlagsOffset [zb (hFlags h)];
  splice b NumExtraOffsetHigh (be_put 2 (uint16 (extraBlocks h))).

Definition Bytes (h : Header) : outcome bytes :=
  doBytes h (replicate (Z.to_nat MinHeaderSize) Byte.x00) PreAllocSize.

Definition getNumExtra (val : bytes) : outcome Z :=
  w ← gslice val NumExtraOffsetHigh (NumExtraOffsetHigh + 2);
  Ok (be_get w).

Definition Parse (val : bytes) : outcome (Header * bytes) :=
  if zlen val <? MinHeaderSize then Err ErrTooShort
  else
    version ← gindex val VersionOffset;
    if negb (bz version =? 0) then Err ErrVersion
    else
      numExtra ← getNumExtra val;
      let numExtraBytes := if 0 <? numExtra then BlockSize * numExtra else 0 in
      if (0 <? numExtra) && (zlen val <? MinHeaderSize + numExtraBytes)
      then Err ErrTooShort
      else
        let offset := MinHeaderSize + numExtraBytes in
        extra ← (if 0 <? numExtra then gslice val MinHeaderSize offset else Ok []);
        ts ← gslice val 0 8;
        txn ← gslice val 8 16;
        flags ← gindex val FlagsOffset;
        rest ← gfrom val offset;
        Ok (MkHeader (be_get ts) (be_get txn) (bz version) (bz flags) numExtra extra, rest).

Definition Skip (val : bytes) : outcome bytes :=
  if zlen val <? MinHeaderSize then Err ErrTooShort
  else
    version ← gindex val VersionOffset;
    if negb (bz version =? 0) then Err ErrVersion
    else
      numExtra ← getNumExtra val;
      let numExtraBytes := if 0 <? numExtra then BlockSize * numExtra else 0 in
      if (0 <? numExtra) && (zlen val <? MinHeaderSize + numExtraBytes)
      then Err ErrTooShort
      else gfrom val (MinHeaderSize + numExtraBytes).

Definition ParseTimestamp (val : bytes) : outcome Timestamp :=
  if zlen val <? 8 then Err ErrTooShort
  else w ← gslice val 0 8; Ok (be_get w).

Definition PutBasic (b : bytes) (ts : Timestamp) (txnid : TxnID) (flags : Flags)
    : outcome bytes :=
  if zlen b <? MinHeaderSize then Panic
  else
    b ← splice b 0 (be_put 8 ts);
    b ← splice b 8 (be_put 8 txnid);
    b ← splice b VersionOffset [zb 0];
    b ← splice b FlagsOffset [zb flags];
    b ← splice b reserved1Offset [zb 0];
    b ← splice b reserved2Offset [zb 0];
    b ← splice b reserved3Offset [zb 0];
    b ← splice b reserved4Offset [zb 0];
    b ← splice b NumExtraOffsetHigh [zb 0];
    splice b NumExtraOffsetLow [zb 0].

(** ** The layout

    The byte layout the documentation of the native schema gives, with the
    reserved bytes and the extension blocks as arguments. *)
Definition layout (ts txn ver flags : Z) (reserved : bytes) (n : Z) (extra : bytes)
    : bytes :=
  be_put 8 ts ++ be_put 8 txn ++ [zb ver; zb flags] ++ reserved ++ be_put 2 n ++ extra.

(** A header whose fields are in range of their types. *)
Definition header_ok (h : Header) : Prop :=
  0 <= hTimestamp h < 2 ^ 64 ∧ 0 <= hTxnID h < 2 ^ 64 ∧ hVersion h = 0 ∧
  0 <= hFlags h < 256 ∧ 0 <= hNumExtra h ∧ 0 <= extraBlocks h < 65536 ∧
  zlen (hExtra h) < 2 ^ 62.

(** What a reader sees of a written header: the block count is the settled one
    and the extra bytes are zero-padded to whole blocks. *)
Definition normalise (h : Header) : Header :=
  MkHeader (hTimestamp h) (hTxnID h) (hVersion h) (hFlags h) (extraBlocks h)
    (hExtra h ++ replicate (Z.to_nat (extraBlocks h * 8 - zlen (hExtra h))) Byte.x00).

Lemma zlen_layout ts txn ver flags res n extra :
  zlen res = 4 → zlen (layout ts txn ver flags res n extra) = 24 + zlen extra.
Proof. intros Hr. unfold layout. autorewrite with golen. lia. Qed.

(** ** Reading a value whose first 24 bytes are given cell by cell *)

Section cells.
Context (a0 a1 a2 a3 a4 a5 a6 a7 b0 b1 b2 b3 b4 b5 b6 b7 : byte).
Context (ver fl r0 r1 r2 r3 n0 n1 : byte) (r : bytes).

Let hd : bytes :=
  [a0;a1;a2;a3;a4;a5;a6;a7;b0;b1;b2;b3;b4;b5;b6;b7;ver;fl;r0;r1;r2;r3;n0;n1].
Let n : Z := be_get [n0; n1].

Local Lemma hd_slice lo hi :
  0 <= lo → lo <= hi → hi <= 24 →
  gslice (hd ++ r) lo hi = Ok (take (Z.to_nat (hi - lo)) (drop (Z.to_nat lo) hd)).
Proof.
  intros. rewrite gslice_ok; [|done..|].
  2: { autorewrite with golen. pose proof (zlen_nonneg r). change (zlen hd) with 24. lia. }
  f_equal. rewrite drop_app_le by (change (length hd) with 24%nat; lia).
  apply take_app_le. rewrite length_drop. change (length hd) with 24%nat. lia.
Qed.

Local Lemma n_range : 0 <= n < 65536.
Proof. exact (be_get_range [n0; n1]). Qed.

Local Lemma tail_slice : n * 8 <= zlen r →
  gslice (hd ++ r) 24 (24 + 8 * n) = Ok (take (Z.to_nat (n * 8)) r) ∧
  gfrom (hd ++ r) (24 + 8 * n) = Ok (drop (Z.to_nat (n * 8)) r).
Proof.
  intros Hr. pose proof n_range.
  assert (Hlen : zlen (hd ++ r) = 24 + zlen r)
    by (autorewrite with golen; change (zlen hd) with 24; lia).
  unfold gfrom. rewrite !gslice_ok by lia. split; f_equal.
  - replace (24 + 8 * n - 24) with (n * 8) by lia. done.
  - replace (Z.to_nat (24 + 8 * n)) with (length hd + Z.to_nat (n * 8))%nat
      by (change (length hd) with 24%nat; lia).
    rewrite drop_app_add. apply take_ge. rewrite length_drop. unfold zlen in *. lia.
Qed.

Lemma parse_cells :
  Parse (hd ++ r) =
    if negb (bz ver =? 0) then Err ErrVersion
    else if zlen r <? n * 8 then Err ErrTooShort
    else Ok (MkHeader (be_get [a0;a1;a2;a3;a4;a5;a6;a7]) (be_get [b0;b1;b2;b3;b4;b5;b6;b7])
               (bz ver) (bz fl) n (take (Z.to_nat (n * 8)) r), drop (Z.to_nat (n * 8)) r).
Proof.
  pose proof n_range as Hn. pose proof (zlen_nonneg r) as Hr0.
  unfold Parse, getNumExtra, MinHeaderSize, VersionOffset, FlagsOffset,
    NumExtraOffsetHigh, BlockSize.
  assert (Hlen : zlen (hd ++ r) = 24 + zlen r)
    by (autorewrite with golen; change (zlen hd) with 24; lia).
  rewrite Hlen. destruct (Z.ltb_spec (24 + zlen r) 24); [lia|].
  change (gindex (hd ++ r) 16) with (@Ok byte ver). rewrite bind_ok.
  destruct (negb (bz ver =? 0)); [done|].
  rewrite !hd_slice by lia. rewrite !bind_ok.
  change (be_get (take (Z.to_nat (22 + 2 - 22)) (drop (Z.to_nat 22) hd))) with n.
  change (gindex (hd ++ r) 17) with (@Ok byte fl).
  destruct (Z.ltb_spec (zlen r) (n * 8)).
  - destruct (Z.ltb_spec 0 n); [|lia].
    destruct (Z.ltb_spec (24 + zlen r) (24 + 8 * n)); [done|lia].
  - destruct tail_slice as [E1 E2]; [done|].
    destruct (Z.ltb_spec 0 n).
    + destruct (Z.ltb_spec (24 + zlen r) (24 + 8 * n)); [lia|].
      rewrite E1, !bind_ok, E2, bind_ok. done.
    + assert (n = 0) as E0 by lia. rewrite E0 in *.
      rewrite andb_false_l, !bind_ok.
      change (24 + 0) with (24 + 8 * 0). rewrite E2, bind_ok. done.
Qed.

Lemma skip_cells :
  Skip (hd ++ r) =
    if negb (bz ver =? 0) then Err ErrVersion
    else if zlen r <? n * 8 then Err ErrTooShort
    else Ok (drop (Z.to_nat (n * 8)) r).
Proof.
  pose proof n_range as Hn. pose proof (zlen_nonneg r) as Hr0.
  unfold Skip, getNumExtra, MinHeaderSize, VersionOffset, NumExtraOffsetHigh, BlockSize.
  assert (Hlen : zlen (hd ++ r) = 24 + zlen r)
    by (autorewrite with golen; change (zlen hd) with 24; lia).
  rewrite Hlen. destruct (Z.ltb_spec (24 + zlen r) 24); [lia|].
  change (gindex (hd ++ r) 16) with (@Ok byte ver). rewrite bind_ok.
  destruct (negb (bz ver =? 0)); [done|].
  rewrite hd_slice by lia. rewrite !bind_ok.
  change (be_get (take (Z.to_nat (22 + 2 - 22)) (drop (Z.to_nat 22) hd))) with n.
  destruct (Z.ltb_spec (zlen r) (n * 8)).
  - destruct (Z.ltb_spec 0 n); [|lia].
    destruct (Z.ltb_spec (24 + zlen r) (24 + 8 * n)); [done|lia].
  - destruct tail_slice as [E1 E2]; [done|].
    destruct (Z.ltb_spec 0 n).
    + destruct (Z.ltb_spec (24 + zlen r) (24 + 8 * n)); [lia|]. by rewrite E2.
    + assert (n = 0) as E0 by lia. rewrite E0 in *.
      rewrite andb_false_l. change (24 + 0) with (24 + 8 * 0). by rewrite E2.
Qed.
End cells.

(** Every value of at least 24 bytes has that shape. *)
Lemma cells_of (val : bytes) :
  24 <= zlen val →
  ∃ a0 a1 a2 a3 a4 a5 a6 a7 b0 b1 b2 b3 b4 b5 b6 b7 ver fl r0 r1 r2 r3 n0 n1 r,
    val = [a0;a1;a2;a3;a4;a5;a6;a7;b0;b1;b2;b3;b4;b5;b6;b7;ver;fl;r0;r1;r2;r3;n0;n1] ++ r.
Proof.
  intros H.
  do 24 (destruct val as [|? val]; [autorewrite with golen in H; lia|];
         rewrite zlen_cons in H).
  do 25 eexists. reflexivity.
Qed.

(** Case analysis of a value: too short, or given by cells. *)
Ltac header_cases val :=
  let H := fresh "Hlen" in
  destruct (Z.ltb_spec (zlen val) 24) as [H|H];
  [|destruct (cells_of val H)
      as (?a0&?a1&?a2&?a3&?a4&?a5&?a6&?a7&?b0&?b1&?b2&?b3&?b4&?b5&?b6&?b7&
          ?ver&?fl&?r0&?r1&?r2&?r3&?n0&?n1&?r&->)].

Lemma parse_short (val : bytes) : zlen val < 24 → Parse val = Err ErrTooShort.
Proof.
  intros H. unfold Parse, MinHeaderSize. by rewrite (proj2 (Z.ltb_lt _ _) H).
Qed.

Lemma skip_short (val : bytes) : zlen val < 24 → Skip val = Err ErrTooShort.
Proof.
  intros H. unfold Skip, MinHeaderSize. by rewrite (proj2 (Z.ltb_lt _ _) H).
Qed.

(** Parsing a laid-out header gives back its fields and the value after it. *)
Lemma parse_layout ts txn flags n res extra v :
  0 <= ts < 2 ^ 64 → 0 <= txn < 2 ^ 64 → 0 <= flags < 256 → 0 <= n < 65536 →
  zlen res = 4 → zlen extra = n * 8 →
  Parse (layout ts txn 0 flags res n extra ++ v) = Ok (MkHeader ts txn 0 flags n extra, v).
Proof.
  intros Hts Htxn Hfl Hn Hres Hextra.
  destruct res as [|r0 [|r1 [|r2 [|r3 [|]]]]];
    rewrite ?zlen_cons, ?zlen_nil in Hres; try lia;
    [|match type of Hres with context [zlen ?l] => pose proof (zlen_nonneg l) end; lia].
  unfold layout. rewrite <- !app_assoc.
  etrans; [exact (parse_cells _ _ _ _ _ _ _ _ _ _ _ _ _ _ _ _ (zb 0) (zb flags) r0 r1 r2 r3
                    _ _ (extra ++ v))|].
  rewrite !bz_zb. change (negb (0 mod 256 =? 0)) with false. cbv iota.
  match goal with |- context [zlen (extra ++ v) <? be_get ?w * 8] =>
    replace (be_get w) with n
      by (change w with (be_put 2 n); rewrite be_get_put; symmetry; apply Z.mod_small; simpl; lia)
  end.
  pose proof (zlen_nonneg v). autorewrite with golen.
  destruct (Z.ltb_spec (zlen extra + zlen v) (n * 8)); [lia|].
  replace (Z.to_nat (n * 8)) with (length extra) by (unfold zlen in *; lia).
  rewrite take_app_length, drop_app_length.
  repeat f_equal.
  - exact (be_get_put_small 8 ts ltac:(simpl; lia)).
  - exact (be_get_put_small 8 txn ltac:(simpl; lia)).
  - apply Z.mod_small. lia.
Qed.

(** Parsing never panics: it returns a header or one of its two errors. *)
Lemma parse_total (val : bytes) :
  (∃ h v, Parse val = Ok (h, v)) ∨ Parse val = Err ErrTooShort ∨ Parse val = Err ErrVersion.
Proof.
  header_cases val; [rewrite parse_short; auto|].
  rewrite parse_cells. repeat case_if; eauto.
Qed.

(** The fields of a parsed header are in range and the value is a suffix. *)
Lemma parse_range (val : bytes) h v :
  Parse val = Ok (h, v) →
  0 <= hTimestamp h < 2 ^ 64 ∧ 0 <= hFlags h < 256 ∧ zlen v <= zlen val.
Proof.
  header_cases val; [by rewrite parse_short|].
  rewrite parse_cells. repeat case_if; try discriminate. intros [= <- <-]. simpl hTimestamp. simpl hFlags.
  pose proof (be_get_range [a0;a1;a2;a3;a4;a5;a6;a7]). pose proof (bz_range fl).
  split_and!; try (simpl length in *; lia).
  autorewrite with golen. unfold zlen. rewrite length_drop. lia.
Qed.

(** ** Writing *)

(** One fixed-offset store into the first 24 bytes. *)
Ltac store24 :=
  rewrite splice_app by (autorewrite with golen; vm_compute; discriminate);
  match goal with
  | |- context [splice ?p ?off ?s] =>
      let r := eval vm_compute in (Z.to_nat off) in
      change (splice p off s) with
        (@Ok bytes (take r p ++ s ++ drop (r + length s) p))
  end.

(** The fixed part of a header, written into any 24-byte prefix whose reserved
    bytes are [r0..r3]. *)
Lemma extraBuffer_ok h :
  0 <= hNumExtra h → 0 <= extraBlocks h < 65536 → zlen (hExtra h) < 2 ^ 62 →
  extraBuffer h (replicate 24 Byte.x00) PreAllocSize =
    Ok (replicate 24 Byte.x00 ++ hExtra (normalise h)).
Proof.
  intros H0 Hn Hx. unfold extraBuffer, normalise, PreAllocSize, MinHeaderSize. simpl hExtra.
  pose proof (zlen_nonneg (hExtra h)) as Hx0.
  assert (Hfit : zlen (hExtra h) <= extraBlocks h * 8).
  { unfold extraBlocks, BlockSize.
    destruct ((0 <? hNumExtra h) || (0 <? zlen (hExtra h))) eqn:E; bool_arith; [|lia].
    destruct (int64 (hNumExtra h * 8) <? zlen (hExtra h)) eqn:E'; bool_arith.
    - pose proof (Z.div_mod (zlen (hExtra h)) 8).
      pose proof (Z.mod_pos_bound (zlen (hExtra h)) 8). case_if; lia.
    - destruct (Z.ltb_spec (hNumExtra h) (2 ^ 59)); [|lia].
      rewrite int64_small in E' by lia. done. }
  destruct (_ && _) eqn:E.
  - bool_arith. unfold BlockSize.
    rewrite (int64_small (extraBlocks h * 8)), int64_small by lia.
    destruct (Z.ltb_spec (24 + extraBlocks h * 8) 0); [lia|].
    assert (Hbuf : (if 64 <? 24 + extraBlocks h * 8
                    then replicate (Z.to_nat (24 + extraBlocks h * 8)) Byte.x00
                    else replicate 24 Byte.x00 ++
                      replicate (Z.to_nat (24 + extraBlocks h * 8 -
                                           zlen (replicate 24 Byte.x00))) Byte.x00)
                   = replicate 24 Byte.x00 ++ replicate (Z.to_nat (extraBlocks h * 8)) Byte.x00).
    { destruct (64 <? _); rewrite <- ?replicate_add; autorewrite with golen; f_equal; lia. }
    rewrite Hbuf. pose proof (splice_tail (replicate 24 Byte.x00) (hExtra h) Byte.x00
      (Z.to_nat (extraBlocks h * 8))) as Hs.
    change (zlen (replicate 24 Byte.x00)) with 24 in Hs.
    rewrite Hs by (unfold zlen in *; lia).
    rewrite <- app_assoc. do 3 f_equal. unfold zlen in *. f_equal. lia.
  - apply andb_false_iff in E as [E|E]; bool_arith.
    + assert (zlen (hExtra h) = 0) as Hz by lia.
      assert (hNumExtra h = 0) as Hz' by lia.
      unfold extraBlocks. rewrite Hz, Hz'. simpl.
      destruct (hExtra h); [done|]. rewrite zlen_cons in Hz.
      pose proof (zlen_nonneg l). lia.
    + assert (extraBlocks h = 0) as -> by lia.
      destruct (hExtra h); [done|]. rewrite zlen_cons in Hfit.
      pose proof (zlen_nonneg l). lia.
Qed.

Lemma Bytes_layout h :
  0 <= hNumExtra h → 0 <= extraBlocks h < 65536 → zlen (hExtra h) < 2 ^ 62 →
  Bytes h = Ok (layout (hTimestamp h) (hTxnID h) (hVersion h) (hFlags h)
                  (replicate 4 Byte.x00) (extraBlocks h) (hExtra (normalise h))).
Proof.
  intros H0 Hn Hx. unfold Bytes, doBytes. change (Z.to_nat MinHeaderSize) with 24%nat.
  rewrite extraBuffer_ok by done. rewrite bind_ok.
  unfold uint16. rewrite (Z.mod_small (extraBlocks h)) by lia.
  generalize (hExtra (normalise h)) as x. intros x.
  do 5 (store24; rewrite ?bind_ok; cbn [fmap outcome_fmap]; rewrite ?bind_ok).
  reflexivity.
Qed.

Lemma PutBasic_layout b ts txnid flags :
  24 <= zlen b →
  PutBasic b ts txnid flags =
    Ok (layout ts txnid 0 flags (replicate 4 Byte.x00) 0 [] ++ drop 24 b).
Proof.
  intros Hb. destruct (cells_of b Hb)
      as (a0&a1&a2&a3&a4&a5&a6&a7&b0&b1&b2&b3&b4&b5&b6&b7&ver&fl&r0&r1&r2&r3&n0&n1&r&->).
  unfold PutBasic, MinHeaderSize.
  rewrite (proj2 (Z.ltb_ge _ _) Hb).
  do 10 (store24; rewrite ?bind_ok; cbn [fmap outcome_fmap]; rewrite ?bind_ok).
  reflexivity.
Qed.

Lemma zlen_normalise h :
  0 <= hNumExtra h → 0 <= extraBlocks h < 65536 → zlen (hExtra h) < 2 ^ 62 →
  zlen (hExtra (normalise h)) = extraBlocks h * 8.
Proof.
  intros H0 Hn Hx. unfold normalise. simpl hExtra. autorewrite with golen.
  pose proof (zlen_nonneg (hExtra h)).
  enough (zlen (hExtra h) <= extraBlocks h * 8) by lia.
  unfold extraBlocks, BlockSize.
  destruct ((0 <? hNumExtra h) || (0 <? zlen (hExtra h))) eqn:E; bool_arith; [|lia].
  destruct (int64 (hNumExtra h * 8) <? zlen (hExtra h)) eqn:E'; bool_arith.
  - pose proof (Z.div_mod (zlen (hExtra h)) 8).
    pose proof (Z.mod_pos_bound (zlen (hExtra h)) 8). case_if; lia.
  - destruct (Z.ltb_spec (hNumExtra h) (2 ^ 59)); [|lia].
    rewrite int64_small in E' by lia. done.
Qed.

(** A basic header followed by a value reads back as that header and value. *)
Lemma parse_PutBasic b ts txnid flags v :
  zlen b = 24 → 0 <= ts < 2 ^ 64 → 0 <= txnid < 2 ^ 64 → 0 <= flags < 256 →
  ∃ b', PutBasic b ts txnid flags = Ok b' ∧ zlen b' = 24 ∧
        Parse (b' ++ v) = Ok (MkHeader ts txnid 0 flags 0 [], v).
Proof.
  intros Hb Hts Htxn Hfl. rewrite PutBasic_layout by lia.
  eexists. split; [done|].
  rewrite drop_ge by (unfold zlen in Hb; lia). rewrite app_nil_r.
  split; [by rewrite zlen_layout|]. by apply parse_layout.
Qed.

(** ** Properties *)

(** C32: serialising an in-range header and parsing it in front of any value
    gives back the header (block count settled, extra bytes padded) and the
    value. *)
Theorem header_roundtrip h v :
  header_ok h →
  ∃ b, Bytes h = Ok b ∧ Parse (b ++ v) = Ok (normalise h, v).
Proof.
  intros (Hts & Htxn & Hv & Hfl & H0 & Hn & Hx).
  eexists. rewrite Bytes_layout by done. split; [done|].
  rewrite Hv. unfold normalise. rewrite Hv.
  apply parse_layout; try done. by apply zlen_normalise.
Qed.

Lemma header_roundtrip_witness :
  let h := MkHeader 1700000000000000000 42 0 1 0 (str "abc") in
  header_ok h ∧
  ∃ b, Bytes h = Ok b ∧ Parse (b ++ str "value") = Ok (normalise h, str "value").
Proof.
  split; [vm_compute; intuition discriminate|].
  apply (header_roundtrip _ (str "value")). vm_compute. intuition discriminate.
Defined.

(** A successful parse determines the bytes it read, up to the four
    reserved bytes: the value is the layout of the returned fields followed by
    the returned rest. *)
Lemma parse_inverse val h v :
  Parse val = Ok (h, v) →
  ∃ res, zlen res = 4 ∧
    val = layout (hTimestamp h) (hTxnID h) (hVersion h) (hFlags h) res
            (hNumExtra h) (hExtra h) ++ v ∧
    header_ok h ∧ zlen (hExtra h) = hNumExtra h * 8.
Proof.
  header_cases val; [by rewrite parse_short|].
  rewrite parse_cells. repeat case_if; try discriminate. intros [= <- <-].
  pose proof (be_get_range [n0; n1]) as Hn. simpl in Hn.
  assert (Hx : zlen (take (Z.to_nat (be_get [n0; n1] * 8)) r) = be_get [n0; n1] * 8).
  { unfold zlen in *. rewrite length_take. lia. }
  exists [r0; r1; r2; r3]. split; [done|]. split; [|split; [|done]].
  - unfold layout. simpl hTimestamp; simpl hTxnID; simpl hVersion; simpl hFlags;
      simpl hNumExtra; simpl hExtra.
    rewrite !be_put_get, !zb_bz by done. rewrite <- !app_assoc. simpl.
    by rewrite take_drop.
  - unfold header_ok. simpl.
    pose proof (be_get_range [a0;a1;a2;a3;a4;a5;a6;a7]).
    pose proof (be_get_range [b0;b1;b2;b3;b4;b5;b6;b7]).
    pose proof (bz_range fl). simpl in *.
    assert (extraBlocks (MkHeader (be_get [a0;a1;a2;a3;a4;a5;a6;a7])
              (be_get [b0;b1;b2;b3;b4;b5;b6;b7]) (bz ver) (bz fl) (be_get [n0; n1])
              (take (Z.to_nat (be_get [n0; n1] * 8)) r)) = be_get [n0; n1]) as ->.
    { unfold extraBlocks. simpl. rewrite Hx. unfold BlockSize.
      rewrite int64_small by lia. case_if; [|done].
      destruct (Z.ltb_spec (be_get [n0; n1] * 8) (be_get [n0; n1] * 8)); [lia|done]. }
    repeat split; lia.
Qed.

(** C33: every value is one of three kinds.  It is too short for the fixed part
    of the header, or for the extra blocks a header of version zero announces at
    offset 22; it has a version other than zero; or [Parse] returns a header
    whose fields are in the range of their Go types, whose extra bytes are as
    long as it says, and which is laid out, up to the four reserved bytes, in
    front of the returned value. *)
Theorem parse_typed val :
  (Parse val = Err ErrTooShort ∧
     (zlen val < 24 ∨
      24 <= zlen val < 24 + 8 * be_get (take 2 (drop 22 val)) ∧ val !! 16%nat = Some Byte.x00)) ∨
  (24 <= zlen val ∧ val !! 16%nat ≠ Some Byte.x00 ∧ Parse val = Err ErrVersion) ∨
  ∃ h v res, Parse val = Ok (h, v) ∧ header_ok h ∧
    zlen (hExtra h) = hNumExtra h * 8 ∧ zlen res = 4 ∧
    val = layout (hTimestamp h) (hTxnID h) (hVersion h) (hFlags h) res
            (hNumExtra h) (hExtra h) ++ v.
Proof.
  destruct (parse_total val) as [(h & v & E)|[E|E]]; [|left; split; [done|]|right; left].
  - right. right. destruct (parse_inverse val h v E) as (res & ? & ? & ? & ?). by exists h, v, res.
  - revert E. header_cases val; [by left|]. rewrite parse_cells. intros E. right.
    case_if_in E; [done|]. case_if_in E; [|done]. bool_arith. split.
    + change (take 2 (drop 22 _)) with [n0; n1]. rewrite zlen_app in *.
      change (zlen [_;_;_;_;_;_;_;_;_;_;_;_;_;_;_;_;_;_;_;_;_;_;_;_]) with 24 in *. lia.
    + cbn. f_equal. apply bz_inj. done.
  - revert E. header_cases val; [by rewrite parse_short|]. rewrite parse_cells. intros E.
    split; [done|]. split; [|done]. simpl. intros [= ->]. simpl in E. by repeat case_if_in E.
Qed.

(** C34: [Skip] agrees with [Parse] on every input, errors included: it returns
    the application value [Parse] returns, or the error [Parse] returns. *)
Theorem skip_is_parse val : Skip val = snd <$> Parse val.
Proof.
  header_cases val; [by rewrite parse_short, skip_short|].
  rewrite parse_cells, skip_cells. by repeat case_if.
Qed.
