(* ===== verification/Proto.v ===== *)
(** * Protobuf primitives: the csproto interface and snapshot/utils.go

    The snapshot format is a protobuf message written and read with the varint
    and tag primitives of github.com/CrowdStrike/csproto.  That package is not
    part of the repository, so it is the class [CSProto] here, with the
    documented behaviour the code relies on as [CSProtoLaws].  [RefProto] is the
    base-128 encoding of the protobuf specification; it discharges the laws.
    The checked helpers of snapshot/utils.go are built on the class. *)

From S2P Require Import Prelude.

(** Wire types of the protobuf encoding. *)
Definition WireTypeVarint : Z := 0.
Definition WireTypeFixed64 : Z := 1.
Definition WireTypeLengthDelimited : Z := 2.
Definition WireTypeFixed32 : Z := 5.

(** The encoders return the bytes they store at the start of their destination
    and [DecodeVarint] a value with the number of bytes it consumed. *)
Class CSProto : Type := {
  EncodeVarint : Z → bytes;
  SizeOfVarint : Z → Z;
  EncodeTag : Z → Z → bytes;
  DecodeVarint : bytes → outcome (Z * Z);
}.

Class CSProtoLaws (P : CSProto) : Prop := {
  decode_encode v r :
    0 <= v < 2 ^ 64 → DecodeVarint (EncodeVarint v ++ r) = Ok (v, zlen (EncodeVarint v));
  encode_length v : 0 <= v < 2 ^ 64 → 1 <= zlen (EncodeVarint v) <= 10;
  encode_small v : 0 <= v < 128 → zlen (EncodeVarint v) = 1;
  size_of_varint v : 0 <= v < 2 ^ 64 → SizeOfVarint v = zlen (EncodeVarint v);
  encode_tag tag wt :
    1 <= tag < 2 ^ 29 → 0 <= wt < 8 → EncodeTag tag wt = EncodeVarint (tag * 8 + wt);
  decode_bounds data v n :
    DecodeVarint data = Ok (v, n) → 0 <= v < 2 ^ 64 ∧ 1 <= n <= zlen data;
  decode_no_panic data :
    DecodeVarint data ≠ Panic ∧ DecodeVarint data ≠ Hang;
}.

(** ** The reference encoding *)

Fixpoint varint_put (fuel : nat) (v : Z) : bytes :=
  match fuel with
  | O => [zb v]
  | S f => if v <? 128 then [zb v] else zb (v mod 128 + 128) :: varint_put f (v / 128)
  end.

(** [varint_get i data] reads the bytes from position [i] of the varint on:
    at most ten of them, with a value that fits 64 bits. *)
Fixpoint varint_get (fuel : nat) (data : bytes) : outcome (Z * Z) :=
  match fuel with
  | O => Err (EMsg "invalid varint data")
  | S f =>
      match data with
      | [] => Err ErrUnexpectedEOF
      | b :: r =>
          if bz b <? 128 then Ok (bz b, 1)
          else '(v, n) ← varint_get f r; Ok (bz b - 128 + 128 * v, 1 + n)
      end
  end.

Definition RefProto : CSProto := {|
  EncodeVarint := varint_put 9;
  SizeOfVarint v := zlen (varint_put 9 v);
  EncodeTag tag wt := varint_put 9 (tag * 8 + wt);
  DecodeVarint data :=
    '(v, n) ← varint_get 10 data;
    if v <? 2 ^ 64 then Ok (v, n) else Err (EMsg "invalid varint data");
|}.

Lemma varint_put_length fuel v :
  1 <= zlen (varint_put fuel v) <= 1 + Z.of_nat fuel.
Proof.
  revert v. induction fuel as [|f IH]; intros v; simpl; [done|].
  case_if; autorewrite with golen; [lia|]. specialize (IH (v / 128)). lia.
Qed.

Lemma varint_get_put fuel v r :
  0 <= v < 128 ^ (1 + Z.of_nat fuel) →
  varint_get (S fuel) (varint_put fuel v ++ r) = Ok (v, zlen (varint_put fuel v)).
Proof.
  revert v. induction fuel as [|f IH]; intros v Hv.
  - simpl. rewrite bz_zb, Z.mod_small by (simpl in Hv; lia).
    destruct (Z.ltb_spec v 128); [done|simpl in Hv; lia].
  - simpl varint_put. destruct (Z.ltb_spec v 128) as [H|H].
    + simpl. rewrite bz_zb, Z.mod_small by lia. by rewrite (proj2 (Z.ltb_lt _ _) H).
    + pose proof (Z.mod_pos_bound v 128 ltac:(lia)) as Hm.
      pose proof (Z.div_mod v 128 ltac:(lia)) as Hd.
      change (varint_get (S (S f)) ((zb (v mod 128 + 128) :: varint_put f (v / 128)) ++ r))
        with (if bz (zb (v mod 128 + 128)) <? 128 then Ok (bz (zb (v mod 128 + 128)), 1)
              else '(u, n) ← varint_get (S f) (varint_put f (v / 128) ++ r);
                   Ok (bz (zb (v mod 128 + 128)) - 128 + 128 * u, 1 + n)).
      rewrite bz_zb, (Z.mod_small (v mod 128 + 128)) by lia.
      destruct (Z.ltb_spec (v mod 128 + 128) 128); [lia|].
      rewrite IH.
      2: { split; [apply Z.div_pos; lia|]. apply Z.div_lt_upper_bound; [lia|].
           replace (1 + Z.of_nat (S f)) with (Z.succ (1 + Z.of_nat f)) in Hv by lia.
           rewrite Z.pow_succ_r in Hv by lia. lia. }
      rewrite bind_ok. autorewrite with golen. f_equal. f_equal. lia.
Qed.

Lemma varint_get_bounds fuel data v n :
  varint_get fuel data = Ok (v, n) → 0 <= v ∧ 1 <= n <= zlen data.
Proof.
  revert data v n. induction fuel as [|f IH]; intros [|b data] v n; simpl; try done.
  pose proof (bz_range b). case_if.
  - intros [= <- <-]. autorewrite with golen. pose proof (zlen_nonneg data). lia.
  - destruct (varint_get f data) as [[u k]| | |] eqn:E; try done.
    intros [= <- <-]. apply IH in E. autorewrite with golen. lia.
Qed.

Lemma varint_get_no_panic fuel data :
  varint_get fuel data ≠ Panic ∧ varint_get fuel data ≠ Hang.
Proof.
  revert data. induction fuel as [|f IH]; intros [|b data]; simpl; try done.
  case_if; [done|]. specialize (IH data).
  destruct (varint_get f data) as [[]| | |]; naive_solver.
Qed.

Lemma varint_put_small f v : 0 <= v < 128 → varint_put f v = [zb v].
Proof. intros. destruct f; simpl; [done|]. by rewrite (proj2 (Z.ltb_lt v 128)) by lia. Qed.

#[local] Arguments varint_put : simpl never.
#[local] Arguments varint_get : simpl never.

Lemma RefProto_laws : CSProtoLaws RefProto.
Proof.
  split; simpl; intros.
  - change (varint_get 10) with (varint_get (S 9)).
    rewrite varint_get_put by (simpl; lia). rewrite bind_ok.
    by rewrite (proj2 (Z.ltb_lt v (2 ^ 64))) by lia.
  - apply (varint_put_length 9).
  - by rewrite varint_put_small.
  - done.
  - done.
  - destruct (varint_get 10 data) as [[u k]| | |] eqn:E; try done.
    rewrite bind_ok in H. case_if_in H; [|done]. injection H as <- <-.
    apply varint_get_bounds in E. lia.
  - pose proof (varint_get_no_panic 10 data).
    destruct (varint_get 10 data) as [[]| | |]; try naive_solver.
    rewrite bind_ok. by case_if.
Qed.

(** ** snapshot/utils.go *)

Section utils.
Context `{CSProto}.

Definition expectWT (tag got exp : Z) : outcome unit :=
  if negb (got =? exp) then Err (ErrUnexpectedWireType tag got exp) else Ok tt.

(** [skipTag] returns how many bytes the payload of a field takes.  The length
    of a length-delimited field is converted to [int] before the bound check. *)
Definition skipTag (data : bytes) (wireType : Z) : outcome Z :=
  skip ← (if wireType =? WireTypeVarint then
            '(_, n) ← DecodeVarint data; Ok n
          else if wireType =? WireTypeLengthDelimited then
            '(size, n) ← DecodeVarint data; Ok (int64 (int64 size + n))
          else if wireType =? WireTypeFixed32 then Ok 4
          else if wireType =? WireTypeFixed64 then Ok 8
          else Err (EMsg "unsupported wire type"));
  if zlen data <? skip then Err ErrUnexpectedEOF else Ok skip.
End utils.

Lemma expectWT_same tag wt : expectWT tag wt wt = Ok tt.
Proof. unfold expectWT. by rewrite Z.eqb_refl. Qed.

(** ** Reference encodings of fields *)

Section fields.
Context `{P : CSProto}.

Definition ld_field (tag : Z) (s : bytes) : bytes :=
  EncodeTag tag WireTypeLengthDelimited ++ EncodeVarint (zlen s) ++ s.

Definition varint_field (tag v : Z) : bytes :=
  EncodeTag tag WireTypeVarint ++ EncodeVarint v.

Definition fixed64_field (tag v : Z) : bytes :=
  EncodeTag tag WireTypeFixed64 ++ le_put 8 v.

Lemma ld_field_app t s q :
  ld_field t s ++ q = EncodeTag t WireTypeLengthDelimited ++ EncodeVarint (zlen s) ++ s ++ q.
Proof. unfold ld_field. by rewrite <- !app_assoc. Qed.

Lemma varint_field_app t v q :
  varint_field t v ++ q = EncodeTag t WireTypeVarint ++ EncodeVarint v ++ q.
Proof. unfold varint_field. by rewrite <- app_assoc. Qed.

Context `{!CSProtoLaws P}.

(** The tag of a decoded field and the rest of the message. *)
Lemma decode_tag tag wt r :
  1 <= tag < 2 ^ 29 → 0 <= wt < 8 →
  ∃ n, n = zlen (EncodeTag tag wt) ∧ 1 <= n <= 10 ∧
    DecodeVarint (EncodeTag tag wt ++ r) = Ok (tag * 8 + wt, n).
Proof.
  intros Ht Hw. exists (zlen (EncodeTag tag wt)). split; [done|].
  rewrite encode_tag by done. split; [apply encode_length; lia|].
  apply decode_encode. lia.
Qed.

Lemma tag_shiftr tag wt : 0 <= wt < 8 → Z.shiftr (tag * 8 + wt) 3 = tag.
Proof.
  intros. rewrite Z.shiftr_div_pow2 by lia. change (2 ^ 3) with 8.
  rewrite Z.div_add_l by lia. rewrite Z.div_small by lia. lia.
Qed.

Lemma tag_land tag wt : 0 <= wt < 8 → Z.land (tag * 8 + wt) 7 = wt.
Proof.
  intros. change 7 with (Z.ones 3). rewrite Z.land_ones by lia. change (2 ^ 3) with 8.
  rewrite Z.add_comm, Z.mod_add by lia. by apply Z.mod_small.
Qed.

(** Tags below 16 take one byte. *)
Lemma encode_tag_1 tag wt :
  1 <= tag < 16 → 0 <= wt < 8 → zlen (EncodeTag tag wt) = 1.
Proof. intros. rewrite encode_tag by lia. apply encode_small. lia. Qed.

(** A skip never jumps back when the length it reads is a valid [int]. *)
Lemma skipTag_forward data wt n :
  skipTag data wt = Ok n →
  (wt = WireTypeLengthDelimited →
   ∀ size k, DecodeVarint data = Ok (size, k) → size < 2 ^ 63 - 10 ∧ k <= 10) →
  0 < n <= zlen data.
Proof.
  unfold skipTag. intros E Hld.
  repeat case_if_in E.
  - destruct (DecodeVarint data) as [[v k]| | |] eqn:D; try done.
    rewrite !bind_ok in E. case_if_in E; [done|]. injection E as <-.
    apply decode_bounds in D. lia.
  - destruct (DecodeVarint data) as [[v k]| | |] eqn:D; try done.
    destruct (Hld ltac:(done) v k eq_refl) as [? ?].
    apply decode_bounds in D.
    rewrite !bind_ok in E. rewrite (int64_small v), int64_small in E by lia.
    case_if_in E; [done|]. injection E as <-. lia.
  - rewrite bind_ok in E. case_if_in E; [done|]. injection E as <-. lia.
  - rewrite bind_ok in E. case_if_in E; [done|]. injection E as <-. lia.
  - done.
Qed.
End fields.
