(* ===== verification/Kv.v ===== *)
(** * Snapshot entries (snapshot/kv.go, snapshot/flags.go)

    A [KV] is one key-value entry of a DBI dump: a protobuf message with four
    optional fields.  [Unmarshal] is the hand-written reader; [kv_msg] is the
    message [DBI.Append] writes, and the two are inverse. *)

From S2P Require Import Prelude Header Proto.

Definition FieldKVKey : Z := 1.
Definition FieldKVValue : Z := 2.
Definition FieldKVTimestampNano : Z := 3.
Definition FieldKVFlags : Z := 4.

Record KV : Type := MkKV {
  kvKey : bytes;
  kvValue : bytes;
  kvTimestampNano : Z;
  kvFlags : Z;
}.

#[export] Instance KV_eq_dec : EqDecision KV.
Proof. solve_decision. Defined.

Definition emptyKV : KV := MkKV [] [] 0 0.

(** [MaskedFlags]: [header.Flags(kv.Flags).Masked()]; the conversion to
    [uint8] drops the upper bits. *)
Definition MaskedFlags (kv : KV) : Flags := Masked (kvFlags kv mod 256).

Section kv.
Context `{P : CSProto}.

(** One round of the loop of [KV.Unmarshal]: read a tag at [offset], then the
    field behind it; the result is the new offset and the updated entry. *)
Definition unmarshalField (data : bytes) (offset : Z) (kv : KV) : outcome (Z * KV) :=
  let dataSize := zlen data in
  d ← gfrom data offset;
  '(v, n) ← DecodeVarint d;
  let offset := offset + n in
  let tag := Z.shiftr v 3 in
  let wireType := Z.land v 7 in
  if (tag =? FieldKVKey) || (tag =? FieldKVValue) then
    _ ← expectWT tag wireType WireTypeLengthDelimited;
    d ← gfrom data offset;
    '(v, n) ← DecodeVarint d;
    let size := int64 v in
    let offset := offset + n in
    if dataSize - offset <? size
    then Err (EMsg "remaining data to short for indicated size")
    else
      b ← gslice data offset (offset + size);
      let offset := offset + size in
      Ok (offset, if tag =? FieldKVKey
                  then MkKV b (kvValue kv) (kvTimestampNano kv) (kvFlags kv)
                  else MkKV (kvKey kv) b (kvTimestampNano kv) (kvFlags kv))
  else if tag =? FieldKVFlags then
    _ ← expectWT tag wireType WireTypeVarint;
    d ← gfrom data offset;
    '(v, n) ← DecodeVarint d;
    Ok (offset + n, MkKV (kvKey kv) (kvValue kv) (kvTimestampNano kv) (uint32 v))
  else if tag =? FieldKVTimestampNano then
    _ ← expectWT tag wireType WireTypeFixed64;
    if dataSize - offset <? 8
    then Err (EMsg "remaining data to short for fixed64")
    else
      b ← gslice data offset (offset + 8);
      Ok (offset + 8, MkKV (kvKey kv) (kvValue kv) (le_get b) (kvFlags kv))
  else
    d ← gfrom data offset;
    n ← skipTag d wireType;
    Ok (offset + n, kv).

(** The loop ends when the offset reaches the end of the data.  The offset is
    the only thing that steers it, so a run that visits more offsets than the
    data has returns to one of them and never ends. *)
Fixpoint unmarshalLoop (fuel : nat) (data : bytes) (offset : Z) (kv : KV) : outcome KV :=
  match fuel with
  | O => Hang
  | S fuel =>
      '(offset, kv) ← unmarshalField data offset kv;
      if offset =? zlen data then Ok kv else unmarshalLoop fuel data offset kv
  end.

Definition Unmarshal (data : bytes) : outcome KV :=
  unmarshalLoop (S (length data)) data 0 emptyKV.

(** ** The message of an entry *)

Definition kv_key_part (kv : KV) : bytes :=
  if 0 <? zlen (kvKey kv) then ld_field FieldKVKey (kvKey kv) else [].
Definition kv_value_part (kv : KV) : bytes :=
  if 0 <? zlen (kvValue kv) then ld_field FieldKVValue (kvValue kv) else [].
Definition kv_flags_part (kv : KV) : bytes :=
  if 0 <? kvFlags kv then varint_field FieldKVFlags (kvFlags kv) else [].
Definition kv_ts_part (kv : KV) : bytes :=
  if 0 <? kvTimestampNano kv
  then fixed64_field FieldKVTimestampNano (kvTimestampNano kv) else [].

Definition kv_msg (kv : KV) : bytes :=
  kv_key_part kv ++ kv_value_part kv ++ kv_flags_part kv ++ kv_ts_part kv.

(** The fields fit their Go types and the slices are addressable. *)
Definition kv_ok (kv : KV) : Prop :=
  zlen (kvKey kv) < 2 ^ 60 ∧ zlen (kvValue kv) < 2 ^ 60 ∧
  0 <= kvTimestampNano kv < 2 ^ 64 ∧ 0 <= kvFlags kv < 2 ^ 32.

Context `{!CSProtoLaws P}.

Lemma zlen_tag t wt : 1 <= t < 16 → 0 <= wt < 8 → zlen (EncodeTag t wt) = 1.
Proof. apply encode_tag_1. Qed.

Lemma zlen_ld_field t s :
  1 <= t < 16 → zlen (ld_field t s) = 1 + zlen (EncodeVarint (zlen s)) + zlen s.
Proof.
  intros. unfold ld_field. autorewrite with golen.
  rewrite zlen_tag by (unfold WireTypeLengthDelimited; lia). lia.
Qed.

Lemma zlen_varint_field t v :
  1 <= t < 16 → zlen (varint_field t v) = 1 + zlen (EncodeVarint v).
Proof.
  intros. unfold varint_field. autorewrite with golen.
  rewrite zlen_tag by (unfold WireTypeVarint; lia). lia.
Qed.

Lemma zlen_fixed64_field t v : 1 <= t < 16 → zlen (fixed64_field t v) = 9.
Proof.
  intros. unfold fixed64_field. autorewrite with golen.
  rewrite zlen_tag by (unfold WireTypeFixed64; lia). lia.
Qed.
End kv.

(** Read the tag in front of the data of the goal. *)
Ltac read_tag :=
  match goal with
  | |- context [DecodeVarint (EncodeTag ?t ?w ++ ?r)] =>
      let n := fresh "n" in let Hn := fresh "Hn" in let Hb := fresh "Hb" in
      let E := fresh "E" in
      destruct (decode_tag t w r) as (n & Hn & Hb & E);
      [try (vm_compute; intuition discriminate)..|];
      rewrite E; clear E; rewrite ?bind_ok; cbv beta;
      rewrite ?(tag_shiftr t w), ?(tag_land t w)
        by (vm_compute; intuition discriminate); subst n
  end.

(** Decide comparisons between literals. *)
Ltac lit_cases :=
  repeat match goal with
  | |- context [?a =? ?b] =>
      let r := eval vm_compute in (a =? b) in
      lazymatch r with
      | true => change (a =? b) with true
      | false => change (a =? b) with false
      end
  end;
  cbn [orb andb negb].

Section unmarshal.
Context `{P : CSProto} `{!CSProtoLaws P}.

Section fields.
Context (p q : bytes) (kv : KV).

Lemma field_ld t s :
  (t = FieldKVKey ∨ t = FieldKVValue) → zlen s < 2 ^ 60 →
  unmarshalField (p ++ ld_field t s ++ q) (zlen p) kv =
    Ok (zlen (p ++ ld_field t s),
        if t =? FieldKVKey then MkKV s (kvValue kv) (kvTimestampNano kv) (kvFlags kv)
        else MkKV (kvKey kv) s (kvTimestampNano kv) (kvFlags kv)).
Proof.
  intros Ht Hs. pose proof (zlen_nonneg s).
  assert (1 <= t < 16) as Ht' by (unfold FieldKVKey, FieldKVValue in Ht; lia).
  unfold unmarshalField. rewrite gfrom_app, bind_ok.
  unfold ld_field. rewrite <- !app_assoc.
  set (T := EncodeTag t WireTypeLengthDelimited).
  set (L := EncodeVarint (zlen s)).
  destruct (decode_tag t WireTypeLengthDelimited (L ++ s ++ q)) as (n & Hn & Hb & E);
    [lia|done|]. fold T in E, Hn. rewrite E, bind_ok. cbv beta iota zeta.
  rewrite (tag_shiftr t), (tag_land t) by done.
  replace ((t =? FieldKVKey) || (t =? FieldKVValue)) with true
    by (destruct Ht as [-> | ->]; done).
  rewrite expectWT_same, bind_ok.
  assert (Eg : gfrom (p ++ T ++ L ++ s ++ q) (zlen p + n) = Ok (L ++ s ++ q)).
  { rewrite Hn, <- zlen_app, app_assoc. apply gfrom_app. }
  assert (Ed : DecodeVarint (L ++ s ++ q) = Ok (zlen s, zlen L))
    by (apply decode_encode; lia).
  rewrite Eg, bind_ok, Ed, bind_ok. cbv beta iota zeta. rewrite int64_small by lia.
  assert (El : zlen (p ++ T ++ L ++ s ++ q) = zlen p + n + zlen L + zlen s + zlen q).
  { autorewrite with golen. lia. }
  rewrite El. pose proof (zlen_nonneg q).
  destruct (Z.ltb_spec (zlen p + n + zlen L + zlen s + zlen q - (zlen p + n + zlen L)) (zlen s));
    [lia|].
  assert (Es : gslice (p ++ T ++ L ++ s ++ q) (zlen p + n + zlen L)
                 (zlen p + n + zlen L + zlen s) = Ok s).
  { rewrite Hn, <- !zlen_app. rewrite (app_assoc p), (app_assoc (p ++ T)).
    rewrite (zlen_app _ s). apply gslice_mid. }
  rewrite Es, bind_ok. f_equal. f_equal. autorewrite with golen. lia.
Qed.

Lemma field_flags v :
  0 <= v < 2 ^ 32 →
  unmarshalField (p ++ varint_field FieldKVFlags v ++ q) (zlen p) kv =
    Ok (zlen (p ++ varint_field FieldKVFlags v),
        MkKV (kvKey kv) (kvValue kv) (kvTimestampNano kv) v).
Proof.
  intros Hv. unfold unmarshalField. rewrite gfrom_app, bind_ok.
  unfold varint_field. rewrite <- !app_assoc. read_tag. cbv beta iota zeta. lit_cases.
  rewrite expectWT_same, bind_ok, <- zlen_app.
  rewrite (app_assoc p), gfrom_app, bind_ok, decode_encode, bind_ok by lia.
  cbv beta iota. rewrite uint32_small by done. by rewrite app_assoc, (zlen_app _ (EncodeVarint v)).
Qed.

Lemma field_ts v :
  0 <= v < 2 ^ 64 →
  unmarshalField (p ++ fixed64_field FieldKVTimestampNano v ++ q) (zlen p) kv =
    Ok (zlen (p ++ fixed64_field FieldKVTimestampNano v),
        MkKV (kvKey kv) (kvValue kv) v (kvFlags kv)).
Proof.
  intros Hv. unfold unmarshalField. rewrite gfrom_app, bind_ok.
  unfold fixed64_field. rewrite <- !app_assoc. read_tag. cbv beta iota zeta. lit_cases.
  rewrite expectWT_same, bind_ok, <- zlen_app.
  pose proof (zlen_nonneg q). pose proof (zlen_nonneg p).
  set (T := EncodeTag FieldKVTimestampNano WireTypeFixed64) in *.
  rewrite (app_assoc p). rewrite (zlen_app (p ++ T)). autorewrite with golen.
  destruct (Z.ltb_spec (zlen p + zlen T + (Z.of_nat 8 + zlen q) - (zlen p + zlen T)) 8); [lia|].
  assert (E : gslice ((p ++ T) ++ le_put 8 v ++ q) (zlen p + zlen T) (zlen p + zlen T + 8)
              = Ok (le_put 8 v)).
  { rewrite <- zlen_app.
    replace (zlen (p ++ T) + 8) with (zlen (p ++ T) + zlen (le_put 8 v))
      by (rewrite zlen_le_put; lia).
    apply gslice_mid. }
  rewrite E, bind_ok, le_get_put_small by (simpl; lia).
  f_equal. f_equal. lia.
Qed.
End fields.

(** Runs of the loop that only move forward. *)
Inductive reach (data : bytes) : Z → KV → Z → KV → Prop :=
  | reach_refl o kv : reach data o kv o kv
  | reach_step o kv o1 kv1 o2 kv2 :
      unmarshalField data o kv = Ok (o1, kv1) → o < o1 →
      reach data o1 kv1 o2 kv2 → reach data o kv o2 kv2.

Lemma reach_trans data o1 k1 o2 k2 o3 k3 :
  reach data o1 k1 o2 k2 → reach data o2 k2 o3 k3 → reach data o1 k1 o3 k3.
Proof. induction 1; eauto using reach. Qed.

Lemma reach_one data o kv o1 kv1 :
  unmarshalField data o kv = Ok (o1, kv1) → o < o1 → reach data o kv o1 kv1.
Proof. eauto using reach. Qed.

Lemma reach_mono data o kv o' kv' : reach data o kv o' kv' → o <= o' ∧ (o = o' → kv = kv').
Proof. induction 1 as [|??????? Hlt _ [? ?]]; [done|]. split; [lia|]. intros. lia. Qed.

Lemma reach_loop fuel data o kv kv' :
  reach data o kv (zlen data) kv' → o < zlen data → zlen data - o < Z.of_nat fuel →
  unmarshalLoop fuel data o kv = Ok kv'.
Proof.
  intros H. remember (zlen data) as L eqn:HL. revert fuel.
  induction H as [|o kv o1 kv1 o2 kv2 E Hlt H IH]; intros fuel Ho Hf; [lia|].
  destruct fuel as [|fuel]; [lia|]. simpl. rewrite E, bind_ok. cbv beta iota.
  rewrite <- HL. destruct (reach_mono _ _ _ _ _ H) as [Hle Heq].
  destruct (Z.eqb_spec o1 o2) as [->|Hne].
  - rewrite (Heq eq_refl). done.
  - apply IH; [done|lia..].
Qed.

Section parts.
Context (p q : bytes) (kv0 kv : KV).
Hypothesis (Hok : kv_ok kv).

Lemma reach_key :
  kvKey kv0 = [] →
  reach (p ++ kv_key_part kv ++ q) (zlen p) kv0 (zlen (p ++ kv_key_part kv))
    (MkKV (kvKey kv) (kvValue kv0) (kvTimestampNano kv0) (kvFlags kv0)).
Proof.
  intros H0. destruct Hok as (Hk & _). unfold kv_key_part. case_if.
  - apply reach_one; [apply (field_ld p q kv0 FieldKVKey); auto|].
    rewrite zlen_app, zlen_ld_field by done. pose proof (encode_length (zlen (kvKey kv))). lia.
  - rewrite app_nil_r. simpl.
    destruct kv0, (kvKey kv) as [|b l]; simpl in *; subst; [apply reach_refl|].
    rewrite zlen_cons in *. pose proof (zlen_nonneg l). lia.
Qed.

Lemma reach_value :
  kvValue kv0 = [] →
  reach (p ++ kv_value_part kv ++ q) (zlen p) kv0 (zlen (p ++ kv_value_part kv))
    (MkKV (kvKey kv0) (kvValue kv) (kvTimestampNano kv0) (kvFlags kv0)).
Proof.
  intros H0. destruct Hok as (_ & Hk & _). unfold kv_value_part. case_if.
  - apply reach_one; [apply (field_ld p q kv0 FieldKVValue); auto|].
    rewrite zlen_app, zlen_ld_field by done. pose proof (encode_length (zlen (kvValue kv))). lia.
  - rewrite app_nil_r. simpl.
    destruct kv0, (kvValue kv) as [|b l]; simpl in *; subst; [apply reach_refl|].
    rewrite zlen_cons in *. pose proof (zlen_nonneg l). lia.
Qed.

Lemma reach_flags :
  kvFlags kv0 = 0 →
  reach (p ++ kv_flags_part kv ++ q) (zlen p) kv0 (zlen (p ++ kv_flags_part kv))
    (MkKV (kvKey kv0) (kvValue kv0) (kvTimestampNano kv0) (kvFlags kv)).
Proof.
  intros H0. destruct Hok as (_ & _ & _ & Hk). unfold kv_flags_part. case_if.
  - apply reach_one; [by apply field_flags|].
    rewrite zlen_app, zlen_varint_field by done. pose proof (encode_length (kvFlags kv)). lia.
  - rewrite app_nil_r. simpl. replace (kvFlags kv) with (kvFlags kv0) by lia.
    destruct kv0. apply reach_refl.
Qed.

Lemma reach_ts :
  kvTimestampNano kv0 = 0 →
  reach (p ++ kv_ts_part kv ++ q) (zlen p) kv0 (zlen (p ++ kv_ts_part kv))
    (MkKV (kvKey kv0) (kvValue kv0) (kvTimestampNano kv) (kvFlags kv0)).
Proof.
  intros H0. destruct Hok as (_ & _ & Hk & _). unfold kv_ts_part. case_if.
  - apply reach_one; [by apply field_ts|].
    rewrite zlen_app, zlen_fixed64_field by done. lia.
  - rewrite app_nil_r. simpl. replace (kvTimestampNano kv) with (kvTimestampNano kv0) by lia.
    destruct kv0. apply reach_refl.
Qed.
End parts.

(** An entry that is not completely empty reads back as it was written. *)
Lemma unmarshal_kv_msg kv :
  kv_ok kv → kv_msg kv ≠ [] → Unmarshal (kv_msg kv) = Ok kv.
Proof.
  intros Hok Hne. unfold Unmarshal. apply reach_loop.
  - unfold kv_msg.
    set (k := kv_key_part kv). set (v := kv_value_part kv).
    set (f := kv_flags_part kv). set (t := kv_ts_part kv).
    pose proof (reach_key [] (v ++ f ++ t) emptyKV kv Hok eq_refl) as R1.
    pose proof (reach_value k (f ++ t) (MkKV (kvKey kv) [] 0 0) kv Hok eq_refl) as R2.
    pose proof (reach_flags (k ++ v) t (MkKV (kvKey kv) (kvValue kv) 0 0) kv Hok eq_refl) as R3.
    pose proof (reach_ts (k ++ v ++ f) []
      (MkKV (kvKey kv) (kvValue kv) 0 (kvFlags kv)) kv Hok eq_refl) as R4.
    simpl in R1, R2, R3, R4. fold k in R1. fold v in R2. fold f in R3. fold t in R4.
    rewrite app_nil_r in R4. rewrite <- !app_assoc in R3, R4.
    eapply reach_trans; [exact R1|]. eapply reach_trans; [exact R2|].
    eapply reach_trans; [exact R3|]. destruct kv. exact R4.
  - destruct (kv_msg kv) as [|b l]; [done|]. rewrite zlen_cons. pose proof (zlen_nonneg l). lia.
  - unfold zlen. lia.
Qed.
End unmarshal.
