(* ===== verification/Dbi.v ===== *)
(** * DBI dumps (snapshot/dbi.go)

    A [DBI] is the dump of one LMDB database: a protobuf message that is built
    by appending entries to a byte buffer and read by a cursor over the same
    buffer.  The record keeps the Go struct's fields, with the capacity of the
    buffer so that the growth policy of [Append] is visible. *)

From S2P Require Import Prelude Header Proto Kv.

Definition FieldDBIName : Z := 1.
Definition FieldDBIEntries : Z := 2.
Definition FieldDBIFlags : Z := 3.
Definition FieldDBITransform : Z := 4.
Definition TagSize0To15 : Z := 1.
Definition MB : Z := 1024 * 1024.

Record DBI : Type := MkDBI {
  dName : bytes;
  dFlags : Z;
  dTransform : bytes;
  dData : bytes;
  dCap : Z;
  dDirty : bool;
  dFlushed : bool;
  dCur : Z;
  dNumWritten : Z;
}.

#[export] Instance DBI_eq_dec : EqDecision DBI.
Proof. solve_decision. Defined.

Definition NewDBI : DBI := MkDBI [] 0 [] [] 0 false false 0 0.

Definition NewDBISize (size : Z) : outcome DBI :=
  if size <? 0 then Panic else Ok (MkDBI [] 0 [] [] size false false 0 0).

(** Field updates. *)
Definition dSetData (d : DBI) (data : bytes) (capa : Z) : DBI :=
  MkDBI (dName d) (dFlags d) (dTransform d) data capa
    (dDirty d) (dFlushed d) (dCur d) (dNumWritten d).
Definition dSetState (d : DBI) (dirty flushed : bool) : DBI :=
  MkDBI (dName d) (dFlags d) (dTransform d) (dData d) (dCap d)
    dirty flushed (dCur d) (dNumWritten d).
Definition dSetCur (d : DBI) (cur : Z) : DBI :=
  MkDBI (dName d) (dFlags d) (dTransform d) (dData d) (dCap d)
    (dDirty d) (dFlushed d) cur (dNumWritten d).

Definition SetName (d : DBI) (s : bytes) : outcome DBI :=
  if dFlushed d then Panic
  else Ok (MkDBI s (dFlags d) (dTransform d) (dData d) (dCap d)
             true (dFlushed d) (dCur d) (dNumWritten d)).

Definition SetFlags (d : DBI) (v : Z) : outcome DBI :=
  if dFlushed d then Panic
  else Ok (MkDBI (dName d) v (dTransform d) (dData d) (dCap d)
             true (dFlushed d) (dCur d) (dNumWritten d)).

Definition SetTransform (d : DBI) (s : bytes) : outcome DBI :=
  if dFlushed d then Panic
  else Ok (MkDBI (dName d) (dFlags d) s (dData d) (dCap d)
             true (dFlushed d) (dCur d) (dNumWritten d)).

Definition ResetCursor (d : DBI) : DBI := dSetCur d 0.

(** A write position in a buffer: [offset += Encode...(b[offset:], ...)] stores
    all its bytes or panics, [offset += copy(b[offset:], s)] truncates. *)
Definition wbuf : Type := bytes * Z.

Definition w_enc (w : wbuf) (s : bytes) : outcome wbuf :=
  b ← splice w.1 w.2 s; Ok (b, w.2 + zlen s).

Definition w_copy (w : wbuf) (s : bytes) : outcome wbuf :=
  '(b, n) ← copy_at w.1 w.2 s; Ok (b, w.2 + n).

Section dbi.
Context `{P : CSProto}.

Definition w_ld (w : wbuf) (tag : Z) (s : bytes) : outcome wbuf :=
  w ← w_enc w (EncodeTag tag WireTypeLengthDelimited);
  w ← w_enc w (EncodeVarint (uint64 (zlen s)));
  w_copy w s.

Definition w_varint (w : wbuf) (tag v : Z) : outcome wbuf :=
  w ← w_enc w (EncodeTag tag WireTypeVarint);
  w_enc w (EncodeVarint v).

Definition doFlushFields (d : DBI) : outcome DBI :=
  let w := (replicate 1000 Byte.x00, 0) in
  w ← (if 0 <? zlen (dName d) then w_ld w FieldDBIName (dName d) else Ok w);
  w ← (if 0 <? dFlags d then w_varint w FieldDBIFlags (dFlags d) else Ok w);
  w ← (if 0 <? zlen (dTransform d)
       then w_ld w FieldDBITransform (dTransform d) else Ok w);
  s ← gslice w.1 0 w.2;
  Ok (dSetData d (dData d ++ s) (Z.max (dCap d) (zlen (dData d ++ s)))).

Definition flushFields (d : DBI) : outcome DBI :=
  let d := dSetState d (dDirty d) true in
  if negb (dDirty d) then Ok d else doFlushFields (dSetState d false true).

Definition Marshal (d : DBI) : outcome (DBI * bytes) :=
  d ← flushFields d; Ok (d, dData d).

Definition Size (d : DBI) : outcome (DBI * Z) :=
  d ← flushFields d; Ok (d, zlen (dData d)).

(** ** Append *)

Definition kvMsgSize (kv : KV) : Z :=
  (if 0 <? zlen (kvKey kv)
   then TagSize0To15 + SizeOfVarint (uint64 (zlen (kvKey kv))) + zlen (kvKey kv) else 0) +
  (if 0 <? zlen (kvValue kv)
   then TagSize0To15 + SizeOfVarint (uint64 (zlen (kvValue kv))) + zlen (kvValue kv) else 0) +
  (if 0 <? kvFlags kv then TagSize0To15 + SizeOfVarint (kvFlags kv) else 0) +
  (if 0 <? kvTimestampNano kv then TagSize0To15 + 8 else 0).

(** The new capacity when the buffer has to grow. *)
Definition growCap (oldSize outerSize : Z) : Z :=
  let newSize := 2 * oldSize in
  let newSize := if oldSize <? 5 * MB then 10 * MB else newSize in
  let newSize := if 1024 * MB <? oldSize then oldSize + 512 * MB else newSize in
  newSize + outerSize.

(** The tag and size of an entry, then the fields of the [KV]. *)
Definition writeEntry (w : wbuf) (msgSize : Z) (kv : KV) : outcome wbuf :=
  w ← w_enc w (EncodeTag FieldDBIEntries WireTypeLengthDelimited);
  w ← w_enc w (EncodeVarint (uint64 msgSize));
  w ← (if 0 <? zlen (kvKey kv) then w_ld w FieldKVKey (kvKey kv) else Ok w);
  w ← (if 0 <? zlen (kvValue kv) then w_ld w FieldKVValue (kvValue kv) else Ok w);
  w ← (if 0 <? kvFlags kv then w_varint w FieldKVFlags (kvFlags kv) else Ok w);
  if 0 <? kvTimestampNano kv then
    w ← w_enc w (EncodeTag FieldKVTimestampNano WireTypeFixed64);
    w_enc w (le_put 8 (kvTimestampNano kv))
  else Ok w.

Definition Append (d : DBI) (kv : KV) : outcome DBI :=
  d ← (if dDirty d then flushFields d else Ok d);
  let d := MkDBI (dName d) (dFlags d) (dTransform d) (dData d) (dCap d)
             (dDirty d) (dFlushed d) (dCur d) (dNumWritten d + 1) in
  let offset := zlen (dData d) in
  let msgSize := kvMsgSize kv in
  if msgSize =? 0 then Ok d
  else
    let outerSize := TagSize0To15 + SizeOfVarint (uint64 msgSize) + msgSize in
    let capa := if dCap d - zlen (dData d) <? outerSize
                then growCap (dCap d) outerSize else dCap d in
    if capa <? zlen (dData d) + outerSize then Panic
    else
      let w := (dData d ++ replicate (Z.to_nat outerSize) Byte.x00, offset) in
      w ← writeEntry w msgSize kv;
      Ok (dSetData d w.1 capa).

(** ** Next *)

(** Skip fields until the tag of an entry has been read; the result is the
    offset behind the tag and the wire type. *)
Fixpoint findEntry (fuel : nat) (data : bytes) (offset : Z) : outcome (Z * Z) :=
  match fuel with
  | O => Hang
  | S fuel =>
      if zlen data <=? offset then Err EOF
      else
        d ← gfrom data offset;
        '(v, n) ← DecodeVarint d;
        let offset := offset + n in
        let tag := Z.shiftr v 3 in
        let wireType := Z.land v 7 in
        if negb (tag =? FieldDBIEntries) then
          d ← gfrom data offset;
          n ← skipTag d wireType;
          findEntry fuel data (offset + n)
        else Ok (offset, wireType)
  end.

(** The bytes of the entry whose tag was just read, and the offset behind it. *)
Definition entryBytes (data : bytes) (offset wireType : Z) : outcome (bytes * Z) :=
  _ ← expectWT FieldDBIEntries wireType WireTypeLengthDelimited;
  r ← gfrom data offset;
  '(v, n) ← DecodeVarint r;
  let size := int64 v in
  let offset := offset + n in
  if zlen data - offset <? size
  then Err (EMsg "remaining data to short for indicated size")
  else
    b ← gslice data offset (offset + size);
    Ok (b, offset + size).

(** The cursor moves only once the bounds of an entry are known. *)
Definition Next (d : DBI) : DBI * outcome KV :=
  let data := dData d in
  match
    '(offset, wireType) ← findEntry (S (length data)) data (dCur d);
    entryBytes data offset wireType
  with
  | Ok (b, cur) => (dSetCur d cur, Unmarshal b)
  | Err e => (d, Err e)
  | Panic => (d, Panic)
  | Hang => (d, Hang)
  end.

(** ** indexData *)

Definition indexField (data : bytes) (offset : Z) (d : DBI) : outcome (Z * DBI) :=
  r ← gfrom data offset;
  '(v, n) ← DecodeVarint r;
  let offset := offset + n in
  let tag := Z.shiftr v 3 in
  let wireType := Z.land v 7 in
  if (tag =? FieldDBIEntries) || (tag =? FieldDBIName) || (tag =? FieldDBITransform) then
    _ ← expectWT tag wireType WireTypeLengthDelimited;
    r ← gfrom data offset;
    '(v, n) ← DecodeVarint r;
    let size := int64 v in
    let offset := offset + n in
    if zlen data - offset <? size
    then Err (EMsg "remaining data to short for indicated size")
    else
      b ← gslice data offset (offset + size);
      let d := if tag =? FieldDBIEntries then d
               else if tag =? FieldDBIName
               then MkDBI b (dFlags d) (dTransform d) (dData d) (dCap d)
                      (dDirty d) (dFlushed d) (dCur d) (dNumWritten d)
               else MkDBI (dName d) (dFlags d) b (dData d) (dCap d)
                      (dDirty d) (dFlushed d) (dCur d) (dNumWritten d) in
      Ok (offset + size, d)
  else if tag =? FieldDBIFlags then
    _ ← expectWT tag wireType WireTypeVarint;
    r ← gfrom data offset;
    '(v, n) ← DecodeVarint r;
    Ok (offset + n,
        MkDBI (dName d) v (dTransform d) (dData d) (dCap d)
          (dDirty d) (dFlushed d) (dCur d) (dNumWritten d))
  else
    n ← skipTag data wireType;
    Ok (offset + n, d).

Fixpoint indexLoop (fuel : nat) (data : bytes) (offset : Z) (d : DBI) : outcome DBI :=
  match fuel with
  | O => Hang
  | S fuel =>
      if zlen data <=? offset then Ok d
      else
        '(offset, d) ← indexField data offset d;
        indexLoop fuel data offset d
  end.

Definition indexData (d : DBI) : outcome DBI :=
  indexLoop (S (length (dData d))) (dData d) 0 (dSetState d (dDirty d) true).

Definition NewDBIFromData (data : bytes) : outcome DBI :=
  indexData (MkDBI [] 0 [] data (zlen data) false true 0 0).

(** ** Map and AsInefficientKVList *)

(** The mapping function is a closure over mutable state, passed explicitly. *)
Fixpoint mapLoop {S} (fuel : nat) (f : S → KV → S * outcome KV) (s : S)
    (d newDBI : DBI) : outcome DBI :=
  match fuel with
  | O => Hang
  | S fuel =>
      match Next d with
      | (_, Err e) => if bool_decide (e = EOF) then Ok newDBI else Err e
      | (d, Ok kv) =>
          let '(s, r) := f s kv in
          newKV ← r;
          newDBI ← Append newDBI newKV;
          mapLoop fuel f s d newDBI
      | (_, Panic) => Panic
      | (_, Hang) => Hang
      end
  end.

Definition Map {S} (d : DBI) (transform : bytes) (f : S → KV → S * outcome KV) (s : S)
    : outcome DBI :=
  newDBI ← NewDBISize (zlen (dData d));
  newDBI ← SetName newDBI (dName d);
  newDBI ← SetFlags newDBI (dFlags d);
  newDBI ← SetTransform newDBI transform;
  mapLoop (Datatypes.S (length (dData d))) f s (ResetCursor d) newDBI.

Fixpoint listLoop (fuel : nat) (d : DBI) (kvList : list KV) : outcome (list KV) :=
  match fuel with
  | O => Hang
  | S fuel =>
      match Next d with
      | (_, Err e) => if bool_decide (e = EOF) then Ok kvList else Err e
      | (d, Ok kv) => listLoop fuel d (kvList ++ [kv])
      | (_, Panic) => Panic
      | (_, Hang) => Hang
      end
  end.

Definition AsInefficientKVList (d : DBI) : outcome (list KV) :=
  listLoop (S (length (dData d))) (ResetCursor d) [].
End dbi.

(** [Append] of a list of entries, in order. *)
Definition appendAll `{P : CSProto} (d : DBI) (kvs : list KV) : outcome DBI :=
  foldl (λ d kv, d ← d; Append d kv) (Ok d) kvs.

(** ** Writing into the tail of a zeroed buffer *)

(** A write position with content [p] before it and [n] free bytes after it. *)
Definition wst (p : bytes) (n : nat) : wbuf := (p ++ replicate n Byte.x00, zlen p).

Lemma w_enc_ok p n s :
  zlen s <= Z.of_nat n → w_enc (wst p n) s = Ok (wst (p ++ s) (n - length s)).
Proof.
  intros H. unfold w_enc, wst. simpl fst; simpl snd.
  rewrite splice_tail by (unfold zlen in H; lia). rewrite bind_ok. by rewrite zlen_app.
Qed.

Lemma w_copy_ok p n s :
  zlen s <= Z.of_nat n → w_copy (wst p n) s = Ok (wst (p ++ s) (n - length s)).
Proof.
  intros H. unfold w_copy, wst. simpl fst; simpl snd.
  rewrite copy_at_tail by (unfold zlen in H; lia). rewrite bind_ok. by rewrite zlen_app.
Qed.

(** Lengths of encoded fields. *)
Ltac field_lens :=
  repeat first [rewrite zlen_ld_field by done | rewrite zlen_varint_field by done
               | rewrite zlen_fixed64_field by done];
  autorewrite with golen.

Section append.
Context `{P : CSProto} `{!CSProtoLaws P}.

Lemma w_ld_ok p n t s :
  zlen s < 2 ^ 60 → zlen (ld_field t s) <= Z.of_nat n →
  w_ld (wst p n) t s = Ok (wst (p ++ ld_field t s) (n - length (ld_field t s))).
Proof.
  intros Hs Hn. unfold w_ld, ld_field in *. autorewrite with golen in Hn.
  pose proof (zlen_nonneg s).
  rewrite uint64_small by lia.
  pose proof (zlen_nonneg (EncodeVarint (zlen s))).
  pose proof (zlen_nonneg (EncodeTag t WireTypeLengthDelimited)).
  rewrite w_enc_ok, bind_ok by lia.
  rewrite w_enc_ok, bind_ok by (unfold zlen in *; lia).
  rewrite w_copy_ok by (unfold zlen in *; lia).
  rewrite <- !app_assoc. do 2 f_equal. rewrite !length_app. lia.
Qed.

Lemma w_varint_ok p n t v :
  zlen (varint_field t v) <= Z.of_nat n →
  w_varint (wst p n) t v =
    Ok (wst (p ++ varint_field t v) (n - length (varint_field t v))).
Proof.
  intros Hn. unfold w_varint, varint_field in *. autorewrite with golen in Hn.
  pose proof (zlen_nonneg (EncodeVarint v)).
  rewrite w_enc_ok, bind_ok by lia.
  rewrite w_enc_ok by (unfold zlen in *; lia).
  rewrite <- app_assoc. do 2 f_equal. rewrite length_app. lia.
Qed.

Lemma w_fixed64_ok p n t v :
  zlen (fixed64_field t v) <= Z.of_nat n →
  (w ← w_enc (wst p n) (EncodeTag t WireTypeFixed64); w_enc w (le_put 8 v)) =
    Ok (wst (p ++ fixed64_field t v) (n - length (fixed64_field t v))).
Proof.
  intros Hn. unfold fixed64_field in *. autorewrite with golen in Hn.
  rewrite w_enc_ok, bind_ok by lia.
  rewrite w_enc_ok by (autorewrite with golen; unfold zlen in *; lia).
  rewrite <- app_assoc. do 2 f_equal. rewrite length_app. lia.
Qed.

(** An optional part of a message, written when its condition holds. *)
Lemma w_opt p n (c : bool) (m : wbuf → outcome wbuf) (part : bytes) :
  (c = true → m (wst p n) = Ok (wst (p ++ part) (n - length part))) →
  (c = false → part = []) →
  (if c then m (wst p n) else Ok (wst p n)) = Ok (wst (p ++ part) (n - length part)).
Proof.
  intros H1 H2. destruct c; [by apply H1|].
  rewrite (H2 eq_refl), app_nil_r. simpl. by rewrite Nat.sub_0_r.
Qed.

(** The size [Append] computes is the size of the message. *)
Lemma kvMsgSize_ok kv : kv_ok kv → kvMsgSize kv = zlen (kv_msg kv).
Proof.
  intros (Hk & Hv & Ht & Hf). unfold kvMsgSize, kv_msg. autorewrite with golen.
  unfold kv_key_part, kv_value_part, kv_flags_part, kv_ts_part, TagSize0To15.
  pose proof (zlen_nonneg (kvKey kv)). pose proof (zlen_nonneg (kvValue kv)).
  rewrite !uint64_small by lia.
  rewrite !size_of_varint by lia.
  repeat case_if; field_lens; lia.
Qed.

Lemma kv_msg_bound kv : kv_ok kv → zlen (kv_msg kv) < 2 ^ 62.
Proof.
  intros (Hk & Hv & Ht & Hf). unfold kv_msg. autorewrite with golen.
  unfold kv_key_part, kv_value_part, kv_flags_part, kv_ts_part.
  pose proof (zlen_nonneg (kvKey kv)). pose proof (zlen_nonneg (kvValue kv)).
  pose proof (encode_length (zlen (kvKey kv)) ltac:(lia)).
  pose proof (encode_length (zlen (kvValue kv)) ltac:(lia)).
  pose proof (encode_length (kvFlags kv) ltac:(lia)).
  repeat case_if; field_lens; lia.
Qed.

(** What an appended entry adds to the buffer; an empty entry adds nothing. *)
Definition entry_msg (kv : KV) : bytes :=
  if zlen (kv_msg kv) =? 0 then [] else ld_field FieldDBIEntries (kv_msg kv).

Lemma zlen_entry_msg kv :
  kv_ok kv → zlen (kv_msg kv) ≠ 0 →
  zlen (entry_msg kv) = 1 + SizeOfVarint (zlen (kv_msg kv)) + zlen (kv_msg kv).
Proof.
  intros Hok Hne. unfold entry_msg. rewrite (proj2 (Z.eqb_neq _ _) Hne).
  pose proof (kv_msg_bound kv Hok). pose proof (zlen_nonneg (kv_msg kv)).
  rewrite zlen_ld_field, size_of_varint by (done || lia). done.
Qed.

(** The writes of an entry into the room reserved for it. *)
Lemma append_writes kv p :
  kv_ok kv → zlen (kv_msg kv) ≠ 0 →
  writeEntry (wst p (length (entry_msg kv))) (zlen (kv_msg kv)) kv =
    Ok (wst (p ++ entry_msg kv) 0).
Proof.
  unfold writeEntry.
  intros Hok Hne. pose proof (kv_msg_bound kv Hok). pose proof (zlen_nonneg (kv_msg kv)).
  destruct Hok as (Hk & Hv & Ht & Hf).
  assert (He : entry_msg kv = EncodeTag FieldDBIEntries WireTypeLengthDelimited ++
     EncodeVarint (zlen (kv_msg kv)) ++ kv_key_part kv ++ kv_value_part kv ++
     kv_flags_part kv ++ kv_ts_part kv).
  { unfold entry_msg. by rewrite (proj2 (Z.eqb_neq _ _) Hne). }
  assert (Hl : Z.of_nat (length (entry_msg kv)) =
    zlen (EncodeTag FieldDBIEntries WireTypeLengthDelimited) +
    zlen (EncodeVarint (zlen (kv_msg kv))) + zlen (kv_key_part kv) +
    zlen (kv_value_part kv) + zlen (kv_flags_part kv) + zlen (kv_ts_part kv)).
  { rewrite He. rewrite !length_app. unfold zlen. lia. }
  rewrite uint64_small by lia.
  rewrite w_enc_ok, bind_ok by (unfold zlen in *; lia).
  rewrite w_enc_ok, bind_ok by (unfold zlen in *; lia).
  rewrite (w_opt _ _ _ (λ w, w_ld w FieldKVKey (kvKey kv)) (kv_key_part kv)), bind_ok;
    [|intros c; unfold kv_key_part in *; rewrite c in *; apply w_ld_ok; [done|unfold zlen in *; lia]
     |intros c; unfold kv_key_part; by rewrite c].
  rewrite (w_opt _ _ _ (λ w, w_ld w FieldKVValue (kvValue kv)) (kv_value_part kv)), bind_ok;
    [|intros c; unfold kv_value_part in *; rewrite c in *; apply w_ld_ok; [done|unfold zlen in *; lia]
     |intros c; unfold kv_value_part; by rewrite c].
  rewrite (w_opt _ _ _ (λ w, w_varint w FieldKVFlags (kvFlags kv)) (kv_flags_part kv)), bind_ok;
    [|intros c; unfold kv_flags_part in *; rewrite c in *; apply w_varint_ok; unfold zlen in *; lia
     |intros c; unfold kv_flags_part; by rewrite c].
  rewrite (w_opt _ _ _ (λ w, w ← w_enc w (EncodeTag FieldKVTimestampNano WireTypeFixed64);
                             w_enc w (le_put 8 (kvTimestampNano kv))) (kv_ts_part kv));
    [|intros c; unfold kv_ts_part in *; rewrite c in *; apply w_fixed64_ok; unfold zlen in *; lia
     |intros c; unfold kv_ts_part; by rewrite c].
  f_equal. f_equal; [|unfold zlen in *; lia].
  rewrite He, <- !app_assoc. done.
Qed.

(** ** Flushing the top-level fields *)

Definition dbi_fields (name : bytes) (flags : Z) (transform : bytes) : list bytes :=
  (if 0 <? zlen name then [ld_field FieldDBIName name] else []) ++
  (if 0 <? flags then [varint_field FieldDBIFlags flags] else []) ++
  (if 0 <? zlen transform then [ld_field FieldDBITransform transform] else []).

(** The sizes the fixed 1000-byte buffer of [doFlushFields] is made for. *)
Definition fields_ok (d : DBI) : Prop :=
  zlen (dName d) <= 511 ∧ 0 <= dFlags d < 2 ^ 64 ∧ zlen (dTransform d) <= 50.

Lemma doFlushFields_ok d :
  fields_ok d →
  doFlushFields d =
    let data := dData d ++ concat (dbi_fields (dName d) (dFlags d) (dTransform d)) in
    Ok (dSetData d data (Z.max (dCap d) (zlen data))).
Proof.
  intros (Hn & Hf & Ht). unfold doFlushFields.
  pose proof (zlen_nonneg (dName d)). pose proof (zlen_nonneg (dTransform d)).
  set (pn := if 0 <? zlen (dName d) then ld_field FieldDBIName (dName d) else []).
  set (pf := if 0 <? dFlags d then varint_field FieldDBIFlags (dFlags d) else []).
  set (pt := if 0 <? zlen (dTransform d) then ld_field FieldDBITransform (dTransform d) else []).
  assert (Hc : concat (dbi_fields (dName d) (dFlags d) (dTransform d)) = pn ++ pf ++ pt).
  { unfold dbi_fields, pn, pf, pt. repeat case_if; simpl; by rewrite ?app_nil_r. }
  assert (Hl : zlen pn <= 522 ∧ zlen pf <= 11 ∧ zlen pt <= 61).
  { pose proof (encode_length (zlen (dName d)) ltac:(lia)).
    pose proof (encode_length (zlen (dTransform d)) ltac:(lia)).
    pose proof (encode_length (dFlags d) ltac:(lia)).
    unfold pn, pf, pt. repeat case_if; field_lens; lia. }
  change (replicate 1000 Byte.x00, 0) with (wst [] 1000).
  rewrite (w_opt [] 1000 _ (λ w, w_ld w FieldDBIName (dName d)) pn), bind_ok;
    [|intros c; unfold pn in *; rewrite c in *; apply w_ld_ok; lia
     |intros c; unfold pn; by rewrite c].
  rewrite (w_opt _ _ _ (λ w, w_varint w FieldDBIFlags (dFlags d)) pf), bind_ok;
    [|intros c; unfold pf in *; rewrite c in *; apply w_varint_ok; unfold zlen in *; lia
     |intros c; unfold pf; by rewrite c].
  rewrite (w_opt _ _ _ (λ w, w_ld w FieldDBITransform (dTransform d)) pt), bind_ok;
    [|intros c; unfold pt in *; rewrite c in *; apply w_ld_ok; unfold zlen in *; lia
     |intros c; unfold pt; by rewrite c].
  unfold wst. simpl fst; simpl snd.
  match goal with |- context [gslice (?a ++ ?b) 0 (zlen ?a)] =>
    pose proof (gslice_mid [] a b) as Hg end.
  change (zlen []) with 0 in Hg. rewrite app_nil_l, Z.add_0_l in Hg.
  rewrite Hg, bind_ok, Hc. cbv zeta. by rewrite <- !app_assoc.
Qed.

(** What the next [Append] or [Marshal] writes before anything else. *)
Definition pending (d : DBI) : bytes :=
  if dDirty d then concat (dbi_fields (dName d) (dFlags d) (dTransform d)) else [].

Definition cap_ok (d : DBI) : Prop := zlen (dData d) <= dCap d.

Lemma flushFields_ok d :
  fields_ok d → cap_ok d →
  ∃ d', flushFields d = Ok d' ∧ dData d' = dData d ++ pending d ∧
    dDirty d' = false ∧ dFlushed d' = true ∧ cap_ok d' ∧ fields_ok d' ∧
    dName d' = dName d ∧ dFlags d' = dFlags d ∧ dTransform d' = dTransform d ∧
    dCur d' = dCur d ∧ dNumWritten d' = dNumWritten d.
Proof.
  intros Hf Hc. unfold flushFields, pending. simpl.
  destruct (dDirty d) eqn:E; simpl.
  - rewrite doFlushFields_ok by done. cbv zeta. eexists. split; [done|].
    unfold cap_ok in *. simpl. repeat split; try done; try apply Hf. lia.
  - eexists. split; [done|]. simpl. rewrite app_nil_r. repeat split; try done; apply Hf.
Qed.

Lemma growCap_ok oldSize outerSize : 0 <= oldSize → oldSize + outerSize <= growCap oldSize outerSize.
Proof. intros. unfold growCap, MB. repeat case_if; lia. Qed.

(** [Append] adds the pending fields and the message of the entry, whatever
    the capacity of the buffer. *)
Lemma Append_ok d kv :
  fields_ok d → cap_ok d → kv_ok kv →
  ∃ d', Append d kv = Ok d' ∧ dData d' = dData d ++ pending d ++ entry_msg kv ∧
    dDirty d' = false ∧ cap_ok d' ∧ fields_ok d' ∧
    dName d' = dName d ∧ dFlags d' = dFlags d ∧ dTransform d' = dTransform d ∧
    dCur d' = dCur d ∧ dNumWritten d' = dNumWritten d + 1.
Proof.
  intros Hf Hc Hkv. unfold Append.
  assert (∃ d1, (if dDirty d then flushFields d else Ok d) = Ok d1 ∧
    dData d1 = dData d ++ pending d ∧ dDirty d1 = false ∧ cap_ok d1 ∧ fields_ok d1 ∧
    dName d1 = dName d ∧ dFlags d1 = dFlags d ∧ dTransform d1 = dTransform d ∧
    dCur d1 = dCur d ∧ dNumWritten d1 = dNumWritten d) as (d1 & -> & E1 & E2 & H3 & H4 & H5).
  { destruct (dDirty d) eqn:E.
    - destruct (flushFields_ok d) as (d1 & ? & ? & ? & ? & ? & ? & ?); naive_solver.
    - exists d. unfold pending. rewrite E, app_nil_r. naive_solver. }
  rewrite bind_ok. cbv zeta. simpl.
  rewrite kvMsgSize_ok by done. rewrite (app_assoc (dData d)), <- E1.
  pose proof (kv_msg_bound kv Hkv) as Hb. pose proof (zlen_nonneg (kv_msg kv)).
  destruct (Z.eqb_spec (zlen (kv_msg kv)) 0) as [E0|E0].
  - eexists. split; [done|]. unfold entry_msg. rewrite E0. simpl. rewrite app_nil_r.
    unfold cap_ok, fields_ok in *. simpl. naive_solver lia.
  - unfold TagSize0To15. rewrite (uint64_small (zlen (kv_msg kv))) by lia.
    rewrite <- zlen_entry_msg by done.
    pose proof (zlen_nonneg (dData d1)). unfold cap_ok in H3.
    set (capa := if dCap d1 - zlen (dData d1) <? zlen (entry_msg kv) then _ else _).
    assert (Hcap : zlen (dData d1) + zlen (entry_msg kv) <= capa).
    { unfold capa. case_if; [|lia].
      pose proof (growCap_ok (dCap d1) (zlen (entry_msg kv))). lia. }
    destruct (Z.ltb_spec capa (zlen (dData d1) + zlen (entry_msg kv))); [lia|].
    pose proof (append_writes kv (dData d1) Hkv E0) as Hw.
    replace (Z.to_nat (zlen (entry_msg kv))) with (length (entry_msg kv))
      by (unfold zlen; lia).
    change (dData d1 ++ replicate (length (entry_msg kv)) Byte.x00, zlen (dData d1))
      with (wst (dData d1) (length (entry_msg kv))).
    rewrite Hw, bind_ok. eexists. split; [done|]. simpl. rewrite app_nil_r.
    unfold cap_ok, fields_ok in *. simpl. autorewrite with golen. naive_solver lia.
Qed.

(** Appending a list of entries. *)
Lemma appendAll_ok d kvs :
  fields_ok d → cap_ok d → Forall kv_ok kvs →
  ∃ d', appendAll d kvs = Ok d' ∧
    dData d' ++ pending d' = dData d ++ pending d ++ concat (entry_msg <$> kvs) ∧
    (kvs = [] ∨ dDirty d' = false) ∧ cap_ok d' ∧ fields_ok d' ∧
    dName d' = dName d ∧ dFlags d' = dFlags d ∧ dTransform d' = dTransform d ∧
    dCur d' = dCur d ∧ dNumWritten d' = dNumWritten d + zlen kvs.
Proof.
  intros Hf Hc Hkvs. unfold appendAll. revert d Hf Hc.
  induction Hkvs as [|kv kvs Hkv Hkvs IH]; intros d Hf Hc; simpl.
  - exists d. rewrite app_nil_r. autorewrite with golen. naive_solver lia.
  - destruct (Append_ok d kv Hf Hc Hkv) as (d1 & -> & E1 & E2 & H3 & H4 & H5 & H6 & H7 & H8 & H9).
    destruct (IH d1 H4 H3) as (d2 & E & E3 & E4 & ?). exists d2. split; [done|].
    assert (pending d1 = []) as Hp by (unfold pending; by rewrite E2).
    rewrite Hp in E3. rewrite E3, E1, <- !app_assoc. autorewrite with golen.
    assert (dDirty d2 = false).
    { destruct E4 as [->|]; [|done]. simpl in E. by injection E as <-. }
    destruct H as (?&?&?&?&?&?&?). split; [done|]. split; [by right|].
    split_and!; try done; try congruence. lia.
Qed.

(** ** Reading *)

(** A top-level field that [Next] skips. *)
Inductive skippable : bytes → Prop :=
  | skip_ld t s : (t = FieldDBIName ∨ t = FieldDBITransform) → zlen s < 2 ^ 60 →
      skippable (ld_field t s)
  | skip_varint v : 0 <= v < 2 ^ 64 → skippable (varint_field FieldDBIFlags v).

Lemma skippable_nonempty f : skippable f → 1 <= zlen f.
Proof.
  intros [t s Ht Hs|v Hv].
  - assert (1 <= t < 16) by (unfold FieldDBIName, FieldDBITransform in Ht; lia).
    rewrite zlen_ld_field by done.
    pose proof (zlen_nonneg s). pose proof (encode_length (zlen s) ltac:(lia)). lia.
  - rewrite zlen_varint_field by done. pose proof (encode_length v Hv). lia.
Qed.

Lemma dbi_fields_skippable name flags transform :
  zlen name < 2 ^ 60 → 0 <= flags < 2 ^ 64 → zlen transform < 2 ^ 60 →
  Forall skippable (dbi_fields name flags transform).
Proof.
  intros. unfold dbi_fields. rewrite !Forall_app.
  split_and!; case_if; try constructor; try constructor; auto.
Qed.

Lemma skipTag_ld s q :
  zlen s < 2 ^ 60 →
  skipTag (EncodeVarint (zlen s) ++ s ++ q) WireTypeLengthDelimited =
    Ok (zlen (EncodeVarint (zlen s) ++ s)).
Proof.
  intros Hs. unfold skipTag. lit_cases. pose proof (zlen_nonneg s). pose proof (zlen_nonneg q).
  rewrite decode_encode, !bind_ok by lia.
  pose proof (encode_length (zlen s) ltac:(lia)).
  rewrite (int64_small (zlen s)), int64_small by lia. autorewrite with golen.
  destruct (Z.ltb_spec (zlen (EncodeVarint (zlen s)) + (zlen s + zlen q))
              (zlen s + zlen (EncodeVarint (zlen s)))); [lia|]. f_equal. lia.
Qed.

Lemma skipTag_varint v q :
  0 <= v < 2 ^ 64 →
  skipTag (EncodeVarint v ++ q) WireTypeVarint = Ok (zlen (EncodeVarint v)).
Proof.
  intros Hv. unfold skipTag. lit_cases. rewrite decode_encode, !bind_ok by lia.
  autorewrite with golen. pose proof (zlen_nonneg q).
  destruct (Z.ltb_spec (zlen (EncodeVarint v) + zlen q) (zlen (EncodeVarint v))); [lia|done].
Qed.

Lemma findEntry_skip fuel p f q :
  skippable f → 
  findEntry (S fuel) (p ++ f ++ q) (zlen p) = findEntry fuel (p ++ f ++ q) (zlen (p ++ f)).
Proof.
  intros Hf. pose proof (skippable_nonempty f Hf) as Hne.
  simpl. autorewrite with golen. pose proof (zlen_nonneg q).
  destruct (Z.leb_spec (zlen p + (zlen f + zlen q)) (zlen p)); [lia|].
  rewrite gfrom_app, bind_ok. destruct Hf as [t s Ht Hs|v Hv].
  - assert (1 <= t < 16) by (unfold FieldDBIName, FieldDBITransform in Ht; lia).
    rewrite ld_field_app.
    destruct (decode_tag t WireTypeLengthDelimited (EncodeVarint (zlen s) ++ s ++ q))
      as (n & Hn & Hb & E); [lia|done|].
    rewrite E, bind_ok. cbv beta iota zeta. rewrite (tag_shiftr t), (tag_land t) by done.
    replace (t =? FieldDBIEntries) with false by (destruct Ht as [-> | ->]; done). cbn [negb].
    rewrite Hn, <- zlen_app, (app_assoc p), gfrom_app, bind_ok, skipTag_ld, bind_ok by done.
    f_equal. unfold ld_field. autorewrite with golen. lia.
  - rewrite varint_field_app. read_tag. cbv beta iota zeta. lit_cases.
    rewrite <- zlen_app, (app_assoc p), gfrom_app, bind_ok, skipTag_varint, bind_ok by done.
    f_equal. unfold varint_field. autorewrite with golen. lia.
Qed.

Lemma findEntry_skips fs fuel p q :
  Forall skippable fs →
  findEntry (length fs + fuel) (p ++ concat fs ++ q) (zlen p) =
    findEntry fuel (p ++ concat fs ++ q) (zlen (p ++ concat fs)).
Proof.
  intros H. revert p. induction H as [|f fs Hf Hfs IH]; intros p; simpl concat.
  - by rewrite app_nil_r.
  - simpl length. rewrite <- (app_assoc f).
    change (S (length fs) + fuel)%nat with (S (length fs + fuel)).
    rewrite findEntry_skip by done.
    rewrite (app_assoc p f (concat fs ++ q)), IH. by rewrite <- !app_assoc.
Qed.

Lemma concat_length (l : list bytes) :
  Forall (λ f, 1 <= zlen f) l → (length l <= length (concat l))%nat.
Proof.
  induction 1 as [|f l Hf Hl IH]; simpl; [done|]. rewrite length_app. unfold zlen in Hf. lia.
Qed.

Lemma skippables_length fs : Forall skippable fs → (length fs <= length (concat fs))%nat.
Proof.
  intros H. apply concat_length. eapply Forall_impl; [|exact H]. apply skippable_nonempty.
Qed.

Lemma findEntry_entry k p m q :
  findEntry (S k) (p ++ ld_field FieldDBIEntries m ++ q) (zlen p) =
    Ok (zlen (p ++ EncodeTag FieldDBIEntries WireTypeLengthDelimited), WireTypeLengthDelimited).
Proof.
  rewrite ld_field_app. simpl. autorewrite with golen.
  assert (zlen (EncodeTag FieldDBIEntries WireTypeLengthDelimited) = 1)
    by by apply encode_tag_1.
  pose proof (zlen_nonneg m). pose proof (zlen_nonneg q).
  pose proof (zlen_nonneg (EncodeVarint (zlen m))).
  case_if; [lia|]. rewrite gfrom_app, bind_ok. read_tag.
  cbv beta iota zeta. by lit_cases.
Qed.

Lemma entryBytes_ok p m q :
  zlen m < 2 ^ 62 →
  entryBytes (p ++ ld_field FieldDBIEntries m ++ q)
    (zlen (p ++ EncodeTag FieldDBIEntries WireTypeLengthDelimited)) WireTypeLengthDelimited =
    Ok (m, zlen (p ++ ld_field FieldDBIEntries m)).
Proof.
  intros Hm. unfold entryBytes. rewrite expectWT_same, bind_ok, ld_field_app.
  set (T := EncodeTag FieldDBIEntries WireTypeLengthDelimited).
  pose proof (zlen_nonneg m). pose proof (zlen_nonneg q).
  rewrite (app_assoc p T), gfrom_app, bind_ok, decode_encode, bind_ok by lia.
  cbv beta iota zeta. rewrite int64_small by lia.
  set (L := EncodeVarint (zlen m)).
  rewrite (app_assoc (p ++ T) L), <- zlen_app.
  rewrite (zlen_app ((p ++ T) ++ L)), (zlen_app m).
  case_if; [lia|]. rewrite gslice_mid, bind_ok.
  unfold ld_field. fold T L. rewrite !zlen_app. f_equal. f_equal. lia.
Qed.

(** Reading one entry, with skippable fields in front of it. *)
Lemma Next_entry d p fs kv q :
  dData d = p ++ concat fs ++ ld_field FieldDBIEntries (kv_msg kv) ++ q →
  dCur d = zlen p → Forall skippable fs → kv_ok kv → kv_msg kv ≠ [] →
  Next d = (dSetCur d (zlen ((p ++ concat fs) ++ ld_field FieldDBIEntries (kv_msg kv))), Ok kv).
Proof.
  intros Hd Hcur Hfs Hkv Hne. unfold Next. rewrite Hd, Hcur.
  pose proof (skippables_length fs Hfs) as Hlen.
  set (data := p ++ concat fs ++ _).
  assert (∃ k, S (length data) = (length fs + S k)%nat) as [k ->].
  { exists (length data - length fs)%nat. unfold data. rewrite !length_app. lia. }
  unfold data. rewrite findEntry_skips, (app_assoc p) by done.
  rewrite findEntry_entry, bind_ok, entryBytes_ok by (by apply kv_msg_bound).
  by rewrite unmarshal_kv_msg.
Qed.

(** At the end of the data [Next] reports [io.EOF] and does not move. *)
Lemma Next_eof d p fs :
  dData d = p ++ concat fs → dCur d = zlen p → Forall skippable fs → Next d = (d, Err EOF).
Proof.
  intros Hd Hcur Hfs. unfold Next. rewrite Hd, Hcur.
  pose proof (skippables_length fs Hfs) as Hlen.
  set (data := p ++ concat fs).
  assert (∃ k, S (length data) = (length fs + S k)%nat) as [k ->].
  { exists (length data - length fs)%nat. unfold data. rewrite !length_app. lia. }
  pose proof (findEntry_skips fs (S k) p [] Hfs) as E. rewrite app_nil_r in E.
  unfold data. rewrite E. simpl. by rewrite Z.leb_refl.
Qed.

(** An entry that leaves a trace in the dump. *)
Definition kv_written (kv : KV) : Prop := kv_ok kv ∧ kv_msg kv ≠ [].

(** [remains d kvs]: the entries the cursor of [d] has not passed are [kvs]. *)
Definition remains (d : DBI) (kvs : list KV) : Prop :=
  Forall kv_written kvs ∧
  ∃ p fs, dData d = p ++ concat fs ++ concat (entry_msg <$> kvs) ∧
          dCur d = zlen p ∧ Forall skippable fs.

Lemma entry_msg_written kv :
  kv_written kv → entry_msg kv = ld_field FieldDBIEntries (kv_msg kv).
Proof.
  intros [_ Hne]. unfold entry_msg. destruct (kv_msg kv) as [|b l]; [done|].
  rewrite zlen_cons. pose proof (zlen_nonneg l).
  by destruct (Z.eqb_spec (1 + zlen l) 0); [lia|].
Qed.

Lemma remains_cons d kv kvs :
  remains d (kv :: kvs) →
  ∃ d', Next d = (d', Ok kv) ∧ remains d' kvs ∧ d' = dSetCur d (dCur d').
Proof.
  intros [Hw (p & fs & Hd & Hcur & Hfs)]. apply Forall_cons_1 in Hw as [Hkv Hw].
  simpl in Hd. rewrite (entry_msg_written kv Hkv) in Hd.
  eexists. split; [by eapply Next_entry; [exact Hd|..]; try apply Hkv|].
  split; [|done]. split; [done|].
  exists ((p ++ concat fs) ++ ld_field FieldDBIEntries (kv_msg kv)), [].
  simpl. split_and!; [|done|constructor]. rewrite Hd. by rewrite <- !app_assoc.
Qed.

Lemma remains_nil d : remains d [] → Next d = (d, Err EOF).
Proof.
  intros [_ (p & fs & Hd & Hcur & Hfs)]. simpl in Hd. rewrite app_nil_r in Hd.
  by eapply Next_eof.
Qed.

Lemma remains_length d kvs : remains d kvs → (length kvs <= length (dData d))%nat.
Proof.
  intros [Hw (p & fs & Hd & _)]. rewrite Hd, !length_app.
  enough (length kvs <= length (concat (entry_msg <$> kvs)))%nat by lia.
  rewrite <- (length_fmap entry_msg). apply concat_length.
  rewrite Forall_fmap. eapply Forall_impl; [|exact Hw]. intros kv Hkv. simpl. rewrite entry_msg_written by done.
  destruct Hkv as [Hok _]. pose proof (kv_msg_bound kv Hok).
  pose proof (zlen_nonneg (kv_msg kv)).
  rewrite zlen_ld_field by done.
  assert (1 <= zlen (EncodeVarint (zlen (kv_msg kv))) <= 10) by (apply encode_length; lia). lia.
Qed.

Lemma listLoop_ok fuel d kvs acc :
  remains d kvs → (length kvs < fuel)%nat → listLoop fuel d acc = Ok (acc ++ kvs).
Proof.
  revert fuel d acc. induction kvs as [|kv kvs IH]; intros [|fuel] d acc Hr Hf; simpl in *;
    try lia.
  - rewrite (remains_nil d Hr), app_nil_r. done.
  - destruct (remains_cons d kv kvs Hr) as (d' & -> & Hr' & _).
    rewrite IH by (done || lia). by rewrite <- app_assoc.
Qed.

(** ** Indexing the top-level fields *)

Lemma indexField_ld p q d t s :
  (t = FieldDBIEntries ∨ t = FieldDBIName ∨ t = FieldDBITransform) → zlen s < 2 ^ 62 →
  indexField (p ++ ld_field t s ++ q) (zlen p) d =
    Ok (zlen (p ++ ld_field t s),
        if t =? FieldDBIEntries then d
        else if t =? FieldDBIName
        then MkDBI s (dFlags d) (dTransform d) (dData d) (dCap d)
               (dDirty d) (dFlushed d) (dCur d) (dNumWritten d)
        else MkDBI (dName d) (dFlags d) s (dData d) (dCap d)
               (dDirty d) (dFlushed d) (dCur d) (dNumWritten d)).
Proof.
  intros Ht Hs. pose proof (zlen_nonneg s). pose proof (zlen_nonneg q).
  assert (1 <= t < 16)
    by (unfold FieldDBIEntries, FieldDBIName, FieldDBITransform in Ht; lia).
  unfold indexField. rewrite ld_field_app, gfrom_app, bind_ok.
  set (T := EncodeTag t WireTypeLengthDelimited). set (L := EncodeVarint (zlen s)).
  destruct (decode_tag t WireTypeLengthDelimited (L ++ s ++ q)) as (n & Hn & Hb & E);
    [lia|done|]. fold T in E, Hn. rewrite E, bind_ok. cbv beta iota zeta.
  rewrite (tag_shiftr t), (tag_land t) by done.
  replace ((t =? FieldDBIEntries) || (t =? FieldDBIName) || (t =? FieldDBITransform))
    with true by (destruct Ht as [-> | [-> | ->]]; done).
  rewrite expectWT_same, bind_ok, Hn, <- zlen_app.
  rewrite (app_assoc p T), gfrom_app, bind_ok.
  assert (DecodeVarint (L ++ s ++ q) = Ok (zlen s, zlen L)) as -> by (apply decode_encode; lia).
  rewrite bind_ok. cbv beta iota zeta. rewrite int64_small by lia.
  rewrite (app_assoc (p ++ T) L), <- zlen_app.
  rewrite (zlen_app ((p ++ T) ++ L) (s ++ q)), (zlen_app s).
  match goal with |- context [if ?b then _ else _] => replace b with false by
    (symmetry; apply Z.ltb_ge; lia) end.
  rewrite gslice_mid, bind_ok. unfold ld_field. fold T L.
  f_equal. f_equal. autorewrite with golen. lia.
Qed.

Lemma indexField_flags p q d v :
  0 <= v < 2 ^ 64 →
  indexField (p ++ varint_field FieldDBIFlags v ++ q) (zlen p) d =
    Ok (zlen (p ++ varint_field FieldDBIFlags v),
        MkDBI (dName d) v (dTransform d) (dData d) (dCap d)
          (dDirty d) (dFlushed d) (dCur d) (dNumWritten d)).
Proof.
  intros Hv. unfold indexField. rewrite varint_field_app, gfrom_app, bind_ok. read_tag.
  cbv beta iota zeta. lit_cases.
  rewrite expectWT_same, bind_ok, <- zlen_app, (app_assoc p), gfrom_app, bind_ok.
  rewrite decode_encode, bind_ok by done. unfold varint_field.
  by rewrite app_assoc, (zlen_app _ (EncodeVarint v)).
Qed.

Lemma indexLoop_step fuel p f q d d' :
  1 <= zlen f → indexField (p ++ f ++ q) (zlen p) d = Ok (zlen (p ++ f), d') →
  indexLoop (S fuel) (p ++ f ++ q) (zlen p) d = indexLoop fuel (p ++ f ++ q) (zlen (p ++ f)) d'.
Proof.
  intros Hf E. simpl. rewrite E, bind_ok. rewrite !(zlen_app p), (zlen_app f).
  pose proof (zlen_nonneg q). by destruct (Z.leb_spec (zlen p + (zlen f + zlen q)) (zlen p)); [lia|].
Qed.

Lemma indexLoop_entries fuel p kvs d :
  Forall kv_written kvs → (length kvs < fuel)%nat →
  indexLoop fuel (p ++ concat (entry_msg <$> kvs)) (zlen p) d = Ok d.
Proof.
  intros Hw. revert fuel p. induction Hw as [|kv kvs Hkv Hw IH]; intros [|fuel] p Hf;
    simpl in Hf; try lia.
  - simpl. by rewrite app_nil_r, Z.leb_refl.
  - simpl concat. rewrite (entry_msg_written kv Hkv).
    destruct Hkv as [Hok Hne]. pose proof (kv_msg_bound kv Hok) as Hb.
    pose proof (zlen_nonneg (kv_msg kv)).
    rewrite (indexLoop_step fuel p _ _ d d).
    + rewrite app_assoc. apply IH. lia.
    + rewrite zlen_ld_field by done.
      assert (1 <= zlen (EncodeVarint (zlen (kv_msg kv))) <= 10)
        by (apply encode_length; lia). lia.
    + rewrite indexField_ld by auto. done.
Qed.

(** A sequence of fields and what indexing it does to the record. *)
Inductive indexed : list bytes → DBI → DBI → Prop :=
  | indexed_nil d : indexed [] d d
  | indexed_cons f fs d d' d'' :
      1 <= zlen f →
      (∀ p q, indexField (p ++ f ++ q) (zlen p) d = Ok (zlen (p ++ f), d')) →
      indexed fs d' d'' → indexed (f :: fs) d d''.

Lemma indexed_app fs gs d d' d'' :
  indexed fs d d' → indexed gs d' d'' → indexed (fs ++ gs) d d''.
Proof. induction 1; simpl; eauto using indexed. Qed.

Lemma indexLoop_indexed fs fuel p q d d' :
  indexed fs d d' →
  indexLoop (length fs + fuel) (p ++ concat fs ++ q) (zlen p) d =
    indexLoop fuel (p ++ concat fs ++ q) (zlen (p ++ concat fs)) d'.
Proof.
  intros H. revert p. induction H as [d|f fs d d1 d2 Hf E H IH]; intros p.
  - simpl. by rewrite app_nil_r.
  - simpl concat. simpl length. rewrite <- (app_assoc f).
    change (S (length fs) + fuel)%nat with (S (length fs + fuel)).
    rewrite (indexLoop_step _ p f _ d d1) by done.
    rewrite (app_assoc p f), IH. by rewrite <- !app_assoc.
Qed.

Lemma dbi_fields_indexed name flags transform data capa cur :
  zlen name < 2 ^ 60 → 0 <= flags < 2 ^ 64 → zlen transform < 2 ^ 60 →
  indexed (dbi_fields name flags transform)
    (MkDBI [] 0 [] data capa false true cur 0)
    (MkDBI name flags transform data capa false true cur 0).
Proof.
  intros Hn Hf Ht. unfold dbi_fields.
  assert (Hsk := skippable_nonempty).
  apply (indexed_app _ _ _ (MkDBI name 0 [] data capa false true cur 0)).
  { case_if.
    - eapply indexed_cons; [apply Hsk; constructor; auto| |constructor].
      intros p q. rewrite indexField_ld by (auto || lia). done.
    - destruct name as [|b l]; [constructor|].
      rewrite zlen_cons in *. pose proof (zlen_nonneg l). lia. }
  apply (indexed_app _ _ _ (MkDBI name flags [] data capa false true cur 0)).
  { case_if.
    - eapply indexed_cons; [apply Hsk; by constructor| |constructor].
      intros p q. by rewrite indexField_flags.
    - replace flags with 0 by lia. constructor. }
  case_if.
  - eapply indexed_cons; [apply Hsk; constructor; auto| |constructor].
    intros p q. rewrite indexField_ld by (auto || lia). done.
  - destruct transform as [|b l]; [constructor|].
    rewrite zlen_cons in *. pose proof (zlen_nonneg l). lia.
Qed.

(** Indexing a dump finds its three top-level fields. *)
Lemma NewDBIFromData_ok name flags transform kvs :
  zlen name < 2 ^ 60 → 0 <= flags < 2 ^ 64 → zlen transform < 2 ^ 60 →
  Forall kv_written kvs →
  let data := concat (dbi_fields name flags transform) ++ concat (entry_msg <$> kvs) in
  NewDBIFromData data =
    Ok (MkDBI name flags transform data (zlen data) false true 0 0).
Proof.
  intros Hn Hf Ht Hw data. unfold NewDBIFromData, indexData, dSetState. simpl dData.
  assert (∃ k, S (length data) = (length (dbi_fields name flags transform) + k)%nat ∧
               (length kvs < k)%nat) as (k & -> & Hk).
  { pose proof (skippables_length _ (dbi_fields_skippable name flags transform Hn Hf Ht)).
    assert (remains (MkDBI [] 0 [] (concat (entry_msg <$> kvs)) 0 false false 0 0) kvs) as Hr.
    { split; [done|]. by exists [], []. }
    apply remains_length in Hr. simpl in Hr.
    exists (S (length data) - length (dbi_fields name flags transform))%nat.
    unfold data. rewrite length_app. lia. }
  pose proof (indexLoop_indexed _ k [] (concat (entry_msg <$> kvs)) _ _
    (dbi_fields_indexed name flags transform data (zlen data) 0 Hn Hf Ht)) as E.
  rewrite !app_nil_l in E. change (zlen []) with 0 in E. etransitivity; [exact E|].
  by apply indexLoop_entries.
Qed.

(** The bytes of a dump with the given fields and entries, built the way
    [readDBI] builds one. *)
Definition buildDBI (name : bytes) (flags : Z) (transform : bytes) (kvs : list KV)
    : outcome bytes :=
  d ← SetName NewDBI name;
  d ← SetTransform d transform;
  d ← SetFlags d flags;
  d ← appendAll d kvs;
  '(_, data) ← Marshal d;
  Ok data.

Lemma buildDBI_ok name flags transform kvs :
  zlen name <= 511 → 0 <= flags < 2 ^ 64 → zlen transform <= 50 → Forall kv_ok kvs →
  buildDBI name flags transform kvs =
    Ok (concat (dbi_fields name flags transform) ++ concat (entry_msg <$> kvs)).
Proof.
  intros Hn Hf Ht Hkvs.
  change (buildDBI name flags transform kvs) with
    (d ← appendAll (MkDBI name flags transform [] 0 true false 0 0) kvs;
     '(_, data) ← Marshal d; Ok data).
  destruct (appendAll_ok (MkDBI name flags transform [] 0 true false 0 0) kvs)
    as (d1 & -> & E & _ & Hc & Hfo & _); [done|done|done|].
  rewrite bind_ok. unfold Marshal.
  destruct (flushFields_ok d1 Hfo Hc) as (d2 & -> & E2 & _). rewrite !bind_ok.
  rewrite E2, E. done.
Qed.

Lemma remains_reset d kvs name flags transform :
  dData d = concat (dbi_fields name flags transform) ++ concat (entry_msg <$> kvs) →
  zlen name < 2 ^ 60 → 0 <= flags < 2 ^ 64 → zlen transform < 2 ^ 60 →
  Forall kv_written kvs → remains (ResetCursor d) kvs.
Proof.
  intros Hd Hn Hf Ht Hw. split; [done|].
  exists [], (dbi_fields name flags transform). split_and!; [by rewrite app_nil_l|done|].
  by apply dbi_fields_skippable.
Qed.
End append.

(** ** Map against its list-level meaning *)

(** Thread the state of a mapping function over a list of entries. *)
Fixpoint mapKVs {S} (f : S → KV → S * outcome KV) (s : S) (kvs : list KV)
    : outcome (list KV) :=
  match kvs with
  | [] => Ok []
  | kv :: kvs =>
      let '(s, r) := f s kv in
      kv' ← r;
      kvs' ← mapKVs f s kvs;
      Ok (kv' :: kvs')
  end.

Section map.
Context `{P : CSProto} `{!CSProtoLaws P}.
Context {S : Type} (f : S → KV → S * outcome KV).
Hypothesis (Hf : ∀ s kv s' kv', kv_written kv → f s kv = (s', Ok kv') → kv_ok kv').

Lemma mapKVs_ok s kvs kvs' :
  Forall kv_written kvs → mapKVs f s kvs = Ok kvs' → Forall kv_ok kvs'.
Proof.
  intros Hw. revert s kvs'. induction Hw as [|kv kvs Hkv Hw IH]; intros s kvs'; simpl.
  - intros [= <-]. constructor.
  - destruct (f s kv) as [s1 r] eqn:E. destruct r as [kv'| | |]; simpl; try done.
    destruct (mapKVs f s1 kvs) as [l| | |] eqn:E'; simpl; try done.
    intros [= <-]. constructor; eauto.
Qed.

Lemma mapLoop_spec fuel s d newDBI kvs :
  remains d kvs → (length kvs < fuel)%nat → fields_ok newDBI → cap_ok newDBI →
  mapLoop fuel f s d newDBI = (kvs' ← mapKVs f s kvs; appendAll newDBI kvs').
Proof using Hf CSProtoLaws0.
  revert s d newDBI kvs. induction fuel as [|fuel IH]; intros s d newDBI kvs Hr Hl Hfo Hc;
    [lia|].
  destruct kvs as [|kv kvs]; simpl.
  - by rewrite (remains_nil d Hr).
  - destruct (remains_cons d kv kvs Hr) as (d' & -> & Hr' & _).
    assert (Hkv : kv_written kv) by (destruct Hr as [Hw _]; by apply Forall_inv in Hw).
    destruct (f s kv) as [s1 r] eqn:E. destruct r as [kv'| | |]; simpl; try done.
    destruct (Append_ok newDBI kv' Hfo Hc (Hf _ _ _ _ Hkv E))
      as (d1 & E1 & _ & _ & Hc1 & Hfo1 & _).
    rewrite E1. simpl. rewrite (IH s1 d' d1 kvs) by (done || (simpl in Hl; lia)).
    destruct (mapKVs f s1 kvs) as [l| | |]; simpl; try done.
    unfold appendAll. simpl. by rewrite E1.
Qed.

(** [Map] of a loaded dump: the entries are mapped in order, an error of the
    mapping function is returned, and the new dump has the old name and flags
    and the given transform. *)
Lemma Map_spec d transform s kvs :
  remains (ResetCursor d) kvs → zlen (dName d) <= 511 → 0 <= dFlags d < 2 ^ 64 →
  zlen transform <= 50 →
  match mapKVs f s kvs with
  | Ok kvs' =>
      ∃ d', Map d transform f s = Ok d' ∧
        dName d' = dName d ∧ dFlags d' = dFlags d ∧ dTransform d' = transform ∧
        dData d' ++ pending d' =
          concat (dbi_fields (dName d) (dFlags d) transform) ++ concat (entry_msg <$> kvs') ∧
        (kvs' = [] ∨ dDirty d' = false) ∧ fields_ok d' ∧ cap_ok d'
  | Err e => Map d transform f s = Err e
  | Panic => Map d transform f s = Panic
  | Hang => Map d transform f s = Hang
  end.
Proof using Hf CSProtoLaws0.
  intros Hr Hn Hfl Ht.
  set (d0 := MkDBI (dName d) (dFlags d) transform [] (zlen (dData d)) true false 0 0).
  assert (E : Map d transform f s =
    mapLoop (Datatypes.S (length (dData d))) f s (ResetCursor d) d0).
  { unfold Map, NewDBISize. pose proof (zlen_nonneg (dData d)).
    by destruct (Z.ltb_spec (zlen (dData d)) 0); [lia|]. }
  assert (fields_ok d0) by done.
  assert (cap_ok d0) by (unfold cap_ok; simpl; apply zlen_nonneg).
  rewrite E, (mapLoop_spec _ s _ d0 kvs); [|done| |done..].
  2: { apply remains_length in Hr. simpl in Hr. lia. }
  destruct (mapKVs f s kvs) as [kvs'| | |] eqn:Em; simpl; try done.
  destruct (appendAll_ok d0 kvs') as (d' & -> & E1 & E2 & Hc & Hfo & E3 & E4 & E5 & _);
    [done|done| |].
  { eapply mapKVs_ok; [|done]. by destruct Hr. }
  exists d'. split_and!; done.
Qed.
End map.

(** ** Properties *)

Section properties.
Context `{P : CSProto} `{!CSProtoLaws P}.

(** C28: dumping a database and loading the dump gives back its name, flags,
    transform and every entry, in order. *)
Theorem dbi_roundtrip name flags transform kvs :
  zlen name <= 511 → 0 <= flags < 2 ^ 64 → zlen transform <= 50 →
  Forall kv_written kvs →
  ∃ data d, buildDBI name flags transform kvs = Ok data ∧
    NewDBIFromData data = Ok d ∧
    dName d = name ∧ dFlags d = flags ∧ dTransform d = transform ∧
    AsInefficientKVList d = Ok kvs.
Proof.
  intros Hn Hf Ht Hw.
  rewrite buildDBI_ok; [|done..|eapply Forall_impl; [|exact Hw]; by intros ? []].
  eexists _, _. split; [done|].
  rewrite NewDBIFromData_ok by (done || lia). split_and!; [done..|].
  unfold AsInefficientKVList. rewrite (listLoop_ok _ _ kvs []); [done| |].
  - eapply remains_reset; [done|lia..|done].
  - match goal with |- (_ < S (length (dData ?d)))%nat =>
      assert (remains (ResetCursor d) kvs) as Hr
        by (eapply remains_reset; [done|lia..|done]) end.
    apply remains_length in Hr. simpl in *. lia.
Qed.

(** a length of 2^63 or more is read as a negative [int], passes the check
    against the remaining data and makes [Unmarshal] panic: a malformed entry
    is not reported as an error. *)
Theorem unmarshal_negative_length_panics v rest :
  2 ^ 63 <= v < 2 ^ 64 →
  Unmarshal (EncodeTag FieldKVKey WireTypeLengthDelimited ++ EncodeVarint v ++ rest) = Panic.
Proof.
  intros Hv. unfold Unmarshal, unmarshalLoop, unmarshalField. fold unmarshalLoop.
  change (gfrom ?d 0) with (gfrom ([] ++ d) (zlen (@nil byte))).
  rewrite gfrom_app, bind_ok. read_tag. cbv beta iota zeta. lit_cases.
  rewrite expectWT_same, bind_ok, Z.add_0_l, gfrom_app, bind_ok.
  rewrite decode_encode, bind_ok by lia. cbv beta iota zeta.
  assert (Hi : int64 v < 0).
  { unfold int64. replace (v + 2 ^ 63) with (v - 2 ^ 63 + 1 * 2 ^ 64) by lia.
    rewrite Z.mod_add, Z.mod_small by lia. lia. }
  autorewrite with golen. pose proof (zlen_nonneg rest).
  match goal with |- context [if ?b then _ else _] => replace b with false by
    (symmetry; apply Z.ltb_ge; lia) end.
  unfold gslice.
  match goal with |- context [?a <=? ?a + int64 v] =>
    replace (a <=? a + int64 v) with false by (symmetry; apply Z.leb_gt; lia) end.
  by rewrite andb_false_r.
Qed.
End properties.

#[local] Existing Instance RefProto.
#[local] Existing Instance RefProto_laws.

Definition ex_kv1 : KV := MkKV (str "abc") (str "hello") 1700000000000000000 0.
Definition ex_kv2 : KV := MkKV (str "abd") [] 5 1.

Lemma dbi_roundtrip_witness :
  ∃ data d, buildDBI (str "main") 8 [] [ex_kv1; ex_kv2] = Ok data ∧
    NewDBIFromData data = Ok d ∧
    dName d = str "main" ∧ dFlags d = 8 ∧ dTransform d = [] ∧
    AsInefficientKVList d = Ok [ex_kv1; ex_kv2].
Proof.
  apply dbi_roundtrip; [vm_compute; intuition discriminate..|].
  repeat constructor; vm_compute; intuition discriminate.
Defined.

Lemma unmarshal_negative_length_panics_witness :
  Unmarshal (EncodeTag FieldKVKey WireTypeLengthDelimited ++ EncodeVarint (2 ^ 64 - 1) ++ [])
    = Panic.
Proof. apply unmarshal_negative_length_panics. lia. Defined.

(** A length-delimited field with an unknown tag whose length, read as an
    [int], leads back to the tag itself. *)
Definition loopingField : bytes :=
  EncodeTag 5 WireTypeLengthDelimited ++ EncodeVarint (2 ^ 64 - 11).

Lemma unmarshalField_looping kv : unmarshalField loopingField 0 kv = Ok (0, kv).
Proof. vm_compute. reflexivity. Qed.

Lemma unmarshalLoop_looping fuel kv :
  unmarshalLoop (S fuel) loopingField 0 kv = unmarshalLoop fuel loopingField 0 kv.
Proof. cbn [unmarshalLoop]. rewrite unmarshalField_looping, bind_ok. reflexivity. Qed.

Lemma findEntry_looping fuel : findEntry (S fuel) loopingField 0 = findEntry fuel loopingField 0.
Proof.
  cbn [findEntry]. replace (zlen loopingField <=? 0) with false by (vm_compute; reflexivity).
  replace (gfrom loopingField 0) with (Ok loopingField) by (vm_compute; reflexivity).
  rewrite bind_ok.
  replace (DecodeVarint loopingField) with (Ok (42, 1)) by (vm_compute; reflexivity).
  rewrite bind_ok. cbv beta iota zeta.
  replace (negb (Z.shiftr 42 3 =? FieldDBIEntries)) with true by (vm_compute; reflexivity).
  change (0 + 1) with 1.
  replace (gfrom loopingField 1) with (Ok (EncodeVarint (2 ^ 64 - 11)))
    by (vm_compute; reflexivity).
  rewrite bind_ok.
  replace (skipTag (EncodeVarint (2 ^ 64 - 11)) (Z.land 42 7)) with (Ok (-1))
    by (vm_compute; reflexivity).
  by rewrite bind_ok.
Qed.

(** skipping a field whose length is negative as an [int] can move the
    reader back to the field it just read: whatever the bound on the number of
    rounds, neither the entry reader nor the cursor of a dump gets past
    [loopingField]. *)
Theorem negative_skip_never_returns fuel kv :
  unmarshalLoop fuel loopingField 0 kv = Hang ∧ findEntry fuel loopingField 0 = Hang.
Proof.
  induction fuel as [|fuel [IH1 IH2]]; [done|].
  by rewrite unmarshalLoop_looping, findEntry_looping.
Qed.

(** A dump whose second field has a tag this version does not know. *)
Definition futureDump : bytes :=
  ld_field FieldDBIName (str "main") ++ varint_field 5 300 ++ entry_msg ex_kv1.

(** [indexData] measures an unknown field from the start of the data
    instead of from the field, so a dump with a field of a later version is
    rejected, although [Next] skips the same field and finds the entry. *)
Theorem index_rejects_unknown_field :
  NewDBIFromData futureDump = Err (EMsg "unsupported wire type") ∧
  AsInefficientKVList (MkDBI [] 0 [] futureDump 0 false true 0 0) = Ok [ex_kv1].
Proof. split; vm_compute; reflexivity. Qed.

(** the top-level fields of a dump without pending fields can still be set
    after entries were written, and are then written behind them. *)
Theorem setname_after_append :
  (d ← Append NewDBI ex_kv1; d' ← SetName d (str "late"); snd <$> Marshal d')
    = Ok (entry_msg ex_kv1 ++ ld_field FieldDBIName (str "late")).
Proof. vm_compute. reflexivity. Qed.
