(* ===== verification/DupSort.v ===== *)
(** * The dupsort hack (syncer/dupsorthack.go)

    A DupSort database holds several values per key, which the merge cannot
    handle.  The hack turns every pair into an entry with a key of its own:
    the key, four zero bytes, as much of the value as fits an LMDB key and the
    length of the original key.  This file models the two per-entry functions
    and the two whole-dump ones, which run them through [DBI.Map]. *)

From Stdlib Require Import Sorted.
From S2P Require Import Prelude Header Proto Kv Dbi.

Definition LMDBMaxKeySize : Z := 511.
Definition DupSortHackMaxKeySize : Z := 255.
Definition TransformDupSortHackV1 : bytes := str "dupsort_hack_v1".

Definition dupSortHackEncodeOne (e : KV) : outcome KV :=
  if zlen (kvKey e) =? 0 then Err (EMsg "empty key not supported by dupsort_hack")
  else if DupSortHackMaxKeySize <? zlen (kvKey e)
  then Err (EMsg "key size exceeds dupsort_hack max size")
  else
    let key := kvKey e ++ replicate 4 Byte.x00 in
    let remaining := LMDBMaxKeySize - zlen key - 1 in
    part ← (if remaining <? zlen (kvValue e)
            then gslice (kvValue e) 0 remaining else Ok (kvValue e));
    let key := (key ++ part) ++ [zb (zlen (kvKey e))] in
    Ok (MkKV key (kvValue e) 0 (kvFlags e)).

Definition dupSortHackDecodeOne (e : KV) : outcome KV :=
  if zlen (kvKey e) <? 6 then Err (EMsg "not a valid dupsort_hack dump (key)")
  else
    last ← gindex (kvKey e) (zlen (kvKey e) - 1);
    let keyLen := bz last in
    if zlen (kvKey e) <? keyLen + 5
    then Err (EMsg "not a valid dupsort_hack dump (key len)")
    else
      b0 ← gindex (kvKey e) keyLen;
      b1 ← gindex (kvKey e) (keyLen + 1);
      b2 ← gindex (kvKey e) (keyLen + 2);
      b3 ← gindex (kvKey e) (keyLen + 3);
      if negb (bz b0 =? 0) || negb (bz b1 =? 0) || negb (bz b2 =? 0) || negb (bz b3 =? 0)
      then Err (EMsg "not a valid dupsort_hack dump (no separator)")
      else
        key ← gslice (kvKey e) 0 keyLen;
        Ok (MkKV key (kvValue e) 0 (kvFlags e)).

(** The closure of [dupSortHackEncode]; its state is [prevKey]. *)
Definition encodeStep (prevKey : bytes) (kv : KV) : bytes * outcome KV :=
  match dupSortHackEncodeOne kv with
  | Ok kv =>
      match bytes_Compare prevKey (kvKey kv) with
      | Eq => (prevKey, Err (EMsg "dupsort_hack does not result in unique keys"))
      | Gt => (prevKey, Err (EMsg "dupsort_hack results in reverse sort order"))
      | Lt => (kvKey kv, Ok kv)
      end
  | r => (prevKey, r)
  end.

Definition decodeStep (s : unit) (kv : KV) : unit * outcome KV :=
  (s, dupSortHackDecodeOne kv).

Section dupsort.
Context `{P : CSProto}.

Definition dupSortHackEncode (dbiMsg : DBI) : outcome DBI :=
  Map dbiMsg TransformDupSortHackV1 encodeStep [].

Definition dupSortHackDecode (dbiMsg : DBI) : outcome DBI :=
  Map dbiMsg [] decodeStep tt.
End dupsort.

(** ** One entry *)

(** What is left of an entry: the hack does not carry timestamps. *)
Definition stripTS (e : KV) : KV := MkKV (kvKey e) (kvValue e) 0 (kvFlags e).

(** The encoded key, spelled out. *)
Definition hackKey (e : KV) : bytes :=
  kvKey e ++ replicate 4 Byte.x00 ++
  take (Z.to_nat (506 - zlen (kvKey e))) (kvValue e) ++ [zb (zlen (kvKey e))].

(** The encoded entry. *)
Definition hackKV (e : KV) : KV := MkKV (hackKey e) (kvValue e) 0 (kvFlags e).

Definition hackable (e : KV) : Prop := 1 <= zlen (kvKey e) <= 255.

Lemma EncodeOne_spec e :
  dupSortHackEncodeOne e =
    if zlen (kvKey e) =? 0 then Err (EMsg "empty key not supported by dupsort_hack")
    else if 255 <? zlen (kvKey e) then Err (EMsg "key size exceeds dupsort_hack max size")
    else Ok (MkKV (hackKey e) (kvValue e) 0 (kvFlags e)).
Proof.
  unfold dupSortHackEncodeOne, DupSortHackMaxKeySize, LMDBMaxKeySize.
  case_if; [done|]. case_if; [done|]. pose proof (zlen_nonneg (kvKey e)).
  cbv zeta. autorewrite with golen.
  replace (511 - (zlen (kvKey e) + Z.of_nat 4) - 1) with (506 - zlen (kvKey e)) by lia.
  unfold hackKey. case_if.
  - rewrite gslice_ok by lia. rewrite bind_ok. rewrite Z.sub_0_r. change (Z.to_nat 0) with 0%nat.
    by rewrite drop_0, <- !app_assoc.
  - rewrite bind_ok, take_ge by (unfold zlen in *; lia). by rewrite <- !app_assoc.
Qed.

Lemma EncodeOne_ok e : hackable e → dupSortHackEncodeOne e = Ok (MkKV (hackKey e) (kvValue e) 0 (kvFlags e)).
Proof.
  intros [H1 H2]. rewrite EncodeOne_spec.
  rewrite (proj2 (Z.eqb_neq _ _)), (proj2 (Z.ltb_ge _ _)) by lia. done.
Qed.

Lemma EncodeOne_inv e r : dupSortHackEncodeOne e = Ok r →
  hackable e ∧ r = MkKV (hackKey e) (kvValue e) 0 (kvFlags e).
Proof.
  rewrite EncodeOne_spec. unfold hackable. pose proof (zlen_nonneg (kvKey e)).
  case_if; [done|]. case_if; [done|]. intros [= <-]. split; [lia|done].
Qed.

(** Encoded keys are legal LMDB keys. *)
Lemma zlen_hackKey e : hackable e → 6 <= zlen (hackKey e) <= 511.
Proof.
  intros [H1 H2]. unfold hackKey. autorewrite with golen.
  unfold zlen in *. rewrite length_take. lia.
Qed.

Lemma gindex_mid p b q : gindex (p ++ b :: q) (zlen p) = Ok b.
Proof.
  unfold gindex. pose proof (zlen_nonneg p).
  rewrite (proj2 (Z.leb_le _ _)) by done. unfold zlen. rewrite Nat2Z.id.
  rewrite lookup_app_r by lia. by rewrite Nat.sub_diag.
Qed.

Lemma gindex_mid' i p b q : i = zlen p → gindex (p ++ b :: q) i = Ok b.
Proof. intros ->. apply gindex_mid. Qed.

Lemma DecodeOne_hackKV e : hackable e → dupSortHackDecodeOne (hackKV e) = Ok (stripTS e).
Proof.
  intros H. unfold dupSortHackDecodeOne, hackKV. cbn [kvKey kvValue kvFlags].
  pose proof (zlen_hackKey e H). destruct H as [H1 H2].
  rewrite (proj2 (Z.ltb_ge _ _)) by lia.
  set (v := take (Z.to_nat (506 - zlen (kvKey e))) (kvValue e)).
  assert (E : hackKey e = (kvKey e ++ replicate 4 Byte.x00 ++ v) ++ [zb (zlen (kvKey e))])
    by (unfold hackKey; by rewrite <- !app_assoc).
  rewrite E at 1. rewrite (gindex_mid' _ _ _ []), bind_ok
    by (rewrite E, (zlen_app _ [_]), zlen_cons, zlen_nil; lia).
  cbv zeta. rewrite bz_zb, Z.mod_small by lia.
  pose proof (zlen_nonneg v).
  assert (zlen (hackKey e) = zlen (kvKey e) + 4 + zlen v + 1)
    by (rewrite E; autorewrite with golen; lia).
  rewrite (proj2 (Z.ltb_ge _ _)) by lia.
  set (k := kvKey e) in *. set (t := v ++ [zb (zlen k)]).
  assert (E0 : hackKey e = k ++ Byte.x00 :: (replicate 3 Byte.x00 ++ t)) by done.
  assert (E1 : hackKey e = (k ++ [Byte.x00]) ++ Byte.x00 :: (replicate 2 Byte.x00 ++ t))
    by (rewrite <- app_assoc; done).
  assert (E2 : hackKey e = (k ++ replicate 2 Byte.x00) ++ Byte.x00 :: (replicate 1 Byte.x00 ++ t))
    by (rewrite <- app_assoc; done).
  assert (E3 : hackKey e = (k ++ replicate 3 Byte.x00) ++ Byte.x00 :: t)
    by (rewrite <- app_assoc; done).
  rewrite E0 at 1. rewrite gindex_mid, bind_ok.
  rewrite E1 at 1. rewrite gindex_mid', bind_ok by (by autorewrite with golen).
  rewrite E2 at 1. rewrite gindex_mid', bind_ok by (by autorewrite with golen).
  rewrite E3 at 1. rewrite gindex_mid', bind_ok by (by autorewrite with golen).
  change (bz Byte.x00 =? 0) with true. cbn [negb orb].
  pose proof (gslice_mid [] k (Byte.x00 :: (replicate 3 Byte.x00 ++ t))) as Hg.
  rewrite app_nil_l, <- E0 in Hg. change (zlen []) with 0 in Hg. rewrite Z.add_0_l in Hg.
  by rewrite Hg, bind_ok.
Qed.

(** The decoder inspects every byte it reads: it never panics. *)
Lemma DecodeOne_inv e :
  (∃ m, dupSortHackDecodeOne e = Err (EMsg m)) ∨
  ∃ n, dupSortHackDecodeOne e =
    Ok (MkKV (take n (kvKey e)) (kvValue e) 0 (kvFlags e)) ∧ (n + 5 <= length (kvKey e))%nat.
Proof.
  assert (Hi : ∀ (b : bytes) i, 0 <= i < zlen b → ∃ x, gindex b i = Ok x).
  { intros b i Hi. unfold gindex. rewrite (proj2 (Z.leb_le _ _)) by lia.
    destruct (lookup_lt_is_Some_2 b (Z.to_nat i)) as [x ->]; [unfold zlen in Hi; lia|eauto]. }
  unfold dupSortHackDecodeOne. case_if; [by left; eauto|].
  destruct (Hi (kvKey e) (zlen (kvKey e) - 1)) as [l ->]; [lia|]. rewrite bind_ok. cbv zeta.
  case_if; [by left; eauto|]. pose proof (bz_range l).
  destruct (Hi (kvKey e) (bz l)) as [b0 ->]; [lia|].
  destruct (Hi (kvKey e) (bz l + 1)) as [b1 ->]; [lia|].
  destruct (Hi (kvKey e) (bz l + 2)) as [b2 ->]; [lia|].
  destruct (Hi (kvKey e) (bz l + 3)) as [b3 ->]; [lia|]. rewrite !bind_ok.
  destruct (_ || _); [by left; eauto|]. right. exists (Z.to_nat (bz l)).
  rewrite gslice_ok, bind_ok by lia. rewrite Z.sub_0_r. change (Z.to_nat 0) with 0%nat.
  rewrite drop_0. split; [done|]. unfold zlen in *. lia.
Qed.

(** ** Lists of entries *)

Definition blt (a b : bytes) : Prop := bytes_Compare a b = Lt.

(** The closure of [dupSortHackEncode] over a list of entries. *)
Lemma mapKVs_encode prev kvs :
  (mapKVs encodeStep prev kvs = Ok (hackKV <$> kvs) ∧
   Forall hackable kvs ∧ Sorted blt (hackKey <$> kvs) ∧
   HdRel blt prev (hackKey <$> kvs)) ∨
  ((∃ e, mapKVs encodeStep prev kvs = Err e) ∧
   ¬ (Forall hackable kvs ∧ Sorted blt (hackKey <$> kvs) ∧
      HdRel blt prev (hackKey <$> kvs))).
Proof.
  revert prev. induction kvs as [|kv kvs IH]; intros prev; [left; by repeat constructor|].
  simpl. unfold encodeStep at 1 3.
  destruct (dupSortHackEncodeOne kv) as [r|e| |] eqn:E.
  2: { right. split; [by eauto|]. intros [H _]. apply Forall_inv in H.
       rewrite EncodeOne_ok in E by done. discriminate. }
  2,3: exfalso; rewrite EncodeOne_spec in E; repeat case_if_in E; discriminate.
  apply EncodeOne_inv in E as [Hk ->]. cbn [kvKey].
  destruct (bytes_Compare prev (hackKey kv)) eqn:Ec; simpl.
  1,3: right; split; [by eauto|]; intros (_ & _ & H); apply HdRel_inv in H;
    unfold blt in H; congruence.
  destruct (IH (hackKey kv)) as [(-> & H1 & H2 & H3)|[[e ->] H]].
  - left. split; [done|]. split_and!; by constructor.
  - right. split; [by eauto|]. intros (H1 & H2 & _). apply H.
    apply Forall_cons_1 in H1 as [_ H1]. apply Sorted_inv in H2 as [H2 H3]. done.
Qed.

Lemma HdRel_hackKey kvs : Forall hackable kvs → HdRel blt [] (hackKey <$> kvs).
Proof.
  intros [|kv l Hk]; constructor. unfold blt.
  pose proof (zlen_hackKey kv Hk). destruct (hackKey kv); [rewrite zlen_nil in *; lia|done].
Qed.

Lemma mapKVs_decode kvs :
  Forall hackable kvs → mapKVs decodeStep tt (hackKV <$> kvs) = Ok (stripTS <$> kvs).
Proof.
  induction 1 as [|kv kvs Hk _ IH]; [done|].
  rewrite !fmap_cons. cbn [mapKVs]. unfold decodeStep at 1.
  rewrite DecodeOne_hackKV, bind_ok by done.
  by rewrite IH.
Qed.

(** ** Whole dumps *)

Section whole.
Context `{P : CSProto} `{!CSProtoLaws P}.

Lemma kv_written_key kv : kv_ok kv → kvKey kv ≠ [] → kv_written kv.
Proof.
  intros Hok Hne. split; [done|]. intros Hm.
  assert (zlen (kv_msg kv) = 0) as Hz by (by rewrite Hm).
  unfold kv_msg in Hz. rewrite zlen_app in Hz. unfold kv_key_part in Hz.
  destruct (kvKey kv) as [|b l] eqn:E; [done|]. rewrite zlen_cons in Hz.
  match type of Hz with _ + zlen ?x = 0 => pose proof (zlen_nonneg x) end.
  pose proof (zlen_nonneg l). rewrite (proj2 (Z.ltb_lt _ _)) in Hz by lia.
  rewrite zlen_ld_field, zlen_cons in Hz by done.
  pose proof (zlen_nonneg (EncodeVarint (1 + zlen l))). lia.
Qed.

Lemma hackKV_ok kv : hackable kv → kv_ok kv → kv_ok (hackKV kv).
Proof.
  intros Hk (? & ? & ? & ?). pose proof (zlen_hackKey kv Hk).
  unfold kv_ok, hackKV. simpl. lia.
Qed.

Lemma hackKV_written kv : hackable kv → kv_ok kv → kv_written (hackKV kv).
Proof.
  intros Hk Hok. apply kv_written_key; [by apply hackKV_ok|].
  pose proof (zlen_hackKey kv Hk). simpl. intros E. rewrite E, zlen_nil in *. lia.
Qed.

Lemma stripTS_written kv : hackable kv → kv_ok kv → kv_written (stripTS kv).
Proof.
  intros [Hk _] (? & ? & ? & ?). apply kv_written_key; [unfold kv_ok; simpl; lia|].
  simpl. intros E. rewrite E, zlen_nil in Hk. lia.
Qed.

Lemma encodeStep_ok s kv s' kv' :
  kv_written kv → encodeStep s kv = (s', Ok kv') → kv_ok kv'.
Proof.
  intros [Hok _]. unfold encodeStep.
  destruct (dupSortHackEncodeOne kv) as [r| | |] eqn:E; [|done..].
  apply EncodeOne_inv in E as [Hk ->].
  destruct (bytes_Compare _ _); intros [= _ <-]. by apply hackKV_ok.
Qed.

Lemma decodeStep_ok s kv s' kv' :
  kv_written kv → decodeStep s kv = (s', Ok kv') → kv_ok kv'.
Proof.
  intros [(H1 & H2 & H3 & H4) _] [= _ E].
  destruct (DecodeOne_inv kv) as [[m E']|(n & E' & Hn)]; rewrite E' in E; [done|].
  injection E as <-. unfold kv_ok. simpl. split; [|lia].
  unfold zlen in *. rewrite length_take. lia.
Qed.

(** A dump of [kvs] as the loader of a snapshot sees it. *)
Definition loaded (name : bytes) (flags : Z) (transform : bytes) (kvs : list KV) (d : DBI) : Prop :=
  ∃ data, buildDBI name flags transform kvs = Ok data ∧ NewDBIFromData data = Ok d.

Lemma loaded_remains name flags transform kvs d :
  zlen name <= 511 → 0 <= flags < 2 ^ 64 → zlen transform <= 50 → Forall kv_written kvs →
  loaded name flags transform kvs d →
  remains (ResetCursor d) kvs ∧ dName d = name ∧ dFlags d = flags ∧ dTransform d = transform.
Proof.
  intros Hn Hf Ht Hw (data & E & E').
  rewrite buildDBI_ok in E; [|done..|eapply Forall_impl; [|exact Hw]; by intros ? []].
  injection E as <-. rewrite NewDBIFromData_ok in E' by (done || lia).
  injection E' as <-. split; [|done]. eapply remains_reset; [done|lia..|done].
Qed.

Lemma loaded_exists name flags transform kvs :
  zlen name <= 511 → 0 <= flags < 2 ^ 64 → zlen transform <= 50 → Forall kv_written kvs →
  ∃ d, loaded name flags transform kvs d.
Proof.
  intros Hn Hf Ht Hw. eexists _, _.
  rewrite buildDBI_ok; [|done..|eapply Forall_impl; [|exact Hw]; by intros ? []].
  split; [done|]. by rewrite NewDBIFromData_ok by (done || lia).
Qed.

(** The dump [Map] returns, marshalled and loaded again, or listed directly. *)
Lemma mapped_reload d kvs :
  fields_ok d → cap_ok d → Forall kv_written kvs →
  dData d ++ pending d =
    concat (dbi_fields (dName d) (dFlags d) (dTransform d)) ++ concat (entry_msg <$> kvs) →
  (kvs = [] ∨ dDirty d = false) →
  (∃ d' data, Marshal d = Ok (d', data) ∧
     buildDBI (dName d) (dFlags d) (dTransform d) kvs = Ok data) ∧
  AsInefficientKVList d = Ok kvs.
Proof.
  intros Hfo Hc Hw Hd Hor. pose proof Hfo as (Hn & Hf & Ht). split.
  - unfold Marshal. destruct (flushFields_ok d Hfo Hc) as (d' & -> & E & _).
    rewrite bind_ok. do 2 eexists. split; [done|].
    rewrite buildDBI_ok; [|done..|eapply Forall_impl; [|exact Hw]; by intros ? []].
    by rewrite E, Hd.
  - assert (Hr : remains (ResetCursor d) kvs).
    { unfold pending in Hd. destruct (dDirty d) eqn:Ed.
      - destruct Hor as [->|]; [|done]. split; [constructor|].
        exists [], []. simpl. rewrite app_nil_r in Hd.
        split_and!; [|done|constructor]. apply (f_equal length) in Hd.
        rewrite length_app in Hd. destruct (dData d); [done|simpl in Hd; lia].
      - rewrite app_nil_r in Hd. eapply remains_reset; [done|lia..|done]. }
    unfold AsInefficientKVList. erewrite (listLoop_ok _ _ kvs []); [done|done|].
    apply remains_length in Hr. simpl in Hr. lia.
Qed.
End whole.

(** ** Properties *)

Section dupsort_properties.
Context `{P : CSProto} `{!CSProtoLaws P}.

(** C29: a dump that was encoded, written, loaded and decoded has its name,
    flags and entries back, in order; only timestamps are dropped.  While
    encoded, it is marked with the transform and its keys are strictly
    increasing LMDB keys. *)
Theorem dupsort_roundtrip name flags kvs d :
  zlen name <= 511 → 0 <= flags < 2 ^ 64 → Forall kv_written kvs →
  loaded name flags [] kvs d →
  Forall hackable kvs → Sorted blt (hackKey <$> kvs) →
  ∃ enc enc' data e r, dupSortHackEncode d = Ok enc ∧
    Marshal enc = Ok (enc', data) ∧ NewDBIFromData data = Ok e ∧
    dTransform e = TransformDupSortHackV1 ∧
    AsInefficientKVList e = Ok (hackKV <$> kvs) ∧
    Forall (λ kv, 6 <= zlen (kvKey kv) <= LMDBMaxKeySize) (hackKV <$> kvs) ∧
    dupSortHackDecode e = Ok r ∧
    dName r = name ∧ dFlags r = flags ∧ dTransform r = [] ∧
    AsInefficientKVList r = Ok (stripTS <$> kvs).
Proof.
  intros Hn Hf Hw Hl Hk Hs.
  destruct (loaded_remains name flags [] kvs d Hn Hf ltac:(done) Hw Hl) as (Hr & <- & <- & Ht).
  assert (Hok : Forall kv_ok kvs) by (eapply Forall_impl; [|exact Hw]; by intros ? []).
  assert (Hhw : Forall kv_written (hackKV <$> kvs)).
  { apply Forall_fmap. rewrite Forall_forall in *. intros kv Hin. apply hackKV_written; auto. }
  assert (Hsw : Forall kv_written (stripTS <$> kvs)).
  { apply Forall_fmap. rewrite Forall_forall in *. intros kv Hin. apply stripTS_written; auto. }
  pose proof (Map_spec encodeStep encodeStep_ok d TransformDupSortHackV1 [] kvs Hr Hn Hf
    ltac:(done)) as HM.
  destruct (mapKVs_encode [] kvs) as [(E & _)|[_ Hno]];
    [|by destruct Hno; auto using HdRel_hackKey].
  rewrite E in HM. destruct HM as (enc & Ee & N & F & T & Hd & Hor & Hfo & Hc).
  assert (Hor' : hackKV <$> kvs = [] ∨ dDirty enc = false) by done.
  rewrite <- N, <- F, <- T in Hd.
  destruct (mapped_reload enc (hackKV <$> kvs) Hfo Hc Hhw Hd Hor') as [(enc' & data & Em & Eb) _].
  rewrite N, F, T in Eb.
  pose proof (conj Eb I) as [Eb' _].
  rewrite buildDBI_ok in Eb'; [|done..|eapply Forall_impl; [|exact Hhw]; by intros ? []].
  injection Eb' as Eb'. pose proof (NewDBIFromData_ok (dName d) (dFlags d)
    TransformDupSortHackV1 (hackKV <$> kvs) ltac:(lia) Hf ltac:(done) Hhw) as En.
  cbv zeta in En. rewrite Eb' in En.
  destruct (loaded_remains (dName d) (dFlags d) TransformDupSortHackV1 (hackKV <$> kvs) _
    Hn Hf ltac:(done) Hhw (ex_intro _ _ (conj Eb En))) as (Hr2 & _).
  pose proof (Map_spec decodeStep decodeStep_ok _ [] tt (hackKV <$> kvs) Hr2 Hn Hf
    ltac:(done)) as HM.
  rewrite mapKVs_decode in HM by done.
  destruct HM as (r & Er & N2 & F2 & T2 & Hd2 & Hor2 & Hfo2 & Hc2).
  rewrite <- N2, <- F2, <- T2 in Hd2. cbn [dName dFlags] in N2, F2.
  destruct (mapped_reload r _ Hfo2 Hc2 Hsw Hd2 Hor2) as [_ El].
  eexists enc, enc', data, _, r. split; [done|]. split; [done|]. split; [exact En|].
  split; [done|]. split.
  { unfold AsInefficientKVList. erewrite (listLoop_ok _ _ _ []); [done|exact Hr2|].
    apply remains_length in Hr2. simpl in *. lia. }
  split; [|done].
  apply Forall_fmap. eapply Forall_impl; [|exact Hk]. apply zlen_hackKey.
Qed.

(** C30: the dump can be encoded exactly when every key has 1 to 255 bytes and
    the encoded keys come out strictly increasing; in every other case the
    encoder returns an error, it never panics or loops. *)
Theorem dupsort_encode_iff name flags kvs d :
  zlen name <= 511 → 0 <= flags < 2 ^ 64 → Forall kv_written kvs →
  loaded name flags [] kvs d →
  (is_ok (dupSortHackEncode d) ↔ Forall hackable kvs ∧ Sorted blt (hackKey <$> kvs)) ∧
  (is_ok (dupSortHackEncode d) ∨ ∃ e, dupSortHackEncode d = Err e).
Proof.
  intros Hn Hf Hw Hl.
  destruct (loaded_remains name flags [] kvs d Hn Hf ltac:(done) Hw Hl) as (Hr & <- & <- & Ht).
  pose proof (Map_spec encodeStep encodeStep_ok d TransformDupSortHackV1 [] kvs Hr Hn Hf
    ltac:(done)) as HM. unfold is_ok, dupSortHackEncode.
  destruct (mapKVs_encode [] kvs) as [(E & H1 & H2 & _)|[[e E] Hno]]; rewrite E in HM.
  - destruct HM as (r & -> & _). split; [split; [done|]; intros _|left]; by exists r.
  - rewrite HM. split; [|right; by eauto]. split; [by intros [? ?]|].
    intros [H1 H2]. destruct Hno. auto using HdRel_hackKey.
Qed.
End dupsort_properties.

#[local] Existing Instance RefProto.
#[local] Existing Instance RefProto_laws.

Definition ex_dup : list KV :=
  [MkKV (str "a") (str "one") 0 0; MkKV (str "a") (str "two") 0 0;
   MkKV (str "b") (str "one") 0 0].

Lemma ex_dup_written : Forall kv_written ex_dup.
Proof. repeat constructor; vm_compute; intuition discriminate. Qed.

Lemma ex_dup_loaded : ∃ d, loaded (str "records") 4 [] ex_dup d.
Proof. by apply loaded_exists; [..|apply ex_dup_written]. Qed.

Lemma dupsort_roundtrip_witness : ∃ d enc enc' data e r,
  dupSortHackEncode d = Ok enc ∧
  Marshal enc = Ok (enc', data) ∧ NewDBIFromData data = Ok e ∧
  dTransform e = TransformDupSortHackV1 ∧
  AsInefficientKVList e = Ok (hackKV <$> ex_dup) ∧
  Forall (λ kv, 6 <= zlen (kvKey kv) <= LMDBMaxKeySize) (hackKV <$> ex_dup) ∧
  dupSortHackDecode e = Ok r ∧
  dName r = str "records" ∧ dFlags r = 4 ∧ dTransform r = [] ∧
  AsInefficientKVList r = Ok (stripTS <$> ex_dup).
Proof.
  destruct ex_dup_loaded as [d Hd]. exists d. apply dupsort_roundtrip;
    [done|done|apply ex_dup_written|exact Hd|repeat constructor; done|].
  repeat constructor.
Defined.

Lemma dupsort_encode_iff_witness : ∃ d,
  (is_ok (dupSortHackEncode d) ↔ Forall hackable ex_dup ∧ Sorted blt (hackKey <$> ex_dup)) ∧
  (is_ok (dupSortHackEncode d) ∨ ∃ e, dupSortHackEncode d = Err e).
Proof.
  destruct ex_dup_loaded as [d Hd]. exists d.
  by apply (dupsort_encode_iff (str "records") 4 ex_dup d); [| |apply ex_dup_written|exact Hd].
Defined.

(** Values of one key that differ only behind the part that fits a key. *)
Definition ex_clash : list KV :=
  [MkKV (str "a") (replicate 505 Byte.x61 ++ str "1") 0 0;
   MkKV (str "a") (replicate 505 Byte.x61 ++ str "2") 0 0].

Example ex_clash_error :
  mapKVs encodeStep [] ex_clash = Err (EMsg "dupsort_hack does not result in unique keys").
Proof. vm_compute. reflexivity. Qed.
