(* ===== verification/Lmdb.v ===== *)
(** * LMDB as Lightning Stream uses it

    The lmdb-go bindings are not part of the repository.  [LMDB] collects the
    operations the modelled code calls, [LMDBView] gives the abstract content
    of a transaction and [LMDBLaws] states the documented behaviour of the
    operations on it, for an environment whose map does not fill up.
    [RefLMDB] is a small reference implementation, for examples. *)

From stdpp Require Import sorting.
From S2P Require Import Prelude.

(** ** Constants of lmdb-go *)

Definition lmdb_NotFound : Z := -30798.
Definition lmdb_BadValSize : Z := -30781.
Definition lmdb_KeyExist : Z := -30799.

Definition lmdb_Create : Z := 0x40000.
Definition lmdb_ReverseKey : Z := 0x02.
Definition lmdb_DupSort : Z := 0x04.
Definition LMDBIntegerKeyFlag : Z := 0x08.
Definition lmdb_Append : Z := 0x20000.

(** [lmdb.IsNotFound] *)
Definition IsNotFound (e : error) : bool := bool_decide (e = ELmdb lmdb_NotFound).

Inductive cursor_op : Type := First | Next | SetRange.

(** [lmdb.Stat], the fields the code reads. *)
Record Stat : Type := MkStat {
  stPSize : Z;
  stBranchPages : Z;
  stLeafPages : Z;
  stOverflowPages : Z;
  stEntries : Z;
  stDepth : Z;
}.

(** [x & flag > 0] *)
Definition has_flag (x flag : Z) : bool := 0 <? Z.land x flag.

(** The order of the keys of a database with the given flags, on a
    little-endian machine. *)
Definition lmdb_cmp (flags : Z) (a b : bytes) : comparison :=
  if has_flag flags LMDBIntegerKeyFlag then le_get a ?= le_get b
  else if has_flag flags lmdb_ReverseKey then bytes_Compare (rev a) (rev b)
  else bytes_Compare a b.

(** ** Operations *)

Class LMDB : Type := {
  Txn : Type;
  DBIh : Type;
  Cursor : Type;
  txn_ID : Txn → Z;
  txn_OpenDBI : Txn → bytes → Z → outcome (Txn * DBIh);
  txn_OpenRoot : Txn → Z → outcome DBIh;
  txn_Flags : Txn → DBIh → outcome Z;
  txn_Stat : Txn → DBIh → outcome Stat;
  txn_Get : Txn → DBIh → bytes → outcome bytes;
  txn_Put : Txn → DBIh → bytes → bytes → Z → outcome Txn;
  txn_Del : Txn → DBIh → bytes → gobytes → outcome Txn;
  txn_Drop : Txn → DBIh → bool → outcome Txn;
  txn_OpenCursor : Txn → DBIh → outcome Cursor;
  c_Get : Txn → Cursor → gobytes → gobytes → cursor_op → Cursor * outcome (bytes * bytes);
  c_Put : Txn → Cursor → bytes → bytes → Z → outcome (Txn * Cursor);
  c_Del : Txn → Cursor → Z → outcome (Txn * Cursor);
}.

(** ** Views

    [entries t h] lists a database in cursor order.  [cdb], [cpos] and [rest]
    are the database of a cursor, the key it last returned and the entries
    behind it.  [ksize] is the key width of a database with integer keys. *)
Class LMDBView (L : LMDB) : Type := {
  dbnames : Txn → list bytes;
  dbi_of : Txn → bytes → option DBIh;
  root : DBIh;
  entries : Txn → DBIh → list (bytes * bytes);
  dflags : Txn → DBIh → Z;
  ksize : DBIh → Z;
  cdb : Cursor → DBIh;
  cpos : Cursor → option bytes;
  rest : Txn → Cursor → list (bytes * bytes);
}.

Section view.
Context `{V : LMDBView}.

(** The content of a database without duplicate keys. *)
Definition dbm (t : Txn) (h : DBIh) : gmap bytes bytes := list_to_map (entries t h).

(** Handles of databases that exist in the transaction. *)
Definition live (t : Txn) (h : DBIh) : Prop := ∃ n, dbi_of t n = Some h.
Definition readable (t : Txn) (h : DBIh) : Prop := h = root ∨ live t h.

Definition dupsort (t : Txn) (h : DBIh) : Prop :=
  live t h ∧ has_flag (dflags t h) lmdb_DupSort = true.
Definition uniq (t : Txn) (h : DBIh) : Prop :=
  live t h ∧ has_flag (dflags t h) lmdb_DupSort = false.

(** A key LMDB accepts in a database. *)
Definition key_ok (t : Txn) (h : DBIh) (k : bytes) : Prop :=
  1 <= zlen k <= 511 ∧ (has_flag (dflags t h) LMDBIntegerKeyFlag = true → zlen k = ksize h).

Definition keys_ok (t : Txn) (h : DBIh) : Prop := ∀ k, is_Some (dbm t h !! k) → key_ok t h k.

(** A write to [h] touches nothing else. *)
Definition framed (t t' : Txn) (h : DBIh) : Prop :=
  (∀ h', h' ≠ h → h' ≠ root → entries t' h' = entries t h') ∧
  (∀ h', dflags t' h' = dflags t h') ∧
  (∀ n, dbi_of t' n = dbi_of t n) ∧ dbnames t' = dbnames t ∧ txn_ID t' = txn_ID t.
End view.

(** The abstract effect of a first or following read of a cursor. *)
Definition cursor_reads `{V : LMDBView} (t : Txn) (c : Cursor) (op : cursor_op)
    (l : list (bytes * bytes)) : Prop :=
  match l with
  | [] => ∃ c', c_Get t c None None op = (c', Err (ELmdb lmdb_NotFound)) ∧ cdb c' = cdb c
  | (k, v) :: r =>
      ∃ c', c_Get t c None None op = (c', Ok (k, v)) ∧
        cdb c' = cdb c ∧ cpos c' = Some k ∧ rest t c' = r
  end.

(** ** Documented behaviour *)

Class LMDBLaws (L : LMDB) (V : LMDBView L) : Prop := {
  (* Databases and handles *)
  ksize_ok h : ksize h = 4 ∨ ksize h = 8;
  dbnames_nodup t : NoDup (dbnames t);
  dbi_of_names t n : is_Some (dbi_of t n) ↔ n ∈ dbnames t;
  dbi_of_inj t n n' h : dbi_of t n = Some h → dbi_of t n' = Some h → n = n';
  dbi_of_root t n : dbi_of t n ≠ Some root;
  open_root t f : txn_OpenRoot t f = Ok root;
  root_entries t : fst <$> entries t root = dbnames t;
  get_flags t h : readable t h → txn_Flags t h = Ok (dflags t h);
  get_stat t h : readable t h → is_ok (txn_Stat t h);
  open_existing t n f h : dbi_of t n = Some h → txn_OpenDBI t n f = Ok (t, h);
  open_missing t n f :
    dbi_of t n = None → has_flag f lmdb_Create = false →
    txn_OpenDBI t n f = Err (ELmdb lmdb_NotFound);
  open_create t n f :
    dbi_of t n = None → has_flag f lmdb_Create = true →
    ∃ t' h, txn_OpenDBI t n f = Ok (t', h) ∧ dbi_of t' n = Some h ∧
      entries t' h = [] ∧ dflags t' h = Z.land f 0x7e ∧
      (∀ n', n' ≠ n → dbi_of t' n' = dbi_of t n') ∧
      (∀ n' h', dbi_of t n' = Some h' →
         entries t' h' = entries t h' ∧ dflags t' h' = dflags t h') ∧
      dbnames t' ≡ₚ n :: dbnames t ∧ txn_ID t' = txn_ID t;
  (* Reading *)
  entries_sorted t h :
    uniq t h → keys_ok t h →
    StronglySorted (λ e e', lmdb_cmp (dflags t h) e.1 e'.1 = Lt) (entries t h);
  get_entry t h k :
    uniq t h → key_ok t h k →
    txn_Get t h k = match dbm t h !! k with
                    | Some v => Ok v | None => Err (ELmdb lmdb_NotFound) end;
  open_cursor t h : readable t h → ∃ c, txn_OpenCursor t h = Ok c ∧ cdb c = h;
  cursor_first t c : readable t (cdb c) → cursor_reads t c First (entries t (cdb c));
  cursor_next t c : readable t (cdb c) → cursor_reads t c Next (rest t c);
  (* Writing *)
  put_entry t h k v :
    uniq t h → key_ok t h k →
    ∃ t', txn_Put t h k v 0 = Ok t' ∧ dbm t' h = <[k:=v]> (dbm t h) ∧ framed t t' h ∧
      (∀ c p, cdb c = h → cpos c = Some p → lmdb_cmp (dflags t h) k p ≠ Gt →
         rest t' c = rest t c);
  put_append t h k v :
    uniq t h → key_ok t h k →
    (∀ k', is_Some (dbm t h !! k') → lmdb_cmp (dflags t h) k' k = Lt) →
    ∃ t', txn_Put t h k v lmdb_Append = Ok t' ∧ dbm t' h = <[k:=v]> (dbm t h) ∧ framed t t' h;
  put_dup t h k v :
    dupsort t h → key_ok t h k → zlen v <= 511 →
    ∃ t', txn_Put t h k v 0 = Ok t' ∧ framed t t' h ∧
      (∀ e, e ∈ entries t' h ↔ e = (k, v) ∨ e ∈ entries t h);
  put_badkey t h k v f :
    (zlen k = 0 ∨ 511 < zlen k) → txn_Put t h k v f = Err (ELmdb lmdb_BadValSize);
  del_entry t h k v :
    uniq t h → key_ok t h k → dbm t h !! k = Some v →
    ∃ t', txn_Del t h k None = Ok t' ∧ dbm t' h = delete k (dbm t h) ∧ framed t t' h;
  del_missing t h k :
    uniq t h → key_ok t h k → dbm t h !! k = None →
    txn_Del t h k None = Err (ELmdb lmdb_NotFound);
  drop_entries t h :
    live t h →
    ∃ t', txn_Drop t h false = Ok t' ∧ entries t' h = [] ∧ framed t t' h;
  drop_delete t n h :
    dbi_of t n = Some h →
    ∃ t', txn_Drop t h true = Ok t' ∧ dbi_of t' n = None ∧
      (∀ n', n' ≠ n → dbi_of t' n' = dbi_of t n') ∧
      (∀ n' h', n' ≠ n → dbi_of t n' = Some h' →
         entries t' h' = entries t h' ∧ dflags t' h' = dflags t h') ∧
      txn_ID t' = txn_ID t;
  cursor_append t c k v :
    uniq t (cdb c) → key_ok t (cdb c) k →
    (∀ k', is_Some (dbm t (cdb c) !! k') → lmdb_cmp (dflags t (cdb c)) k' k = Lt) →
    ∃ t' c', c_Put t c k v lmdb_Append = Ok (t', c') ∧ cdb c' = cdb c ∧
      dbm t' (cdb c) = <[k:=v]> (dbm t (cdb c)) ∧ framed t t' (cdb c);
  cursor_del t c p :
    uniq t (cdb c) → cpos c = Some p → is_Some (dbm t (cdb c) !! p) →
    ∃ t' c', c_Del t c 0 = Ok (t', c') ∧ cdb c' = cdb c ∧
      dbm t' (cdb c) = delete p (dbm t (cdb c)) ∧ framed t t' (cdb c) ∧
      rest t' c' = rest t c;
}.

(** *** The key order *)

Lemma lmdb_cmp_antisym f a b : lmdb_cmp f b a = CompOpp (lmdb_cmp f a b).
Proof.
  unfold lmdb_cmp. repeat case_if; [apply Z.compare_antisym|apply bytes_Compare_antisym..].
Qed.

Lemma lmdb_cmp_refl f a : lmdb_cmp f a a = Eq.
Proof. unfold lmdb_cmp. repeat case_if; [apply Z.compare_refl|apply bytes_Compare_refl..]. Qed.

Lemma lmdb_cmp_lt_trans f a b c :
  lmdb_cmp f a b = Lt → lmdb_cmp f b c = Lt → lmdb_cmp f a c = Lt.
Proof.
  unfold lmdb_cmp. repeat case_if; [|apply bytes_Compare_lt_trans..].
  rewrite !Z.compare_lt_iff. lia.
Qed.

Lemma lmdb_cmp_eq f a b :
  (has_flag f LMDBIntegerKeyFlag = true → zlen a = zlen b) → lmdb_cmp f a b = Eq → a = b.
Proof.
  unfold lmdb_cmp. intros Hl. case_if; [|case_if]; intros H.
  - apply Z.compare_eq in H. specialize (Hl eq_refl).
    rewrite <- (le_put_get a), <- (le_put_get b). unfold zlen in Hl. f_equal; [lia|done].
  - apply bytes_Compare_eq in H. by rewrite <- (rev_involutive a), H, rev_involutive.
  - by apply bytes_Compare_eq.
Qed.

Lemma lmdb_cmp_gt f a b : lmdb_cmp f a b = Gt ↔ lmdb_cmp f b a = Lt.
Proof. rewrite (lmdb_cmp_antisym f a b). by destruct (lmdb_cmp f a b). Qed.

Lemma lmdb_cmp_eq_l f a b c : lmdb_cmp f a b = Eq → lmdb_cmp f a c = lmdb_cmp f b c.
Proof.
  unfold lmdb_cmp. repeat case_if; intros H.
  - apply Z.compare_eq in H. by rewrite H.
  - apply bytes_Compare_eq in H. by rewrite H.
  - apply bytes_Compare_eq in H. by rewrite H.
Qed.

Lemma key_ok_eq `{V : LMDBView} t h a b :
  key_ok t h a → key_ok t h b → lmdb_cmp (dflags t h) a b = Eq → a = b.
Proof.
  intros [_ Ha] [_ Hb]. apply lmdb_cmp_eq. intros H. by rewrite Ha, Hb.
Qed.

(** ** A reference implementation *)

Module Ref.
Record rdb : Type := MkDb {
  rflags : Z;
  rmap : gmap bytes bytes;
  rdup : list (bytes * bytes);
}.

Record rtxn : Type := MkTxn { rid : Z; rdbs : gmap bytes rdb }.

(** A cursor remembers what it still has to return. *)
Record rcur : Type := MkCur {
  rcdb : option bytes;
  rcpos : option bytes;
  rcrest : list (bytes * bytes);
}.

Definition kle (flags : Z) (e e' : bytes * bytes) : Prop := lmdb_cmp flags e.1 e'.1 ≠ Gt.

#[export] Instance kle_dec flags e e' : Decision (kle flags e e').
Proof. unfold kle. apply _. Defined.

Definition names (t : rtxn) : list bytes :=
  (merge_sort (kle 0) ((λ n, (n, [])) <$> elements (dom (rdbs t)))).*1.

Definition sorted (d : rdb) : list (bytes * bytes) :=
  merge_sort (kle (rflags d)) (map_to_list (rmap d)).

Definition rentries (t : rtxn) (h : option bytes) : list (bytes * bytes) :=
  match h with
  | None => (λ n, (n, [])) <$> names t
  | Some n =>
      match rdbs t !! n with
      | Some d => if has_flag (rflags d) lmdb_DupSort then rdup d else sorted d
      | None => []
      end
  end.

Definition rget (t : rtxn) (h : option bytes) : option rdb := h ≫= λ n, rdbs t !! n.

Definition rset (t : rtxn) (h : option bytes) (d : rdb) : rtxn :=
  match h with Some n => MkTxn (rid t) (<[n:=d]> (rdbs t)) | None => t end.

Definition rflagsof (t : rtxn) (h : option bytes) : Z :=
  match rget t h with Some d => rflags d | None => 0 end.

Definition EINVAL {A} : outcome A := Err (ELmdb 22).

Definition ropen (t : rtxn) (n : bytes) (f : Z) : outcome (rtxn * option bytes) :=
  match rdbs t !! n with
  | Some _ => Ok (t, Some n)
  | None =>
      if has_flag f lmdb_Create
      then Ok (rset t (Some n) (MkDb (Z.land f 0x7e) ∅ []), Some n)
      else Err (ELmdb lmdb_NotFound)
  end.

Definition rput (t : rtxn) (h : option bytes) (k v : bytes) (f : Z) : outcome rtxn :=
  if (zlen k =? 0) || (511 <? zlen k) then Err (ELmdb lmdb_BadValSize)
  else match rget t h with
  | None => EINVAL
  | Some d =>
      if has_flag (rflags d) lmdb_DupSort
      then Ok (rset t h (MkDb (rflags d) (rmap d)
                 (if bool_decide ((k, v) ∈ rdup d) then rdup d else
                  merge_sort (kle (rflags d)) ((k, v) :: rdup d))))
      else if has_flag f lmdb_Append &&
              negb (forallb (λ e, bool_decide (lmdb_cmp (rflags d) e.1 k = Lt)) (sorted d))
      then Err (ELmdb lmdb_KeyExist)
      else Ok (rset t h (MkDb (rflags d) (<[k:=v]> (rmap d)) (rdup d)))
  end.

Definition rdel (t : rtxn) (h : option bytes) (k : bytes) (_ : gobytes) : outcome rtxn :=
  match rget t h with
  | None => EINVAL
  | Some d =>
      match rmap d !! k with
      | None => Err (ELmdb lmdb_NotFound)
      | Some _ => Ok (rset t h (MkDb (rflags d) (delete k (rmap d)) (rdup d)))
      end
  end.

Definition rdrop (t : rtxn) (h : option bytes) (del : bool) : outcome rtxn :=
  match h, rget t h with
  | Some n, Some d =>
      if del then Ok (MkTxn (rid t) (delete n (rdbs t))) else Ok (rset t h (MkDb (rflags d) ∅ []))
  | _, _ => EINVAL
  end.

Definition rread (c : rcur) (l : list (bytes * bytes)) : rcur * outcome (bytes * bytes) :=
  match l with
  | [] => (c, Err (ELmdb lmdb_NotFound))
  | (k, v) :: r => (MkCur (rcdb c) (Some k) r, Ok (k, v))
  end.

Definition rcget (t : rtxn) (c : rcur) (k _ : gobytes) (op : cursor_op)
    : rcur * outcome (bytes * bytes) :=
  match op with
  | First => rread c (rentries t (rcdb c))
  | Next => rread c (rcrest c)
  | SetRange =>
      rread c (filter (λ e, lmdb_cmp (rflagsof t (rcdb c)) e.1 (gdata k) ≠ Lt)
                 (rentries t (rcdb c)))
  end.

Definition RefLMDB : LMDB := {|
  Txn := rtxn; DBIh := option bytes; Cursor := rcur;
  txn_ID := rid;
  txn_OpenDBI := ropen;
  txn_OpenRoot := λ _ _, Ok None;
  txn_Flags := λ t h, Ok (rflagsof t h);
  txn_Stat := λ t h, Ok (MkStat 4096 0 1 0 (zlen (rentries t h)) 1);
  txn_Get := λ t h k,
    match rget t h ≫= λ d, rmap d !! k with
    | Some v => Ok v | None => Err (ELmdb lmdb_NotFound) end;
  txn_Put := rput;
  txn_Del := rdel;
  txn_Drop := rdrop;
  txn_OpenCursor := λ _ h, Ok (MkCur h None []);
  c_Get := rcget;
  c_Put := λ t c k v f, t ← rput t (rcdb c) k v f; Ok (t, MkCur (rcdb c) (Some k) []);
  c_Del := λ t c _,
    t ← rdel t (rcdb c) (default [] (rcpos c)) None; Ok (t, c);
|}.

Definition RefView : LMDBView RefLMDB := {|
  dbnames := names : @Txn RefLMDB → _;
  dbi_of := λ (t : @Txn RefLMDB) n, match rdbs t !! n with Some _ => Some (Some n) | None => None end;
  root := None : @DBIh RefLMDB;
  entries := rentries : @Txn RefLMDB → @DBIh RefLMDB → _;
  dflags := rflagsof : @Txn RefLMDB → @DBIh RefLMDB → _;
  ksize := λ _, 4;
  cdb := rcdb : @Cursor RefLMDB → @DBIh RefLMDB;
  cpos := rcpos : @Cursor RefLMDB → _;
  rest := λ (_ : @Txn RefLMDB) (c : @Cursor RefLMDB), rcrest c;
|}.

#[export] Instance kle_total f : Total (kle f).
Proof.
  intros a b. unfold kle. rewrite (lmdb_cmp_antisym f a.1 b.1).
  destruct (lmdb_cmp f a.1 b.1); simpl; auto.
Qed.

#[export] Instance kle_trans f : Transitive (kle f).
Proof.
  intros a b c. unfold kle. intros H1 H2 H3.
  apply lmdb_cmp_gt in H3. destruct (lmdb_cmp f a.1 b.1) eqn:E; [| |done].
  - apply H2, lmdb_cmp_gt. rewrite <- H3.
    rewrite (lmdb_cmp_antisym f a.1 c.1), (lmdb_cmp_antisym f b.1 c.1).
    by rewrite (lmdb_cmp_eq_l f a.1 b.1).
  - apply H2, lmdb_cmp_gt. by eapply lmdb_cmp_lt_trans.
Qed.

Lemma strict_sorted f (l : list (bytes * bytes)) :
  StronglySorted (kle f) l → NoDup l.*1 →
  (∀ a b, a ∈ l.*1 → b ∈ l.*1 → lmdb_cmp f a b = Eq → a = b) →
  StronglySorted (λ e e', lmdb_cmp f e.1 e'.1 = Lt) l.
Proof.
  induction 1 as [|e l Hs IH Hf]; intros Hn Heq; constructor.
  - apply IH; [by apply NoDup_cons_1_2 in Hn|].
    intros a b Ha Hb. apply Heq; by right.
  - apply NoDup_cons_1_1 in Hn. rewrite Forall_forall in *. intros e' Hin.
    specialize (Hf e' Hin). apply list_elem_of_In in Hin. unfold kle in Hf.
    destruct (lmdb_cmp f e.1 e'.1) eqn:E; [|done..]. destruct Hn.
    assert (e'.1 ∈ l.*1) by (apply list_elem_of_fmap; eauto).
    rewrite (Heq e.1 e'.1); [done|by left|by right|done].
Qed.

Lemma sorted_perm d : sorted d ≡ₚ map_to_list (rmap d).
Proof. apply merge_sort_Permutation. Qed.

Lemma sorted_nodup d : NoDup (sorted d).*1.
Proof. rewrite sorted_perm. apply NoDup_fst_map_to_list. Qed.

Lemma sorted_map d : list_to_map (sorted d) = rmap d.
Proof.
  rewrite <- (list_to_map_to_list (rmap d)).
  apply list_to_map_proper; [apply sorted_nodup|apply sorted_perm].
Qed.

#[local] Existing Instances RefLMDB RefView.

(** The live databases are those in the map. *)
Lemma live_inv (t : Txn) (h : DBIh) : live t h → ∃ n d, h = Some n ∧ rdbs t !! n = Some d.
Proof.
  intros [n H]. simpl in H. destruct (rdbs t !! n) as [d|] eqn:E; [|done].
  injection H as <-. by exists n, d.
Qed.

Lemma uniq_inv (t : Txn) (h : DBIh) :
  uniq t h → ∃ n d, h = Some n ∧ rdbs t !! n = Some d ∧
    has_flag (rflags d) lmdb_DupSort = false ∧ dbm t h = rmap d ∧ dflags t h = rflags d.
Proof.
  intros [Hl Hd]. destruct (live_inv t h Hl) as (n & d & -> & E).
  unfold dflags in Hd. simpl in Hd. unfold rflagsof, rget in Hd. simpl in Hd. rewrite E in Hd.
  exists n, d. split_and!; [done..| |].
  - unfold dbm. simpl. by rewrite E, Hd, sorted_map.
  - simpl. unfold rflagsof. simpl. by rewrite E.
Qed.

(** What a write to one database changes. *)
Lemma rset_framed (t : Txn) n d d' :
  rdbs t !! n = Some d → rflags d' = rflags d → framed t (rset t (Some n) d') (Some n).
Proof.
  intros E Ef. unfold framed. simpl. split_and!; [| | | |done].
  - intros [n'|] Hne Hr; [|done]. simpl. rewrite lookup_insert_ne by congruence. done.
  - intros [n'|]; [|done]. unfold rflagsof. simpl.
    destruct (decide (n' = n)) as [->|]; [|by rewrite lookup_insert_ne].
    rewrite lookup_insert_eq, E. done.
  - intros n'. destruct (decide (n' = n)) as [->|]; [|by rewrite lookup_insert_ne].
    by rewrite lookup_insert_eq, E.
  - unfold names. simpl. by rewrite dom_insert_lookup_L.
Qed.

Lemma names_perm t : names t ≡ₚ elements (dom (rdbs t)).
Proof.
  unfold names. rewrite merge_sort_Permutation, <- list_fmap_compose.
  by rewrite list_fmap_id.
Qed.

Lemma elem_of_names t n : n ∈ names t ↔ is_Some (rdbs t !! n).
Proof. by rewrite names_perm, elem_of_elements, elem_of_dom. Qed.

Lemma rget_some (t : Txn) n d : rdbs t !! n = Some d → rget t (Some n) = Some d.
Proof. done. Qed.

Lemma dbm_rset (t : Txn) n (f : Z) m l :
  has_flag f lmdb_DupSort = false →
  dbm (rset t (Some n) (MkDb f m l) : Txn) (Some n : DBIh) = m.
Proof.
  intros Hd. unfold dbm. simpl. rewrite lookup_insert_eq. simpl. rewrite Hd.
  exact (sorted_map (MkDb f m l)).
Qed.

Lemma rread_ok (t : Txn) (c : Cursor) op l :
  c_Get t c None None op = rread c l → cursor_reads t c op l.
Proof. intros E. unfold cursor_reads. rewrite E. destruct l as [|[k v] r]; eexists; done. Qed.

Lemma key_len_ok (k : bytes) : 1 <= zlen k <= 511 → (zlen k =? 0) || (511 <? zlen k) = false.
Proof. intros. apply orb_false_iff. rewrite Z.eqb_neq, Z.ltb_ge. lia. Qed.

Lemma rput_append (t : Txn) n d k v :
  rdbs t !! n = Some d → has_flag (rflags d) lmdb_DupSort = false → 1 <= zlen k <= 511 →
  (∀ k', is_Some (rmap d !! k') → lmdb_cmp (rflags d) k' k = Lt) →
  rput t (Some n) k v lmdb_Append =
    Ok (rset t (Some n) (MkDb (rflags d) (<[k:=v]> (rmap d)) (rdup d))).
Proof.
  intros E Hd Hk Hlt. unfold rput. rewrite key_len_ok, (rget_some _ _ _ E), Hd by done.
  replace (forallb _ _) with true; [done|]. symmetry. apply forallb_forall.
  intros [k' v'] Hin. apply bool_decide_eq_true, Hlt.
  apply list_elem_of_In in Hin. rewrite sorted_perm in Hin. apply elem_of_map_to_list in Hin.
  by exists v'.
Qed.

Lemma rput_uniq (t : Txn) n d k v :
  rdbs t !! n = Some d → has_flag (rflags d) lmdb_DupSort = false → 1 <= zlen k <= 511 →
  rput t (Some n) k v 0 =
    Ok (rset t (Some n) (MkDb (rflags d) (<[k:=v]> (rmap d)) (rdup d))).
Proof.
  intros E Hd Hk. unfold rput. by rewrite key_len_ok, (rget_some _ _ _ E), Hd by done.
Qed.

Lemma rdel_ok (t : Txn) n d k v :
  rdbs t !! n = Some d → rmap d !! k = Some v →
  rdel t (Some n) k None = Ok (rset t (Some n) (MkDb (rflags d) (delete k (rmap d)) (rdup d))).
Proof. intros E Ek. unfold rdel. by rewrite (rget_some _ _ _ E), Ek. Qed.

Lemma ref_create (t : Txn) n f :
  dbi_of t n = None → has_flag f lmdb_Create = true →
  ∃ (t' : Txn) h, txn_OpenDBI t n f = Ok (t', h) ∧ dbi_of t' n = Some h ∧
    entries t' h = [] ∧ dflags t' h = Z.land f 0x7e ∧
    (∀ n', n' ≠ n → dbi_of t' n' = dbi_of t n') ∧
    (∀ n' h', dbi_of t n' = Some h' →
       entries t' h' = entries t h' ∧ dflags t' h' = dflags t h') ∧
    dbnames t' ≡ₚ n :: dbnames t ∧ txn_ID t' = txn_ID t.
Proof.
  simpl. unfold ropen. destruct (rdbs t !! n) eqn:E; [done|]. intros _ ->.
  do 2 eexists. split; [done|]. simpl. unfold rflagsof. simpl. rewrite !lookup_insert_eq. simpl.
  split_and!; [done|by case_match|done| | | |done].
  - intros n' Hn. by rewrite lookup_insert_ne.
  - intros n' h' H. destruct (rdbs t !! n') eqn:E'; [|done]. injection H as <-. simpl.
    rewrite lookup_insert_ne by congruence. done.
  - rewrite !names_perm. simpl. rewrite dom_insert_L, elements_union_singleton; [done|].
    by apply not_elem_of_dom.
Qed.

Lemma ref_put_dup (t : Txn) (h : DBIh) k v :
  dupsort t h → key_ok t h k → zlen v <= 511 →
  ∃ t', txn_Put t h k v 0 = Ok t' ∧ framed t t' h ∧
    (∀ e, e ∈ entries t' h ↔ e = (k, v) ∨ e ∈ entries t h).
Proof.
  intros [Hl Hd] [Hk _] _. destruct (live_inv t h Hl) as (n & d & -> & E).
  simpl in Hd. unfold rflagsof in Hd. rewrite (rget_some _ _ _ E) in Hd.
  simpl. unfold rput. rewrite key_len_ok, (rget_some _ _ _ E), Hd by done.
  eexists. split; [done|]. split; [by eapply rset_framed|].
  intros e. simpl. rewrite lookup_insert_eq, E. simpl. rewrite Hd.
  case_bool_decide as Hin; [naive_solver|].
  by rewrite merge_sort_Permutation, elem_of_cons.
Qed.

Lemma ref_sorted (t : Txn) (h : DBIh) :
  uniq t h → keys_ok t h →
  StronglySorted (λ e e', lmdb_cmp (dflags t h) e.1 e'.1 = Lt) (entries t h).
Proof.
  intros Hu Hks. destruct (uniq_inv t h Hu) as (n & d & -> & E & Hd & Em & Ef).
  rewrite Ef. assert (Es : entries t (Some n : DBIh) = sorted d) by (simpl; by rewrite E, Hd).
  rewrite Es. apply strict_sorted; [|apply sorted_nodup|].
  - apply StronglySorted_merge_sort; apply _.
  - assert (Hin : ∀ a, a ∈ (sorted d).*1 → key_ok t (Some n : DBIh) a).
    { intros a Ha. apply Hks. rewrite Em, <- sorted_map.
      destruct ((list_to_map (sorted d) : gmap bytes bytes) !! a) eqn:El; [by eauto|].
      by apply not_elem_of_list_to_map in El. }
    intros a b Ha Hb. rewrite <- Ef. apply key_ok_eq; auto.
Qed.

Lemma ref_drop_delete (t : Txn) n h :
  dbi_of t n = Some h →
  ∃ t' : Txn, txn_Drop t h true = Ok t' ∧ dbi_of t' n = None ∧
    (∀ n', n' ≠ n → dbi_of t' n' = dbi_of t n') ∧
    (∀ n' h', n' ≠ n → dbi_of t n' = Some h' →
       entries t' h' = entries t h' ∧ dflags t' h' = dflags t h') ∧
    txn_ID t' = txn_ID t.
Proof.
  intros Hn. simpl in Hn. destruct (rdbs t !! n) as [d|] eqn:E; [|done]. injection Hn as <-.
  simpl. rewrite E. eexists. split; [done|]. simpl. rewrite lookup_delete_eq.
  split_and!; [done| | |done].
  - intros n' Hne. by rewrite lookup_delete_ne.
  - intros n' h' Hne Hn'. destruct (rdbs t !! n') as [d'|] eqn:E'; [|done]. injection Hn' as <-.
    unfold rflagsof. simpl. by rewrite lookup_delete_ne.
Qed.

Lemma ref_cursor_append (t : Txn) (c : Cursor) k v :
  uniq t (cdb c) → key_ok t (cdb c) k →
  (∀ k', is_Some (dbm t (cdb c) !! k') → lmdb_cmp (dflags t (cdb c)) k' k = Lt) →
  ∃ t' c', c_Put t c k v lmdb_Append = Ok (t', c') ∧ cdb c' = cdb c ∧
    dbm t' (cdb c) = <[k:=v]> (dbm t (cdb c)) ∧ framed t t' (cdb c).
Proof.
  intros Hu [Hk _]. destruct (uniq_inv t _ Hu) as (n & d & En & E & Hd & Em & Ef).
  rewrite Em, Ef, En. intros Hlt. simpl in *. rewrite En, (rput_append t n d) by done.
  do 2 eexists. split; [done|]. split; [done|].
  rewrite dbm_rset by done. split; [done|]. by eapply rset_framed.
Qed.

Lemma ref_cursor_del (t : Txn) (c : Cursor) p :
  uniq t (cdb c) → cpos c = Some p → is_Some (dbm t (cdb c) !! p) →
  ∃ t' c', c_Del t c 0 = Ok (t', c') ∧ cdb c' = cdb c ∧
    dbm t' (cdb c) = delete p (dbm t (cdb c)) ∧ framed t t' (cdb c) ∧
    rest t' c' = rest t c.
Proof.
  intros Hu Hp. destruct (uniq_inv t _ Hu) as (n & d & En & E & Hd & Em & Ef).
  rewrite Em, En. intros [v Hv]. simpl in *. rewrite En, Hp. simpl.
  rewrite (rdel_ok t n d p v) by done. do 2 eexists. split; [done|]. split; [done|].
  rewrite dbm_rset by done. split_and!; [done|by eapply rset_framed|done].
Qed.

Lemma RefLMDB_laws : LMDBLaws RefLMDB RefView.
Proof.
  split.
  - intros h. by left.
  - intros t. simpl. rewrite names_perm. apply NoDup_elements.
  - intros t n. simpl. rewrite elem_of_names. by destruct (rdbs t !! n); split; intros [? ?]; eauto.
  - intros t n n' h. simpl. destruct (rdbs t !! n), (rdbs t !! n'); congruence.
  - intros t n. simpl. by destruct (rdbs t !! n).
  - done.
  - intros t. simpl. rewrite <- list_fmap_compose. by rewrite list_fmap_id.
  - done.
  - intros t h _. by eexists.
  - intros t n f h. simpl. unfold ropen. by destruct (rdbs t !! n); [intros [= <-]|].
  - intros t n f. simpl. unfold ropen. destruct (rdbs t !! n); [done|]. by intros _ ->.
  - apply ref_create.
  - apply ref_sorted.
  - intros t h k Hu _. destruct (uniq_inv t h Hu) as (n & d & -> & E & Hd & Em & Ef).
    rewrite Em. simpl. by rewrite E.
  - intros t h _. by eexists.
  - intros t c _. by apply rread_ok.
  - intros t c _. by apply rread_ok.
  - intros t h k v Hu [Hk _]. destruct (uniq_inv t h Hu) as (n & d & -> & E & Hd & Em & Ef).
    eexists. split; [by apply rput_uniq|].
    rewrite dbm_rset, Em by done. split_and!; [done|by eapply rset_framed|done].
  - intros t h k v Hu [Hk _]. destruct (uniq_inv t h Hu) as (n & d & -> & E & Hd & Em & Ef).
    rewrite Em, Ef. intros Hlt. eexists. split; [by apply rput_append|].
    rewrite dbm_rset by done. split_and!; [done|by eapply rset_framed].
  - apply ref_put_dup.
  - intros t h k v f Hk. simpl. unfold rput.
    by replace ((zlen k =? 0) || (511 <? zlen k)) with true
      by (symmetry; apply orb_true_iff; rewrite Z.eqb_eq, Z.ltb_lt; lia).
  - intros t h k v Hu _. destruct (uniq_inv t h Hu) as (n & d & -> & E & Hd & Em & Ef).
    rewrite Em. intros Hk. eexists. split; [by eapply rdel_ok|].
    rewrite dbm_rset by done. split_and!; [done|by eapply rset_framed].
  - intros t h k Hu _. destruct (uniq_inv t h Hu) as (n & d & -> & E & Hd & Em & Ef).
    rewrite Em. intros Hk. simpl. unfold rdel. by rewrite (rget_some _ _ _ E), Hk.
  - intros t h Hl. destruct (live_inv t h Hl) as (n & d & -> & E). simpl. rewrite E. eexists. split; [done|].
    split; [|by eapply rset_framed]. simpl. rewrite lookup_insert_eq. simpl. by case_match.
  - apply ref_drop_delete.
  - apply ref_cursor_append.
  - apply ref_cursor_del.
Qed.
End Ref.
