(* ===== verification/Strategy.v ===== *)
(** * Insert strategies (lmdbenv/strategy)

    A strategy writes the entries of an [Iterator] into a database: [Put],
    [EmptyPut], [Append] and [Update] take the entries one by one, [IterPut]
    and [IterUpdate] walk the iterator and the database side by side with
    [iterBoth].  The code is proved against the iterator interface
    ([IteratorSpec]) and the LMDB interface ([LMDBLaws]). *)

From Stdlib Require Import Sorted.
From S2P Require Import Prelude Lmdb.

(** ** Key comparison (utils.go, byteorder.go) *)

(** [init] of byteorder.go looks at the two bytes of the word 0xABCD. *)
Definition byteorder_init (buf : bytes) : outcome bool :=
  if bool_decide (buf = [Byte.xcd; Byte.xab]) then Ok true
  else if bool_decide (buf = [Byte.xab; Byte.xcd]) then Ok false
  else Panic.

(** The machine is little-endian. *)
Definition isLittleEndian : bool :=
  match byteorder_init (le_put 2 0xABCD) with Ok b => b | _ => false end.

Definition MaxKeySize : Z := 511.

Definition bytesToInt (b : bytes) : Z :=
  if zlen b =? 4 then le_get b
  else if zlen b =? 8 then le_get b
  else if zlen b =? 2 then le_get b
  else 0.

Definition cmpIntegerLittleEndian (a b : bytes) : comparison :=
  let ai := bytesToInt a in
  let bi := bytesToInt b in
  if ai <? bi then Lt else if bi <? ai then Gt else Eq.

(** The comparison [iterBoth] uses. *)
Definition cmpFunc (integerKey : bool) : bytes → bytes → comparison :=
  if integerKey && isLittleEndian then cmpIntegerLittleEndian else bytes_Compare.

(** ** The iterator interface (iterator.go) *)

Class Iterator (S : Type) : Type := {
  it_Next : S → S * outcome bytes;
  it_Merge : S → gobytes → S * outcome gobytes;
  it_Clean : S → gobytes → S * outcome gobytes;
}.

Section strategies.
Context `{L : LMDB} {S : Type} `{I : Iterator S}.

(** What a strategy works on. *)
Record world : Type := MkWorld { wT : Txn; wC : Cursor; wS : S }.

Definition callMerge (s : S) (oldval : gobytes) : outcome (S * gobytes) :=
  let '(s, r) := it_Merge s oldval in
  v ← wrap_err "merge" r; Ok (s, v).

Definition callClean (s : S) (oldval : gobytes) : outcome (S * gobytes) :=
  let '(s, r) := it_Clean s oldval in
  v ← wrap_err "clean" r; Ok (s, v).

(** ** iterBoth (utils.go) *)

Definition iterBothFunc : Type :=
  world → gobytes → gobytes → gobytes → bool → bool → outcome world.

(** The local variables of [iterBoth]. *)
Record ibvars : Type := MkIb {
  itKey : gobytes;
  dbKey : gobytes;
  dbVal : gobytes;
  itEOF : bool;
  dbEOF : bool;
  prevKey : bytes;
  ibFlag : cursor_op;
}.

(** "Next iterator key if needed" *)
Definition fetchIt (cmp : bytes → bytes → comparison) (w : world) (v : ibvars)
    : outcome (world * ibvars) :=
  match itKey v, itEOF v with
  | None, false =>
      let '(s, r) := it_Next (wS w) in
      let w := MkWorld (wT w) (wC w) s in
      match r with
      | Err e =>
          if bool_decide (e = EOF)
          then Ok (w, MkIb None (dbKey v) (dbVal v) true (dbEOF v) (prevKey v) (ibFlag v))
          else Err (EWrap "iterator next" e)
      | Ok k =>
          match cmp (prevKey v) k with
          | Lt =>
              if MaxKeySize <? zlen k then Panic
              else Ok (w, MkIb (Some k) (dbKey v) (dbVal v) false (dbEOF v) k (ibFlag v))
          | _ => Err (EWrap "key" ErrNotSorted)
          end
      | Panic => Panic
      | Hang => Hang
      end
  | _, _ => Ok (w, v)
  end.

(** "Next LMDB key if needed" *)
Definition fetchDb (w : world) (v : ibvars) : outcome (world * ibvars) :=
  match dbKey v, dbEOF v with
  | None, false =>
      let '(c, r) := c_Get (wT w) (wC w) None None (ibFlag v) in
      let w := MkWorld (wT w) c (wS w) in
      match r with
      | Err e =>
          if IsNotFound e
          then Ok (w, MkIb (itKey v) None None (itEOF v) true (prevKey v) Next)
          else Err (EWrap "cursor next" e)
      | Ok (k, x) =>
          Ok (w, MkIb (itKey v) (Some k) (Some x) (itEOF v) false (prevKey v) Next)
      | Panic => Panic
      | Hang => Hang
      end
  | _, _ => Ok (w, v)
  end.

Definition clearDb (v : ibvars) : ibvars :=
  MkIb (itKey v) None (dbVal v) (itEOF v) (dbEOF v) (prevKey v) (ibFlag v).
Definition clearIt (v : ibvars) : ibvars :=
  MkIb None (dbKey v) (dbVal v) (itEOF v) (dbEOF v) (prevKey v) (ibFlag v).

(** The rest of the loop body: who is behind decides the callback arguments.
    [inl] is the return of the loop. *)
Definition dispatch (cmp : bytes → bytes → comparison) (f : iterBothFunc) (w : world)
    (v : ibvars) : outcome (world + (world * ibvars)) :=
  if itEOF v && dbEOF v then Ok (inl w)
  else if itEOF v then
    w ← wrap_err "callback it eof" (f w None (dbKey v) (dbVal v) true false);
    Ok (inr (w, clearDb v))
  else if dbEOF v then
    w ← wrap_err "callback db eof" (f w (itKey v) None None false true);
    Ok (inr (w, clearIt v))
  else
    match cmp (gdata (dbKey v)) (gdata (itKey v)) with
    | Lt =>
        w ← wrap_err "callback" (f w None (dbKey v) (dbVal v) false false);
        Ok (inr (w, clearDb v))
    | Eq =>
        w ← wrap_err "callback" (f w (itKey v) (dbKey v) (dbVal v) false false);
        Ok (inr (w, clearIt (clearDb v)))
    | Gt =>
        w ← wrap_err "callback" (f w (itKey v) None None false false);
        Ok (inr (w, clearIt v))
    end.

Fixpoint iterLoop (fuel : nat) (cmp : bytes → bytes → comparison) (f : iterBothFunc)
    (w : world) (v : ibvars) : outcome world :=
  match fuel with
  | O => Hang
  | Datatypes.S fuel =>
      '(w, v) ← fetchIt cmp w v;
      '(w, v) ← fetchDb w v;
      r ← dispatch cmp f w v;
      match r with
      | inl w => Ok w
      | inr (w, v) => iterLoop fuel cmp f w v
      end
  end.

Definition ib0 : ibvars := MkIb None None None false false [] First.

Definition iterBoth (fuel : nat) (w : world) (integerKey : bool) (f : iterBothFunc)
    : outcome world :=
  iterLoop fuel (cmpFunc integerKey) f w ib0.

(** [setNewVal] *)
Definition setNewVal (t : Txn) (h : DBIh) (key : bytes) (oldVal newVal : gobytes)
    : outcome Txn :=
  if bool_decide (glen newVal = 0%nat) then
    match txn_Del t h key None with
    | Err e => if IsNotFound e then Ok t else Err (EWrap "del" e)
    | r => r
    end
  else if bool_decide (gdata newVal = gdata oldVal) then Ok t
  else wrap_err "put" (txn_Put t h key (gdata newVal) 0).

(** ** The strategies *)

(** Strategies that take the entries one by one. *)
Fixpoint doPut (fuel : nat) (t : Txn) (h : DBIh) (s : S) (isEmpty : bool) : outcome Txn :=
  match fuel with
  | O => Hang
  | Datatypes.S fuel =>
      let '(s, r) := it_Next s in
      match r with
      | Err e => if bool_decide (e = EOF) then Ok t else Err (EWrap "next" e)
      | Ok key =>
          '(s, val) ← callMerge s None;
          if bool_decide (glen val = 0%nat) then
            t ← (if isEmpty then Ok t
                 else match txn_Del t h key None with
                      | Err e => if IsNotFound e then Ok t else Err (EWrap "del" e)
                      | r => r
                      end);
            doPut fuel t h s isEmpty
          else
            t ← wrap_err "put" (txn_Put t h key (gdata val) 0);
            doPut fuel t h s isEmpty
      | Panic => Panic
      | Hang => Hang
      end
  end.

Definition Put (fuel : nat) (t : Txn) (h : DBIh) (s : S) : outcome Txn :=
  doPut fuel t h s false.

Definition EmptyPut (fuel : nat) (t : Txn) (h : DBIh) (s : S) : outcome Txn :=
  t ← wrap_err "empty dbi" (txn_Drop t h false);
  wrap_err "put" (doPut fuel t h s true).

Fixpoint appendLoop (fuel : nat) (t : Txn) (h : DBIh) (s : S) (prevKey : bytes)
    : outcome Txn :=
  match fuel with
  | O => Hang
  | Datatypes.S fuel =>
      let '(s, r) := it_Next s in
      match r with
      | Err e => if bool_decide (e = EOF) then Ok t else Err (EWrap "next" e)
      | Ok key =>
          match bytes_Compare prevKey key with
          | Lt =>
              if MaxKeySize <? zlen key then Panic
              else
                '(s, val) ← callMerge s None;
                if bool_decide (glen val = 0%nat) then appendLoop fuel t h s key
                else
                  t ← wrap_err "append" (txn_Put t h key (gdata val) lmdb_Append);
                  appendLoop fuel t h s key
          | _ => Err ErrNotSorted
          end
      | Panic => Panic
      | Hang => Hang
      end
  end.

Definition Append (fuel : nat) (t : Txn) (h : DBIh) (s : S) : outcome Txn :=
  appendLoop fuel t h s [].

Fixpoint Update (fuel : nat) (t : Txn) (h : DBIh) (s : S) : outcome Txn :=
  match fuel with
  | O => Hang
  | Datatypes.S fuel =>
      let '(s, r) := it_Next s in
      match r with
      | Err e => if bool_decide (e = EOF) then Ok t else Err (EWrap "next" e)
      | Ok key =>
          dbv ← match txn_Get t h key with
                | Ok v => Ok (Some v)
                | Err e => if IsNotFound e then Ok None else Err (EWrap "get" e)
                | Panic => Panic
                | Hang => Hang
                end;
          '(s, val) ← callMerge s dbv;
          t ← setNewVal t h key dbv val;
          Update fuel t h s
      | Panic => Panic
      | Hang => Hang
      end
  end.

(** Setup shared by [IterPut] and [IterUpdate]. *)
Definition withIterBoth (fuel : nat) (t : Txn) (h : DBIh) (s : S) (f : iterBothFunc)
    : outcome Txn :=
  c ← wrap_err "open cursor" (txn_OpenCursor t h);
  flags ← wrap_err "get flags" (txn_Flags t h);
  let integerKey := has_flag flags LMDBIntegerKeyFlag in
  w ← wrap_err "iterBoth" (iterBoth fuel (MkWorld t c s) integerKey f);
  Ok (wT w).

(** The callback of [IterPut]. *)
Definition iterPutFunc (h : DBIh) : iterBothFunc := λ w itKey dbKey dbVal itEOF dbEOF,
  match itEOF, itKey with
  | false, Some k =>
      '(s, val) ← callMerge (wS w) None;
      if dbEOF then
        '(t, c) ← wrap_err "lmdb append" (c_Put (wT w) (wC w) k (gdata val) lmdb_Append);
        Ok (MkWorld t c s)
      else
        match dbKey with
        | None =>
            t ← wrap_err "put" (txn_Put (wT w) h k (gdata val) 0);
            Ok (MkWorld t (wC w) s)
        | Some _ =>
            if bool_decide (gdata val = gdata dbVal) then Ok (MkWorld (wT w) (wC w) s)
            else
              t ← wrap_err "put current" (txn_Put (wT w) h k (gdata val) 0);
              Ok (MkWorld t (wC w) s)
        end
  | _, _ =>
      '(t, c) ← wrap_err "del current" (c_Del (wT w) (wC w) 0);
      Ok (MkWorld t c (wS w))
  end.

Definition IterPut (fuel : nat) (t : Txn) (h : DBIh) (s : S) : outcome Txn :=
  withIterBoth fuel t h s (iterPutFunc h).

(** The callback of [IterUpdate]. *)
Definition iterUpdateFunc (h : DBIh) : iterBothFunc := λ w itKey dbKey dbVal itEOF dbEOF,
  match itEOF, itKey with
  | false, Some k =>
      '(s, val) ← callMerge (wS w) None;
      if dbEOF then
        if bool_decide (glen val = 0%nat) then Ok (MkWorld (wT w) (wC w) s)
        else
          '(t, c) ← wrap_err "lmdb append" (c_Put (wT w) (wC w) k (gdata val) lmdb_Append);
          Ok (MkWorld t c s)
      else
        match dbKey with
        | None =>
            if bool_decide (glen val = 0%nat) then Ok (MkWorld (wT w) (wC w) s)
            else
              t ← wrap_err "put" (txn_Put (wT w) h k (gdata val) 0);
              Ok (MkWorld t (wC w) s)
        | Some _ =>
            '(s, val) ← callMerge s dbVal;
            if bool_decide (glen val = 0%nat) then
              '(t, c) ← wrap_err "del" (c_Del (wT w) (wC w) 0);
              Ok (MkWorld t c s)
            else if bool_decide (gdata val = gdata dbVal) then Ok (MkWorld (wT w) (wC w) s)
            else
              t ← wrap_err "put current" (txn_Put (wT w) h k (gdata val) 0);
              Ok (MkWorld t (wC w) s)
        end
  | _, _ =>
      '(s, val) ← callClean (wS w) dbVal;
      match val with
      | None =>
          '(t, c) ← wrap_err "del cleaned" (c_Del (wT w) (wC w) 0);
          Ok (MkWorld t c s)
      | Some b =>
          if bool_decide (b = gdata dbVal) then Ok (MkWorld (wT w) (wC w) s)
          else
            t ← wrap_err "put cleaned" (txn_Put (wT w) h (gdata dbKey) b 0);
            Ok (MkWorld t (wC w) s)
      end
  end.

Definition IterUpdate (fuel : nat) (t : Txn) (h : DBIh) (s : S) : outcome Txn :=
  withIterBoth fuel t h s (iterUpdateFunc h).

(** [Pick] *)
Definition Pick (isEmpty : bool) : nat → Txn → DBIh → S → outcome Txn :=
  if isEmpty then Append else IterPut.
End strategies.

(** ** What an iterator promises *)

(** [at_ s cur xs]: [cur] was returned last and [xs] is still to come.  The
    merge of an item and the clean-up are functions of their arguments; what
    an iterator keeps between calls (buffers, counters) does not show. *)
Class IteratorSpec (S : Type) `{I : Iterator S} : Type := {
  item : Type;
  ikey : item → bytes;
  imerge : item → gobytes → outcome gobytes;
  iclean : gobytes → outcome gobytes;
  at_ : S → option item → list item → Prop;
  spec_next s cur x xs :
    at_ s cur (x :: xs) → ∃ s', it_Next s = (s', Ok (ikey x)) ∧ at_ s' (Some x) xs;
  spec_eof s cur :
    at_ s cur [] → ∃ s', it_Next s = (s', Err EOF) ∧ at_ s' cur [];
  spec_merge s x xs old :
    at_ s (Some x) xs → ∃ s', it_Merge s old = (s', imerge x old) ∧ at_ s' (Some x) xs;
  spec_clean s cur xs old :
    at_ s cur xs → ∃ s', it_Clean s old = (s', iclean old) ∧ at_ s' cur xs;
}.

(** An empty value stands for no entry. *)
Definition present (v : gobytes) : option bytes :=
  match v with Some (b :: l) => Some (b :: l) | _ => None end.

Lemma present_none v : glen v = 0%nat ↔ present v = None.
Proof. destruct v as [[|]|]; simpl; split; done || lia. Qed.

Lemma present_some v : glen v ≠ 0%nat → present v = Some (gdata v) ∧ v = Some (gdata v).
Proof. destruct v as [[|]|]; simpl; done || lia. Qed.

(** Write or remove one key. *)
Definition setkey (m : gmap bytes bytes) (k : bytes) (o : option bytes) : gmap bytes bytes :=
  match o with Some v => <[k:=v]> m | None => delete k m end.

Lemma lookup_setkey_eq m k o : setkey m k o !! k = o.
Proof. destruct o; simpl; [apply lookup_insert_eq|apply lookup_delete_eq]. Qed.

Lemma lookup_setkey_ne m k k' o : k ≠ k' → setkey m k o !! k' = m !! k'.
Proof. intros. destruct o; simpl; [by apply lookup_insert_ne|by apply lookup_delete_ne]. Qed.

Lemma setkey_id m k : setkey m k (m !! k) = m.
Proof. destruct (m !! k) eqn:E; simpl; [by apply insert_id|by apply delete_id]. Qed.

Lemma wrap_err_ok {A} msg (a : A) : wrap_err msg (Ok a) = Ok a.
Proof. done. Qed.

(** ** The comparison of [iterBoth] is the order of the database *)

Lemma cmpFunc_plain : cmpFunc false = bytes_Compare.
Proof. done. Qed.

Lemma cmpFunc_integer a b :
  (zlen a = 4 ∨ zlen a = 8) → (zlen b = 4 ∨ zlen b = 8) →
  cmpFunc true a b = (le_get a ?= le_get b).
Proof.
  intros Ha Hb. change (cmpFunc true) with cmpIntegerLittleEndian.
  assert (∀ x, zlen x = 4 ∨ zlen x = 8 → bytesToInt x = le_get x) as Hi.
  { intros x Hx. unfold bytesToInt. repeat case_if; done || lia. }
  unfold cmpIntegerLittleEndian. rewrite !Hi by done.
  repeat case_if; symmetry; [by apply Z.compare_lt_iff|by apply Z.compare_gt_iff|].
  apply Z.compare_eq_iff. lia.
Qed.

(** Before the first key: a key that is not zero is greater than the empty one. *)
Lemma cmpFunc_integer_nil b :
  (zlen b = 4 ∨ zlen b = 8) → cmpFunc true [] b = (0 ?= le_get b).
Proof.
  intros Hb. change (cmpFunc true) with cmpIntegerLittleEndian.
  unfold cmpIntegerLittleEndian. change (bytesToInt []) with 0.
  assert (bytesToInt b = le_get b) as -> by (unfold bytesToInt; repeat case_if; done || lia).
  repeat case_if; symmetry; [by apply Z.compare_lt_iff|by apply Z.compare_gt_iff|].
  apply Z.compare_eq_iff. lia.
Qed.

Section compare.
Context `{V : LMDBView} `{!LMDBLaws L V}.

(** The databases the ordered strategies support: plain or integer keys. *)
Definition ordered (t : Txn) (h : DBIh) : Prop :=
  has_flag (dflags t h) LMDBIntegerKeyFlag = true ∨
  has_flag (dflags t h) lmdb_ReverseKey = false.

Definition cmpOf (t : Txn) (h : DBIh) : bytes → bytes → comparison :=
  cmpFunc (has_flag (dflags t h) LMDBIntegerKeyFlag).

Lemma cmpOf_ok t h a b :
  ordered t h → key_ok t h a → key_ok t h b → cmpOf t h a b = lmdb_cmp (dflags t h) a b.
Proof.
  intros Ho [_ Ha] [_ Hb]. unfold cmpOf, lmdb_cmp.
  destruct (has_flag (dflags t h) LMDBIntegerKeyFlag) eqn:E.
  - pose proof (ksize_ok h). apply cmpFunc_integer; rewrite ?Ha, ?Hb by done; done.
  - destruct Ho as [Ho|Ho]; [congruence|]. by rewrite Ho.
Qed.

(** The first key passes the check against the empty key, zero excepted. *)
Definition first_ok (t : Txn) (h : DBIh) (k : bytes) : Prop :=
  has_flag (dflags t h) LMDBIntegerKeyFlag = true → le_get k ≠ 0.

Lemma cmpOf_nil t h k : key_ok t h k → first_ok t h k → cmpOf t h [] k = Lt.
Proof.
  intros [Hl Hk] Hf. unfold cmpOf, first_ok in *.
  destruct (has_flag (dflags t h) LMDBIntegerKeyFlag) eqn:E.
  - pose proof (ksize_ok h). rewrite cmpFunc_integer_nil by (rewrite Hk; done).
    apply Z.compare_lt_iff. pose proof (le_get_range k). specialize (Hf eq_refl). lia.
  - rewrite cmpFunc_plain. destruct k; [|done]. rewrite zlen_nil in Hl. lia.
Qed.
End compare.

(** ** Correctness of iterBoth *)

Section iterboth.
Context `{V : LMDBView} `{HL : !LMDBLaws L V}.
Context {S : Type} `{Sp : IteratorSpec S}.
Context (t0 : Txn) (h : DBIh).

(** Keys in the order of the database. *)
Definition klt (a b : bytes) : Prop := lmdb_cmp (dflags t0 h) a b = Lt.

Lemma klt_irrefl k : ¬ klt k k.
Proof. unfold klt. by rewrite lmdb_cmp_refl. Qed.

Lemma klt_trans a b c : klt a b → klt b c → klt a c.
Proof. apply lmdb_cmp_lt_trans. Qed.

Definition imap (xs : list item) : gmap bytes item := list_to_map ((λ x, (ikey x, x)) <$> xs).
Definition emap (ds : list (bytes * bytes)) : gmap bytes bytes := list_to_map ds.

Lemma imap_none xs k : (∀ x, x ∈ xs → ikey x ≠ k) → imap xs !! k = None.
Proof.
  intros H. apply not_elem_of_list_to_map. rewrite <- list_fmap_compose, list_elem_of_fmap.
  intros (x & -> & Hin). by apply (H x).
Qed.

Lemma emap_none ds k : (∀ e, e ∈ ds → e.1 ≠ k) → emap ds !! k = None.
Proof.
  intros H. apply not_elem_of_list_to_map. rewrite list_elem_of_fmap.
  intros (e & -> & Hin). by apply (H e).
Qed.

(** What the callback does with a key on one or both sides. *)
Record effects : Type := MkEffects {
  onlyDb : bytes → option bytes;
  onlyIt : item → option bytes;
  onBoth : item → bytes → option bytes;
  okDb : bytes → Prop;
  okIt : item → option bytes → Prop;
}.

Definition merged (E : effects) (xs : list item) (ds : list (bytes * bytes))
    (m : gmap bytes bytes) (k : bytes) : option bytes :=
  match imap xs !! k, emap ds !! k with
  | Some x, Some v => onBoth E x v
  | Some x, None => onlyIt E x
  | None, Some v => onlyDb E v
  | None, None => m !! k
  end.

Definition wok (w : world (S:=S)) : Prop := framed t0 (wT w) h ∧ cdb (wC w) = h.

Abbreviation wm w := (dbm (wT w) h).

(** One call of the callback: a single key changes. *)
Definition wstep (w w' : world (S:=S)) (k : bytes) (o : option bytes) : Prop :=
  wm w' = setkey (wm w) k o ∧ wok w'.

Record callback (E : effects) (f : iterBothFunc (S:=S)) : Prop := MkCallback {
  cb_db w k v eof cur xs :
    wok w → cpos (wC w) = Some k → wm w !! k = Some v → key_ok t0 h k → okDb E v →
    at_ (wS w) cur xs →
    ∃ w', f w None (Some k) (Some v) eof false = Ok w' ∧ wstep w w' k (onlyDb E v) ∧
      rest (wT w') (wC w') = rest (wT w) (wC w) ∧ at_ (wS w') cur xs;
  cb_it w x xs p :
    wok w → cpos (wC w) = Some p → klt (ikey x) p → wm w !! ikey x = None →
    key_ok t0 h (ikey x) → okIt E x None → at_ (wS w) (Some x) xs →
    ∃ w', f w (Some (ikey x)) None None false false = Ok w' ∧
      wstep w w' (ikey x) (onlyIt E x) ∧
      rest (wT w') (wC w') = rest (wT w) (wC w) ∧ cpos (wC w') = Some p ∧
      at_ (wS w') (Some x) xs;
  cb_append w x xs :
    wok w → (∀ k, is_Some (wm w !! k) → klt k (ikey x)) → wm w !! ikey x = None →
    key_ok t0 h (ikey x) → okIt E x None → at_ (wS w) (Some x) xs →
    ∃ w', f w (Some (ikey x)) None None false true = Ok w' ∧
      wstep w w' (ikey x) (onlyIt E x) ∧ at_ (wS w') (Some x) xs;
  cb_both w x v xs :
    wok w → cpos (wC w) = Some (ikey x) → wm w !! ikey x = Some v →
    key_ok t0 h (ikey x) → okIt E x (Some v) → at_ (wS w) (Some x) xs →
    ∃ w', f w (Some (ikey x)) (Some (ikey x)) (Some v) false false = Ok w' ∧
      wstep w w' (ikey x) (onBoth E x v) ∧
      rest (wT w') (wC w') = rest (wT w) (wC w) ∧ at_ (wS w') (Some x) xs;
}.

(** *** The loop invariant

    [xs] and [ds] are the items and entries not handled yet, those already
    fetched included. *)
Inductive itready (s : S) (v : ibvars) : list item → Prop :=
  | itr_eof cur : itKey v = None → itEOF v = true → at_ s cur [] → itready s v []
  | itr_key x xs : itKey v = Some (ikey x) → itEOF v = false → prevKey v = ikey x →
      at_ s (Some x) xs → itready s v (x :: xs).

Inductive itside (s : S) (v : ibvars) : list item → Prop :=
  | its_fetch cur xs : itKey v = None → itEOF v = false → at_ s cur xs →
      match xs with x :: _ => cmpOf t0 h (prevKey v) (ikey x) = Lt | [] => True end →
      itside s v xs
  | its_ready xs : itready s v xs → itside s v xs.

Inductive dbready (t : Txn) (c : Cursor) (v : ibvars) : list (bytes * bytes) → Prop :=
  | dbr_eof : dbKey v = None → dbEOF v = true → dbready t c v []
  | dbr_key k x r : dbKey v = Some k → dbVal v = Some x → dbEOF v = false →
      ibFlag v = Next → cpos c = Some k → rest t c = r → dbready t c v ((k, x) :: r).

Inductive dbside (t : Txn) (c : Cursor) (v : ibvars) : list (bytes * bytes) → Prop :=
  | dbs_fetch ds : dbKey v = None → dbEOF v = false →
      match ibFlag v with First => entries t h = ds | Next => rest t c = ds | SetRange => False end →
      dbside t c v ds
  | dbs_ready ds : dbready t c v ds → dbside t c v ds.

(** The part of the invariant that does not depend on what was fetched. *)
Record ibinv (E : effects) (m : gmap bytes bytes) (xs : list item)
    (ds : list (bytes * bytes)) : Prop := MkInv {
  inv_xs : StronglySorted (λ x y, klt (ikey x) (ikey y)) xs;
  inv_ds : StronglySorted (λ e e', klt e.1 e'.1) ds;
  inv_kx x : x ∈ xs → key_ok t0 h (ikey x);
  inv_kd e : e ∈ ds → key_ok t0 h e.1;
  inv_dm k v : (k, v) ∈ ds → m !! k = Some v;
  inv_lt k x : is_Some (m !! k) → (∀ e, e ∈ ds → e.1 ≠ k) → x ∈ xs → klt k (ikey x);
  inv_okx x : x ∈ xs → okIt E x (emap ds !! ikey x);
  inv_okd e : e ∈ ds → (∀ x, x ∈ xs → ikey x ≠ e.1) → okDb E e.2;
}.

Lemma fetchIt_ok v (w : world (S:=S)) xs :
  itside (wS w) v xs → Forall (λ x, zlen (ikey x) <= 511) xs →
  ∃ s' v', fetchIt (cmpOf t0 h) w v = Ok (MkWorld (wT w) (wC w) s', v') ∧
    itready s' v' xs ∧ dbKey v' = dbKey v ∧ dbVal v' = dbVal v ∧
    dbEOF v' = dbEOF v ∧ ibFlag v' = ibFlag v.
Proof.
  intros [cur xs' Hk He Hat Hlt|xs' Hr] Hl; unfold fetchIt.
  - rewrite Hk, He. destruct xs' as [|x xs'].
    + destruct (spec_eof _ _ Hat) as (s' & -> & Hat').
      rewrite bool_decide_eq_true_2 by done. do 2 eexists. split; [done|].
      split; [by econstructor|done].
    + destruct (spec_next _ _ _ _ Hat) as (s' & -> & Hat'). rewrite Hlt.
      apply Forall_inv in Hl. rewrite (proj2 (Z.ltb_ge _ _)) by (unfold MaxKeySize; lia).
      do 2 eexists. split; [done|]. split; [by constructor|done].
  - destruct w as [t c s]. exists s, v. split; [|done].
    destruct Hr as [? Hk He|? ? Hk He]; rewrite Hk; [by rewrite He|done].
Qed.

Lemma fetchDb_ok v (w : world (S:=S)) ds :
  readable (wT w) (cdb (wC w)) → cdb (wC w) = h → dbside (wT w) (wC w) v ds →
  ∃ c' v', fetchDb w v = Ok (MkWorld (wT w) c' (wS w), v') ∧ cdb c' = h ∧
    dbready (wT w) c' v' ds ∧
    itKey v' = itKey v ∧ itEOF v' = itEOF v ∧ prevKey v' = prevKey v.
Proof using HL.
  intros Hr Hc [ds' Hk He Hf|ds' Hd]; unfold fetchDb.
  - assert (cursor_reads (wT w) (wC w) (ibFlag v) ds') as Hcr.
    { destruct (ibFlag v); [|..|done].
      - rewrite <- Hf, <- Hc. by apply cursor_first.
      - rewrite <- Hf. by apply cursor_next. }
    rewrite Hk, He. unfold cursor_reads in Hcr. destruct ds' as [|[k x] r].
    + destruct Hcr as (c' & -> & Hc'). unfold IsNotFound.
      rewrite bool_decide_eq_true_2 by done.
      do 2 eexists. split; [done|]. split; [congruence|]. split; [by constructor|done].
    + destruct Hcr as (c' & -> & Hc' & Hp & Hrest).
      do 2 eexists. split; [done|]. split; [congruence|]. split; [by constructor|done].
  - destruct w as [t c s]. exists c, v. split; [|done].
    destruct Hd as [Hk He|? ? ? Hk]; rewrite Hk; [by rewrite He|done].
Qed.

(** *** Dropping the handled key *)

Lemma klt_ne a b : klt a b → a ≠ b.
Proof. intros H ->. by apply klt_irrefl in H. Qed.

Lemma sorted_head {A} (key : A → bytes) x xs :
  StronglySorted (λ x y, klt (key x) (key y)) (x :: xs) →
  StronglySorted (λ x y, klt (key x) (key y)) xs ∧ ∀ y, y ∈ xs → klt (key x) (key y).
Proof.
  intros H. apply StronglySorted_inv in H as [H1 H2]. split; [done|].
  rewrite Forall_forall in H2. intros y Hy. apply H2. by apply list_elem_of_In.
Qed.

Lemma imap_cons x xs k :
  imap (x :: xs) !! k = if decide (ikey x = k) then Some x else imap xs !! k.
Proof.
  unfold imap. rewrite fmap_cons. simpl.
  destruct (decide (ikey x = k)) as [<-|]; [by rewrite lookup_insert_eq|by rewrite lookup_insert_ne].
Qed.

Lemma emap_cons e ds k :
  emap (e :: ds) !! k = if decide (e.1 = k) then Some e.2 else emap ds !! k.
Proof.
  unfold emap. destruct e as [k' v]. simpl.
  destruct (decide (k' = k)) as [<-|]; [by rewrite lookup_insert_eq|by rewrite lookup_insert_ne].
Qed.

Lemma setkey_some m k o k' :
  is_Some (setkey m k o !! k') → k' = k ∨ (k' ≠ k ∧ is_Some (m !! k')).
Proof.
  destruct (decide (k' = k)); [by left|]. rewrite lookup_setkey_ne by done. by right.
Qed.

Lemma drop_db E m xs k v ds :
  ibinv E m xs ((k, v) :: ds) → (∀ x, x ∈ xs → klt k (ikey x)) →
  let m' := setkey m k (onlyDb E v) in
  ibinv E m' xs ds ∧ ∀ k', merged E xs ds m' k' = merged E xs ((k, v) :: ds) m k'.
Proof.
  intros [Hxs Hds Hkx Hkd Hdm Hlt Hox Hod] Hx. cbv zeta.
  apply sorted_head in Hds as [Hds Hd].
  assert (Hne : ∀ e, e ∈ ds → e.1 ≠ k) 
    by (intros e Hin Ee; apply (klt_irrefl k); rewrite <- Ee at 2; by apply (Hd e)).
  assert (Hnx : ∀ x, x ∈ xs → ikey x ≠ k)
    by (intros x Hin Ex; apply (klt_irrefl k); rewrite <- Ex at 2; auto).
  split.
  - split; [done|done|done|by intros; apply Hkd; right| | | |].
    + intros k' v' Hin. rewrite lookup_setkey_ne; [by apply Hdm; right|].
      symmetry. by apply (Hne (k', v')).
    + intros k' x Hs Hn Hin. apply setkey_some in Hs as [->|[Hk Hs]]; [by apply Hx|].
      apply (Hlt k' x); [done| |done].
      intros e [->|He]%elem_of_cons; [by apply not_eq_sym|by apply Hn].
    + intros x Hin. specialize (Hox x Hin). rewrite emap_cons in Hox.
      rewrite decide_False in Hox by (apply not_eq_sym; by apply Hnx). done.
    + intros e He. apply Hod. by right.
  - intros k'. unfold merged. rewrite emap_cons. cbn [fst snd].
    destruct (decide (k = k')) as [<-|Hk].
    + rewrite (imap_none xs k), (emap_none ds k) by done. by rewrite lookup_setkey_eq.
    + by rewrite lookup_setkey_ne.
Qed.

Lemma drop_it E m x xs ds :
  ibinv E m (x :: xs) ds → (∀ e, e ∈ ds → klt (ikey x) e.1) →
  let m' := setkey m (ikey x) (onlyIt E x) in
  ibinv E m' xs ds ∧ ∀ k', merged E xs ds m' k' = merged E (x :: xs) ds m k'.
Proof.
  intros [Hxs Hds Hkx Hkd Hdm Hlt Hox Hod] He. cbv zeta.
  apply sorted_head in Hxs as [Hxs Hx].
  assert (Hne : ∀ e, e ∈ ds → e.1 ≠ ikey x)
    by (intros e Hin Ee; apply (klt_irrefl (ikey x)); rewrite <- Ee at 2; auto).
  assert (Hnx : ∀ y, y ∈ xs → ikey y ≠ ikey x)
    by (intros y Hin Ey; apply (klt_irrefl (ikey x)); rewrite <- Ey at 2; auto).
  split.
  - split; [done|done|by intros; apply Hkx; right|done| | | |].
    + intros k' v' Hin. rewrite lookup_setkey_ne; [by apply Hdm|].
      symmetry. by apply (Hne (k', v')).
    + intros k' y Hs Hn Hin. apply setkey_some in Hs as [->|[Hk Hs]]; [by apply Hx|].
      apply (Hlt k' y); [done|done|by right].
    + intros y Hin. apply Hox. by right.
    + intros e Hin Hn. apply Hod; [done|].
      intros y [->|Hy]%elem_of_cons; [apply not_eq_sym; by apply Hne|by apply Hn].
  - intros k'. unfold merged. rewrite imap_cons.
    destruct (decide (ikey x = k')) as [<-|Hk].
    + rewrite (imap_none xs (ikey x)), (emap_none ds (ikey x)) by done.
      by rewrite lookup_setkey_eq.
    + by rewrite lookup_setkey_ne.
Qed.

Lemma drop_both E m x xs v ds :
  ibinv E m (x :: xs) ((ikey x, v) :: ds) →
  let m' := setkey m (ikey x) (onBoth E x v) in
  ibinv E m' xs ds ∧
  ∀ k', merged E xs ds m' k' = merged E (x :: xs) ((ikey x, v) :: ds) m k'.
Proof.
  intros [Hxs Hds Hkx Hkd Hdm Hlt Hox Hod]. cbv zeta.
  apply sorted_head in Hxs as [Hxs Hx]. apply sorted_head in Hds as [Hds Hd]. cbn [fst] in Hd.
  assert (Hne : ∀ e, e ∈ ds → e.1 ≠ ikey x)
    by (intros e Hin Ee; apply (klt_irrefl (ikey x)); rewrite <- Ee at 2; auto).
  assert (Hnx : ∀ y, y ∈ xs → ikey y ≠ ikey x)
    by (intros y Hin Ey; apply (klt_irrefl (ikey x)); rewrite <- Ey at 2; auto).
  split.
  - split; [done|done|by intros; apply Hkx; right|by intros; apply Hkd; right| | | |].
    + intros k' v' Hin. rewrite lookup_setkey_ne; [by apply Hdm; right|].
      symmetry. by apply (Hne (k', v')).
    + intros k' y Hs Hn Hin. apply setkey_some in Hs as [->|[Hk Hs]]; [by apply Hx|].
      apply (Hlt k' y); [done| |by right].
      intros e [->|He]%elem_of_cons; [by apply not_eq_sym|by apply Hn].
    + intros y Hin. assert (Hy : y ∈ x :: xs) by (by right).
      specialize (Hox y Hy). rewrite emap_cons in Hox. cbn [fst] in Hox.
      rewrite decide_False in Hox by (apply not_eq_sym; by apply Hnx). done.
    + intros e Hin Hn. apply Hod; [by right|].
      intros y [->|Hy]%elem_of_cons; [apply not_eq_sym; by apply Hne|by apply Hn].
  - intros k'. unfold merged. rewrite imap_cons, emap_cons. cbn [fst snd].
    destruct (decide (ikey x = k')) as [<-|Hk].
    + rewrite (imap_none xs (ikey x)), (emap_none ds (ikey x)) by done.
      by rewrite lookup_setkey_eq.
    + by rewrite lookup_setkey_ne.
Qed.

(** *** The loop *)

Lemma itready_ext s v v' xs :
  itready s v xs → itKey v' = itKey v → itEOF v' = itEOF v → prevKey v' = prevKey v →
  itready s v' xs.
Proof. intros [] ???; econstructor; eauto; congruence. Qed.

Lemma dbside_ext t c v v' ds :
  dbside t c v ds → dbKey v' = dbKey v → dbVal v' = dbVal v → dbEOF v' = dbEOF v →
  ibFlag v' = ibFlag v → dbside t c v' ds.
Proof.
  intros [ds' ? ? Hf|ds' []] ??? Efl.
  - apply dbs_fetch; [congruence..|]. by rewrite Efl.
  - apply dbs_ready, dbr_eof; congruence.
  - apply dbs_ready, dbr_key; congruence.
Qed.

(** The iterator has handed out [x] and the key is cleared. *)
Lemma itside_clear E m s v x xs ds :
  ordered t0 h → ibinv E m (x :: xs) ds → itKey v = None → itEOF v = false →
  prevKey v = ikey x → at_ s (Some x) xs → itside s v xs.
Proof using HL.
  intros Ho Hinv Hk He Hp Hat. eapply its_fetch; [done|done|done|].
  destruct xs as [|y xs]; [done|]. rewrite Hp.
  pose proof (inv_xs _ _ _ _ Hinv) as Hs. apply sorted_head in Hs as [_ Hs].
  rewrite cmpOf_ok; [apply Hs; by left|done|..]; apply (inv_kx _ _ _ _ Hinv); set_solver.
Qed.

Lemma wm_none E m x xs ds :
  ibinv E m (x :: xs) ds → (∀ e, e ∈ ds → e.1 ≠ ikey x) → m !! ikey x = None.
Proof.
  intros Hinv Hn. destruct (m !! ikey x) eqn:Em; [|done]. exfalso.
  apply (klt_irrefl (ikey x)). apply (inv_lt _ _ _ _ Hinv); [by eauto|done|by left].
Qed.

(** What a round leaves: less to do, and the same merged content in sight. *)
Definition advanced (E : effects) (w : world (S:=S)) xs ds (w' : world (S:=S)) v' : Prop :=
  wok w' ∧
  ∃ xs' ds', itside (wS w') v' xs' ∧ dbside (wT w') (wC w') v' ds' ∧
    ibinv E (wm w') xs' ds' ∧
    (length xs' + length ds' < length xs + length ds)%nat ∧
    ∀ k, merged E xs' ds' (wm w') k = merged E xs ds (wm w) k.

(** The database is asked for its next key. *)
Lemma dbside_next t c v r :
  dbKey v = None → dbEOF v = false → ibFlag v = Next → rest t c = r → dbside t c v r.
Proof. intros Hk He Hf Hr. apply dbs_fetch; [done..|]. by rewrite Hf. Qed.

Lemma advanced_db E w w' v' xs k y r :
  ibinv E (wm w) xs ((k, y) :: r) → (∀ z, z ∈ xs → klt k (ikey z)) →
  wstep w w' k (onlyDb E y) → itside (wS w') v' xs → dbside (wT w') (wC w') v' r →
  advanced E w xs ((k, y) :: r) w' v'.
Proof using HL.
  intros Hinv Hlt [Hm Hw'] Hi Hd. split; [done|]. exists xs, r.
  destruct (drop_db E (wm w) xs k y r Hinv Hlt) as [Hinv' Hmg].
  rewrite Hm. split_and!; [done..|simpl; lia|done].
Qed.

Lemma advanced_it E w w' v' x xs ds :
  ibinv E (wm w) (x :: xs) ds → (∀ e, e ∈ ds → klt (ikey x) e.1) →
  wstep w w' (ikey x) (onlyIt E x) → itside (wS w') v' xs → dbside (wT w') (wC w') v' ds →
  advanced E w (x :: xs) ds w' v'.
Proof using HL.
  intros Hinv Hlt [Hm Hw'] Hi Hd. split; [done|]. exists xs, ds.
  destruct (drop_it E (wm w) x xs ds Hinv Hlt) as [Hinv' Hmg].
  rewrite Hm. split_and!; [done..|simpl; lia|done].
Qed.

Lemma advanced_both E w w' v' x xs y r :
  ibinv E (wm w) (x :: xs) ((ikey x, y) :: r) →
  wstep w w' (ikey x) (onBoth E x y) → itside (wS w') v' xs → dbside (wT w') (wC w') v' r →
  advanced E w (x :: xs) ((ikey x, y) :: r) w' v'.
Proof using HL.
  intros Hinv [Hm Hw'] Hi Hd. split; [done|]. exists xs, r.
  destruct (drop_both E (wm w) x xs y r Hinv) as [Hinv' Hmg].
  rewrite Hm. split_and!; [done..|simpl; lia|done].
Qed.

(** Both sides have a key: the comparison chooses. *)
Lemma dispatch_compare E f (w : world (S:=S)) v x xs k y r :
  ordered t0 h → callback E f → wok w → ibinv E (wm w) (x :: xs) ((k, y) :: r) →
  itKey v = Some (ikey x) → itEOF v = false → prevKey v = ikey x → at_ (wS w) (Some x) xs →
  dbKey v = Some k → dbVal v = Some y → dbEOF v = false → ibFlag v = Next →
  cpos (wC w) = Some k → rest (wT w) (wC w) = r →
  ∃ w' v', dispatch (cmpOf t0 h) f w v = Ok (inr (w', v')) ∧
    advanced E w (x :: xs) ((k, y) :: r) w' v'.
Proof using HL.
  intros Ho Hf Hw Hinv Hk He Hp Hat Hdk Hdv Hde Hfl Hc Hr. unfold dispatch.
  rewrite He, Hde, Hk, Hdk, Hdv. cbn [andb gdata default].
  assert (Hok : key_ok t0 h k) by (by apply (inv_kd _ _ _ _ Hinv (k, y)); left).
  assert (Hox : key_ok t0 h (ikey x)) by (by apply (inv_kx _ _ _ _ Hinv); left).
  pose proof (inv_xs _ _ _ _ Hinv) as Hsx. apply sorted_head in Hsx as [_ Hsx].
  pose proof (inv_ds _ _ _ _ Hinv) as Hsd. apply sorted_head in Hsd as [_ Hsd].
  change (cmpOf t0 h (id k) (id (ikey x))) with (cmpOf t0 h k (ikey x)).
  rewrite cmpOf_ok by done. destruct (lmdb_cmp (dflags t0 h) k (ikey x)) eqn:Ec.
  - apply key_ok_eq in Ec as ->; [|done..].
    destruct (cb_both E f Hf w x y xs) as (w' & -> & Hs & Hr' & Hat');
      [done|done|by eapply inv_dm; [done|left]|done| |done|].
    { pose proof (inv_okx _ _ _ _ Hinv x ltac:(by left)) as Hx.
      rewrite emap_cons in Hx. cbn [fst snd] in Hx. by rewrite decide_True in Hx. }
    do 2 eexists. split; [done|]. apply advanced_both; [done..| |].
    + by eapply (itside_clear E _ _ _ x xs).
    + apply dbside_next; [done..|congruence].
  - assert (Hkx : ∀ z, z ∈ x :: xs → klt k (ikey z)).
    { intros z [->|Hz]%elem_of_cons; [done|]. eapply klt_trans; [done|auto]. }
    destruct (cb_db E f Hf w k y false (Some x) xs) as (w' & -> & Hs & Hr' & Hat');
      [done|done|by eapply inv_dm; [done|left]|done| |done|].
    { apply (inv_okd _ _ _ _ Hinv (k, y)); [by left|].
      intros z Hz. apply not_eq_sym, klt_ne. auto. }
    do 2 eexists. split; [done|]. apply advanced_db; [done..|by apply its_ready, itr_key|].
    apply dbside_next; [done..|congruence].
  - apply lmdb_cmp_gt in Ec.
    assert (Hkd : ∀ e, e ∈ (k, y) :: r → klt (ikey x) e.1).
    { intros e [->|Hin]%elem_of_cons; [done|]. eapply klt_trans; [exact Ec|]. by apply (Hsd e). }
    assert (Hnd : ∀ e, e ∈ (k, y) :: r → e.1 ≠ ikey x)
      by (intros e Hin; apply not_eq_sym, klt_ne; auto).
    destruct (cb_it E f Hf w x xs k) as (w' & -> & Hs & Hr' & Hc' & Hat');
      [done|done|done|by eapply wm_none|done| |done|].
    { rewrite <- (emap_none ((k, y) :: r) (ikey x)) by done. apply (inv_okx _ _ _ _ Hinv). by left. }
    do 2 eexists. split; [done|]. apply advanced_it; [done..| |].
    + by eapply (itside_clear E _ _ _ x xs).
    + apply dbs_ready, dbr_key; try done. by rewrite Hr'.
Qed.

(** One round: a key is handled on one side or both, or the loop returns. *)
Lemma dispatch_ok E f (w : world (S:=S)) v xs ds :
  ordered t0 h → callback E f → wok w →
  itready (wS w) v xs → dbready (wT w) (wC w) v ds → ibinv E (wm w) xs ds →
  ∃ r, dispatch (cmpOf t0 h) f w v = Ok r ∧
    match r with
    | inl w' => w' = w ∧ xs = [] ∧ ds = []
    | inr (w', v') => advanced E w xs ds w' v'
    end.
Proof using HL.
  intros Ho Hf Hw Hi Hd Hinv.
  destruct Hi as [cur Hk He Hat|x xs Hk He Hp Hat], Hd as [Hdk Hde|k y r Hdk Hdv Hde Hfl Hc Hr].
  - unfold dispatch. rewrite He, Hde. by eexists.
  - unfold dispatch. rewrite He, Hde. cbn [andb]. rewrite Hdk, Hdv.
    destruct (cb_db E f Hf w k y true cur []) as (w' & -> & Hs & Hr' & Hat');
      [done|done|by eapply inv_dm; [done|left]|by eapply (inv_kd _ _ _ _ Hinv (k, y)); left|
       eapply (inv_okd _ _ _ _ Hinv (k, y)); set_solver|done|].
    eexists. split; [done|]. apply advanced_db; [done|set_solver|done|by eapply its_ready, itr_eof|].
    apply dbside_next; [done..|congruence].
  - unfold dispatch. rewrite He, Hde. cbn [andb]. rewrite Hk.
    pose proof (wm_none _ _ _ _ _ Hinv ltac:(set_solver)) as Hnone.
    destruct (cb_append E f Hf w x xs) as (w' & -> & Hs & Hat');
      [done| |done|by eapply inv_kx; [done|left]| |done|].
    { intros k' Hs. eapply inv_lt; [done..|set_solver|by left]. }
    { apply (inv_okx _ _ _ _ Hinv). by left. }
    eexists. split; [done|]. apply advanced_it; [done|set_solver|done| |by apply dbs_ready, dbr_eof].
    by eapply (itside_clear E _ _ _ x xs []).
  - destruct (dispatch_compare E f w v x xs k y r) as (w' & v' & -> & Ha); [done..|].
    by eexists.
Qed.

Lemma framed_refl t : framed t t h.
Proof. by repeat split. Qed.

Lemma framed_trans t t' t'' : framed t t' h → framed t' t'' h → framed t t'' h.
Proof.
  intros (A1 & A2 & A3 & A4 & A5) (B1 & B2 & B3 & B4 & B5). unfold framed.
  split_and!; [|intros; etransitivity; eauto..|congruence|congruence].
  intros h' ? ?. rewrite B1, A1; done.
Qed.

Lemma framed_live t t' : framed t t' h → live t h → live t' h.
Proof. intros (_ & _ & Hd & _) [n Hn]. exists n. by rewrite Hd. Qed.

Lemma framed_uniq t t' : framed t t' h → uniq t h → uniq t' h.
Proof.
  intros Hf [Hl Hu]. split; [by eapply framed_live|].
  destruct Hf as (_ & Hf & _). by rewrite Hf.
Qed.

Lemma framed_key_ok t t' k : framed t t' h → key_ok t h k → key_ok t' h k.
Proof. intros (_ & Hf & _). unfold key_ok. by rewrite Hf. Qed.

Lemma framed_flags t t' : framed t t' h → dflags t' h = dflags t h.
Proof. intros (_ & Hf & _). apply Hf. Qed.

Lemma iterLoop_ok E f fuel w v xs ds :
  uniq t0 h → ordered t0 h → callback E f → wok w →
  itside (wS w) v xs → dbside (wT w) (wC w) v ds → ibinv E (wm w) xs ds →
  (length xs + length ds < fuel)%nat →
  ∃ w', iterLoop fuel (cmpOf t0 h) f w v = Ok w' ∧ wok w' ∧
    ∀ k, wm w' !! k = merged E xs ds (wm w) k.
Proof using HL.
  intros Hu Ho Hf. revert w v xs ds.
  induction fuel as [|fuel IH]; intros w v xs ds Hw Hi Hd Hinv Hlen; [lia|].
  cbn [iterLoop].
  destruct (fetchIt_ok v w xs Hi) as (s' & v1 & -> & Hi1 & H1 & H2 & H3 & H4).
  { rewrite Forall_forall. intros x Hx. apply (inv_kx _ _ _ _ Hinv). by apply list_elem_of_In. }
  rewrite bind_ok. cbv beta iota.
  set (w1 := MkWorld (wT w) (wC w) s').
  pose proof (dbside_ext _ _ _ v1 _ Hd H1 H2 H3 H4) as Hd1.
  pose proof Hw as [Hfr Hc].
  destruct (fetchDb_ok v1 w1 ds) as (c' & v2 & -> & Hc' & Hd2 & H5 & H6 & H7);
    [right; simpl; rewrite Hc; by eapply framed_live; [exact Hfr|apply Hu]|done|done|].
  rewrite bind_ok. cbv beta iota.
  pose proof (itready_ext _ _ v2 _ Hi1 H5 H6 H7) as Hi2.
  set (w2 := MkWorld (wT w1) c' (wS w1)).
  destruct (dispatch_ok E f w2 v2 xs ds) as (r & -> & Hr); [done|done|by split|done..|].
  rewrite bind_ok. destruct r as [w'|[w' v']].
  - destruct Hr as (-> & -> & ->). exists w2. by split_and!.
  - destruct Hr as (Hw' & xs' & ds' & Hi' & Hd' & Hinv' & Hl' & Hmg).
    destruct (IH w' v' xs' ds') as (w'' & E'' & Hw'' & Hres); [done..|lia|].
    exists w''. split_and!; [done|done|]. intros k. rewrite Hres. apply Hmg.
Qed.

(** Items a strategy that walks both sides accepts. *)
Record sorted_items (xs : list item) : Prop := MkSortedItems {
  si_sorted : StronglySorted (λ x y, klt (ikey x) (ikey y)) xs;
  si_keys : Forall (λ x, key_ok t0 h (ikey x)) xs;
  si_first : match xs with x :: _ => first_ok t0 h (ikey x) | [] => True end;
}.

(** [iterBoth] applies the callback's effect to every key of either side and
    leaves everything else alone. *)
Lemma iterBoth_ok E f fuel c s cur xs :
  uniq t0 h → ordered t0 h → keys_ok t0 h → callback E f → cdb c = h →
  at_ s cur xs → sorted_items xs →
  (∀ x, x ∈ xs → okIt E x (dbm t0 h !! ikey x)) →
  (∀ k v, dbm t0 h !! k = Some v → (∀ x, x ∈ xs → ikey x ≠ k) → okDb E v) →
  (length xs + length (entries t0 h) < fuel)%nat →
  ∃ w', iterBoth fuel (MkWorld t0 c s) (has_flag (dflags t0 h) LMDBIntegerKeyFlag) f = Ok w' ∧
    framed t0 (wT w') h ∧
    ∀ k, wm w' !! k = merged E xs (entries t0 h) (dbm t0 h) k.
Proof using HL.
  intros Hu Ho Hks Hf Hc Hat [Hs Hkx Hfst] Hox Hod Hlen.
  pose proof (entries_sorted t0 h Hu Hks) as Hsd.
  assert (Hnd : NoDup (entries t0 h).*1).
  { clear -Hsd. induction Hsd as [|e l _ IH Hl]; [constructor|]. rewrite fmap_cons.
    apply NoDup_cons_2; [|done]. intros Hin. apply list_elem_of_fmap in Hin as (e' & Ee & Hin).
    rewrite Forall_forall in Hl. apply list_elem_of_In in Hin. specialize (Hl _ Hin).
    simpl in Hl. rewrite Ee, lmdb_cmp_refl in Hl. done. }
  assert (Hdm : ∀ k v, (k, v) ∈ entries t0 h → dbm t0 h !! k = Some v)
    by (intros; by apply elem_of_list_to_map_1).
  destruct (iterLoop_ok E f fuel (MkWorld t0 c s) ib0 xs (entries t0 h))
    as (w' & Ew & [Hw' _] & Hres); [done..|split; [apply framed_refl|done]| | | |done|].
  - eapply its_fetch; [done|done|done|]. destruct xs as [|x xs]; [done|].
    apply cmpOf_nil; [by apply Forall_inv in Hkx|done].
  - by apply dbs_fetch.
  - split.
    + done.
    + done.
    + rewrite Forall_forall in Hkx. intros x Hx. apply Hkx. by apply list_elem_of_In.
    + intros [k v] Hin. apply Hks. exists v. by apply Hdm.
    + done.
    + intros k x [v Hv] Hn. apply elem_of_list_to_map_2 in Hv. by destruct (Hn (k, v)).
    + done.
    + intros [k v] Hin Hn. eapply Hod; [by apply Hdm|done].
  - exists w'. done.
Qed.
End iterboth.

(** ** The callbacks *)

Definition okval (m : outcome gobytes) : gobytes := match m with Ok v => v | _ => None end.

Lemma okval_ok m : is_ok m → m = Ok (okval m).
Proof. by intros [v ->]. Qed.

Section callbacks.
Context `{V : LMDBView} `{HL : !LMDBLaws L V}.
Context {S : Type} `{Sp : IteratorSpec S}.
Context (t0 : Txn) (h : DBIh).
Hypothesis (Hu : uniq t0 h).

Abbreviation world := (world (S:=S)).
Abbreviation wm w := (dbm (wT w) h).

Lemma callMerge_ok s x xs old :
  at_ s (Some x) xs → is_ok (imerge x old) →
  ∃ s', callMerge s old = Ok (s', okval (imerge x old)) ∧ at_ s' (Some x) xs.
Proof.
  intros Hat Hok. destruct (spec_merge s x xs old Hat) as (s' & E & Hat').
  exists s'. unfold callMerge. rewrite E. split; [|done]. by rewrite (okval_ok _ Hok) at 1.
Qed.

Lemma callClean_ok s cur xs old :
  at_ s cur xs → is_ok (iclean old) →
  ∃ s', callClean s old = Ok (s', okval (iclean old)) ∧ at_ s' cur xs.
Proof.
  intros Hat Hok. destruct (spec_clean s cur xs old Hat) as (s' & E & Hat').
  exists s'. unfold callClean. rewrite E. split; [|done]. by rewrite (okval_ok _ Hok) at 1.
Qed.

(** A [txn.Put] at or before the position of the cursor. *)
Lemma put_step (w : world) s' k b p :
  wok t0 h w → key_ok t0 h k → cpos (wC w) = Some p →
  lmdb_cmp (dflags t0 h) k p ≠ Gt →
  ∃ t', txn_Put (wT w) h k b 0 = Ok t' ∧
    wstep t0 h w (MkWorld t' (wC w) s') k (Some b) ∧ rest t' (wC w) = rest (wT w) (wC w).
Proof using Hu HL.
  intros [Hf Hc] Hk Hp Hcmp.
  destruct (put_entry (wT w) h k b) as (t' & E & Hm & Hf' & Hr);
    [by eapply framed_uniq|by eapply framed_key_ok|].
  exists t'. split_and!; [done| |eapply Hr; [done..|by rewrite (framed_flags h _ _ Hf)]].
  split; [done|]. split; [by eapply framed_trans|done].
Qed.

(** A [c.Del] at the position of the cursor. *)
Lemma del_step (w : world) s' k :
  wok t0 h w → cpos (wC w) = Some k → is_Some (wm w !! k) →
  ∃ t' c', c_Del (wT w) (wC w) 0 = Ok (t', c') ∧
    wstep t0 h w (MkWorld t' c' s') k None ∧ rest t' c' = rest (wT w) (wC w).
Proof using Hu HL.
  intros [Hf Hc] Hp Hs.
  destruct (cursor_del (wT w) (wC w) k) as (t' & c' & E & Hc' & Hm & Hf' & Hr);
    [rewrite Hc; by eapply framed_uniq|done|by rewrite Hc|].
  rewrite Hc in *. exists t', c'. split_and!; [done| |done].
  split; [done|]. split; [by eapply framed_trans|done].
Qed.

(** A [c.Put] with the Append flag behind the last key. *)
Lemma append_step (w : world) s' k b :
  wok t0 h w → key_ok t0 h k → (∀ k', is_Some (wm w !! k') → klt t0 h k' k) →
  ∃ t' c', c_Put (wT w) (wC w) k b lmdb_Append = Ok (t', c') ∧
    wstep t0 h w (MkWorld t' c' s') k (Some b).
Proof using Hu HL.
  intros [Hf Hc] Hk Hlt.
  destruct (cursor_append (wT w) (wC w) k b) as (t' & c' & E & Hc' & Hm & Hf');
    [rewrite Hc; by eapply framed_uniq|rewrite Hc; by eapply framed_key_ok| |].
  { rewrite Hc, (framed_flags h _ _ Hf). exact Hlt. }
  rewrite Hc in *. exists t', c'. split; [done|].
  split; [done|]. split; [by eapply framed_trans|done].
Qed.

(** Leaving the value as it is. *)
Lemma keep_step (w : world) s' k o :
  wok t0 h w → wm w !! k = o → wstep t0 h w (MkWorld (wT w) (wC w) s') k o.
Proof. intros Hw <-. split; [by rewrite setkey_id|done]. Qed.

Lemma cmp_refl_le f k : lmdb_cmp f k k ≠ Gt.
Proof. by rewrite lmdb_cmp_refl. Qed.

Lemma klt_le k p : klt t0 h k p → lmdb_cmp (dflags t0 h) k p ≠ Gt.
Proof. unfold klt. by intros ->. Qed.

(** *** IterUpdate *)

Definition updateEffects : effects := {|
  onlyDb v := okval (iclean (Some v));
  onlyIt x := present (okval (imerge x None));
  onBoth x v := present (okval (imerge x (Some v)));
  okDb v := is_ok (iclean (Some v));
  okIt x o := is_ok (imerge x None) ∧ is_ok (imerge x o);
|}.

(** The branch without an item: the stored value is cleaned in place. *)
Lemma cleaned_step (w : world) k v cur xs :
  wok t0 h w → cpos (wC w) = Some k → wm w !! k = Some v → key_ok t0 h k →
  is_ok (iclean (Some v)) → at_ (wS w) cur xs →
  ∃ w', ('(s, val) ← callClean (wS w) (Some v);
    match val with
    | None => '(t, c) ← wrap_err "del cleaned" (c_Del (wT w) (wC w) 0); Ok (MkWorld t c s)
    | Some b => if bool_decide (b = gdata (Some v)) then Ok (MkWorld (wT w) (wC w) s)
        else t ← wrap_err "put cleaned" (txn_Put (wT w) h (gdata (Some k)) b 0);
             Ok (MkWorld t (wC w) s)
    end) = Ok w' ∧ wstep t0 h w w' k (okval (iclean (Some v))) ∧
    rest (wT w') (wC w') = rest (wT w) (wC w) ∧ at_ (wS w') cur xs.
Proof using Hu HL.
  intros Hw Hp Hv Hk Hok Hat.
  destruct (callClean_ok (wS w) cur xs (Some v) Hat Hok) as (s' & -> & Hat').
  rewrite bind_ok. destruct (okval (iclean (Some v))) as [b|].
  - case_bool_decide as Eb.
    + eexists. split; [done|]. cbn in Eb. subst b. split; [by apply keep_step|done].
    + destruct (put_step w s' k b k Hw Hk Hp (cmp_refl_le _ _)) as (t' & Et & Hst & Hr).
      cbn [gdata default]. unfold id. rewrite Et, wrap_err_ok, bind_ok. by eexists.
  - destruct (del_step w s' k Hw Hp) as (t' & c' & Et & Hst & Hr); [by eauto|].
    rewrite Et, wrap_err_ok, bind_ok. by eexists.
Qed.

Lemma iterUpdate_callback : callback t0 h updateEffects (iterUpdateFunc h).
Proof using Hu HL.
  split; unfold iterUpdateFunc.
  - intros w k v eof cur xs Hw Hp Hv Hk Hok Hat. cbn [okDb onlyDb updateEffects] in *.
    destruct eof; by apply cleaned_step.
  - intros w x xs p Hw Hp Hlt Hn Hk [Hok _] Hat. cbn [onlyIt updateEffects].
    destruct (callMerge_ok (wS w) x xs None Hat Hok) as (s' & -> & Hat'). rewrite bind_ok.
    case_bool_decide as Eb.
    + apply present_none in Eb. rewrite Eb. eexists. split; [done|].
      split; [by apply keep_step|done].
    + apply present_some in Eb as [-> _].
      destruct (put_step w s' (ikey x) (gdata (okval (imerge x None))) p Hw Hk Hp
        (klt_le _ _ Hlt)) as (t' & -> & Hst & Hr).
      rewrite wrap_err_ok, bind_ok. eexists. split; [done|]. done.
  - intros w x xs Hw Hlt Hn Hk [Hok _] Hat. cbn [onlyIt updateEffects].
    destruct (callMerge_ok (wS w) x xs None Hat Hok) as (s' & -> & Hat'). rewrite bind_ok.
    case_bool_decide as Eb.
    + apply present_none in Eb. rewrite Eb. eexists. split; [done|].
      split; [by apply keep_step|done].
    + apply present_some in Eb as [-> _].
      destruct (append_step w s' (ikey x) (gdata (okval (imerge x None))) Hw Hk Hlt)
        as (t' & c' & -> & Hst).
      rewrite wrap_err_ok, bind_ok. eexists. split; [done|]. done.
  - intros w x v xs Hw Hp Hv Hk [Hok1 Hok2] Hat. cbn [onBoth updateEffects].
    destruct (callMerge_ok (wS w) x xs None Hat Hok1) as (s1 & -> & Hat1). rewrite bind_ok.
    destruct (callMerge_ok s1 x xs (Some v) Hat1 Hok2) as (s' & -> & Hat'). rewrite bind_ok.
    case_bool_decide as Eb.
    + apply present_none in Eb. rewrite Eb.
      destruct (del_step w s' (ikey x) Hw Hp) as (t' & c' & -> & Hst & Hr); [by eauto|].
      rewrite wrap_err_ok, bind_ok. eexists. split; [done|]. done.
    + apply present_some in Eb as [-> _]. case_bool_decide as Ev.
      * eexists. split; [done|]. rewrite Ev. split; [by apply keep_step|done].
      * destruct (put_step w s' (ikey x) (gdata (okval (imerge x (Some v)))) (ikey x) Hw Hk Hp
          (cmp_refl_le _ _)) as (t' & -> & Hst & Hr).
        rewrite wrap_err_ok, bind_ok. eexists. split; [done|]. done.
Qed.

(** *** IterPut *)

Definition putEffects : effects := {|
  onlyDb _ := None;
  onlyIt x := Some (gdata (okval (imerge x None)));
  onBoth x _ := Some (gdata (okval (imerge x None)));
  okDb _ := True;
  okIt x _ := is_ok (imerge x None);
|}.

Lemma iterPut_callback : callback t0 h putEffects (iterPutFunc h).
Proof using Hu HL.
  split; unfold iterPutFunc.
  - intros w k v eof cur xs Hw Hp Hv Hk Hok Hat.
    destruct (del_step w (wS w) k Hw Hp) as (t' & c' & Et & Hst & Hr); [by eauto|].
    destruct eof; rewrite Et, wrap_err_ok, bind_ok; eexists; (split; [done|]); done.
  - intros w x xs p Hw Hp Hlt Hn Hk Hok Hat.
    destruct (callMerge_ok (wS w) x xs None Hat Hok) as (s' & -> & Hat'). rewrite bind_ok.
    destruct (put_step w s' (ikey x) (gdata (okval (imerge x None))) p Hw Hk Hp
      (klt_le _ _ Hlt)) as (t' & -> & Hst & Hr).
    rewrite wrap_err_ok, bind_ok. eexists. split; [done|]. done.
  - intros w x xs Hw Hlt Hn Hk Hok Hat.
    destruct (callMerge_ok (wS w) x xs None Hat Hok) as (s' & -> & Hat'). rewrite bind_ok.
    destruct (append_step w s' (ikey x) (gdata (okval (imerge x None))) Hw Hk Hlt)
      as (t' & c' & -> & Hst).
    rewrite wrap_err_ok, bind_ok. eexists. split; [done|]. done.
  - intros w x v xs Hw Hp Hv Hk Hok Hat. cbn [onBoth putEffects].
    destruct (callMerge_ok (wS w) x xs None Hat Hok) as (s' & -> & Hat'). rewrite bind_ok.
    case_bool_decide as Ev.
    + eexists. split; [done|]. rewrite Ev. split; [by apply keep_step|done].
    + destruct (put_step w s' (ikey x) (gdata (okval (imerge x None))) (ikey x) Hw Hk Hp
        (cmp_refl_le _ _)) as (t' & -> & Hst & Hr).
      rewrite wrap_err_ok, bind_ok. eexists. split; [done|]. done.
Qed.
End callbacks.

(** ** Strategies that take the entries one by one *)

Section onebyone.
Context `{V : LMDBView} `{HL : !LMDBLaws L V}.
Context {S : Type} `{Sp : IteratorSpec S}.
Context (h : DBIh).

Lemma setNewVal_ok t k old new :
  uniq t h → key_ok t h k → dbm t h !! k = old →
  ∃ t', setNewVal t h k old new = Ok t' ∧
    dbm t' h = setkey (dbm t h) k (present new) ∧ framed t t' h.
Proof using HL.
  intros Hu Hk Ho. unfold setNewVal. case_bool_decide as E.
  - apply present_none in E. rewrite E. destruct old as [v|].
    + by destruct (del_entry t h k v Hu Hk Ho) as (t' & -> & ? & ?); exists t'.
    + rewrite (del_missing t h k) by done. exists t. unfold IsNotFound.
      rewrite bool_decide_eq_true_2 by done.
      split; [done|]. split; [|apply framed_refl]. simpl. by rewrite delete_id.
  - pose proof (present_some _ E) as [-> _]. case_bool_decide as Ev.
    + exists t. split; [done|]. split; [|apply framed_refl]. rewrite Ev. simpl.
      rewrite insert_id; [done|]. destruct new as [[|b l]|], old; simpl in *; congruence.
    + destruct (put_entry t h k (gdata new) Hu Hk) as (t' & -> & ? & ? & _). by exists t'.
Qed.

(** [Update] on the content of the database. *)
Definition updStep (m : gmap bytes bytes) (x : item) : gmap bytes bytes :=
  setkey m (ikey x) (present (okval (imerge x (m !! ikey x)))).

Fixpoint mergeable (m : gmap bytes bytes) (xs : list item) : Prop :=
  match xs with
  | [] => True
  | x :: xs => is_ok (imerge x (m !! ikey x)) ∧ mergeable (updStep m x) xs
  end.

Lemma Update_ok fuel t s cur xs :
  uniq t h → at_ s cur xs → Forall (λ x, key_ok t h (ikey x)) xs →
  mergeable (dbm t h) xs → (length xs < fuel)%nat →
  ∃ t', Update fuel t h s = Ok t' ∧ framed t t' h ∧ dbm t' h = foldl updStep (dbm t h) xs.
Proof using HL.
  revert t s cur xs. induction fuel as [|fuel IH]; intros t s cur xs Hu Hat Hk Hm Hl; [lia|].
  simpl. destruct xs as [|x xs].
  - destruct (spec_eof s cur Hat) as (s' & -> & _). rewrite bool_decide_eq_true_2 by done.
    exists t. split_and!; [done|apply framed_refl|done].
  - destruct (spec_next s cur x xs Hat) as (s1 & -> & Hat1).
    apply Forall_cons_1 in Hk as [Hkx Hk]. destruct Hm as [Hok Hm].
    rewrite (get_entry t h (ikey x)) by done.
    replace (match match dbm t h !! ikey x with
             | Some v => Ok v | None => Err (ELmdb lmdb_NotFound) end with
             | Ok v => Ok (Some v)
             | Err e => if IsNotFound e then Ok None else Err (EWrap "get" e)
             | Panic => Panic | Hang => Hang end)
      with (Ok (dbm t h !! ikey x)) by (by destruct (dbm t h !! ikey x)).
    rewrite bind_ok. destruct (callMerge_ok s1 x xs _ Hat1 Hok) as (s2 & -> & Hat2).
    rewrite bind_ok. cbv beta iota.
    destruct (setNewVal_ok t (ikey x) _ (okval (imerge x (dbm t h !! ikey x))) Hu Hkx eq_refl)
      as (t1 & -> & Hm1 & Hf1). rewrite bind_ok.
    destruct (IH t1 s2 (Some x) xs) as (t' & E & Hf & Hr);
      [by eapply framed_uniq|done| |by rewrite Hm1|simpl in Hl; lia|].
    { eapply Forall_impl; [|exact Hk]. intros y. by apply framed_key_ok. }
    exists t'. split_and!; [done|by eapply framed_trans|by rewrite Hr, Hm1].
Qed.

(** Keys the update does not mention keep their value. *)
Lemma foldl_updStep_other m xs k :
  (∀ x, x ∈ xs → ikey x ≠ k) → foldl updStep m xs !! k = m !! k.
Proof.
  revert m. induction xs as [|x xs IH]; intros m Hn; [done|]. simpl.
  rewrite IH by (intros; apply Hn; by right). apply lookup_setkey_ne, Hn. by left.
Qed.

Lemma foldl_updStep_nodup m xs k :
  NoDup (ikey <$> xs) →
  foldl updStep m xs !! k =
    match imap xs !! k with Some x => present (okval (imerge x (m !! k))) | None => m !! k end.
Proof.
  revert m. induction xs as [|x xs IH]; intros m Hn; [done|]. rewrite fmap_cons in Hn.
  pose proof (NoDup_cons_1_1 _ _ Hn) as Hx. apply NoDup_cons_1_2 in Hn.
  simpl. rewrite imap_cons. destruct (decide (ikey x = k)) as [<-|Hne].
  - rewrite foldl_updStep_other; [apply lookup_setkey_eq|].
    intros y Hy Ey. apply Hx. apply list_elem_of_fmap. by exists y.
  - rewrite IH by done. unfold updStep. by rewrite lookup_setkey_ne.
Qed.

(** [doPut] on the content of a database without duplicates. *)
Definition putStep (m : gmap bytes bytes) (x : item) : gmap bytes bytes :=
  setkey m (ikey x) (present (okval (imerge x None))).

Lemma doPut_ok fuel t s cur xs (isEmpty : bool) :
  uniq t h → at_ s cur xs → Forall (λ x, key_ok t h (ikey x)) xs →
  Forall (λ x, is_ok (imerge x None)) xs →
  (isEmpty = true → NoDup (ikey <$> xs) ∧ ∀ x, x ∈ xs → dbm t h !! ikey x = None) →
  (length xs < fuel)%nat →
  ∃ t', doPut fuel t h s isEmpty = Ok t' ∧ framed t t' h ∧
    dbm t' h = foldl putStep (dbm t h) xs.
Proof using HL.
  revert t s cur xs.
  induction fuel as [|fuel IH]; intros t s cur xs Hu Hat Hk Hm He Hl; [lia|].
  simpl. destruct xs as [|x xs].
  - destruct (spec_eof s cur Hat) as (s' & -> & _). rewrite bool_decide_eq_true_2 by done.
    exists t. split_and!; [done|apply framed_refl|done].
  - destruct (spec_next s cur x xs Hat) as (s1 & -> & Hat1).
    apply Forall_cons_1 in Hk as [Hkx Hk]. apply Forall_cons_1 in Hm as [Hok Hm].
    destruct (callMerge_ok s1 x xs _ Hat1 Hok) as (s2 & -> & Hat2).
    rewrite bind_ok. cbv beta iota.
    set (val := okval (imerge x None)).
    assert (Hstep : ∃ t1,
      (if bool_decide (glen val = 0%nat)
       then if isEmpty then Ok t
            else match txn_Del t h (ikey x) None with
                 | Err e => if IsNotFound e then Ok t else Err (EWrap "del" e)
                 | r => r end
       else wrap_err "put" (txn_Put t h (ikey x) (gdata val) 0)) = Ok t1 ∧
      framed t t1 h ∧ dbm t1 h = putStep (dbm t h) x).
    { unfold putStep. fold val. case_bool_decide as E.
      - apply present_none in E. rewrite E. simpl. destruct isEmpty.
        + exists t. split_and!; [done|apply framed_refl|]. rewrite delete_id; [done|].
          apply He; [done|by left].
        + destruct (dbm t h !! ikey x) eqn:Eo.
          * by destruct (del_entry t h (ikey x) _ Hu Hkx Eo) as (t' & -> & ? & ?); exists t'.
          * rewrite (del_missing t h (ikey x)) by done. exists t. unfold IsNotFound.
            rewrite bool_decide_eq_true_2 by done.
            split; [done|]. split; [apply framed_refl|by rewrite delete_id].
      - apply present_some in E as [-> _].
        destruct (put_entry t h (ikey x) (gdata val) Hu Hkx) as (t' & -> & ? & ? & _).
        by exists t'. }
    destruct Hstep as (t1 & Et & Hf1 & Hm1).
    destruct (IH t1 s2 (Some x) xs) as (t' & E & Hf & Hr);
      [by eapply framed_uniq|done| |done| |simpl in Hl; lia|].
    { eapply Forall_impl; [|exact Hk]. intros y. by apply framed_key_ok. }
    { intros Ht. destruct (He Ht) as [Hnd Hno]. rewrite fmap_cons in Hnd.
      split; [by apply NoDup_cons_1_2 in Hnd|]. intros y Hy. rewrite Hm1. unfold putStep.
      rewrite lookup_setkey_ne; [apply Hno; by right|].
      intros Ey. apply NoDup_cons_1_1 in Hnd. apply Hnd, list_elem_of_fmap. by exists y. }
    exists t'. split_and!; [|by eapply framed_trans|by rewrite Hr, Hm1].
    rewrite <- E. destruct (bool_decide (glen val = 0%nat)); by rewrite Et, bind_ok.
Qed.
Lemma framed_dupsort t t' : framed t t' h → dupsort t h → dupsort t' h.
Proof.
  intros Hf [Hl Hd]. split; [by eapply framed_live|]. by rewrite (framed_flags _ _ _ Hf).
Qed.

(** [doPut] on a database with duplicate keys. *)
Lemma doPut_dup fuel t s cur xs :
  dupsort t h → at_ s cur xs → Forall (λ x, key_ok t h (ikey x)) xs →
  Forall (λ x, ∃ v, imerge x None = Ok v ∧ zlen (gdata v) <= 511) xs →
  (length xs < fuel)%nat →
  ∃ t', doPut fuel t h s true = Ok t' ∧ framed t t' h ∧
    ∀ e, e ∈ entries t' h ↔ e ∈ entries t h ∨
      ∃ x v, x ∈ xs ∧ e = (ikey x, v) ∧ present (okval (imerge x None)) = Some v.
Proof using HL.
  revert t s cur xs.
  induction fuel as [|fuel IH]; intros t s cur xs Hd Hat Hk Hm Hl; [lia|]. simpl.
  destruct xs as [|x xs].
  { destruct (spec_eof s cur Hat) as (s' & -> & _). rewrite bool_decide_eq_true_2 by done.
    exists t. split_and!; [done|apply framed_refl|]. set_solver. }
  destruct (spec_next s cur x xs Hat) as (s1 & -> & Hat1).
  apply Forall_cons_1 in Hk as [Hkx Hk]. apply Forall_cons_1 in Hm as [(v & Hv & Hvl) Hm].
  destruct (callMerge_ok s1 x xs None Hat1) as (s2 & -> & Hat2); [by exists v|].
  rewrite bind_ok. cbv beta iota. rewrite Hv. cbn [okval].
  assert (Hnext : ∀ t1, framed t t1 h →
    (∀ e, e ∈ entries t1 h ↔ e ∈ entries t h ∨ ∃ w, e = (ikey x, w) ∧ present v = Some w) →
    ∃ t', doPut fuel t1 h s2 true = Ok t' ∧ framed t t' h ∧
    ∀ e, e ∈ entries t' h ↔ e ∈ entries t h ∨
      ∃ y w, y ∈ x :: xs ∧ e = (ikey y, w) ∧ present (okval (imerge y None)) = Some w).
  { intros t1 Hf1 He1. destruct (IH t1 s2 (Some x) xs) as (t' & -> & Hf & Hr);
      [|done| |done|simpl in Hl; lia|].
    - by eapply framed_dupsort.
    - eapply Forall_impl; [|exact Hk]. intros y. by apply framed_key_ok.
    - exists t'. split_and!; [done|by eapply framed_trans|]. intros e. rewrite Hr, He1.
      setoid_rewrite elem_of_cons. split.
      + intros [[H|(w & -> & Hw)]|(y & w & Hy & H)]; [by left|..]; right.
        * exists x, w. rewrite Hv. eauto.
        * exists y, w. eauto.
      + intros [H|(y & w & [->|Hy] & -> & Hw)]; [by left; left|..].
        * left. right. rewrite Hv in Hw. eauto.
        * right. exists y, w. eauto. }
  case_bool_decide as E.
  - apply Hnext; [apply framed_refl|]. intros e.
    apply present_none in E. rewrite E. naive_solver.
  - apply present_some in E as [E _].
    destruct (put_dup t h (ikey x) (gdata v) Hd Hkx Hvl) as (t1 & -> & Hf1 & He1).
    rewrite wrap_err_ok, bind_ok. apply Hnext; [done|]. intros e.
    rewrite He1, E. naive_solver.
Qed.
End onebyone.

(** ** Unsorted input *)

Section unsorted.
Context `{L : LMDB} {S : Type} `{Sp : IteratorSpec S}.

(** A callback that moves the iterator only through [Merge] and [Clean]. *)
Definition keepsIt (f : iterBothFunc (S:=S)) : Prop :=
  ∀ w k1 k2 x b1 b2 w' cur xs,
    f w k1 k2 x b1 b2 = Ok w' → (k1 = None ∨ ∃ y, cur = Some y) →
    at_ (wS w) cur xs → at_ (wS w') cur xs.

Lemma callMerge_at s y xs old s' v :
  callMerge s old = Ok (s', v) → at_ s (Some y) xs → at_ s' (Some y) xs.
Proof.
  intros E Hat. destruct (spec_merge s y xs old Hat) as (s1 & E1 & Hat1).
  unfold callMerge in E. rewrite E1 in E. by destruct (imerge y old); simpl in E; simplify_eq.
Qed.

Lemma callClean_at s cur xs old s' v :
  callClean s old = Ok (s', v) → at_ s cur xs → at_ s' cur xs.
Proof.
  intros E Hat. destruct (spec_clean s cur xs old Hat) as (s1 & E1 & Hat1).
  unfold callClean in E. rewrite E1 in E. by destruct (iclean old); simpl in E; simplify_eq.
Qed.

Ltac unbind H :=
  repeat match type of H with
  | (mbind _ ?m) = Ok _ => destruct m as [[? ?]| | |] eqn:?; try discriminate H; cbn in H
  | (mbind _ ?m) = Ok _ => destruct m eqn:?; try discriminate H; cbn in H
  | (if ?b then _ else _) = Ok _ => destruct b
  | Ok _ = Ok _ => injection H as <-
  end.

Lemma iterUpdate_keepsIt h : keepsIt (iterUpdateFunc h).
Proof.
  intros w k1 k2 x b1 b2 w' cur xs E Hc Hat. unfold iterUpdateFunc in E.
  destruct b1, k1 as [k1|].
  1,2,4: destruct (callClean (wS w) x) as [[s1 [v|]]| | |] eqn:Ec; try discriminate E;
    cbn in E; unbind E; simpl; by eapply callClean_at.
  destruct Hc as [|[y ->]]; [done|].
  destruct (callMerge (wS w) None) as [[s1 v]| | |] eqn:Em; try discriminate E. cbn in E.
  pose proof (callMerge_at _ _ _ _ _ _ Em Hat) as Hat1.
  destruct b2; [|destruct k2].
  - unbind E; done.
  - destruct (callMerge s1 x) as [[s2 v']| | |] eqn:Em2; try discriminate E. cbn in E.
    pose proof (callMerge_at _ _ _ _ _ _ Em2 Hat1) as Hat2. unbind E; done.
  - unbind E; done.
Qed.

Lemma iterPut_keepsIt h : keepsIt (iterPutFunc h).
Proof.
  intros w k1 k2 x b1 b2 w' cur xs E Hc Hat. unfold iterPutFunc in E.
  destruct b1, k1 as [k1|].
  1,2,4: cbn in E; unbind E; done.
  destruct Hc as [|[y ->]]; [done|].
  destruct (callMerge (wS w) None) as [[s1 v]| | |] eqn:Em; try discriminate E. cbn in E.
  pose proof (callMerge_at _ _ _ _ _ _ Em Hat) as Hat1.
  destruct b2; [|destruct k2]; unbind E; done.
Qed.

Definition cmpLt (cmp : bytes → bytes → comparison) (a b : bytes) : Prop := cmp a b = Lt.

(** What the iterator still has to hand out. *)
Definition toFetch (w : world (S:=S)) (v : ibvars) (xs : list item) : Prop :=
  (itEOF v = true ∧ itKey v = None ∧ xs = []) ∨
  (itEOF v = false ∧ ∃ cur, at_ (wS w) cur xs ∧ (itKey v = None ∨ ∃ y, cur = Some y)).

Lemma fetchIt_sorted cmp w v w1 v1 xs :
  fetchIt cmp w v = Ok (w1, v1) → toFetch w v xs →
  ∃ xs1, toFetch w1 v1 xs1 ∧
    ((xs1 = xs ∧ prevKey v1 = prevKey v) ∨
     ∃ x, xs = x :: xs1 ∧ cmp (prevKey v) (ikey x) = Lt ∧ prevKey v1 = ikey x).
Proof.
  intros E [(He & Hk & ->)|(He & cur & Hat & Hk)]; unfold fetchIt in E; rewrite He in E.
  - rewrite Hk in E. injection E as <- <-. exists []. split; [by left|by left].
  - destruct (itKey v) as [k|] eqn:Ek.
    + injection E as <- <-. exists xs. split; [|by left]. right. split; [done|].
      exists cur. by rewrite Ek.
    + destruct xs as [|x xs].
      * destruct (spec_eof _ _ Hat) as (s' & E' & _). rewrite E' in E.
        rewrite bool_decide_eq_true_2 in E by done. injection E as <- <-.
        exists []. split; [by left|by left].
      * destruct (spec_next _ _ _ _ Hat) as (s' & E' & Hat'). rewrite E' in E.
        destruct (cmp (prevKey v) (ikey x)) eqn:Ec; [done| |done].
        destruct (MaxKeySize <? zlen (ikey x)); [done|]. injection E as <- <-.
        exists xs. split; [|right; by exists x].
        right. split; [done|]. exists (Some x). eauto.
Qed.

Lemma fetchDb_it (w w1 : world (S:=S)) v v1 :
  fetchDb w v = Ok (w1, v1) →
  wS w1 = wS w ∧ itKey v1 = itKey v ∧ itEOF v1 = itEOF v ∧ prevKey v1 = prevKey v.
Proof.
  unfold fetchDb. intros E. destruct (dbKey v) as [k|]; [by injection E as <- <-|].
  destruct (dbEOF v); [by injection E as <- <-|].
  destruct (c_Get _ _ _ _ _) as [c [[k x]|e| |]]; [by injection E as <- <-| |done..].
  destruct (IsNotFound e); [by injection E as <- <-|done].
Qed.

Lemma dispatch_toFetch cmp f (w : world (S:=S)) v w1 v1 xs :
  keepsIt f → dispatch cmp f w v = Ok (inr (w1, v1)) → toFetch w v xs →
  toFetch w1 v1 xs ∧ prevKey v1 = prevKey v.
Proof.
  intros Hf E Ht. unfold dispatch in E.
  destruct Ht as [(He & Hk & ->)|(He & cur & Hat & Hk)]; rewrite He in E; cbn [andb] in E.
  - destruct (dbEOF v); [done|].
    destruct (f w None (dbKey v) (dbVal v) true false) as [w'| | |] eqn:Ef; try done.
    cbn in E. injection E as <- <-. split; [by left|done].
  - assert (Hor : itKey v = None ∨ ∃ y, cur = Some y) by done.
    destruct (dbEOF v);
      [|destruct (cmp (gdata (dbKey v)) (gdata (itKey v)))];
      match type of E with context [wrap_err _ ?m] =>
        destruct m as [w'| | |] eqn:Ef; try discriminate E end;
      cbn in E; injection E as <- <-;
      (split; [right; split; [done|]; exists cur; split; [|by simpl; auto]|done]);
      (eapply Hf; [exact Ef|auto|done]).
Qed.

Lemma iterLoop_sorted cmp f fuel (w w' : world (S:=S)) v xs :
  keepsIt f → iterLoop fuel cmp f w v = Ok w' → toFetch w v xs →
  Sorted (cmpLt cmp) (prevKey v :: (ikey <$> xs)).
Proof.
  intros Hf. revert w v xs. induction fuel as [|fuel IH]; intros w v xs E Ht; [done|].
  cbn [iterLoop] in E.
  destruct (fetchIt cmp w v) as [[w1 v1]| | |] eqn:E1; try discriminate E. rewrite bind_ok in E.
  destruct (fetchDb w1 v1) as [[w2 v2]| | |] eqn:E2; try discriminate E. rewrite bind_ok in E.
  destruct (fetchIt_sorted _ _ _ _ _ _ E1 Ht) as (xs1 & Ht1 & Hx).
  destruct (fetchDb_it _ _ _ _ E2) as (Hs & Hk & He & Hp).
  assert (Ht2 : toFetch w2 v2 xs1).
  { unfold toFetch in *. by rewrite Hs, Hk, He. }
  destruct (dispatch cmp f w2 v2) as [[w3|[w3 v3]]| | |] eqn:E3; try discriminate E.
  - unfold dispatch in E3.
    assert (xs1 = []) as ->.
    { destruct Ht2 as [(_ & _ & ->)|(Hne & _)]; [done|]. rewrite Hne in E3. cbn [andb] in E3.
      destruct (dbEOF v2); [by unbind E3|].
      destruct (cmp _ _); by unbind E3. }
    destruct Hx as [[<- _]|(x & -> & Hlt & _)]; [by repeat constructor|].
    by repeat constructor.
  - destruct (dispatch_toFetch _ _ _ _ _ _ _ Hf E3 Ht2) as [Ht3 Hp3].
    pose proof (IH _ _ _ E Ht3) as Hs3. rewrite Hp3, Hp in Hs3.
    destruct Hx as [[-> <-]|(x & -> & Hlt & Hp1)]; [done|].
    rewrite Hp1 in Hs3. rewrite fmap_cons. constructor; [done|]. by constructor.
Qed.
End unsorted.

(** ** Properties *)

Section properties.
Context `{V : LMDBView} `{HL : !LMDBLaws L V}.
Context {S : Type} `{Sp : IteratorSpec S}.

(** The setup of a strategy that walks both sides. *)
Lemma withIterBoth_ok (E : effects) f fuel t h s cur xs :
  uniq t h → ordered t h → keys_ok t h → callback t h E f →
  at_ s cur xs → sorted_items t h xs →
  (∀ x, x ∈ xs → okIt E x (dbm t h !! ikey x)) →
  (∀ k v, dbm t h !! k = Some v → (∀ x, x ∈ xs → ikey x ≠ k) → okDb E v) →
  (length xs + length (entries t h) < fuel)%nat →
  ∃ t', withIterBoth fuel t h s f = Ok t' ∧ framed t t' h ∧
    ∀ k, dbm t' h !! k = merged E xs (entries t h) (dbm t h) k.
Proof using HL.
  intros Hu Ho Hks Hf Hat Hs Hox Hod Hl. unfold withIterBoth.
  assert (Hr : readable t h) by (right; apply Hu).
  destruct (open_cursor t h Hr) as (c & -> & Hc). rewrite wrap_err_ok, bind_ok.
  rewrite (get_flags t h Hr), wrap_err_ok, bind_ok.
  destruct (iterBoth_ok t h E f fuel c s cur xs) as (w' & -> & Hfr & Hres); [done..|].
  rewrite wrap_err_ok, bind_ok. by exists (wT w').
Qed.

Lemma IterUpdate_ok fuel t h s xs :
  uniq t h → ordered t h → keys_ok t h → at_ s None xs → sorted_items t h xs →
  Forall (λ x, is_ok (imerge x None) ∧ is_ok (imerge x (dbm t h !! ikey x))) xs →
  (∀ k v, dbm t h !! k = Some v → is_ok (iclean (Some v))) →
  (length xs + length (entries t h) < fuel)%nat →
  ∃ t', IterUpdate fuel t h s = Ok t' ∧ framed t t' h ∧
    ∀ k, dbm t' h !! k =
      match imap xs !! k, dbm t h !! k with
      | Some x, old => present (okval (imerge x old))
      | None, Some v => okval (iclean (Some v))
      | None, None => None
      end.
Proof using HL.
  intros Hu Ho Hks Hat Hs Hm Hcl Hl. unfold IterUpdate. rewrite Forall_forall in Hm.
  destruct (withIterBoth_ok updateEffects (iterUpdateFunc h) fuel t h s None xs)
    as (t' & -> & Hfr & Hres); [done..|by apply iterUpdate_callback|done|done| | |done|].
  - intros x Hx. apply Hm. by apply list_elem_of_In.
  - intros k v Hv _. by eapply Hcl.
  - exists t'. split_and!; [done|done|]. intros k. rewrite Hres. unfold merged, emap.
    change (list_to_map (entries t h)) with (dbm t h).
    destruct (imap xs !! k) as [x|], (dbm t h !! k) as [v|] eqn:Ek; done.
Qed.

(** C21: [IterUpdate] leaves, for every key of the sorted iterator, the merge
    of its entry with the old value, and for every other key of the database
    the result of [Clean]; an empty merge result means that the key is gone.
    Nothing outside the database changes. *)
Theorem iterupdate_merges fuel t h s xs :
  uniq t h → ordered t h → keys_ok t h → at_ s None xs → sorted_items t h xs →
  Forall (λ x, is_ok (imerge x None) ∧ is_ok (imerge x (dbm t h !! ikey x))) xs →
  (∀ k v, dbm t h !! k = Some v → is_ok (iclean (Some v))) →
  (length xs + length (entries t h) < fuel)%nat →
  ∃ t', IterUpdate fuel t h s = Ok t' ∧ framed t t' h ∧
    ∀ k, dbm t' h !! k =
      match imap xs !! k, dbm t h !! k with
      | Some x, old => present (okval (imerge x old))
      | None, Some v => okval (iclean (Some v))
      | None, None => None
      end.
Proof using HL. apply IterUpdate_ok. Qed.

(** [IterPut] makes the database hold exactly the entries of the sorted
    iterator. *)
Theorem iterput_replaces fuel t h s xs :
  uniq t h → ordered t h → keys_ok t h → at_ s None xs → sorted_items t h xs →
  Forall (λ x, is_ok (imerge x None)) xs →
  (length xs + length (entries t h) < fuel)%nat →
  ∃ t', IterPut fuel t h s = Ok t' ∧ framed t t' h ∧
    ∀ k, dbm t' h !! k = (λ x, gdata (okval (imerge x None))) <$> imap xs !! k.
Proof using HL.
  intros Hu Ho Hks Hat Hs Hm Hl. unfold IterPut. rewrite Forall_forall in Hm.
  destruct (withIterBoth_ok putEffects (iterPutFunc h) fuel t h s None xs)
    as (t' & -> & Hfr & Hres); [done..|by apply iterPut_callback|done|done| |done|done|].
  - intros x Hx. apply Hm. by apply list_elem_of_In.
  - exists t'. split_and!; [done|done|]. intros k. rewrite Hres. unfold merged, emap.
    change (list_to_map (entries t h)) with (dbm t h).
    destruct (imap xs !! k) as [x|], (dbm t h !! k) as [v|] eqn:Ek; done.
Qed.

(** [Update] merges every entry of the iterator, in whatever order, with
    the value the database has at that point, and touches no other key. *)
Theorem update_merges fuel t h s xs :
  uniq t h → at_ s None xs → Forall (λ x, key_ok t h (ikey x)) xs →
  mergeable (dbm t h) xs → (length xs < fuel)%nat →
  ∃ t', Update fuel t h s = Ok t' ∧ framed t t' h ∧
    dbm t' h = foldl updStep (dbm t h) xs ∧
    (∀ k, (∀ x, x ∈ xs → ikey x ≠ k) → dbm t' h !! k = dbm t h !! k) ∧
    (NoDup (ikey <$> xs) → ∀ k x, imap xs !! k = Some x →
       dbm t' h !! k = present (okval (imerge x (dbm t h !! k)))).
Proof using HL.
  intros Hu Hat Hk Hm Hl.
  destruct (Update_ok h fuel t s None xs) as (t' & -> & Hf & Hr); [done..|].
  exists t'. rewrite Hr. split_and!; [done|done|done| |].
  - intros k. apply foldl_updStep_other.
  - intros Hn k x Hx. by rewrite foldl_updStep_nodup, Hx.
Qed.

Lemma EmptyPut_ok fuel t h s xs :
  dupsort t h → at_ s None xs → Forall (λ x, key_ok t h (ikey x)) xs →
  Forall (λ x, ∃ v, imerge x None = Ok v ∧ zlen (gdata v) <= 511) xs →
  (length xs < fuel)%nat →
  ∃ t', EmptyPut fuel t h s = Ok t' ∧ framed t t' h ∧
    ∀ e, e ∈ entries t' h ↔
      ∃ x v, x ∈ xs ∧ e = (ikey x, v) ∧ present (okval (imerge x None)) = Some v.
Proof using HL.
  intros Hd Hat Hk Hm Hl. unfold EmptyPut.
  destruct (drop_entries t h (proj1 Hd)) as (t1 & -> & He1 & Hf1).
  rewrite wrap_err_ok, bind_ok.
  destruct (doPut_dup h fuel t1 s None xs) as (t' & -> & Hf & Hr);
    [by eapply framed_dupsort|done| |done|done|].
  - eapply Forall_impl; [|exact Hk]. intros y. by apply framed_key_ok.
  - exists t'. split_and!; [done|by eapply framed_trans|]. intros e. rewrite Hr, He1.
    split; [intros [H|H]; [by apply not_elem_of_nil in H|done]|by right].
Qed.

(** [EmptyPut] on a database with duplicate keys leaves exactly the
    non-empty pairs of the iterator. *)
Theorem emptyput_dupsort fuel t h s xs :
  dupsort t h → at_ s None xs → Forall (λ x, key_ok t h (ikey x)) xs →
  Forall (λ x, ∃ v, imerge x None = Ok v ∧ zlen (gdata v) <= 511) xs →
  (length xs < fuel)%nat →
  ∃ t', EmptyPut fuel t h s = Ok t' ∧ framed t t' h ∧
    ∀ e, e ∈ entries t' h ↔
      ∃ x v, x ∈ xs ∧ e = (ikey x, v) ∧ present (okval (imerge x None)) = Some v.
Proof using HL. apply EmptyPut_ok. Qed.

(** C36: [IterUpdate] and [IterPut] return successfully only when the iterator
    handed out strictly increasing keys in the order of the database; this
    holds whatever LMDB does and however long the loop runs. *)
Theorem unsorted_input_rejected fuel t h s xs t' :
  at_ s None xs → txn_Flags t h = Ok (dflags t h) →
  (IterUpdate fuel t h s = Ok t' ∨ IterPut fuel t h s = Ok t') →
  Sorted (cmpLt (cmpOf t h)) ([] :: (ikey <$> xs)).
Proof.
  intros Hat Hfl H.
  assert (∃ f, keepsIt f ∧ withIterBoth fuel t h s f = Ok t') as (f & Hf & E).
  { destruct H; eexists; (split; [|done]); [apply iterUpdate_keepsIt|apply iterPut_keepsIt]. }
  unfold withIterBoth in E. rewrite Hfl in E.
  destruct (txn_OpenCursor t h) as [c| | |]; try discriminate E. cbn in E.
  unfold iterBoth in E.
  destruct (iterLoop fuel _ f (MkWorld t c s) ib0) as [w'| | |] eqn:El; try discriminate E.
  eapply (iterLoop_sorted _ _ _ _ _ ib0); [exact Hf|exact El|].
  right. split; [done|]. exists None. auto.
Qed.

(** in a database with integer keys, the key 0 is rejected as unsorted
    when it comes first, although it is the smallest key. *)
Theorem integer_key_zero_rejected fuel t h s x xs :
  live t h → has_flag (dflags t h) LMDBIntegerKeyFlag = true →
  at_ s None (x :: xs) → ikey x = le_put 4 0 → (0 < fuel)%nat →
  IterUpdate fuel t h s = Err (EWrap "iterBoth" (EWrap "key" ErrNotSorted)).
Proof using HL.
  intros Hl Hi Hat Hk Hf. destruct fuel as [|fuel]; [lia|].
  assert (Hr : readable t h) by (by right).
  unfold IterUpdate, withIterBoth.
  destruct (open_cursor t h Hr) as (c & -> & Hc). rewrite wrap_err_ok, bind_ok.
  rewrite (get_flags t h Hr), wrap_err_ok, bind_ok, Hi.
  unfold iterBoth. cbn [iterLoop]. unfold fetchIt. cbn [itKey itEOF ib0 wS].
  destruct (spec_next s None x xs Hat) as (s' & -> & _). rewrite Hk. done.
Qed.
End properties.

(** ** An iterator over a list, for examples *)

Module ListIter.
(** Entries with a value; a merge keeps the longer value, a clean-up deletes. *)
Record state : Type := MkState { current : option (bytes * bytes); items : list (bytes * bytes) }.

Definition longer (v : bytes) (old : gobytes) : gobytes :=
  if (glen old <? length v)%nat then Some v else old.

#[export] Instance it : Iterator state := {|
  it_Next s := match items s with
               | [] => (s, Err EOF)
               | e :: r => (MkState (Some e) r, Ok e.1)
               end;
  it_Merge s old := (s, match current s with
                        | Some e => Ok (longer e.2 old)
                        | None => Panic end);
  it_Clean s _ := (s, Ok None);
|}.

#[export, program] Instance spec : IteratorSpec state := {|
  item := bytes * bytes;
  ikey := fst;
  imerge x old := Ok (longer x.2 old);
  iclean _ := Ok None;
  at_ s cur xs := s = MkState cur xs;
|}.
Next Obligation. intros s cur x xs ->. by eexists. Qed.
Next Obligation. intros s cur ->. by eexists. Qed.
Next Obligation. intros s x xs old ->. by eexists. Qed.
Next Obligation. intros s cur xs old ->. by eexists. Qed.
End ListIter.

Section examples.
#[local] Existing Instances Ref.RefLMDB Ref.RefView Ref.RefLMDB_laws ListIter.it ListIter.spec.

Definition ex_db (flags : Z) (l : list (bytes * bytes)) : Ref.rtxn :=
  Ref.MkTxn 7 {[ str "db" := Ref.MkDb flags (list_to_map l) [] ]}.

Definition ex_h : option bytes := Some (str "db").

Definition ex_old : list (bytes * bytes) :=
  [(str "a", str "1"); (str "c", str "333"); (str "d", str "4")].
Definition ex_items : list (item (S:=ListIter.state)) :=
  [(str "b", str "22"); (str "c", str "3"); (str "d", str "44")].
Definition ex_it : ListIter.state := ListIter.MkState None ex_items.

Lemma ex_live flags l : live (ex_db flags l : Txn) (ex_h : DBIh).
Proof. by exists (str "db"). Qed.

Lemma ex_uniq l : uniq (ex_db 0 l : Txn) (ex_h : DBIh).
Proof. split; [apply ex_live|done]. Qed.

Lemma ex_key_ok (k : bytes) l : 1 <= zlen k <= 511 → key_ok (ex_db 0 l : Txn) (ex_h : DBIh) k.
Proof. by split. Qed.

Lemma ex_dbm l : dbm (ex_db 0 l : Txn) (ex_h : DBIh) = list_to_map l.
Proof. exact (Ref.sorted_map (Ref.MkDb 0 (list_to_map l) [])). Qed.

Lemma ex_keys_ok : keys_ok (ex_db 0 ex_old : Txn) (ex_h : DBIh).
Proof.
  intros k [v Hv]. rewrite ex_dbm in Hv. apply elem_of_list_to_map_2 in Hv.
  apply ex_key_ok. repeat (apply elem_of_cons in Hv as [Hv|Hv]; [injection Hv as -> _; done|]).
  by apply not_elem_of_nil in Hv.
Qed.

Lemma ex_sorted_items : sorted_items (ex_db 0 ex_old : Txn) (ex_h : DBIh) ex_items.
Proof. split; [repeat constructor|repeat constructor; done|done]. Qed.

Lemma iterupdate_merges_witness :
  ∃ t', IterUpdate 10 (ex_db 0 ex_old : Txn) (ex_h : DBIh) ex_it = Ok t' ∧
    framed (ex_db 0 ex_old : Txn) t' ex_h ∧
    ∀ k, dbm t' ex_h !! k =
      match imap ex_items !! k, dbm (ex_db 0 ex_old : Txn) (ex_h : DBIh) !! k with
      | Some x, old => present (okval (imerge x old))
      | None, Some v => okval (iclean (Some v))
      | None, None => None
      end.
Proof.
  apply iterupdate_merges; [apply ex_uniq|by right|apply ex_keys_ok|done
    |apply ex_sorted_items|repeat constructor; by eexists|by eexists|vm_compute; lia].
Defined.

Lemma iterput_replaces_witness :
  ∃ t', IterPut 10 (ex_db 0 ex_old : Txn) (ex_h : DBIh) ex_it = Ok t' ∧
    framed (ex_db 0 ex_old : Txn) t' ex_h ∧
    ∀ k, dbm t' ex_h !! k = (λ x, gdata (okval (imerge x None))) <$> imap ex_items !! k.
Proof.
  apply iterput_replaces; [apply ex_uniq|by right|apply ex_keys_ok|done
    |apply ex_sorted_items|repeat constructor; by eexists|vm_compute; lia].
Defined.

Lemma update_merges_witness :
  ∃ t', Update 10 (ex_db 0 ex_old : Txn) (ex_h : DBIh) ex_it = Ok t' ∧
    framed (ex_db 0 ex_old : Txn) t' ex_h ∧
    dbm t' ex_h = foldl updStep (dbm (ex_db 0 ex_old : Txn) (ex_h : DBIh)) ex_items ∧
    (∀ k, (∀ x, x ∈ ex_items → ikey x ≠ k) →
       dbm t' ex_h !! k = dbm (ex_db 0 ex_old : Txn) (ex_h : DBIh) !! k) ∧
    (NoDup (ikey <$> ex_items) → ∀ k x, imap ex_items !! k = Some x →
       dbm t' ex_h !! k =
         present (okval (imerge x (dbm (ex_db 0 ex_old : Txn) (ex_h : DBIh) !! k)))).
Proof.
  apply update_merges; [apply ex_uniq|done|repeat constructor; done
    |repeat split; by eexists|vm_compute; lia].
Defined.

Lemma emptyput_dupsort_witness :
  ∃ t', EmptyPut 10 (ex_db 4 [] : Txn) (ex_h : DBIh) ex_it = Ok t' ∧
    framed (ex_db 4 [] : Txn) t' ex_h ∧
    ∀ e, e ∈ entries t' ex_h ↔
      ∃ x v, x ∈ ex_items ∧ e = (ikey x, v) ∧ present (okval (imerge x None)) = Some v.
Proof.
  apply emptyput_dupsort; [split; [apply ex_live|done]|done|repeat constructor; done
    |repeat constructor; eexists; (split; [reflexivity|vm_compute; discriminate])|vm_compute; lia].
Defined.

Lemma unsorted_input_rejected_witness : ∃ t',
  IterUpdate 10 (ex_db 0 ex_old : Txn) (ex_h : DBIh) ex_it = Ok t' ∧
  Sorted (cmpLt (cmpOf (ex_db 0 ex_old : Txn) (ex_h : DBIh))) ([] :: (ikey <$> ex_items)).
Proof.
  assert (∃ t', IterUpdate 10 (ex_db 0 ex_old : Txn) (ex_h : DBIh) ex_it = Ok t') as [t' E].
  { eexists. vm_compute. reflexivity. }
  exists t'. split; [exact E|].
  eapply (unsorted_input_rejected (L:=Ref.RefLMDB) (S:=ListIter.state));
    [reflexivity|reflexivity|left; exact E].
Defined.

Lemma integer_key_zero_rejected_witness :
  IterUpdate 10 (ex_db 8 [] : Txn) (ex_h : DBIh)
    (ListIter.MkState None [(le_put 4 0, str "zero"); (le_put 4 1, str "one")]) =
    Err (EWrap "iterBoth" (EWrap "key" ErrNotSorted)).
Proof.
  eapply integer_key_zero_rejected; [apply ex_live|done|reflexivity|done|lia].
Defined.
End examples.
