(* ===== verification/Iterators.v ===== *)
(** * The iterators of the syncer (syncer/iterators.go)

    [NativeIterator] merges a dump into a database whose values carry headers:
    the entry with the higher timestamp wins.  [PlainIterator] copies a dump
    without headers.  Both implement the interface of the strategies. *)

From S2P Require Import Prelude Header Proto Kv Dbi Lmdb Strategy.

Definition CurrentFormatVersion : Z := 3.
Definition CompatFormatVersion : Z := 1.
Definition WriteCompatFormatVersion : Z := 1.

(** The exported fields of a [NativeIterator]; they do not change. *)
Record nativeCfg : Type := MkNativeCfg {
  DefaultTimestampNano : Timestamp;
  nTxnID : TxnID;
  FormatVersion : Z;
  HeaderPaddingBlock : bool;
  DeletedCutoff : Timestamp;
}.

Record NativeIterator : Type := MkNative {
  nCfg : nativeCfg;
  nDBIMsg : DBI;
  nCurrent : Z;
  nStarted : bool;
  nBuf : gobytes;
  nCurKV : KV;
}.

Definition NewNativeIterator (formatVersion compatVersion : Z) (dbiMsg : DBI)
    (defaultTS : Timestamp) (txnID : TxnID) (deletedCutoff : Timestamp)
    : outcome NativeIterator :=
  if formatVersion =? 0 then Err (EMsg "no snapshot formatVersion provided, or 0")
  else if CurrentFormatVersion <? compatVersion
  then Err (EMsg "snapshot compatVersion too new for this version")
  else if formatVersion <? CompatFormatVersion
  then Err (EMsg "snapshot formatVersion no longer supported")
  else if txnID =? 0 then Err ErrNoTxnID
  else Ok (MkNative (MkNativeCfg defaultTS txnID formatVersion false deletedCutoff)
             dbiMsg 0 false None emptyKV).

(** [it.HeaderPaddingBlock = true] *)
Definition setPaddingBlock (it : NativeIterator) : NativeIterator :=
  let c := nCfg it in
  MkNative (MkNativeCfg (DefaultTimestampNano c) (nTxnID c) (FormatVersion c) true
              (DeletedCutoff c))
    (nDBIMsg it) (nCurrent it) (nStarted it) (nBuf it) (nCurKV it).

Section native.
Context `{P : CSProto}.

Definition NativeNext (it : NativeIterator) : NativeIterator * outcome bytes :=
  let '(current, d) :=
    if nStarted it then (nCurrent it + 1, nDBIMsg it)
    else (nCurrent it, ResetCursor (nDBIMsg it)) in
  match Dbi.Next d with
  | (d, Ok kv) => (MkNative (nCfg it) d current true (nBuf it) kv, Ok (kvKey kv))
  | (d, Err e) => (MkNative (nCfg it) d current true (nBuf it) (nCurKV it), Err e)
  | (d, Panic) => (MkNative (nCfg it) d current true (nBuf it) (nCurKV it), Panic)
  | (d, Hang) => (MkNative (nCfg it) d current true (nBuf it) (nCurKV it), Hang)
  end.
End native.

Definition withBuf (it : NativeIterator) (b : bytes) : NativeIterator :=
  MkNative (nCfg it) (nDBIMsg it) (nCurrent it) (nStarted it) (Some b) (nCurKV it).

(** [addHeader] works in a buffer it keeps between calls: a fresh one of
    header size, or the first bytes of the old one. *)
Definition addHeader (it : NativeIterator) (entryVal : bytes) (ts : Timestamp)
    (flags : Flags) (fromClean : bool) : NativeIterator * outcome gobytes :=
  let c := nCfg it in
  let buf := match nBuf it with
             | None => replicate (Z.to_nat MinHeaderSize) Byte.x00
             | Some b => take (Z.to_nat MinHeaderSize) b
             end in
  let ts := if ts =? 0 then DefaultTimestampNano c else ts in
  let flags := if (zlen entryVal =? 0) && (FormatVersion c <? 2)
               then Z.lor flags FlagDeleted else flags in
  let entryVal := if IsDeleted flags then [] else entryVal in
  match
    buf ← PutBasic buf ts (nTxnID c) flags;
    if HeaderPaddingBlock c then
      buf ← splice buf NumExtraOffsetLow [zb 1];
      Ok (buf ++ replicate 8 Byte.x00)
    else Ok buf
  with
  | Ok buf => let buf := buf ++ entryVal in (withBuf it buf, Ok (Some buf))
  | Err e => (it, Err e)
  | Panic => (it, Panic)
  | Hang => (it, Hang)
  end.

Definition NativeMerge (it : NativeIterator) (oldval : gobytes)
    : NativeIterator * outcome gobytes :=
  let entry := nCurKV it in
  let entryVal := kvValue entry in
  if bool_decide (glen oldval = 0%nat) then
    let entryFlags := MaskedFlags entry in
    if IsDeleted entryFlags && (kvTimestampNano entry <? DeletedCutoff (nCfg it))
    then (it, Ok None)
    else addHeader it entryVal (kvTimestampNano entry) (MaskedFlags entry) false
  else
    match Parse (gdata oldval) with
    | Ok (h, actualOldVal) =>
        let oldTS := hTimestamp h in
        let newTS := kvTimestampNano entry in
        if (newTS =? 0) && bool_decide (actualOldVal = entryVal) then (it, Ok oldval)
        else
          let newTS := if newTS =? 0 then DefaultTimestampNano (nCfg it) else newTS in
          if newTS <? oldTS then (it, Ok oldval)
          else if (newTS =? oldTS) &&
                  match bytes_Compare actualOldVal entryVal with Gt => false | _ => true end
          then (it, Ok oldval)
          else addHeader it entryVal newTS (MaskedFlags entry) false
    | Err _ => (it, Err (EMsg "merge: oldval header parse error"))
    | Panic => (it, Panic)
    | Hang => (it, Hang)
    end.

Definition NativeClean (it : NativeIterator) (oldval : gobytes)
    : NativeIterator * outcome gobytes :=
  match Parse (gdata oldval) with
  | Ok (h, _) =>
      if IsDeleted (hFlags h) then (it, Ok oldval)
      else addHeader it [] 0 FlagDeleted true
  | Err e => (it, Err e)
  | Panic => (it, Panic)
  | Hang => (it, Hang)
  end.

#[export] Instance native_iterator `{P : CSProto} : Iterator NativeIterator := {|
  it_Next := NativeNext;
  it_Merge := NativeMerge;
  it_Clean := NativeClean;
|}.

(** ** PlainIterator *)

Record PlainIterator : Type := MkPlain {
  pDBIMsg : DBI;
  pCurrent : Z;
  pStarted : bool;
  pCurKV : KV;
}.

Definition NewPlainIterator (dbiMsg : DBI) : PlainIterator := MkPlain dbiMsg 0 false emptyKV.

Definition PlainNext `{P : CSProto} (it : PlainIterator) : PlainIterator * outcome bytes :=
  let '(current, d) :=
    if pStarted it then (pCurrent it + 1, pDBIMsg it)
    else (pCurrent it, ResetCursor (pDBIMsg it)) in
  match Dbi.Next d with
  | (d, Ok kv) => (MkPlain d current true kv, Ok (kvKey kv))
  | (d, Err e) => (MkPlain d current true (pCurKV it), Err e)
  | (d, Panic) => (MkPlain d current true (pCurKV it), Panic)
  | (d, Hang) => (MkPlain d current true (pCurKV it), Hang)
  end.

Definition PlainMerge (it : PlainIterator) (oldval : gobytes)
    : PlainIterator * outcome gobytes :=
  let mainVal := kvValue (pCurKV it) in
  (it, Ok (if zlen mainVal =? 0 then None else Some mainVal)).

Definition PlainClean (it : PlainIterator) (oldval : gobytes)
    : PlainIterator * outcome gobytes := (it, Ok None).

#[export] Instance plain_iterator `{P : CSProto} : Iterator PlainIterator := {|
  it_Next := PlainNext;
  it_Merge := PlainMerge;
  it_Clean := PlainClean;
|}.

(** ** The native iterator as a function of its arguments *)

(** The flags [addHeader] writes: old snapshots mark a deletion by an empty
    value. *)
Definition headerFlags (c : nativeCfg) (val : bytes) (flags : Flags) : Flags :=
  if (zlen val =? 0) && (FormatVersion c <? 2) then Z.lor flags FlagDeleted else flags.

Definition headerTS (c : nativeCfg) (ts : Timestamp) : Timestamp :=
  if ts =? 0 then DefaultTimestampNano c else ts.

(** The value [addHeader] builds. *)
Definition nheader (c : nativeCfg) (val : bytes) (ts : Timestamp) (flags : Flags) : bytes :=
  let pad := HeaderPaddingBlock c in
  layout (headerTS c ts) (nTxnID c) 0 (headerFlags c val flags) (replicate 4 Byte.x00)
    (if pad then 1 else 0) (if pad then replicate 8 Byte.x00 else []) ++
  (if IsDeleted (headerFlags c val flags) then [] else val).

(** Does the value in the database win against the entry? *)
Definition oldWins (c : nativeCfg) (kv : KV) (h : Header) (app : bytes) : bool :=
  ((kvTimestampNano kv =? 0) && bool_decide (app = kvValue kv)) ||
  let newTS := headerTS c (kvTimestampNano kv) in
  (newTS <? hTimestamp h) ||
  (newTS =? hTimestamp h) && match bytes_Compare app (kvValue kv) with Gt => false | _ => true end.

Definition nmerge (c : nativeCfg) (kv : KV) (oldval : gobytes) : outcome gobytes :=
  if bool_decide (glen oldval = 0%nat) then
    Ok (if IsDeleted (MaskedFlags kv) && (kvTimestampNano kv <? DeletedCutoff c) then None
        else Some (nheader c (kvValue kv) (kvTimestampNano kv) (MaskedFlags kv)))
  else
    match Parse (gdata oldval) with
    | Ok (h, app) =>
        Ok (if oldWins c kv h app then oldval
            else Some (nheader c (kvValue kv) (headerTS c (kvTimestampNano kv)) (MaskedFlags kv)))
    | _ => Err (EMsg "merge: oldval header parse error")
    end.

Definition nclean (c : nativeCfg) (oldval : gobytes) : outcome gobytes :=
  match Parse (gdata oldval) with
  | Ok (h, _) => Ok (if IsDeleted (hFlags h) then oldval else Some (nheader c [] 0 FlagDeleted))
  | Err e => Err e
  | Panic => Panic
  | Hang => Hang
  end.

Definition buf_ok (it : NativeIterator) : Prop := ∀ b, nBuf it = Some b → 24 <= zlen b.

Lemma zlen_nheader c val ts flags : 24 <= zlen (nheader c val ts flags).
Proof.
  unfold nheader. rewrite zlen_app, zlen_layout by done.
  match goal with |- _ <= _ + zlen ?a + zlen ?b =>
    pose proof (zlen_nonneg a); pose proof (zlen_nonneg b) end. lia.
Qed.

(** The kept buffer does not show in the result. *)
Lemma addHeader_ok it val ts flags fc :
  buf_ok it →
  addHeader it val ts flags fc =
    (withBuf it (nheader (nCfg it) val ts flags),
     Ok (Some (nheader (nCfg it) val ts flags))).
Proof.
  intros Hb. unfold addHeader. change (Z.to_nat MinHeaderSize) with 24%nat.
  set (buf := match nBuf it with None => _ | Some b => _ end).
  assert (zlen buf = 24) as Hl.
  { unfold buf. destruct (nBuf it) as [b|] eqn:E; [|done]. specialize (Hb b E).
    unfold zlen in *. rewrite length_take. lia. }
  rewrite PutBasic_layout by lia. rewrite drop_ge by (unfold zlen in Hl; lia).
  rewrite app_nil_r, bind_ok.
  change (if ts =? 0 then DefaultTimestampNano (nCfg it) else ts) with (headerTS (nCfg it) ts).
  change (if (zlen val =? 0) && (FormatVersion (nCfg it) <? 2)
          then Z.lor flags FlagDeleted else flags) with (headerFlags (nCfg it) val flags).
  unfold nheader. destruct (HeaderPaddingBlock (nCfg it)); [|done].
  set (l := layout _ _ 0 _ _ 0 []).
  assert (splice l NumExtraOffsetLow [zb 1] =
    Ok (layout (headerTS (nCfg it) ts) (nTxnID (nCfg it)) 0 (headerFlags (nCfg it) val flags)
          (replicate 4 Byte.x00) 1 [])) as ->.
  { unfold l, layout. rewrite !app_nil_r.
    set (h8 := be_put 8 (headerTS (nCfg it) ts)). set (t8 := be_put 8 (nTxnID (nCfg it))).
    set (p := h8 ++ t8 ++ [zb 0; zb (headerFlags (nCfg it) val flags)] ++
              replicate 4 Byte.x00 ++ [zb 0]).
    replace (h8 ++ t8 ++ [zb 0; zb (headerFlags (nCfg it) val flags)] ++
              replicate 4 Byte.x00 ++ be_put 2 0) with (p ++ replicate 1 Byte.x00)
      by (unfold p; by rewrite <- !app_assoc).
    replace NumExtraOffsetLow with (zlen p)
      by (unfold p, h8, t8; autorewrite with golen; done).
    rewrite splice_tail by done. change (1 - length [zb 1])%nat with 0%nat.
    cbn [replicate]. rewrite app_nil_r. unfold p. by rewrite <- !app_assoc. }
  rewrite bind_ok. unfold layout. rewrite <- !app_assoc. done.
Qed.

Lemma withBuf_ok it c val ts flags : buf_ok (withBuf it (nheader c val ts flags)).
Proof. intros b [= <-]. apply zlen_nheader. Qed.

(** [Merge] and [Clean] compute [nmerge] and [nclean] and change only the
    buffer. *)
Lemma NativeMerge_ok it old :
  buf_ok it →
  ∃ it', NativeMerge it old = (it', nmerge (nCfg it) (nCurKV it) old) ∧ buf_ok it' ∧
    it' = MkNative (nCfg it) (nDBIMsg it) (nCurrent it) (nStarted it) (nBuf it') (nCurKV it).
Proof.
  intros Hb. unfold NativeMerge, nmerge.
  assert (Hself : it = MkNative (nCfg it) (nDBIMsg it) (nCurrent it) (nStarted it) (nBuf it) (nCurKV it))
    by (by destruct it).
  case_bool_decide as E.
  - destruct (IsDeleted _ && _); [by exists it|].
    rewrite addHeader_ok by done. eexists. split; [done|]. split; [apply withBuf_ok|done].
  - destruct (parse_total (gdata old)) as [(h & app & ->)|[->| ->]]; [|by exists it..].
    unfold oldWins, headerTS.
    destruct ((kvTimestampNano (nCurKV it) =? 0) && _); simpl; [by exists it|].
    destruct (_ <? hTimestamp h); simpl; [by exists it|].
    destruct ((_ =? hTimestamp h) && _); [by exists it|].
    rewrite addHeader_ok by done. eexists. split; [done|]. split; [apply withBuf_ok|done].
Qed.

Lemma NativeClean_ok it old :
  buf_ok it →
  ∃ it', NativeClean it old = (it', nclean (nCfg it) old) ∧ buf_ok it' ∧
    it' = MkNative (nCfg it) (nDBIMsg it) (nCurrent it) (nStarted it) (nBuf it') (nCurKV it).
Proof.
  intros Hb. unfold NativeClean, nclean.
  assert (Hself : it = MkNative (nCfg it) (nDBIMsg it) (nCurrent it) (nStarted it) (nBuf it) (nCurKV it))
    by (by destruct it).
  destruct (parse_total (gdata old)) as [(h & app & ->)|[->| ->]]; [|by exists it..].
  destruct (IsDeleted (hFlags h)); [by exists it|].
  rewrite addHeader_ok by done. eexists. split; [done|]. split; [apply withBuf_ok|done].
Qed.

(** ** The iterators keep the promises of the interface *)

Section specs.
Context `{P : CSProto} `{PL : !CSProtoLaws P}.

(** What is left to hand out of a dump, before and after the first call. *)
Definition dump_at (started : bool) (d : DBI) (cur : option KV) (curKV : KV) (xs : list KV)
    : Prop :=
  match cur with
  | None => (started = false ∧ remains (ResetCursor d) xs) ∨
            (started = true ∧ xs = [] ∧ remains d [])
  | Some kv => started = true ∧ curKV = kv ∧ remains d xs
  end.

Definition native_at (c : nativeCfg) (s : NativeIterator) (cur : option KV) (xs : list KV)
    : Prop :=
  nCfg s = c ∧ buf_ok s ∧ dump_at (nStarted s) (nDBIMsg s) cur (nCurKV s) xs.

(** The dump [Next] reads from: reset before the first call. *)
Lemma dump_at_cursor started d cur curKV xs :
  dump_at started d cur curKV xs →
  remains (if started then d else ResetCursor d) xs.
Proof. destruct cur; intros; simpl in *; naive_solver. Qed.

#[program] Definition native_spec (c : nativeCfg) : IteratorSpec NativeIterator := {|
  item := KV;
  ikey := kvKey;
  imerge := nmerge c;
  iclean := nclean c;
  at_ := native_at c;
|}.
Next Obligation.
  intros c s cur x xs (Hc & Hb & Hat). apply dump_at_cursor in Hat. simpl.
  unfold NativeNext. destruct (nStarted s);
    (destruct (remains_cons _ _ _ Hat) as (d' & E & Hr & _); rewrite E;
     eexists; split; [done|]; by split_and!).
Qed.
Next Obligation.
  intros c s cur (Hc & Hb & Hat). pose proof (dump_at_cursor _ _ _ _ _ Hat) as Hr. simpl.
  unfold NativeNext. destruct (nStarted s) eqn:Es;
    rewrite (remains_nil _ Hr); eexists; (split; [done|]); (split_and!; [done|done|]);
    destruct cur as [kv|]; simpl in *; naive_solver.
Qed.
Next Obligation.
  intros c s x xs old (<- & Hb & Hs & Hk & Hr). simpl in *.
  destruct (NativeMerge_ok s old Hb) as (s' & E & Hb' & Es).
  exists s'. rewrite E, Hk. split; [done|]. rewrite Es. by split_and!.
Qed.
Next Obligation.
  intros c s cur xs old (<- & Hb & Hat). simpl in *.
  destruct (NativeClean_ok s old Hb) as (s' & E & Hb' & Es).
  exists s'. rewrite E. split; [done|]. rewrite Es. by split_and!.
Qed.

Definition plain_at (s : PlainIterator) (cur : option KV) (xs : list KV) : Prop :=
  dump_at (pStarted s) (pDBIMsg s) cur (pCurKV s) xs.

Definition pmerge (kv : KV) (_ : gobytes) : outcome gobytes :=
  Ok (if zlen (kvValue kv) =? 0 then None else Some (kvValue kv)).

#[program] Definition plain_spec : IteratorSpec PlainIterator := {|
  item := KV;
  ikey := kvKey;
  imerge := pmerge;
  iclean _ := Ok None;
  at_ := plain_at;
|}.
Next Obligation.
  intros s cur x xs Hat. apply dump_at_cursor in Hat. simpl.
  unfold PlainNext. destruct (pStarted s);
    (destruct (remains_cons _ _ _ Hat) as (d' & E & Hr & _); rewrite E;
     eexists; split; [done|]; by split_and!).
Qed.
Next Obligation.
  intros s cur Hat. pose proof (dump_at_cursor _ _ _ _ _ Hat) as Hr. simpl.
  unfold PlainNext. destruct (pStarted s) eqn:Es;
    rewrite (remains_nil _ Hr); eexists; (split; [done|]);
    unfold plain_at in *; destruct cur as [kv|]; simpl in *; naive_solver.
Qed.
Next Obligation.
  intros s x xs old (Hs & Hk & Hr). simpl in *. exists s. split; [|by split_and!].
  unfold PlainMerge, pmerge. by rewrite Hk.
Qed.
Next Obligation. intros s cur xs old Hat. by exists s. Qed.

(** A new iterator over a dump. *)
Lemma new_native_at d xs c :
  remains (ResetCursor d) xs → native_at c (MkNative c d 0 false None emptyKV) None xs.
Proof. intros Hr. split_and!; [done|done|by left]. Qed.

Lemma new_plain_at d xs : remains (ResetCursor d) xs → plain_at (NewPlainIterator d) None xs.
Proof. intros Hr. by left. Qed.
End specs.

(** ** Cells

    What a value with a header means: when it was written, whether it is a
    deletion, and the application value. *)
Record cell : Type := MkCell { cTS : Z; cDel : bool; cVal : bytes }.

#[export] Instance cell_eq_dec : EqDecision cell.
Proof. solve_decision. Defined.

Definition cellOf (val : bytes) : option cell :=
  match Parse val with
  | Ok (h, app) => Some (MkCell (hTimestamp h) (IsDeleted (hFlags h)) app)
  | _ => None
  end.

(** The fields of an iterator are in range of their types. *)
Definition cfg_ok (c : nativeCfg) : Prop :=
  0 <= DefaultTimestampNano c < 2 ^ 64 ∧ 0 <= nTxnID c < 2 ^ 64.

Lemma land_1 f : Z.land f 1 = f mod 2.
Proof. change 1 with (Z.ones 1). by rewrite Z.land_ones. Qed.

Lemma IsDeleted_lor f : IsDeleted (Z.lor f FlagDeleted) = true.
Proof.
  unfold IsDeleted, FlagDeleted. rewrite Z.land_lor_distr_l, land_1. change (Z.land 1 1) with 1.
  pose proof (Z.mod_pos_bound f 2 ltac:(lia)).
  assert (f mod 2 = 0 ∨ f mod 2 = 1) as [-> | ->] by lia; done.
Qed.

Lemma Masked_01 f : Masked f = 0 ∨ Masked f = 1.
Proof.
  unfold Masked, FlagSyncMask, FlagDeleted. rewrite land_1.
  pose proof (Z.mod_pos_bound f 2 ltac:(lia)). lia.
Qed.

Lemma headerFlags_range c val flags :
  flags = 0 ∨ flags = 1 → headerFlags c val flags = 0 ∨ headerFlags c val flags = 1.
Proof. unfold headerFlags. intros [-> | ->]; case_if; vm_compute; auto. Qed.

(** Reading back what [addHeader] wrote. *)
Lemma cellOf_nheader c val ts flags :
  cfg_ok c → 0 <= ts < 2 ^ 64 → flags = 0 ∨ flags = 1 →
  let del := IsDeleted (headerFlags c val flags) in
  cellOf (nheader c val ts flags) =
    Some (MkCell (headerTS c ts) del (if del then [] else val)).
Proof.
  intros [Hd Ht] Hts Hf. unfold cellOf, nheader. cbv zeta.
  assert (0 <= headerTS c ts < 2 ^ 64) by (unfold headerTS; case_if; lia).
  pose proof (headerFlags_range c val flags Hf).
  rewrite parse_layout; [done|done|done|lia|by destruct (HeaderPaddingBlock c)|done|].
  by destruct (HeaderPaddingBlock c).
Qed.

Lemma nheader_present c val ts flags :
  present (Some (nheader c val ts flags)) = Some (nheader c val ts flags).
Proof.
  pose proof (zlen_nheader c val ts flags).
  destruct (nheader c val ts flags); [rewrite zlen_nil in *; lia|done].
Qed.

(** ** Last writer wins *)

(** The merge of a new cell into an old one: the higher timestamp wins, with
    equal timestamps the lexicographically lower value; the old cell stays on
    a complete tie. *)
Definition older (a b : cell) : bool :=
  (cTS a <? cTS b) ||
  (cTS a =? cTS b) && match bytes_Compare (cVal b) (cVal a) with Gt => false | _ => true end.

Definition amerge (new old : cell) : cell := if older new old then old else new.

(** The cell an entry of a snapshot stands for. *)
Definition entryDel (c : nativeCfg) (kv : KV) : bool :=
  IsDeleted (headerFlags c (kvValue kv) (MaskedFlags kv)).

Definition entryCell (c : nativeCfg) (kv : KV) : cell :=
  MkCell (headerTS c (kvTimestampNano kv)) (entryDel c kv)
    (if entryDel c kv then [] else kvValue kv).

(** An entry of a snapshot: its fields are in range and a deletion carries no
    value. *)
Definition entry_ok (c : nativeCfg) (kv : KV) : Prop :=
  0 <= kvTimestampNano kv < 2 ^ 64 ∧ (entryDel c kv = true → kvValue kv = []).

(** A deletion so old that the sweeper may have removed it. *)
Definition stale (c : nativeCfg) (kv : KV) : bool :=
  IsDeleted (MaskedFlags kv) && (kvTimestampNano kv <? DeletedCutoff c).

Definition omerge (c : nativeCfg) (kv : KV) (old : option cell) : option cell :=
  match old with
  | None => if stale c kv then None else Some (entryCell c kv)
  | Some co => Some (amerge (entryCell c kv) co)
  end.

Lemma entryCell_val c kv : entry_ok c kv → cVal (entryCell c kv) = kvValue kv.
Proof. intros [_ H]. simpl. destruct (entryDel c kv); [by rewrite H|done]. Qed.

Lemma cellOf_entry c kv :
  cfg_ok c → entry_ok c kv →
  cellOf (nheader c (kvValue kv) (kvTimestampNano kv) (MaskedFlags kv)) = Some (entryCell c kv).
Proof. intros Hc [Ht _]. rewrite cellOf_nheader; [done|done|done|apply Masked_01]. Qed.

Lemma headerTS_idem c ts : headerTS c (headerTS c ts) = headerTS c ts.
Proof. unfold headerTS. destruct (ts =? 0) eqn:E; [by case_if|by rewrite E]. Qed.

Lemma headerTS_range c ts : cfg_ok c → 0 <= ts < 2 ^ 64 → 0 <= headerTS c ts < 2 ^ 64.
Proof. intros [? ?] ?. unfold headerTS. case_if; lia. Qed.

(** [Merge] on bytes is [omerge] on cells. *)
Lemma nmerge_cell c kv (old : option bytes) co :
  cfg_ok c → entry_ok c kv → kvTimestampNano kv ≠ 0 →
  old ≫= cellOf = co → (old ≠ None → is_Some co) →
  ∃ r, nmerge c kv old = Ok r ∧ (present r ≫= cellOf) = omerge c kv co.
Proof.
  intros Hc Hok Hts Hco Hsome. pose proof (cellOf_entry c kv Hc Hok) as He. unfold nmerge.
  destruct old as [old|]; simpl in Hco.
  2: { subst co. simpl. fold (stale c kv). eexists. split; [done|].
       destruct (stale c kv); [done|]. rewrite nheader_present. done. }
  destruct (Hsome ltac:(done)) as [o Ho]. subst co. unfold cellOf in Ho.
  assert (Hlen : glen (Some old) ≠ 0%nat).
  { simpl. intros E. destruct old; [|done]. rewrite parse_short in Ho by done. done. }
  rewrite bool_decide_eq_false_2 by done. simpl gdata.
  change (default [] (Some old)) with old.
  destruct (Parse old) as [[h app]| | |] eqn:Ep; try done. injection Ho as <-.
  eexists. split; [done|]. unfold oldWins. simpl omerge.
  rewrite (proj2 (Z.eqb_neq _ _) Hts). cbn [andb orb].
  unfold cellOf at 2. rewrite Ep. simpl omerge. unfold amerge, older.
  rewrite entryCell_val by done. simpl cTS. simpl cVal.
  destruct (_ || _).
  - destruct (present_some (Some old) Hlen) as [Hp _]. rewrite Hp. simpl. unfold cellOf.
    change (default [] (Some old)) with old. by rewrite Ep.
  - rewrite nheader_present. simpl.
    rewrite cellOf_nheader; [|done|by apply headerTS_range, Hok|apply Masked_01].
    by rewrite headerTS_idem.
Qed.

(** *** [amerge] is a maximum *)

Lemma older_total a b : older a b = true ∨ older b a = true.
Proof.
  unfold older. destruct (Z.lt_trichotomy (cTS a) (cTS b)) as [H|[H|H]].
  - left. by rewrite (proj2 (Z.ltb_lt _ _) H).
  - rewrite H, Z.ltb_irrefl, Z.eqb_refl. simpl. rewrite (bytes_Compare_antisym (cVal a)).
    destruct (bytes_Compare (cVal a) (cVal b)); simpl; auto.
  - right. by rewrite (proj2 (Z.ltb_lt _ _) H).
Qed.

Lemma older_spec a b :
  older a b = true ↔
  cTS a < cTS b ∨ (cTS a = cTS b ∧ bytes_Compare (cVal b) (cVal a) ≠ Gt).
Proof.
  unfold older. rewrite orb_true_iff, andb_true_iff, Z.ltb_lt, Z.eqb_eq.
  destruct (bytes_Compare (cVal b) (cVal a)); naive_solver.
Qed.

Lemma older_trans a b c : older a b = true → older b c = true → older a c = true.
Proof.
  rewrite !older_spec. intros [H1|[H1 H1']] [H2|[H2 H2']]; [left; lia..|right].
  split; [lia|]. by eapply bytes_le_trans.
Qed.

(** Two cells that the order cannot tell apart are the same cell. *)
Definition compat (a b : cell) : Prop := cTS a = cTS b → cVal a = cVal b → cDel a = cDel b.

Lemma older_antisym a b : compat a b → older a b = true → older b a = true → a = b.
Proof.
  rewrite !older_spec. intros Hc H1 H2.
  assert (cTS a = cTS b) as Et by lia.
  assert (cVal a = cVal b) as Ev.
  { destruct H1 as [|[_ H1]], H2 as [|[_ H2]]; try lia.
    rewrite (bytes_Compare_antisym (cVal a)) in H1.
    apply bytes_Compare_eq. by destruct (bytes_Compare (cVal a) (cVal b)). }
  specialize (Hc Et Ev). destruct a, b; simpl in *; congruence.
Qed.

Lemma amerge_comm a b : compat a b → amerge a b = amerge b a.
Proof.
  intros Hc. unfold amerge. destruct (older a b) eqn:E1, (older b a) eqn:E2; try done.
  - symmetry. by apply older_antisym.
  - by destruct (older_total a b); congruence.
Qed.

Lemma older_refl a : older a a = true.
Proof. by destruct (older_total a a). Qed.

Lemma amerge_idem a b : amerge a (amerge a b) = amerge a b.
Proof. unfold amerge. destruct (older a b) eqn:E; [by rewrite E|by rewrite older_refl]. Qed.

Lemma amerge_assoc a b c : amerge a (amerge b c) = amerge (amerge a b) c.
Proof.
  unfold amerge.
  destruct (older b c) eqn:E1, (older a b) eqn:E2; rewrite ?E1, ?E2; try done.
  - by rewrite (older_trans a b c).
  - destruct (older a c) eqn:E3; [|done].
    destruct (older_total b c) as [|H]; [congruence|].
    by rewrite (older_trans a c b) in E2.
Qed.

Lemma amerge_cases a b : amerge a b = a ∨ amerge a b = b.
Proof. unfold amerge. destruct (older a b); auto. Qed.

(** ** Properties *)

(** C7: [NativeIterator.Merge] is last-writer-wins on what the values mean: an
    entry missing from the database is added unless it is a stale deletion;
    otherwise the higher timestamp wins and with equal timestamps the lower
    application value; only the buffer of the iterator changes. *)
Theorem native_merge_lww it (old : option bytes) co :
  buf_ok it → cfg_ok (nCfg it) → entry_ok (nCfg it) (nCurKV it) →
  kvTimestampNano (nCurKV it) ≠ 0 →
  old ≫= cellOf = co → (old ≠ None → is_Some co) →
  ∃ it' r, NativeMerge it old = (it', Ok r) ∧
    (present r ≫= cellOf) = omerge (nCfg it) (nCurKV it) co ∧
    nDBIMsg it' = nDBIMsg it ∧ nCurKV it' = nCurKV it ∧ nCfg it' = nCfg it.
Proof.
  intros Hb Hc Hok Hts Hco Hs. destruct (NativeMerge_ok it old Hb) as (it' & E & _ & Ei).
  destruct (nmerge_cell _ _ old co Hc Hok Hts Hco Hs) as (r & Er & Hr).
  rewrite Er in E. exists it', r. rewrite Ei at 2 3 4. by split_and!.
Qed.

(** merging the entry that was just merged returns the stored value byte
    for byte, so a load that brings nothing new writes nothing. *)
Theorem native_merge_idempotent c kv (old r : gobytes) :
  cfg_ok c → entry_ok c kv → nmerge c kv old = Ok r → r ≠ None → nmerge c kv r = Ok r.
Proof.
  intros Hc Hok E Hr. pose proof (headerTS_range c _ Hc (proj1 Hok)) as Hts.
  assert (Hwritten : ∀ ts, headerTS c ts = headerTS c (kvTimestampNano kv) → 0 <= ts < 2 ^ 64 →
    nmerge c kv (Some (nheader c (kvValue kv) ts (MaskedFlags kv))) =
      Ok (Some (nheader c (kvValue kv) ts (MaskedFlags kv)))).
  { intros ts Ets Hrange. unfold nmerge. pose proof (zlen_nheader c (kvValue kv) ts (MaskedFlags kv)).
    rewrite bool_decide_eq_false_2 by (simpl; unfold zlen in *; lia).
    pose proof (cellOf_nheader c (kvValue kv) ts (MaskedFlags kv) Hc Hrange (Masked_01 _)) as Hcell.
    unfold cellOf in Hcell. simpl gdata. change (default [] (Some ?x)) with x.
    destruct (Parse _) as [[h app]| | |]; try done. injection Hcell as H1 H2 H3.
    assert (app = kvValue kv) as ->.
    { rewrite H3. destruct (IsDeleted (headerFlags c (kvValue kv) (MaskedFlags kv))) eqn:Ed; [|done].
      symmetry. by apply Hok. }
    replace (oldWins c kv h (kvValue kv)) with true; [done|]. unfold oldWins.
    rewrite H1, Ets, Z.eqb_refl, bytes_Compare_refl. by rewrite !orb_true_r. }
  unfold nmerge in E. case_bool_decide as El.
  - injection E as <-. destruct (_ && _); [done|]. apply Hwritten; [done|apply Hok].
  - destruct (Parse (gdata old)) as [[h app]| | |] eqn:Ep; try done. injection E as <-.
    destruct (oldWins c kv h app) eqn:Ew.
    + unfold nmerge. rewrite bool_decide_eq_false_2, Ep, Ew by done. done.
    + apply Hwritten; [apply headerTS_idem|done].
Qed.

(** [Clean] turns a live value into a deletion marker with the iterator's
    default timestamp and no value, leaves a deletion marker alone byte for
    byte, and reports a value without a valid header as an error. *)
Theorem native_clean it (old : bytes) :
  buf_ok it → cfg_ok (nCfg it) →
  ∃ it', match cellOf old with
  | Some co =>
      if cDel co then NativeClean it (Some old) = (it', Ok (Some old))
      else ∃ r, NativeClean it (Some old) = (it', Ok (Some r)) ∧
             cellOf r = Some (MkCell (DefaultTimestampNano (nCfg it)) true [])
  | None => ∃ e, NativeClean it (Some old) = (it', Err e)
  end.
Proof.
  intros Hb Hc. destruct (NativeClean_ok it (Some old) Hb) as (it' & E & _ & _).
  exists it'. rewrite E. unfold nclean, cellOf. simpl gdata.
  change (default [] (Some old)) with old.
  destruct (parse_total old) as [(h & app & ->)|[->| ->]]; [|by eexists..].
  simpl cDel. destruct (IsDeleted (hFlags h)) eqn:Ed; [done|].
  eexists. split; [done|].
  pose proof (cellOf_nheader (nCfg it) [] 0 FlagDeleted Hc ltac:(lia) ltac:(by right)) as H.
  assert (IsDeleted (headerFlags (nCfg it) [] FlagDeleted) = true) as Hd
    by (unfold headerFlags; by case_if).
  rewrite Hd in H. exact H.
Qed.

(** an iterator is made exactly for the snapshot versions this program
    supports, with a transaction ID. *)
Theorem native_iterator_versions fv cv d ts txn cut :
  0 <= fv → 0 <= cv →
  is_ok (NewNativeIterator fv cv d ts txn cut) ↔
    CompatFormatVersion <= fv ∧ cv <= CurrentFormatVersion ∧ txn ≠ 0.
Proof.
  intros Hf Hv. unfold NewNativeIterator, is_ok, CompatFormatVersion, CurrentFormatVersion.
  destruct (Z.eqb_spec fv 0), (Z.ltb_spec 3 cv), (Z.ltb_spec fv 1), (Z.eqb_spec txn 0);
    (split; [intros [? ?]; try discriminate; lia|]); intros; first [lia | by eexists].
Qed.

Definition ex_cfg : nativeCfg := MkNativeCfg 5 9 3 false 0.

(** A live entry with an empty value and a deletion, written at the same time. *)
Definition ex_live_empty : KV := MkKV (str "k") [] 100 0.
Definition ex_deleted : KV := MkKV (str "k") [] 100 1.

(** two entries with the same timestamp, one live with an empty value and
    one deleted, are merged differently depending on which comes first: one
    order ends with the key live, the other with the key deleted. *)
Theorem merge_tie_diverges :
  (∃ r r', nmerge ex_cfg ex_live_empty None = Ok r ∧ nmerge ex_cfg ex_deleted r = Ok r' ∧
     cDel <$> (r' ≫= cellOf) = Some false) ∧
  (∃ r r', nmerge ex_cfg ex_deleted None = Ok r ∧ nmerge ex_cfg ex_live_empty r = Ok r' ∧
     cDel <$> (r' ≫= cellOf) = Some true).
Proof. split; do 2 eexists; split_and!; vm_compute; reflexivity. Qed.

(** copying a key with an empty value from the main database over its own
    deletion marker in the shadow database keeps the marker: the key stays
    deleted, although the main database has it. *)
Theorem shadow_empty_value_stays_deleted c key (old : bytes) h :
  Parse old = Ok (h, []) → nmerge c (MkKV key [] 0 0) (Some old) = Ok (Some old).
Proof.
  intros Hp. unfold nmerge. case_bool_decide as E.
  { simpl in E. destruct old; [|done]. by rewrite parse_short in Hp. }
  simpl gdata. change (default [] (Some old)) with old. by rewrite Hp.
Qed.

(** *** Witnesses *)

Definition ex_value (ts flags : Z) (app : bytes) : bytes :=
  layout ts 3 0 flags (replicate 4 Byte.x00) 0 [] ++ app.

Definition ex_native : NativeIterator :=
  MkNative ex_cfg NewDBI 0 true None (MkKV (str "k") (str "new") 200 0).

Lemma native_merge_lww_witness :
  ∃ it' r, NativeMerge ex_native (Some (ex_value 100 0 (str "old"))) = (it', Ok r) ∧
    (present r ≫= cellOf) =
      omerge (nCfg ex_native) (nCurKV ex_native) (Some (MkCell 100 false (str "old"))) ∧
    nDBIMsg it' = nDBIMsg ex_native ∧ nCurKV it' = nCurKV ex_native ∧ nCfg it' = nCfg ex_native.
Proof.
  apply native_merge_lww; [done|done|split; [done|vm_compute; discriminate]|done
    |vm_compute; reflexivity|by eexists].
Defined.

Lemma native_merge_idempotent_witness :
  ∃ r, nmerge ex_cfg ex_deleted None = Ok r ∧ nmerge ex_cfg ex_deleted r = Ok r.
Proof.
  eexists. split; [reflexivity|].
  apply (native_merge_idempotent ex_cfg ex_deleted None); [done|by split|reflexivity|done].
Defined.

Lemma native_clean_witness :
  ∃ it' r, NativeClean ex_native (Some (ex_value 100 0 (str "old"))) = (it', Ok (Some r)) ∧
    cellOf r = Some (MkCell 5 true []).
Proof.
  destruct (native_clean ex_native (ex_value 100 0 (str "old"))) as [it' H]; [done|done|].
  exists it'. exact H.
Defined.

Lemma native_iterator_versions_witness :
  is_ok (NewNativeIterator 3 1 NewDBI 0 9 0) ↔
    CompatFormatVersion <= 3 ∧ 1 <= CurrentFormatVersion ∧ 9 ≠ 0.
Proof. apply native_iterator_versions; lia. Defined.

Lemma shadow_empty_value_stays_deleted_witness :
  nmerge ex_cfg (MkKV (str "k") [] 0 0) (Some (ex_value 100 1 [])) =
    Ok (Some (ex_value 100 1 [])).
Proof. eapply shadow_empty_value_stays_deleted. vm_compute. reflexivity. Defined.
