(* ===== verification/Convergence.v ===== *)
(** * Convergence of replicas

    Every instance merges the snapshots of the others into its own database
    with [strategy.Update] and a [NativeIterator], in whatever order they
    arrive.  This file shows that the order does not matter: two instances
    that loaded the same entries agree on every key, up to the transaction
    IDs in the headers. *)

From Stdlib Require Import Permutation.
From S2P Require Import Prelude Header Proto Kv Dbi Lmdb Strategy Iterators.

(** A load: the configuration of its iterator and the entries of the dump. *)
Definition load : Type := nativeCfg * list KV.

Section runs.
Context `{P : CSProto} `{PL : !CSProtoLaws P}.
Context `{V : LMDBView} `{HL : !LMDBLaws L V}.

(** One load of a dump into a database: some transaction in which the database
    has the content [m] runs [Update]. *)
Inductive loads_into (h : DBIh) : gmap bytes bytes → load → gmap bytes bytes → Prop :=
  | loads_into_intro t t' fuel c d kvs :
      uniq t h → remains (ResetCursor d) kvs →
      Forall (λ kv, key_ok t h (kvKey kv)) kvs → (length kvs < fuel)%nat →
      Update fuel t h (MkNative c d 0 false None emptyKV) = Ok t' →
      loads_into h (dbm t h) (c, kvs) (dbm t' h).

(** A replica that performs loads one after the other; what happens between
    two transactions does not touch the database. *)
Inductive run (h : DBIh) : gmap bytes bytes → list load → gmap bytes bytes → Prop :=
  | run_nil m : run h m [] m
  | run_cons m l m' ls m'' : loads_into h m l m' → run h m' ls m'' → run h m (l :: ls) m''.

(** The entries of a sequence of loads, each with its configuration. *)
Definition stamped (ls : list load) : list (nativeCfg * KV) :=
  ls ≫= λ l, (λ kv, (l.1, kv)) <$> l.2.

Definition cells (m : gmap bytes bytes) (k : bytes) : option cell := m !! k ≫= cellOf.

(** Every value of the database has a valid header. *)
Definition headers_ok (m : gmap bytes bytes) : Prop :=
  ∀ k v, m !! k = Some v → is_Some (cellOf v).

(** An entry the theorems are about: in range, with a timestamp, and not a
    deletion that is too old to be added. *)
Definition fresh (e : nativeCfg * KV) : Prop :=
  cfg_ok e.1 ∧ entry_ok e.1 e.2 ∧ kvTimestampNano e.2 ≠ 0 ∧ stale e.1 e.2 = false.

Definition stampCell (e : nativeCfg * KV) : cell := entryCell e.1 e.2.

Definition mergeStamped (m : gmap bytes bytes) (e : nativeCfg * KV) : gmap bytes bytes :=
  setkey m (kvKey e.2) (present (okval (nmerge e.1 e.2 (m !! kvKey e.2)))).

Definition putCell (o : option cell) (n : cell) : option cell :=
  Some (match o with None => n | Some c => amerge n c end).

Lemma mergeStamped_cells m e k :
  headers_ok m → fresh e →
  headers_ok (mergeStamped m e) ∧ is_ok (nmerge e.1 e.2 (m !! kvKey e.2)) ∧
  cells (mergeStamped m e) k =
    if decide (kvKey e.2 = k) then putCell (cells m k) (stampCell e) else cells m k.
Proof.
  intros Hm (Hc & Hok & Hts & Hst). destruct e as [c kv]. simpl in *.
  destruct (nmerge_cell c kv (m !! kvKey kv) (cells m (kvKey kv)) Hc Hok Hts eq_refl)
    as (r & Er & Hr).
  { intros Hn. unfold cells. destruct (m !! kvKey kv) eqn:E; [|done]. by eapply Hm. }
  unfold mergeStamped. simpl. rewrite Er. cbn [okval].
  assert (Hcell : present r ≫= cellOf = putCell (cells m (kvKey kv)) (stampCell (c, kv))).
  { rewrite Hr. unfold omerge, putCell. rewrite Hst. by destruct (cells m (kvKey kv)). }
  split_and!; [|by eexists|].
  - intros k' v Hv. destruct (decide (kvKey kv = k')) as [<-|Hne].
    + rewrite lookup_setkey_eq in Hv. rewrite Hv in Hcell. simpl in Hcell.
      rewrite Hcell. by eexists.
    + rewrite lookup_setkey_ne in Hv by done. by eapply Hm.
  - unfold cells at 1. destruct (decide (kvKey kv = k)) as [<-|Hne].
    + by rewrite lookup_setkey_eq.
    + by rewrite lookup_setkey_ne.
Qed.

(** The entries of one key. *)
Definition at_key (k : bytes) (es : list (nativeCfg * KV)) : list (nativeCfg * KV) :=
  filter (λ e, kvKey e.2 = k) es.

Lemma foldl_cells m es k :
  headers_ok m → Forall fresh es →
  headers_ok (foldl mergeStamped m es) ∧
  cells (foldl mergeStamped m es) k =
    foldl putCell (cells m k) (stampCell <$> at_key k es).
Proof.
  intros Hm Hf. revert m Hm. induction Hf as [|e es He Hf IH]; intros m Hm; [done|]. simpl.
  destruct (mergeStamped_cells m e k Hm He) as (Hm' & _ & Hc).
  destruct (IH _ Hm') as [H1 H2]. split; [done|]. rewrite H2, Hc.
  unfold at_key. rewrite filter_cons. by destruct (decide (kvKey e.2 = k)).
Qed.

(** A load is the merge of its entries. *)
Lemma loads_into_foldl h m c kvs m' :
  loads_into h m (c, kvs) m' → headers_ok m → Forall (λ kv, fresh (c, kv)) kvs →
  m' = foldl mergeStamped m ((λ kv, (c, kv)) <$> kvs).
Proof using PL HL.
  intros Hl Hm Hf. remember (c, kvs) as l eqn:El.
  destruct Hl as [t t' fuel c' d kvs' Hu Hr Hk Hfuel E]. injection El as -> ->.
  destruct (Update_ok (Sp := native_spec c) h fuel t (MkNative c d 0 false None emptyKV) None kvs)
    as (t1 & E1 & _ & Hres); [done|exact (new_native_at d kvs c Hr)|exact Hk| |done|].
  - clear -Hm Hf. revert Hm. generalize (dbm t h) as m. intros m.
    revert m. induction Hf as [|kv kvs Hkv Hf IH]; intros m Hm; [done|].
    destruct (mergeStamped_cells m (c, kv) [] Hm Hkv) as (Hm' & Hok & _).
    split; [exact Hok|]. apply IH. exact Hm'.
  - rewrite E in E1. injection E1 as <-. rewrite Hres. clear. generalize (dbm t h) as m.
    induction kvs as [|kv kvs IH]; intros m; [done|]. simpl. apply IH.
Qed.

Lemma run_foldl h m ls m' :
  run h m ls m' → headers_ok m → Forall fresh (stamped ls) →
  m' = foldl mergeStamped m (stamped ls).
Proof using PL HL.
  induction 1 as [m|m [c kvs] m1 ls m2 Hl Hr IH]; intros Hm Hf; [done|].
  unfold stamped in *. rewrite bind_cons in *. simpl in *. apply Forall_app in Hf as [Hf1 Hf2].
  assert (Hf1' : Forall (λ kv, fresh (c, kv)) kvs) by exact (proj1 (Forall_fmap _ _ _) Hf1).
  rewrite foldl_app. rewrite <- (loads_into_foldl h m c kvs m1 Hl Hm Hf1').
  apply IH; [|done]. rewrite (loads_into_foldl h m c kvs m1 Hl Hm Hf1').
  by apply (foldl_cells m _ [] Hm).
Qed.
End runs.

(** ** Order does not matter *)

Lemma putCell_comm o a b : compat a b → putCell (putCell o a) b = putCell (putCell o b) a.
Proof.
  intros Hc. unfold putCell. destruct o as [c|]; f_equal.
  - rewrite !amerge_assoc. f_equal. symmetry. by apply amerge_comm.
  - symmetry. by apply amerge_comm.
Qed.

Definition all_compat (l : list cell) : Prop := ∀ a b, a ∈ l → b ∈ l → compat a b.

Lemma foldl_putCell_perm o l l' :
  Permutation l l' → all_compat l → foldl putCell o l = foldl putCell o l'.
Proof.
  intros Hp. revert o. induction Hp as [|a l l' Hp IH|a b l|l1 l2 l3 H1 IH1 H2 IH2];
    intros o Hc; simpl.
  - done.
  - apply IH. intros x y Hx Hy. apply Hc; by right.
  - rewrite putCell_comm; [done|]. apply Hc; set_solver.
  - rewrite IH1 by done. apply IH2. intros x y Hx Hy.
    apply Hc; [by rewrite H1|by rewrite H1].
Qed.

Section convergence.
Context `{P : CSProto} `{PL : !CSProtoLaws P}.
Context `{V : LMDBView} `{HL : !LMDBLaws L V}.

(** No key has two entries with the same timestamp and value of which only one
    is a deletion. *)
Definition no_tie (es : list (nativeCfg * KV)) : Prop :=
  ∀ e e', e ∈ es → e' ∈ es → kvKey e.2 = kvKey e'.2 → compat (stampCell e) (stampCell e').

(** Two replicas that start from the same content and load the same
    entries, split into snapshots and ordered in any way, agree on the
    timestamp, the deletion flag and the value of every key. *)
Theorem replicas_converge h m ls ls' m1 m2 :
  headers_ok m → Forall fresh (stamped ls) → no_tie (stamped ls) →
  Permutation (stamped ls) (stamped ls') →
  run h m ls m1 → run h m ls' m2 →
  ∀ k, cells m1 k = cells m2 k.
Proof using PL HL.
  intros Hm Hf Ht Hp H1 H2 k.
  assert (Hf' : Forall fresh (stamped ls')) by (by rewrite <- Hp).
  rewrite (run_foldl h m ls m1 H1 Hm Hf), (run_foldl h m ls' m2 H2 Hm Hf').
  rewrite (proj2 (foldl_cells m _ k Hm Hf)), (proj2 (foldl_cells m _ k Hm Hf')).
  apply foldl_putCell_perm.
  - apply fmap_Permutation. unfold at_key. by rewrite Hp.
  - intros a b Ha Hb.
    apply list_elem_of_fmap in Ha as (e & -> & [He Hin]%list_elem_of_filter).
    apply list_elem_of_fmap in Hb as (e' & -> & [He' Hin']%list_elem_of_filter).
    apply Ht; congruence.
Qed.

(** A replica never loses a newer cell: after any run, the cell of a key is
    the old one or comes from a loaded entry, and no loaded entry of the key
    is newer than it. *)
Theorem run_keeps_newest h m ls m' k :
  headers_ok m → Forall fresh (stamped ls) → run h m ls m' →
  match cells m' k with
  | Some c =>
      (cells m k = Some c ∨ ∃ e, e ∈ at_key k (stamped ls) ∧ stampCell e = c) ∧
      (∀ e, e ∈ at_key k (stamped ls) → older (stampCell e) c = true) ∧
      (∀ c0, cells m k = Some c0 → older c0 c = true)
  | None => cells m k = None ∧ at_key k (stamped ls) = []
  end.
Proof using PL HL.
  intros Hm Hf Hr. rewrite (run_foldl h m ls m' Hr Hm Hf), (proj2 (foldl_cells m _ k Hm Hf)).
  generalize (at_key k (stamped ls)) as es. generalize (cells m k) as o. clear.
  intros o es. induction es as [|e es IH] using rev_ind.
  - destruct o as [c|]; simpl; [|done]. split_and!; [by left|set_solver|].
    intros c0 [= ->]. apply older_refl.
  - rewrite fmap_app, foldl_app. simpl.
    destruct (foldl putCell o (stampCell <$> es)) as [c|]; simpl.
    + destruct IH as (IH1 & IH2 & IH3). unfold amerge.
      destruct (older (stampCell e) c) eqn:E.
      * split_and!; [|intros e' [?| ->%list_elem_of_singleton]%elem_of_app; auto|done].
        destruct IH1 as [?|(e' & ? & ?)]; [by left|right]. exists e'. set_solver.
      * assert (older c (stampCell e) = true) as E' by (by destruct (older_total c (stampCell e)); [|congruence]).
        split_and!; [right; exists e; set_solver| |].
        -- intros e' [?| ->%list_elem_of_singleton]%elem_of_app; [|apply older_refl].
           eapply older_trans; [by apply IH2|done].
        -- intros c0 H0. eapply older_trans; [by apply IH3|done].
    + destruct IH as [-> ->]. split_and!; [right; exists e; set_solver| |done].
      intros e' [?| ->%list_elem_of_singleton]%elem_of_app; [set_solver|apply older_refl].
Qed.
End convergence.

(** ** Witnesses on the reference database *)

Section examples.
#[local] Existing Instances RefProto RefProto_laws Ref.RefLMDB Ref.RefView Ref.RefLMDB_laws.

Definition ex_dump (kvs : list KV) : DBI :=
  MkDBI [] 0 [] (concat (entry_msg <$> kvs)) 0 false true 0 0.

Definition key_fits (kv : KV) : Prop := 1 <= zlen (kvKey kv) <= 511.

(** Every load of usable entries can be performed. *)
Lemma ref_loads m c kvs :
  headers_ok m → Forall (λ kv, fresh (c, kv)) kvs → Forall kv_written kvs →
  Forall key_fits kvs →
  ∃ m', loads_into (Some (str "db") : DBIh) m (c, kvs) m' ∧ headers_ok m'.
Proof.
  intros Hm Hf Hw Hk.
  set (t := Ref.MkTxn 7 {[ str "db" := Ref.MkDb 0 m [] ]} : @Txn Ref.RefLMDB).
  set (h := Some (str "db") : @DBIh Ref.RefLMDB).
  assert (Hu : uniq t h) by (split; [by exists (str "db")|done]).
  assert (Hdm : dbm t h = m) by exact (Ref.sorted_map (Ref.MkDb 0 m [])).
  assert (Hkeys : Forall (λ kv, key_ok t h (kvKey kv)) kvs)
    by (eapply Forall_impl; [|exact Hk]; by intros kv ?; split).
  assert (Hr : remains (ResetCursor (ex_dump kvs)) kvs)
    by (by apply (remains_reset _ kvs [] 0 [])).
  destruct (Update_ok (Sp := native_spec c) h (S (length kvs)) t
    (MkNative c (ex_dump kvs) 0 false None emptyKV) None kvs) as (t' & E & _ & Hres);
    [done|exact (new_native_at _ _ c Hr)|exact Hkeys| |exact (Nat.lt_succ_diag_r _)|].
  { rewrite Hdm. clear -Hm Hf. revert m Hm.
    induction Hf as [|kv kvs Hkv Hf IH]; intros m Hm; [done|].
    destruct (mergeStamped_cells m (c, kv) [] Hm Hkv) as (Hm' & Hok & _).
    split; [exact Hok|]. apply IH. exact Hm'. }
  assert (Hl : loads_into h m (c, kvs) (dbm t' h)).
  { rewrite <- Hdm at 1. by eapply loads_into_intro; [|exact Hr| | |exact E]; [..|lia]. }
  exists (dbm t' h). split; [done|].
  rewrite (loads_into_foldl h m c kvs _ Hl Hm Hf).
  by apply (foldl_cells m _ [] Hm), Forall_fmap.
Qed.

Lemma ref_run m ls :
  headers_ok m →
  Forall (λ l : load, Forall (λ kv, fresh (l.1, kv)) l.2 ∧ Forall kv_written l.2 ∧
                      Forall key_fits l.2) ls →
  ∃ m', run (Some (str "db") : DBIh) m ls m'.
Proof.
  intros Hm Hls. revert m Hm. induction Hls as [|[c kvs] ls (Hf & Hw & Hk) Hls IH]; intros m Hm.
  - exists m. constructor.
  - destruct (ref_loads m c kvs Hm Hf Hw Hk) as (m1 & Hl & Hm1).
    destruct (IH m1 Hm1) as (m2 & Hr). exists m2. by econstructor.
Qed.

Definition ex_c1 : nativeCfg := MkNativeCfg 0 10 3 false 0.
Definition ex_c2 : nativeCfg := MkNativeCfg 0 11 2 true 0.
Definition ex_l1 : load := (ex_c1, [MkKV (str "a") (str "x") 100 0; MkKV (str "b") (str "y") 100 0]).
Definition ex_l2 : load := (ex_c2, [MkKV (str "a") [] 200 1; MkKV (str "b") (str "w") 100 0]).

Lemma ex_loads_ok :
  Forall (λ l : load, Forall (λ kv, fresh (l.1, kv)) l.2 ∧ Forall kv_written l.2 ∧
                      Forall key_fits l.2) [ex_l1; ex_l2].
Proof. repeat (constructor || split); vm_compute; done. Qed.

Lemma ex_fresh : Forall fresh (stamped [ex_l1; ex_l2]).
Proof. repeat (constructor || split); vm_compute; done. Qed.

Lemma ex_no_tie : no_tie (stamped [ex_l1; ex_l2]).
Proof.
  intros e e' He He'. simpl in He, He'.
  repeat (apply elem_of_cons in He as [->|He]); try (by apply not_elem_of_nil in He);
  repeat (apply elem_of_cons in He' as [->|He']); try (by apply not_elem_of_nil in He');
  intros _; vm_compute; congruence.
Qed.

Lemma headers_ok_empty : headers_ok ∅.
Proof. intros k v Hv. by rewrite lookup_empty in Hv. Qed.

Lemma ex_perm : Permutation (stamped [ex_l1; ex_l2]) (stamped [ex_l2; ex_l1]).
Proof. apply (Permutation_app_comm (stamped [ex_l1]) (stamped [ex_l2])). Qed.

Lemma replicas_converge_witness : ∃ m1 m2,
  run (Some (str "db") : DBIh) ∅ [ex_l1; ex_l2] m1 ∧
  run (Some (str "db") : DBIh) ∅ [ex_l2; ex_l1] m2 ∧
  ∀ k, cells m1 k = cells m2 k.
Proof.
  destruct (ref_run ∅ [ex_l1; ex_l2] headers_ok_empty ex_loads_ok) as [m1 H1].
  destruct (ref_run ∅ [ex_l2; ex_l1] headers_ok_empty) as [m2 H2].
  { pose proof ex_loads_ok as H. by rewrite (Permutation_swap ex_l2 ex_l1 []) in H. }
  exists m1, m2. split; [exact H1|]. split; [exact H2|].
  exact (replicas_converge _ _ _ _ _ _ headers_ok_empty ex_fresh ex_no_tie ex_perm H1 H2).
Defined.

Lemma run_keeps_newest_witness : ∃ m' c, cells m' (str "a") = Some c ∧
  (∀ e, e ∈ at_key (str "a") (stamped [ex_l1; ex_l2]) → older (stampCell e) c = true).
Proof.
  destruct (ref_run ∅ [ex_l1; ex_l2] headers_ok_empty ex_loads_ok) as [m' H].
  pose proof (run_keeps_newest _ _ _ _ (str "a") headers_ok_empty ex_fresh H) as Hn.
  exists m'. destruct (cells m' (str "a")) as [c|].
  - exists c. split; [done|]. apply Hn.
  - destruct Hn as [_ Hn]. exfalso. vm_compute in Hn. discriminate.
Defined.
End examples.
