(* ===== verification/Config.v ===== *)
(** * Configuration (config/config.go, config/logger/config.go, lmdbenv/new.go)

    The configuration the other components read, its validation and its
    defaults.  Durations are nanoseconds in an [int64].  The retention of the
    sweeper is a [float32] number of days, given by its mantissa and exponent.
    Loading, printing and the settings of the storage backend are in
    Startup.v. *)

From S2P Require Import Prelude.

(** Durations *)
Definition Millisecond : Z := 1000000.
Definition Second : Z := 1000 * Millisecond.
Definition Minute : Z := 60 * Second.
Definition Hour : Z := 60 * Minute.

(** ** Logging *)

Module Log.
Record LogConfig : Type := MkLog {
  Level : bytes;
  Format : bytes;
  Timestamp : bytes;
}.

Definition LogLevels : list bytes :=
  [str "debug"; str "info"; str "warning"; str "error"; str "fatal"].
Definition LogFormats : list bytes := [str "human"; str "logfmt"; str "json"].
Definition LogTimestamps : list bytes := [str "short"; str "disable"; str "full"].

Definition DefaultConfig : LogConfig := MkLog (str "info") (str "human") (str "short").

(** [parseLevel] is whether [logrus.ParseLevel] accepts a level. *)
Definition LogCheck (parseLevel : bytes → bool) (c : LogConfig) : outcome unit :=
  if negb (parseLevel (Level c)) then Err (EMsg "log.level: must be one of")
  else if negb (bool_decide (Format c ∈ LogFormats)) then Err (EMsg "log.format: must be one of")
  else if negb (bool_decide (Timestamp c = [])) && negb (bool_decide (Timestamp c ∈ LogTimestamps))
  then Err (EMsg "log.timestamp: must be one of")
  else Ok tt.

Definition Merge (c o : LogConfig) : LogConfig :=
  MkLog (if bool_decide (Level o = []) then Level c else Level o)
    (if bool_decide (Format o = []) then Format c else Format o)
    (if bool_decide (Timestamp o = []) then Timestamp c else Timestamp o).
End Log.

(** ** LMDB environments (lmdbenv/new.go) *)

Record Options : Type := MkOptions {
  DirMask : Z;
  FileMask : Z;
  MapSize : Z;
  MaxDBs : Z;
  NoSubdir : bool;
  Create : bool;
  EnvFlags : Z;
}.

Definition DefaultDirMask : Z := 509.
Definition DefaultFileMask : Z := 436.
Definition DefaultMapSize : Z := 1024 * 1024 * 1024.
Definition DefaultMaxDBs : Z := 64.

Definition WithDefaults (o : Options) : Options :=
  MkOptions (if DirMask o =? 0 then DefaultDirMask else DirMask o)
    (if FileMask o =? 0 then DefaultFileMask else FileMask o)
    (MapSize o)
    (if MaxDBs o =? 0 then DefaultMaxDBs else MaxDBs o)
    (NoSubdir o) (Create o) (EnvFlags o).

Definition envCreate : Z := 0x40000.
Definition envNoSubdir : Z := 0x4000.

(** The calls of [NewWithOptions] to the operating system and LMDB. *)
Inductive envCall : Type :=
  | NewEnv
  | MkdirAll (dir : bytes) (mask : Z)
  | SetMapSize (size : Z)
  | SetMaxDBs (n : Z)
  | OpenEnv (path : bytes) (flags mask : Z).

(** The directory part of a path: everything up to the last slash. *)
Fixpoint upToSlash (rpath : bytes) : bytes :=
  match rpath with
  | [] => []
  | b :: r => if bool_decide (b = Byte.x2f) then rpath else upToSlash r
  end.

Definition filepath_Split_dir (path : bytes) : bytes := rev (upToSlash (rev path)).

(** Calls with their results, in order, up to the first one that fails. *)
Fixpoint runCalls (cs : list (envCall * outcome unit)) : list envCall * outcome unit :=
  match cs with
  | [] => ([], Ok tt)
  | (c, Ok _) :: cs => let '(done, r) := runCalls cs in (c :: done, r)
  | (c, r) :: _ => ([c], r)
  end.

(** The calls made, and the result. *)
Definition NewWithOptions (call : envCall → outcome unit) (path : bytes) (opt : Options)
    : list envCall * outcome unit :=
  let opt := WithDefaults opt in
  let flags := if Create opt then Z.lor (EnvFlags opt) envCreate else EnvFlags opt in
  let createIsSet := 0 <? Z.land flags envCreate in
  let flags := if NoSubdir opt then Z.lor flags envNoSubdir else flags in
  let dirPath := if 0 <? Z.land flags envNoSubdir then filepath_Split_dir path else path in
  let mapSize := if (MapSize opt =? 0) && createIsSet then DefaultMapSize else MapSize opt in
  let do (wrap : outcome unit → outcome unit) c := (c, wrap (call c)) in
  runCalls
    ([do (wrap_err "lmdb env: new") NewEnv] ++
     (if createIsSet then [do (wrap_err "lmdb env: mkdir") (MkdirAll dirPath (DirMask opt))]
      else []) ++
     [do (wrap_err "lmdb env: setmapsize") (SetMapSize (int64 mapSize));
      do (wrap_err "lmdb env: setmaxdbs") (SetMaxDBs (MaxDBs opt));
      do (wrap_err "lmdb env: open") (OpenEnv path flags (FileMask opt))]).

Definition NewEnvWithFlags (call : envCall → outcome unit) (path : bytes) (flags : Z)
    : list envCall * outcome unit :=
  NewWithOptions call path (MkOptions 0 0 0 0 false false flags).

(** ** Components *)

(** [swRetentionDays] is the [float32] mantissa · 2 ^ exponent. *)
Record Sweeper : Type := MkSweeper {
  swEnabled : bool;
  swRetentionDays : Z * Z;
  swInterval : Z;
  swFirstInterval : Z;
  swLockDuration : Z;
  swReleaseDuration : Z;
  swRetentionLoadCutoffDuration : Z;
}.

(** Rounding to the 24 significant bits of a [float32], ties to even, for
    values away from overflow and underflow. *)
Definition round24 (x : Z) : Z :=
  let a := Z.abs x in
  let sh := Z.max 0 (Z.log2 a - 23) in
  let q := Z.shiftr a sh in
  let r := a - Z.shiftl q sh in
  let up := (Z.shiftl 1 sh <? 2 * r) || (Z.shiftl 1 sh =? 2 * r) && Z.odd q in
  Z.sgn x * Z.shiftl (if up then q + 1 else q) sh.

(** The product of [float32]s, truncated to an [int64]. *)
Definition RetentionDuration (sw : Sweeper) : Z :=
  let '(m, e) := swRetentionDays sw in
  let p := round24 (m * round24 (24 * Hour)) in
  int64 (Z.sgn p * Z.shiftl (Z.abs p) e).

(** Go's integer division truncates towards zero and products wrap. *)
Definition RetentionDurationMinusCutoff (sw : Sweeper) : Z :=
  let retention := RetentionDuration sw in
  if 0 <? swRetentionLoadCutoffDuration sw then
    let buffer := swRetentionLoadCutoffDuration sw in
    let maxBuffer := Z.quot (int64 (retention * 3)) 4 in
    let buffer := if maxBuffer <? buffer then maxBuffer else buffer in
    int64 (retention - buffer)
  else int64 (retention - Z.quot retention 100).

Record Cleanup : Type := MkCleanup {
  cuEnabled : bool;
  cuInterval : Z;
  cuMustKeepInterval : Z;
  cuRemoveOldInstancesInterval : Z;
}.

Record LMDBConf : Type := MkLMDB {
  lcPath : bytes;
  lcOptions : Options;
  lcDBIOptions : gmap bytes (option Z);
  lcSchemaTracksChanges : bool;
  lcDupSortHack : bool;
  lcHeaderExtraPaddingBlock : bool;
}.

Record HealthConfig : Type := MkHealth {
  hcEvaluationInterval : Z;
  hcErrorDuration : Z;
  hcWarnDuration : Z;
}.

Record StartConfig : Type := MkStart {
  scEvaluationInterval : Z;
  scErrorDuration : Z;
  scWarnDuration : Z;
  scReportHealthz : bool;
  scReportMetadata : bool;
}.

Record Health : Type := MkHealths {
  StorageList : HealthConfig;
  StorageLoad : HealthConfig;
  StorageStore : HealthConfig;
  Start : StartConfig;
}.

Record Config : Type := MkConfig {
  Instance : bytes;
  LMDBs : list (bytes * LMDBConf);
  cSweeper : Sweeper;
  cCleanup : Cleanup;
  HTTPAddress : bytes;
  cLog : Log.LogConfig;
  cHealth : Health;
  LMDBPollInterval : Z;
  LMDBLogStatsInterval : Z;
  StoragePollInterval : Z;
  StorageRetryInterval : Z;
  StorageRetryCount : Z;
  StorageRetryForever : bool;
  StorageForceSnapshotInterval : Z;
  MemoryDownloadedSnapshots : Z;
  MemoryDecompressedSnapshots : Z;
  LMDBScrapeSmaps : bool;
  OnlyOnce : bool;
}.

(** Does [net.SplitHostPort] accept the address? *)
Definition colon : byte := Byte.x3a.
Definition lbracket : byte := Byte.x5b.
Definition rbracket : byte := Byte.x5d.

Definition indexByte (b : byte) (s : bytes) : option nat := fst <$> list_find (λ x, x = b) s.
Definition lastIndexByte (b : byte) (s : bytes) : option nat :=
  (λ p, length s - 1 - fst p)%nat <$> list_find (λ x, x = b) (rev s).
Definition hasByte (b : byte) (s : bytes) : bool := bool_decide (b ∈ s).

Definition SplitHostPort_ok (hostport : bytes) : bool :=
  match lastIndexByte colon hostport with
  | None => false
  | Some i =>
      if bool_decide (head hostport = Some lbracket) then
        match indexByte rbracket hostport with
        | None => false
        | Some e =>
            bool_decide (e + 1 = i)%nat &&
            negb (hasByte lbracket (drop 1 hostport)) && negb (hasByte rbracket (drop (e + 1) hostport))
        end
      else negb (hasByte colon (take i hostport)) &&
           negb (hasByte lbracket hostport) && negb (hasByte rbracket hostport)
  end.

(** The checks of one configured LMDB. *)
Definition checkLMDB (l : LMDBConf) : outcome unit :=
  if bool_decide (lcPath l = []) then Err (EMsg "no path configured")
  else if 511 <? FileMask (lcOptions l) then Err (EMsg "lmdb.options.file_mask: too large value")
  else if 511 <? DirMask (lcOptions l) then Err (EMsg "lmdb.options.dir_mask: too large value")
  else if lcSchemaTracksChanges l && lcDupSortHack l
  then Err (EMsg "lmdb.schema_tracks_changes: cannot be used together with the dupsort_hack option")
  else Ok tt.

(** [LMDBs] lists the map in the order Go happens to iterate it. *)
Fixpoint checkLMDBs (ls : list (bytes * LMDBConf)) : outcome unit :=
  match ls with
  | [] => Ok tt
  | (_, l) :: ls => _ ← checkLMDB l; checkLMDBs ls
  end.

Definition Check (parseLevel : bytes → bool) (c : Config) : outcome unit :=
  _ ← Log.LogCheck parseLevel (cLog c);
  if bool_decide (LMDBs c = []) then Err (EMsg "no LMDBs configured")
  else
    _ ← checkLMDBs (LMDBs c);
    if negb (bool_decide (HTTPAddress c = [])) && negb (SplitHostPort_ok (HTTPAddress c))
    then Err (EMsg "http.address")
    else if LMDBPollInterval c <? 100 * Millisecond
    then Err (EMsg "lmdb_poll_interval: too short interval")
    else if StoragePollInterval c <? 100 * Millisecond
    then Err (EMsg "storage_poll_interval: too short interval")
    else if StorageRetryInterval c <? 100 * Millisecond
    then Err (EMsg "storage_retry_interval: too short interval")
    else if negb (StorageForceSnapshotInterval c =? 0) && (StorageForceSnapshotInterval c <? Minute)
    then Err (EMsg "storage_force_snapshot_interval: too short interval (minimum 1m if enabled)")
    else if StorageRetryCount c <? 1 then Err (EMsg "storage_retry_count: positive number required")
    else if MemoryDownloadedSnapshots c <? 1
    then Err (EMsg "memory_downloaded_snapshots: positive number required")
    else if MemoryDecompressedSnapshots c <? 1
    then Err (EMsg "memory_decompressed_snapshots: positive number required")
    else Ok tt.

Definition DefaultHealthStorage : HealthConfig := MkHealth (5 * Second) (5 * Minute) (1 * Minute).
Definition DefaultHealthStart : StartConfig :=
  MkStart (1 * Second) (5 * Minute) (1 * Minute) false true.

Definition Default : Config := {|
  Instance := [];
  LMDBs := [];
  cSweeper := MkSweeper false (370, 0) (6 * Hour) (10 * Minute)
                (50 * Millisecond) (50 * Millisecond) 0;
  cCleanup := MkCleanup false (5 * Minute) (10 * Minute) (7 * 24 * Hour);
  HTTPAddress := [];
  cLog := Log.DefaultConfig;
  cHealth := MkHealths DefaultHealthStorage DefaultHealthStorage DefaultHealthStorage
               DefaultHealthStart;
  LMDBPollInterval := Second;
  LMDBLogStatsInterval := 30 * Minute;
  StoragePollInterval := Second;
  StorageRetryInterval := 5 * Second;
  StorageRetryCount := 100;
  StorageRetryForever := false;
  StorageForceSnapshotInterval := 4 * Hour;
  MemoryDownloadedSnapshots := 2;
  MemoryDecompressedSnapshots := 3;
  LMDBScrapeSmaps := true;
  OnlyOnce := false;
|}.

(** ** Properties *)

Lemma checkLMDBs_ok ls :
  checkLMDBs ls = Ok tt ↔ Forall (λ l, checkLMDB (snd l) = Ok tt) ls.
Proof.
  induction ls as [|[n l] ls IH]; [by split|]. simpl.
  destruct (checkLMDB l) as [[]| | |] eqn:E; simpl.
  - rewrite IH. split; [by constructor|]. intros H. by apply Forall_cons_1 in H as [_ H].
  - split; [done|]. intros H%Forall_inv. simpl in H. congruence.
  - split; [done|]. intros H%Forall_inv. simpl in H. congruence.
  - split; [done|]. intros H%Forall_inv. simpl in H. congruence.
Qed.

Lemma retention_bounds sw :
  0 <= RetentionDuration sw < 2 ^ 61 →
  RetentionDuration sw <= 4 * RetentionDurationMinusCutoff sw ∧
  RetentionDurationMinusCutoff sw <= RetentionDuration sw.
Proof.
  intros H. unfold RetentionDurationMinusCutoff. cbv zeta.
  revert H. generalize (RetentionDuration sw) as r. intros r H. case_if.
  - rewrite (int64_small (r * 3)) by lia.
    rewrite Z.quot_div_nonneg by lia.
    pose proof (Z.div_mod (r * 3) 4 ltac:(lia)).
    pose proof (Z.mod_pos_bound (r * 3) 4 ltac:(lia)).
    case_if; rewrite int64_small by lia; lia.
  - rewrite Z.quot_div_nonneg by lia.
    pose proof (Z.div_mod r 100 ltac:(lia)).
    pose proof (Z.mod_pos_bound r 100 ltac:(lia)).
    rewrite int64_small by lia. lia.
Qed.

(** For a retention of up to 73 years, the retention that decides which
    deletions are loaded is at least a quarter of the sweeper's and at most
    all of it, so that a deletion the sweeper removes is not loaded again. *)
Theorem retention_cutoff_bounds sw :
  0 <= RetentionDuration sw < 2 ^ 61 →
  let r := RetentionDurationMinusCutoff sw in
  RetentionDuration sw <= 4 * r ∧ r <= RetentionDuration sw.
Proof. apply retention_bounds. Qed.

(** opening an LMDB without the create option never creates a directory
    and never overrides the map size the file already has. *)
Theorem open_existing_env call path opt :
  (∀ c, call c = Ok tt) → Create opt = false → Z.land (EnvFlags opt) envCreate = 0 →
  MapSize opt = 0 →
  let '(calls, r) := NewWithOptions call path opt in
  r = Ok tt ∧ (∀ d m, MkdirAll d m ∉ calls) ∧ (∀ n, SetMapSize n ∈ calls → n = 0).
Proof.
  intros Hc Hcr Hf Hm. unfold NewWithOptions, WithDefaults. simpl. rewrite Hcr, Hf, Hm. simpl.
  rewrite !Hc. simpl. split_and!; [done|set_solver|]. intros n Hn.
  repeat (apply elem_of_cons in Hn as [Hn|Hn]; [try done|]).
  - by injection Hn.
  - by apply not_elem_of_nil in Hn.
Qed.

(** A configuration that passes [Check] has an LMDB, only usable LMDB
    settings (in particular no dupsort hack on a native schema), poll and
    retry intervals of at least 100 ms and positive counts. *)
Theorem checked_config parseLevel c :
  Check parseLevel c = Ok tt →
  LMDBs c ≠ [] ∧
  Forall (λ l, lcPath (snd l) ≠ [] ∧
               (lcSchemaTracksChanges (snd l) = true → lcDupSortHack (snd l) = false)) (LMDBs c) ∧
  100 * Millisecond <= LMDBPollInterval c ∧ 100 * Millisecond <= StoragePollInterval c ∧
  100 * Millisecond <= StorageRetryInterval c ∧ 1 <= StorageRetryCount c ∧
  1 <= MemoryDownloadedSnapshots c ∧ 1 <= MemoryDecompressedSnapshots c.
Proof.
  unfold Check. intros H. inv_bind.
  case_bool_decide as Hl; [done|].
  destruct (checkLMDBs (LMDBs c)) as [[]| | |] eqn:El; [|done..]. cbn in H.
  repeat match type of H with (if ?b then _ else _) = _ => destruct b eqn:?; [done|] end.
  bool_arith. split_and!; try lia; [done|].
  apply checkLMDBs_ok in El. eapply Forall_impl; [|exact El]. intros [n l]. simpl.
  unfold checkLMDB. intros Hc. case_bool_decide; [done|]. split; [done|]. intros Ht.
  rewrite Ht in Hc. destruct (511 <? _); [done|]. destruct (511 <? _); [done|].
  by destruct (lcDupSortHack l).
Qed.

(** the default configuration passes [Check] as soon as LMDBs that pass
    their own check are added. *)
Theorem default_config_checks parseLevel ls :
  parseLevel (str "info") = true → ls ≠ [] → Forall (λ l, checkLMDB (snd l) = Ok tt) ls →
  Check parseLevel (MkConfig [] ls (cSweeper Default) (cCleanup Default) [] (cLog Default)
    (cHealth Default) (LMDBPollInterval Default) (LMDBLogStatsInterval Default)
    (StoragePollInterval Default) (StorageRetryInterval Default) (StorageRetryCount Default)
    (StorageRetryForever Default) (StorageForceSnapshotInterval Default)
    (MemoryDownloadedSnapshots Default) (MemoryDecompressedSnapshots Default)
    (LMDBScrapeSmaps Default) (OnlyOnce Default)) = Ok tt.
Proof.
  intros Hp Hne Hls. unfold Check, Log.LogCheck. cbn [cLog Default Log.Level Log.DefaultConfig].
  rewrite Hp. cbn [negb]. cbn [LMDBs]. apply checkLMDBs_ok in Hls. rewrite Hls.
  rewrite (bool_decide_eq_false_2 (ls = [])) by done. vm_compute. reflexivity.
Qed.

Definition ex_lmdb : LMDBConf :=
  MkLMDB (str "/var/lib/db") (MkOptions 0 0 0 0 false true 0) ∅ false true false.

Definition ex_lmdb_ro : LMDBConf :=
  MkLMDB (str "/var/lib/db") (MkOptions 0 0 0 0 true false 0) ∅ false true false.

Lemma retention_cutoff_bounds_witness :
  let sw := MkSweeper true (370, 0) 0 0 0 0 (400 * 24 * Hour) in
  let r := RetentionDurationMinusCutoff sw in
  RetentionDuration sw <= 4 * r ∧ r <= RetentionDuration sw.
Proof.
  apply (retention_cutoff_bounds (MkSweeper true (370, 0) 0 0 0 0 (400 * 24 * Hour))).
  vm_compute. split; [discriminate|reflexivity].
Defined.

Lemma default_config_checks_witness :
  Check (λ _, true) (MkConfig [] [(str "main", ex_lmdb)] (cSweeper Default) (cCleanup Default) []
    (cLog Default) (cHealth Default) (LMDBPollInterval Default) (LMDBLogStatsInterval Default)
    (StoragePollInterval Default) (StorageRetryInterval Default) (StorageRetryCount Default)
    (StorageRetryForever Default) (StorageForceSnapshotInterval Default)
    (MemoryDownloadedSnapshots Default) (MemoryDecompressedSnapshots Default)
    (LMDBScrapeSmaps Default) (OnlyOnce Default)) = Ok tt.
Proof.
  apply default_config_checks; [reflexivity|discriminate|].
  constructor; [vm_compute; reflexivity|constructor].
Defined.

Definition ex_config : Config :=
  MkConfig [] [(str "main", ex_lmdb)] (cSweeper Default) (cCleanup Default) (str ":8500")
    Log.DefaultConfig (cHealth Default) Second Second Second Second 1 true 0 1 1 false false.

Lemma checked_config_witness : Check (λ _, true) ex_config = Ok tt ∧ 1 <= StorageRetryCount ex_config.
Proof.
  assert (Check (λ _, true) ex_config = Ok tt) as H by (vm_compute; reflexivity).
  split; [exact H|]. apply (checked_config (λ _, true) ex_config H).
Defined.

Lemma open_existing_env_witness :
  let '(calls, r) := NewWithOptions (λ _, Ok tt) (str "/var/db/x") (lcOptions ex_lmdb_ro) in
  r = Ok tt ∧ (∀ d m, MkdirAll d m ∉ calls) ∧ (∀ n, SetMapSize n ∈ calls → n = 0).
Proof. apply (open_existing_env (λ _, Ok tt)); reflexivity. Defined.
