(* ===== verification/Shadow.v ===== *)
(** * Dumping databases and shadow databases

    lmdbenv/readdbi.go, empty.go, exists.go, the dump of a database
    ([Syncer.readDBI], [deletedCutoff] in syncer/utils.go) and the copies
    between the application's databases and their shadows with headers
    ([mainToShadow] and [shadowToMain] in syncer/shadow.go). *)

From Stdlib Require Import Sorted.
From S2P Require Import Prelude Header Proto Kv Dbi DupSort Lmdb Strategy Iterators Config.

Definition SyncDBIPrefix : bytes := str "_sync".
Definition SyncDBIShadowPrefix : bytes := str "_sync_shadow_".
Definition AllowedShadowDBIFlagsMask : Z := LMDBIntegerKeyFlag.

(** [strings.HasPrefix] *)
Definition HasPrefix (s p : bytes) : bool := bool_decide (take (length p) s = p).

(** ** lmdbenv *)

Section lmdbenv.
Context `{L : LMDB}.

Fixpoint readAll (fuel : nat) (t : Txn) (c : Cursor) (op : cursor_op)
    (acc : list (bytes * bytes)) : outcome (list (bytes * bytes)) :=
  match fuel with
  | O => Hang
  | S fuel =>
      match c_Get t c None None op with
      | (_, Err e) => if IsNotFound e then Ok acc else Err (EWrap "cursor next" e)
      | (c, Ok e) => readAll fuel t c Next (acc ++ [e])
      | (_, Panic) => Panic
      | (_, Hang) => Hang
      end
  end.

Definition ReadDBI (fuel : nat) (t : Txn) (h : DBIh) : outcome (list (bytes * bytes)) :=
  c ← wrap_err "open cursor" (txn_OpenCursor t h);
  _ ← txn_Stat t h;
  readAll fuel t c First [].

(** Go strings are byte sequences here. *)
Definition ReadDBIString (fuel : nat) (t : Txn) (h : DBIh) : outcome (list (bytes * bytes)) :=
  ReadDBI fuel t h.

Definition ReadDBINames (fuel : nat) (t : Txn) : outcome (list bytes) :=
  rootDBI ← txn_OpenRoot t 0;
  kvs ← ReadDBI fuel t rootDBI;
  Ok kvs.*1.

Definition IsEmpty (t : Txn) (h : DBIh) : outcome bool :=
  c ← wrap_err "open cursor" (txn_OpenCursor t h);
  match snd (c_Get t c None None First) with
  | Ok _ => Ok false
  | Err e => if IsNotFound e then Ok true else Err (EWrap "get" e)
  | Panic => Panic
  | Hang => Hang
  end.

Definition DBIExists (t : Txn) (dbiName : bytes) : outcome bool :=
  match txn_OpenDBI t dbiName 0 with
  | Ok _ => Ok true
  | Err e => if IsNotFound e then Ok false else Err e
  | Panic => Panic
  | Hang => Hang
  end.
End lmdbenv.

(** [stats.PageUsageBytes] *)
Definition PageUsageBytes (s : Stat) : Z :=
  uint64 (stPSize s * uint64 (stBranchPages s + stLeafPages s + stOverflowPages s)).

(** ** The syncer's view of its configuration *)

Record Syncer : Type := MkSyncer {
  sName : bytes;
  sLC : LMDBConf;
  sSweeper : Sweeper;
  FilterReadDBI : option (Timestamp → TxnID → Flags → bool);
}.

(** A loop over databases that stops at the first error. *)
Fixpoint forEach {T A} (f : T → A → outcome T) (t : T) (xs : list A) : outcome T :=
  match xs with
  | [] => Ok t
  | x :: xs => t ← f t x; forEach f t xs
  end.

(** The cutoff below which a deletion is not loaded; [now] in nanoseconds. *)
Definition deletedCutoff (s : Syncer) (now : Z) : Timestamp :=
  if swEnabled (sSweeper s)
  then TimestampFromTime (now - RetentionDurationMinusCutoff (sSweeper s))
  else 0.

Section syncer.
Context `{L : LMDB} `{P : CSProto}.
Context (s : Syncer).

(** The pre-allocation hint is computed in floating point from the page usage
    and the number of entries. *)
Context (sizeHint : Z → Z → bool → Z).

(** ** readDBI *)

(** The entry a row of the database becomes, with the fields of its header. *)
Definition rowFields (rawValues : bool) (val : bytes)
    : outcome (Timestamp * TxnID * Flags * bytes) :=
  if rawValues then Ok (0, 0, 0, val)
  else '(h, appVal) ← wrap_err "invalid entry" (Parse val);
       Ok (hTimestamp h, hTxnID h, hFlags h, appVal).

Definition included (ts : Timestamp) (txnID : TxnID) (flags : Flags) : bool :=
  match FilterReadDBI s with Some f => f ts txnID flags | None => true end.

Fixpoint readLoop (fuel : nat) (t : Txn) (c : Cursor) (op : cursor_op) (isDupSort rawValues : bool)
    (prev : gobytes) (dbiMsg : DBI) : outcome DBI :=
  match fuel with
  | O => Hang
  | S fuel =>
      match c_Get t c None None op with
      | (_, Err e) => if IsNotFound e then Ok dbiMsg else Err (EWrap "cursor next" e)
      | (c, Ok (key, val)) =>
          if negb (bool_decide (prev = None)) && negb isDupSort && bool_decide (gdata prev = key)
          then Err (EMsg "duplicate key detected without dupsort_hack, refusing to continue")
          else
            '(ts, txnID, flags, val) ← rowFields rawValues val;
            if included ts txnID flags then
              dbiMsg ← Dbi.Append dbiMsg (MkKV key val ts (Masked flags));
              readLoop fuel t c Next isDupSort rawValues (Some key) dbiMsg
            else readLoop fuel t c Next isDupSort rawValues (Some key) dbiMsg
      | (_, Panic) => Panic
      | (_, Hang) => Hang
      end
  end.

Definition readDBI (fuel : nat) (t : Txn) (dbiName origDBIName : bytes) (rawValues : bool)
    : outcome (Txn * DBI) :=
  '(t, dbi) ← txn_OpenDBI t dbiName 0;
  stat ← txn_Stat t dbi;
  dbiMsg ← NewDBISize (sizeHint (PageUsageBytes stat) (stEntries stat) rawValues);
  dbiMsg ← SetName dbiMsg origDBIName;
  '(t, dbiFlags) ←
    (if negb (bool_decide (dbiName = origDBIName)) then
       '(t, origDBI) ← txn_OpenDBI t origDBIName 0;
       f ← txn_Flags t origDBI; Ok (t, f)
     else f ← txn_Flags t dbi; Ok (t, f));
  let isDupSort := has_flag dbiFlags lmdb_DupSort in
  dbiMsg ← (if isDupSort then
              if negb (lcDupSortHack (sLC s))
              then Err (EMsg "readDBI: dupsort db found and dupsort_hack disabled")
              else SetTransform dbiMsg TransformDupSortHackV1
            else Ok dbiMsg);
  dbiMsg ← SetFlags dbiMsg (uint64 dbiFlags);
  c ← wrap_err "open cursor" (txn_OpenCursor t dbi);
  dbiMsg ← readLoop fuel t c First isDupSort rawValues None dbiMsg;
  '(dbiMsg, _) ← Size dbiMsg;
  Ok (t, dbiMsg).

(** ** mainToShadow and shadowToMain *)

(** The answers of the two [IsCanceled] checks for a database. *)
Context (isCanceled : bytes → bool → bool).

(** The body of the loop of [mainToShadow] for one database. *)
Definition mainToShadowOne (fuel : nat) (t : Txn) (now tsNano : Z) (dbiName : bytes)
    : outcome Txn :=
  if HasPrefix dbiName SyncDBIPrefix then Ok t
  else
    '(t, dbiMsg) ← readDBI fuel t dbiName dbiName true;
    '(t, dbi) ← txn_OpenDBI t dbiName 0;
    dbiFlags ← txn_Flags t dbi;
    let isDupSort := has_flag dbiFlags lmdb_DupSort in
    if isDupSort && negb (lcDupSortHack (sLC s))
    then Err (EMsg "mainToShadow: dupsort db found and dupsort_hack disabled")
    else
      let targetFlags := Z.land dbiFlags AllowedShadowDBIFlagsMask in
      dbiMsg ← (if lcDupSortHack (sLC s) && isDupSort
                then wrap_err "dupsort_hack error for DBI" (dupSortHackEncode dbiMsg)
                else Ok dbiMsg);
      if isCanceled dbiName false then Err Canceled
      else
        '(t, targetDBI) ← txn_OpenDBI t (SyncDBIShadowPrefix ++ dbiName)
                             (Z.lor lmdb_Create targetFlags);
        it ← wrap_err "create native iterator"
               (NewNativeIterator CurrentFormatVersion CompatFormatVersion dbiMsg tsNano
                  (uint64 (txn_ID t)) (deletedCutoff s now));
        t ← wrap_err "IterUpdate" (IterUpdate fuel t targetDBI it);
        if isCanceled dbiName true then Err Canceled else Ok t.

Definition mainToShadow (fuel : nat) (t : Txn) (now tsNano : Z) : outcome Txn :=
  dbiNames ← ReadDBINames fuel t;
  forEach (λ t n, mainToShadowOne fuel t now tsNano n) t dbiNames.

(** The body of the loop of [shadowToMain] for one database. *)
Definition shadowToMainOne (fuel : nat) (t : Txn) (dbiName : bytes) : outcome Txn :=
  if HasPrefix dbiName SyncDBIPrefix then Ok t
  else
    '(t, targetDBI) ← txn_OpenDBI t dbiName 0;
    dbiFlags ← txn_Flags t targetDBI;
    let isDupSort := has_flag dbiFlags lmdb_DupSort in
    if isDupSort && negb (lcDupSortHack (sLC s))
    then Err (EMsg "shadowToMain: dupsort db found and dupsort_hack disabled")
    else
      '(t, dbiMsg) ← readDBI fuel t (SyncDBIShadowPrefix ++ dbiName) dbiName false;
      dbiMsg ← (if isDupSort
                then wrap_err "dupsort_hack error for DBI" (dupSortHackDecode dbiMsg)
                else Ok dbiMsg);
      if isCanceled dbiName false then Err Canceled
      else
        let it := NewPlainIterator dbiMsg in
        t ← (if isDupSort then wrap_err "EmptyPut" (EmptyPut fuel t targetDBI it)
             else wrap_err "IterUpdate" (IterUpdate fuel t targetDBI it));
        if isCanceled dbiName true then Err Canceled else Ok t.

Definition shadowToMain (fuel : nat) (t : Txn) : outcome Txn :=
  dbiNames ← ReadDBINames fuel t;
  forEach (λ t n, shadowToMainOne fuel t n) t dbiNames.
End syncer.

(** A loop over databases whose steps leave each other's databases alone. *)
Lemma forEach_ok {T A} (key : A → bytes) (f : T → A → outcome T) (R post : T → T → A → Prop)
    (good : T → A → Prop) :
  (∀ t x, good t x → ∃ t', f t x = Ok t' ∧ R t t' x ∧ post t t' x) →
  (∀ t t' x x', R t t' x → key x ≠ key x' → good t x' → good t' x') →
  (∀ t t1 t2 x x', R t t1 x → key x ≠ key x' → good t x' → post t1 t2 x' → post t t2 x') →
  (∀ t t1 t2 x x', post t t1 x → R t1 t2 x' → key x ≠ key x' → post t t2 x) →
  ∀ xs t, NoDup (key <$> xs) → (∀ x, x ∈ xs → good t x) →
  ∃ t', forEach f t xs = Ok t' ∧ (∀ x, x ∈ xs → post t t' x) ∧
    (∀ t0 x0, key x0 ∉ key <$> xs → post t0 t x0 → post t0 t' x0) ∧
    ∀ Q : T → Prop, Q t → (∀ t1 t2 x, x ∈ xs → R t1 t2 x → Q t1 → Q t2) → Q t'.
Proof.
  intros Hstep Hgood Hback Hfwd. induction xs as [|x xs IH]; intros t Hnd Hg.
  - exists t. by split_and!; [done|set_solver| |].
  - simpl. destruct (Hstep t x) as (t1 & -> & HR & Hp); [apply Hg; by left|].
    rewrite bind_ok. pose proof (NoDup_cons_1_1 _ _ Hnd) as Hn.
    pose proof (NoDup_cons_1_2 _ _ Hnd) as Hnd'.
    assert (Hne : ∀ x', x' ∈ xs → key x ≠ key x').
    { intros x' Hx' Ek. apply Hn. rewrite Ek. by apply list_elem_of_fmap_2. }
    destruct (IH t1 Hnd') as (t' & -> & Hpost & Hkeep & Hinv).
    { intros x' Hx'. eapply Hgood; [exact HR|by apply Hne|apply Hg; by right]. }
    exists t'. split_and!; [done| | |].
    + intros x' [->|Hx']%elem_of_cons; [by apply Hkeep|].
      eapply Hback; [exact HR|by apply Hne|apply Hg; by right|by apply Hpost].
    + intros t0 x0 H0 Hp0. change (key x0 ∉ key x :: (key <$> xs)) in H0.
      apply not_elem_of_cons in H0 as [Hx Hni].
      apply Hkeep; [done|]. by eapply Hfwd.
    + intros Q HQ HRQ. apply Hinv; [eapply HRQ; [by left|exact HR|done]|].
      intros t2 t3 x' Hx'. apply HRQ. by right.
Qed.

(** ** Reading *)

Section reading.
Context `{V : LMDBView} `{HL : !LMDBLaws L V}.

(** A cursor that is about to return [l], first or following. *)
Definition upcoming (t : Txn) (c : Cursor) (op : cursor_op) (l : list (bytes * bytes)) : Prop :=
  match op with
  | First => entries t (cdb c) = l
  | Next => rest t c = l
  | SetRange => False
  end.

Lemma upcoming_reads t c op l :
  readable t (cdb c) → upcoming t c op l → cursor_reads t c op l.
Proof using HL.
  intros Hr Hu. destruct op; [| |done]; simpl in Hu; rewrite <- Hu.
  - by apply cursor_first.
  - by apply cursor_next.
Qed.

Lemma readAll_ok fuel t c op l acc :
  readable t (cdb c) → upcoming t c op l → (length l < fuel)%nat →
  readAll fuel t c op acc = Ok (acc ++ l).
Proof using HL.
  revert c op l acc. induction fuel as [|fuel IH]; intros c op l acc Hr Hu Hl; [lia|]. simpl.
  pose proof (upcoming_reads _ _ _ _ Hr Hu) as Hc. unfold cursor_reads in Hc.
  destruct l as [|[k v] r].
  - destruct Hc as (c' & -> & _). unfold IsNotFound.
    by rewrite bool_decide_eq_true_2, app_nil_r by done.
  - destruct Hc as (c' & -> & Hcd & _ & Hrest).
    rewrite (IH c' Next r); [by rewrite <- app_assoc|by rewrite Hcd|done|simpl in Hl; lia].
Qed.

Lemma ReadDBI_ok fuel t h :
  readable t h → (length (entries t h) < fuel)%nat → ReadDBI fuel t h = Ok (entries t h).
Proof using HL.
  intros Hr Hl. unfold ReadDBI. destruct (open_cursor t h Hr) as (c & -> & Hc).
  destruct (get_stat t h Hr) as [st ->]. rewrite wrap_err_ok, !bind_ok.
  by rewrite (readAll_ok fuel t c First (entries t h) []) by (simpl; by rewrite ?Hc).
Qed.

Lemma ReadDBINames_ok fuel t :
  (length (dbnames t) < fuel)%nat → ReadDBINames fuel t = Ok (dbnames t).
Proof using HL.
  intros Hl. unfold ReadDBINames. rewrite open_root, bind_ok.
  rewrite ReadDBI_ok, bind_ok; [by rewrite root_entries|by left|].
  by rewrite <- (length_fmap fst), root_entries.
Qed.

Lemma IsEmpty_ok t h : readable t h → IsEmpty t h = Ok (bool_decide (entries t h = [])).
Proof using HL.
  intros Hr. unfold IsEmpty. destruct (open_cursor t h Hr) as (c & -> & Hc).
  rewrite wrap_err_ok, bind_ok.
  assert (Hr' : readable t (cdb c)) by (by rewrite Hc).
  pose proof (cursor_first t c Hr') as Hf. rewrite Hc in Hf. unfold cursor_reads in Hf.
  destruct (entries t h) as [|[k v] r]; destruct Hf as (c' & -> & _); done.
Qed.

Lemma DBIExists_ok t n : DBIExists t n = Ok (bool_decide (n ∈ dbnames t)).
Proof using HL.
  unfold DBIExists. destruct (dbi_of t n) as [h|] eqn:E.
  - rewrite (open_existing t n 0 h E).
    rewrite bool_decide_eq_true_2; [done|]. apply dbi_of_names. by eexists.
  - rewrite (open_missing t n 0 E) by done. unfold IsNotFound.
    rewrite bool_decide_eq_true_2 by done.
    rewrite bool_decide_eq_false_2; [done|]. rewrite <- dbi_of_names, E. by intros [? ?].
Qed.
End reading.

(** ** readDBI against a pure description *)

Section dump.
Context `{P : CSProto} `{PL : !CSProtoLaws P}.
Context `{V : LMDBView} `{HL : !LMDBLaws L V}.
Context (s : Syncer) (sizeHint : Z → Z → bool → Z).
Hypothesis (Hhint : ∀ a b r, 0 <= sizeHint a b r).

(** The entries of a dump: one per row, in order, without the filtered ones. *)
Fixpoint dumpRows (raw : bool) (l : list (bytes * bytes)) : outcome (list KV) :=
  match l with
  | [] => Ok []
  | (k, v) :: l =>
      '(ts, txn, flags, val) ← rowFields raw v;
      kvs ← dumpRows raw l;
      Ok (if included s ts txn flags then MkKV k val ts (Masked flags) :: kvs else kvs)
  end.

(** Rows that fit the snapshot format. *)
Definition row_ok (e : bytes * bytes) : Prop := zlen e.1 < 2 ^ 60 ∧ zlen e.2 < 2 ^ 60.

Lemma rowFields_ok raw k v ts txn flags val :
  row_ok (k, v) → rowFields raw v = Ok (ts, txn, flags, val) →
  kv_ok (MkKV k val ts (Masked flags)) ∧ (raw = false → cellOf v = Some (MkCell ts (IsDeleted flags) val)).
Proof.
  intros [Hk Hv] E. unfold rowFields in E. destruct raw.
  - injection E as <- <- <- <-. split; [|done]. unfold kv_ok. simpl in *.
    pose proof (Masked_01 0). lia.
  - destruct (Parse v) as [[h app]| | |] eqn:Ep; simpl in E; try done.
    injection E as <- <- <- <-. split; [|intros _; unfold cellOf; by rewrite Ep].
    pose proof (parse_range v h app Ep) as (H1 & H2 & H3).
    unfold kv_ok. simpl in *. pose proof (Masked_01 (hFlags h)). lia.
Qed.

Lemma dumpRows_ok raw l kvs :
  Forall row_ok l → dumpRows raw l = Ok kvs → Forall kv_ok kvs.
Proof.
  intros Hl. revert kvs. induction Hl as [|[k v] l Hr Hl IH]; intros kvs E; simpl in E.
  - injection E as <-. constructor.
  - destruct (rowFields raw v) as [[[[ts txn] flags] val]| | |] eqn:Er; simpl in E; try done.
    destruct (dumpRows raw l) as [kvs'| | |]; simpl in E; try done. injection E as <-.
    destruct (included s ts txn flags); [|by apply IH].
    constructor; [|by apply IH]. by eapply rowFields_ok.
Qed.

Lemma rowFields_total raw v :
  (∃ x, rowFields raw v = Ok x) ∨ ∃ e, rowFields raw v = Err e.
Proof.
  unfold rowFields. destruct raw; [by left; eexists|].
  destruct (parse_total v) as [(h & app & ->)|[->| ->]]; [left|right|right]; by eexists.
Qed.

Lemma dumpRows_total raw l : (∃ kvs, dumpRows raw l = Ok kvs) ∨ ∃ e, dumpRows raw l = Err e.
Proof.
  induction l as [|[k v] l IH]; simpl; [by left; eexists|].
  destruct (rowFields_total raw v) as [[[[[ts txn] flags] val] ->]|[e ->]]; [|right; by eexists].
  rewrite bind_ok. destruct IH as [[kvs ->]|[e ->]]; [left|right]; by eexists.
Qed.

Lemma appendAll_cons d kv d1 kvs :
  Dbi.Append d kv = Ok d1 → appendAll d (kv :: kvs) = appendAll d1 kvs.
Proof. intros E. unfold appendAll. cbn [foldl]. by rewrite bind_ok, E. Qed.

Lemma readLoop_ok fuel t c op dup raw prev d l :
  readable t (cdb c) → upcoming t c op l → (length l < fuel)%nat →
  Forall row_ok l → fields_ok d → cap_ok d →
  (dup = false → NoDup l.*1 ∧ ∀ p, prev = Some p → p ∉ l.*1) →
  readLoop s fuel t c op dup raw prev d = (kvs ← dumpRows raw l; appendAll d kvs).
Proof using PL HL.
  revert c op prev d l.
  induction fuel as [|fuel IH]; intros c op prev d l Hr Hu Hl Hrows Hfo Hc Hnd; [lia|]. simpl.
  pose proof (upcoming_reads _ _ _ _ Hr Hu) as Hcr. unfold cursor_reads in Hcr.
  destruct l as [|[k v] l].
  { destruct Hcr as (c' & -> & _). unfold IsNotFound. by rewrite bool_decide_eq_true_2 by done. }
  destruct Hcr as (c' & -> & Hcd & _ & Hrest).
  apply Forall_cons_1 in Hrows as [Hrow Hrows].
  replace (negb (bool_decide (prev = None)) && negb dup && bool_decide (gdata prev = k)) with false.
  2: { symmetry. destruct prev as [p|]; [|done]. destruct dup; [by rewrite andb_false_r|].
       destruct (Hnd eq_refl) as [_ Hp]. specialize (Hp p eq_refl).
       rewrite (bool_decide_eq_false_2 (gdata (Some p) = k)); [done|].
       simpl. unfold id. intros ->. apply Hp. by left. }
  assert (Hnext : ∀ d', fields_ok d' → cap_ok d' →
    readLoop s fuel t c' Next dup raw (Some k) d' = (kvs ← dumpRows raw l; appendAll d' kvs)).
  { intros d' Hfo' Hc'. apply IH; [by rewrite Hcd|done|simpl in Hl; lia|done|done|done|].
    intros Hd. destruct (Hnd Hd) as [Hn _]. simpl in Hn. split; [by apply NoDup_cons_1_2 in Hn|].
    intros p [= <-]. by apply NoDup_cons_1_1 in Hn. }
  cbn [dumpRows].
  destruct (rowFields raw v) as [[[[ts txn] flags] val]| | |] eqn:Er; try done.
  rewrite !bind_ok. destruct (included s ts txn flags).
  - destruct (Append_ok d (MkKV k val ts (Masked flags)) Hfo Hc) as (d1 & E1 & _ & _ & Hc1 & Hfo1 & _).
    { by eapply rowFields_ok. }
    rewrite E1, bind_ok, Hnext by done.
    destruct (dumpRows raw l); [rewrite !bind_ok|done..]. by rewrite (appendAll_cons _ _ _ _ E1).
  - rewrite Hnext by done. by destruct (dumpRows raw l).
Qed.

(** The dump [readDBI] returns. *)
Definition dumped (name : bytes) (flags : Z) (kvs : list KV) (d : DBI) : Prop :=
  let transform := if has_flag flags lmdb_DupSort then TransformDupSortHackV1 else [] in
  dName d = name ∧ dFlags d = flags ∧ dTransform d = transform ∧
  dData d = concat (dbi_fields name flags transform) ++ concat (entry_msg <$> kvs) ∧
  dDirty d = false ∧ fields_ok d ∧ cap_ok d.

Lemma dumped_remains name flags kvs d :
  dumped name flags kvs d → Forall kv_written kvs → remains (ResetCursor d) kvs.
Proof using PL.
  intros (Hn & Hf & Ht & Hd & _ & (Hn' & Hf' & Ht') & _) Hw.
  rewrite Hn, Hf, Ht in *. by eapply remains_reset; [exact Hd|lia| |lia|].
Qed.

(** The setup of [readDBI], up to the loop. *)
Lemma readDBI_loop fuel t n n0 h h0 raw :
  dbi_of t n = Some h → dbi_of t n0 = Some h0 →
  (has_flag (dflags t h0) lmdb_DupSort = true → lcDupSortHack (sLC s) = true) →
  (has_flag (dflags t h0) lmdb_DupSort = false → NoDup (entries t h).*1) →
  zlen n0 <= 511 → 0 <= dflags t h0 < 2 ^ 64 → Forall row_ok (entries t h) →
  (length (entries t h) < fuel)%nat →
  ∃ hint, 0 <= hint ∧
  let tr := if has_flag (dflags t h0) lmdb_DupSort then TransformDupSortHackV1 else [] in
  readDBI s sizeHint fuel t n n0 raw =
    (kvs ← dumpRows raw (entries t h);
     dbiMsg ← appendAll (MkDBI n0 (dflags t h0) tr [] hint true false 0 0) kvs;
     '(dbiMsg, _) ← Size dbiMsg; Ok (t, dbiMsg)).
Proof using PL HL Hhint.
  intros Hn Hn0 Hdup Hnd Hlen Hfl Hrows Hfuel. unfold readDBI.
  rewrite (open_existing t n 0 h Hn), bind_ok. cbv beta iota.
  assert (Hr : readable t h) by (right; by exists n).
  destruct (get_stat t h Hr) as [st ->]. rewrite bind_ok. unfold NewDBISize.
  pose proof (Hhint (PageUsageBytes st) (stEntries st) raw) as Hh.
  rewrite (proj2 (Z.ltb_ge _ _) Hh), bind_ok. unfold SetName. cbn [dFlushed]. rewrite bind_ok.
  set (hint := sizeHint _ _ _) in *. exists hint. split; [done|]. cbv zeta.
  assert ((if negb (bool_decide (n = n0))
    then '(t, origDBI) ← txn_OpenDBI t n0 0; f ← txn_Flags t origDBI; Ok (t, f)
    else f ← txn_Flags t h; Ok (t, f)) = Ok (t, dflags t h0)) as ->.
  { case_bool_decide as E; simpl.
    - subst n0. rewrite Hn in Hn0. injection Hn0 as <-. by rewrite (get_flags t h Hr).
    - rewrite (open_existing t n0 0 h0 Hn0), bind_ok. cbv beta iota.
      by rewrite (get_flags t h0) by (right; by exists n0). }
  rewrite bind_ok. cbv beta iota zeta.
  set (dup := has_flag (dflags t h0) lmdb_DupSort) in *.
  set (tr := if dup then TransformDupSortHackV1 else []).
  assert ((if dup then if negb (lcDupSortHack (sLC s))
      then Err (EMsg "readDBI: dupsort db found and dupsort_hack disabled")
      else SetTransform (MkDBI n0 0 [] [] hint true false 0 0) TransformDupSortHackV1
    else Ok (MkDBI n0 0 [] [] hint true false 0 0)) =
    Ok (MkDBI n0 0 tr [] hint true false 0 0)) as E.
  { unfold tr. destruct dup; [|done]. by rewrite (Hdup eq_refl). }
  cbn [dName dFlags dTransform dData dCap dDirty dFlushed dCur dNumWritten]. rewrite E, bind_ok.
  unfold SetFlags. cbn [dFlushed]. rewrite bind_ok, uint64_small by done.
  cbn [dName dFlags dTransform dData dCap dDirty dFlushed dCur dNumWritten].
  destruct (open_cursor t h Hr) as (c & -> & Hc). rewrite wrap_err_ok, bind_ok.
  set (d0 := MkDBI n0 (dflags t h0) tr [] hint true false 0 0).
  assert (Hfo : fields_ok d0) by (unfold fields_ok, d0, tr; simpl; by destruct dup).
  assert (Hcap : cap_ok d0) by (unfold cap_ok, d0; simpl; rewrite zlen_nil; lia).
  rewrite (readLoop_ok fuel t c First dup raw None d0 (entries t h));
    [|by rewrite Hc|simpl; by rewrite Hc|done|done|done|done|by intros H; split; [apply Hnd|]].
  by destruct (dumpRows raw (entries t h)).
Qed.

Lemma readDBI_ok fuel t n n0 h h0 raw :
  dbi_of t n = Some h → dbi_of t n0 = Some h0 →
  (has_flag (dflags t h0) lmdb_DupSort = true → lcDupSortHack (sLC s) = true) →
  (has_flag (dflags t h0) lmdb_DupSort = false → NoDup (entries t h).*1) →
  zlen n0 <= 511 → 0 <= dflags t h0 < 2 ^ 64 → Forall row_ok (entries t h) →
  (length (entries t h) < fuel)%nat →
  match dumpRows raw (entries t h) with
  | Ok kvs => ∃ d, readDBI s sizeHint fuel t n n0 raw = Ok (t, d) ∧ dumped n0 (dflags t h0) kvs d
  | Err e => readDBI s sizeHint fuel t n n0 raw = Err e
  | _ => False
  end.
Proof using PL HL Hhint.
  intros Hn Hn0 Hdup Hnd Hlen Hfl Hrows Hfuel.
  destruct (readDBI_loop fuel t n n0 h h0 raw) as (hint & Hh & E); [done..|]. rewrite E.
  set (tr := if has_flag (dflags t h0) lmdb_DupSort then TransformDupSortHackV1 else []).
  set (d0 := MkDBI n0 (dflags t h0) tr [] hint true false 0 0).
  assert (Hfo : fields_ok d0) by (unfold fields_ok, d0, tr; simpl; by case_match).
  assert (Hcap : cap_ok d0) by (unfold cap_ok, d0; simpl; rewrite zlen_nil; lia).
  destruct (dumpRows_total raw (entries t h)) as [[kvs Er]|[e Er]]; rewrite Er; [|reflexivity].
  rewrite bind_ok.
  destruct (appendAll_ok d0 kvs Hfo Hcap) as (d1 & -> & Ed & Hor & Hc1 & Hfo1 & N1 & F1 & T1 & _);
    [by eapply dumpRows_ok|].
  rewrite bind_ok. unfold Size.
  destruct (flushFields_ok d1 Hfo1 Hc1) as (d2 & -> & Ed2 & Hd2 & _ & Hc2 & Hfo2 & N2 & F2 & T2 & _).
  rewrite !bind_ok. exists d2. split; [done|].
  unfold dumped. cbv zeta. rewrite N2, N1, F2, F1, T2, T1, Ed2, Ed.
  do 5 (split; [done|]). by split.
Qed.
End dump.

(** ** Copies between main and shadow *)

Section shadow.
Context `{P : CSProto} `{PL : !CSProtoLaws P}.
Context `{V : LMDBView} `{HL : !LMDBLaws L V}.
Context (s : Syncer) (sizeHint : Z → Z → bool → Z) (isCanceled : bytes → bool → bool).
Hypothesis (Hhint : ∀ a b r, 0 <= sizeHint a b r).
Hypothesis (Hcan : ∀ n b, isCanceled n b = false).
Hypothesis (Hfilter : FilterReadDBI s = None).

(** A database of the application that shadow mode supports: no duplicate
    keys, plain or integer order, entries that fit a snapshot. *)
Record syncable (t : Txn) (n : bytes) (h : DBIh) : Prop := MkSyncable {
  sy_name : HasPrefix n SyncDBIPrefix = false;
  sy_handle : dbi_of t n = Some h;
  sy_uniq : has_flag (dflags t h) lmdb_DupSort = false;
  sy_ordered : ordered t h;
  sy_keys : keys_ok t h;
  sy_flags : 0 <= dflags t h < 2 ^ 64;
  sy_len : zlen n <= 511;
  sy_rows : Forall row_ok (entries t h);
  sy_zero : has_flag (dflags t h) LMDBIntegerKeyFlag = true →
            ∀ k, is_Some (dbm t h !! k) → le_get k ≠ 0;
  sy_width : has_flag (dflags t h) LMDBIntegerKeyFlag = true → ∀ h', ksize h' = ksize h;
}.

Definition shadowName (n : bytes) : bytes := SyncDBIShadowPrefix ++ n.
Definition shadowFlags (t : Txn) (h : DBIh) : Z := Z.land (dflags t h) AllowedShadowDBIFlagsMask.

Definition rawKVs (l : list (bytes * bytes)) : list KV := (λ e, MkKV e.1 e.2 0 0) <$> l.

Lemma dumpRows_raw l : dumpRows s true l = Ok (rawKVs l).
Proof using Hfilter.
  induction l as [|[k v] l IH]; [done|]. simpl. rewrite IH. unfold included.
  by rewrite Hfilter.
Qed.

Lemma sy_uniq' t n h : syncable t n h → uniq t h.
Proof. intros H. split; [exists n; apply H|apply H]. Qed.

Lemma sy_sorted t n h :
  syncable t n h → StronglySorted (λ e e', klt t h e.1 e'.1) (entries t h).
Proof using HL. intros H. apply entries_sorted; [by eapply sy_uniq'|apply H]. Qed.

Lemma sorted_nodup_keys t h (l : list (bytes * bytes)) :
  StronglySorted (λ e e', klt t h e.1 e'.1) l → NoDup l.*1.
Proof.
  induction 1 as [|e l Hs IH Hl]; [constructor|]. rewrite fmap_cons.
  apply NoDup_cons_2; [|done]. intros Hin. apply list_elem_of_fmap in Hin as (e' & Ee & Hin).
  rewrite Forall_forall in Hl. apply list_elem_of_In in Hin. specialize (Hl _ Hin).
  simpl in Hl. rewrite Ee in Hl. by apply klt_irrefl in Hl.
Qed.

Lemma sy_entry t n h e : syncable t n h → e ∈ entries t h → dbm t h !! e.1 = Some e.2.
Proof using HL.
  intros H Hin. apply elem_of_list_to_map_1; [|by destruct e].
  eapply sorted_nodup_keys. by eapply sy_sorted.
Qed.

(** The flags of the shadow keep the order of the keys. *)
Lemma shadow_integer t h :
  has_flag (shadowFlags t h) LMDBIntegerKeyFlag = has_flag (dflags t h) LMDBIntegerKeyFlag.
Proof.
  unfold has_flag, shadowFlags, AllowedShadowDBIFlagsMask.
  by rewrite <- Z.land_assoc, Z.land_diag.
Qed.

Lemma shadow_other t h f :
  Z.land LMDBIntegerKeyFlag f = 0 → has_flag (shadowFlags t h) f = false.
Proof.
  intros E. unfold has_flag, shadowFlags, AllowedShadowDBIFlagsMask.
  by rewrite <- Z.land_assoc, E, Z.land_0_r.
Qed.

Lemma shadow_cmp t h a b :
  ordered t h → lmdb_cmp (shadowFlags t h) a b = lmdb_cmp (dflags t h) a b.
Proof.
  intros Ho. unfold lmdb_cmp. rewrite shadow_integer.
  destruct (has_flag (dflags t h) LMDBIntegerKeyFlag) eqn:E; [done|].
  rewrite shadow_other by done. destruct Ho as [|Ho]; [congruence|]. by rewrite Ho.
Qed.

(** A shadow handle in a later transaction. *)
Record shadows (t : Txn) (h : DBIh) (t1 : Txn) (hs : DBIh) : Prop := MkShadows {
  sh_live : live t1 hs;
  sh_flags : dflags t1 hs = shadowFlags t h;
}.

Lemma shadow_uniq t h t1 hs : shadows t h t1 hs → uniq t1 hs.
Proof. intros [Hl Hf]. split; [done|]. rewrite Hf. by apply shadow_other. Qed.

Lemma shadow_ordered t h t1 hs : shadows t h t1 hs → ordered t1 hs.
Proof. intros [Hl Hf]. right. rewrite Hf. by apply shadow_other. Qed.

Lemma shadow_key_ok t n h t1 hs k :
  syncable t n h → shadows t h t1 hs → key_ok t h k ↔ key_ok t1 hs k.
Proof.
  intros H [_ Hf]. unfold key_ok. rewrite Hf, shadow_integer.
  destruct (has_flag (dflags t h) LMDBIntegerKeyFlag) eqn:E; [|naive_solver].
  by rewrite (sy_width _ _ _ H E hs).
Qed.

(** The dump of the main database is what the strategies need. *)
Lemma shadow_sorted_items t n h t1 hs c :
  syncable t n h → shadows t h t1 hs →
  sorted_items (Sp := native_spec c) t1 hs (rawKVs (entries t h)).
Proof using HL.
  intros H Hs. pose proof (sy_sorted _ _ _ H) as Hsort.
  assert (Hko : ∀ e, e ∈ entries t h → key_ok t h e.1).
  { intros e He. apply (sy_keys _ _ _ H). rewrite (sy_entry _ _ _ _ H He). by eexists. }
  split.
  - unfold rawKVs. clear Hko. induction Hsort as [|e l _ IH Hl]; [constructor|].
    rewrite fmap_cons. constructor; [done|]. apply Forall_fmap. eapply Forall_impl; [|exact Hl].
    intros e' He'. unfold klt in *. simpl. rewrite (sh_flags _ _ _ _ Hs).
    rewrite shadow_cmp by apply H. done.
  - apply Forall_fmap. rewrite Forall_forall. intros e He. simpl.
    apply (shadow_key_ok _ _ _ _ _ _ H Hs). apply Hko. by apply list_elem_of_In.
  - destruct (entries t h) as [|e l] eqn:E; [done|]. simpl.
    unfold first_ok. rewrite (sh_flags _ _ _ _ Hs), shadow_integer. simpl. intros Hi.
    assert (e ∈ entries t h) as Hin by (rewrite E; by left).
    apply (sy_zero _ _ _ H Hi). rewrite (sy_entry _ _ _ _ H Hin). by eexists.
Qed.

(** Raw entries leave a trace in a dump: LMDB keys are not empty. *)
Lemma rawKVs_written t n h : syncable t n h → Forall kv_written (rawKVs (entries t h)).
Proof using PL HL.
  intros H. apply Forall_fmap. pose proof (sy_rows _ _ _ H) as Hr.
  rewrite Forall_forall in *. intros e He. specialize (Hr e He) as [H1 H2].
  apply list_elem_of_In in He.
  assert (key_ok t h e.1) as [Hk _]
    by (apply (sy_keys _ _ _ H); rewrite (sy_entry _ _ _ _ H He); by eexists).
  apply kv_written_key; [unfold kv_ok; simpl; lia|]. simpl. intros E. rewrite E, zlen_nil in Hk. lia.
Qed.

(** *** Main to shadow *)

Definition headers_valid (m : gmap bytes bytes) : Prop :=
  ∀ k v, m !! k = Some v → is_Some (cellOf v).

(** The content of the shadow, empty when it does not exist yet. *)
Definition shadowOf (t : Txn) (n : bytes) : gmap bytes bytes :=
  match dbi_of t (shadowName n) with Some hs => dbm t hs | None => ∅ end.

(** A shadow as earlier runs left it. *)
Definition shadow_ok (t : Txn) (n : bytes) (h : DBIh) : Prop :=
  ∀ hs, dbi_of t (shadowName n) = Some hs →
    dflags t hs = shadowFlags t h ∧ keys_ok t hs ∧ headers_valid (dbm t hs).

(** A database is as before. *)
Definition same (t t' : Txn) (n : bytes) : Prop :=
  dbi_of t' n = dbi_of t n ∧
  ∀ h, dbi_of t n = Some h → entries t' h = entries t h ∧ dflags t' h = dflags t h.

(** Everything but the shadow is as before. *)
Definition only_shadow (t t' : Txn) (n : bytes) : Prop :=
  ∀ n', n' ≠ shadowName n → same t t' n'.

Lemma create_flags f :
  has_flag (Z.lor lmdb_Create (Z.land f 8)) lmdb_Create = true ∧
  Z.land (Z.lor lmdb_Create (Z.land f 8)) 0x7e = Z.land f 8.
Proof.
  split; [unfold has_flag|]; rewrite Z.land_lor_distr_l, <- Z.land_assoc.
  - change (Z.land 8 lmdb_Create) with 0. by rewrite Z.land_0_r.
  - change (Z.land lmdb_Create 0x7e) with 0. by change (Z.land 8 0x7e) with 8.
Qed.

(** Opening the shadow, which creates it when needed. *)
Lemma open_shadow t n h :
  syncable t n h → shadow_ok t n h →
  ∃ t1 hs, txn_OpenDBI t (shadowName n) (Z.lor lmdb_Create (shadowFlags t h)) = Ok (t1, hs) ∧
    dbi_of t1 (shadowName n) = Some hs ∧ shadows t h t1 hs ∧ keys_ok t1 hs ∧
    dbm t1 hs = shadowOf t n ∧ headers_valid (dbm t1 hs) ∧ only_shadow t t1 n ∧
    txn_ID t1 = txn_ID t ∧ (length (entries t1 hs) <= size (shadowOf t n))%nat.
Proof using HL.
  intros H Hs. unfold shadowOf, shadowFlags, AllowedShadowDBIFlagsMask.
  destruct (create_flags (dflags t h)) as [Hc1 Hc2].
  destruct (dbi_of t (shadowName n)) as [hs|] eqn:E.
  - destruct (Hs hs E) as (Hf & Hk & Hh). exists t, hs.
    assert (Hsh : shadows t h t hs) by (split; [by exists (shadowName n)|done]).
    rewrite (open_existing t _ _ hs E). split_and!; try done.
    assert (NoDup (entries t hs).*1) as Hnd.
    { eapply sorted_nodup_keys. apply entries_sorted; [by eapply shadow_uniq|done]. }
    unfold dbm. by rewrite map_size_list_to_map.
  - destruct (open_create t (shadowName n) (Z.lor lmdb_Create (Z.land (dflags t h) 8)) E Hc1)
      as (t1 & hs & Eo & Hh & He & Hf & Hn & Ho & _ & Hid).
    assert (Hm : dbm t1 hs = ∅) by (unfold dbm; by rewrite He).
    exists t1, hs. rewrite Hm.
    split_and!; [done|done| | |done| | |done|].
    + split; [by exists (shadowName n)|]. by rewrite Hf, Hc2.
    + intros k [v Hv]. by rewrite Hm, lookup_empty in Hv.
    + intros k v Hv. by rewrite lookup_empty in Hv.
    + intros n' Hne. split; [by apply Hn|]. intros h' Hn'. by apply (Ho n').
    + rewrite He. simpl. lia.
Qed.

Lemma imap_raw c l k :
  imap (Sp := native_spec c) (rawKVs l) !! k =
    (λ v, MkKV k v 0 0) <$> (list_to_map l : gmap bytes bytes) !! k.
Proof.
  induction l as [|[k' v] l IH]; [done|]. unfold rawKVs in *. rewrite fmap_cons.
  rewrite (imap_cons (Sp := native_spec c)). simpl. destruct (decide (k' = k)) as [->|Hne].
  - by rewrite lookup_insert_eq.
  - by rewrite lookup_insert_ne.
Qed.

Definition shadowCfg (t : Txn) (now ts : Z) : nativeCfg :=
  MkNativeCfg ts (uint64 (txn_ID t)) CurrentFormatVersion false (deletedCutoff s now).

(** What one key of the shadow becomes. *)
Definition shadowVal (c : nativeCfg) (k : bytes) (main old : option bytes) : option bytes :=
  match main with
  | Some v => present (okval (nmerge c (MkKV k v 0 0) old))
  | None => match old with Some o => okval (nclean c (Some o)) | None => None end
  end.

(** The iterator over a dump of this run. *)
Lemma new_shadow_iterator t now ts d :
  0 < txn_ID t < 2 ^ 64 →
  NewNativeIterator CurrentFormatVersion CompatFormatVersion d ts (uint64 (txn_ID t))
    (deletedCutoff s now) = Ok (MkNative (shadowCfg t now ts) d 0 false None emptyKV).
Proof.
  intros Hid. unfold NewNativeIterator, shadowCfg. rewrite !uint64_small by lia.
  destruct (Z.eqb_spec (txn_ID t) 0); [lia|done].
Qed.

(** A valid header is never refused by [Merge] or [Clean]. *)
Lemma nmerge_valid c kv o : is_Some (cellOf o) → is_ok (nmerge c kv (Some o)).
Proof.
  intros [co Hco]. unfold cellOf in Hco. unfold nmerge.
  case_bool_decide; [by eexists|]. change (gdata (Some o)) with o.
  destruct (Parse o) as [[? ?]| | |]; try done. by eexists.
Qed.

Lemma nclean_valid c o : is_Some (cellOf o) → is_ok (nclean c (Some o)).
Proof.
  intros [co Hco]. unfold cellOf in Hco. unfold nclean.
  change (gdata (Some o)) with o. destruct (Parse o) as [[? ?]| | |]; try done. by eexists.
Qed.

(** Updating the opened shadow leaves every other database alone. *)
Lemma framed_only_shadow t t1 t' n hs :
  dbi_of t1 (shadowName n) = Some hs → only_shadow t t1 n → framed t1 t' hs →
  only_shadow t t' n.
Proof using HL.
  intros Hn1 Honly (F1 & F2 & F3 & F4 & F5) n' Hne.
  destruct (Honly n' Hne) as (G1 & G2). split; [by rewrite F3|].
  intros h' Hn'. destruct (G2 h' Hn') as [<- <-]. rewrite F2. rewrite <- G1 in Hn'.
  split; [|done]. apply F1; intros Eh; subst h'.
  - apply Hne. by eapply (dbi_of_inj t1 _ _ hs).
  - by apply (dbi_of_root t1 n').
Qed.

Lemma mainToShadowOne_ok fuel t now ts n h :
  syncable t n h → shadow_ok t n h → 0 < txn_ID t < 2 ^ 64 →
  (length (entries t h) + size (shadowOf t n) < fuel)%nat →
  ∃ t' hs, mainToShadowOne s sizeHint isCanceled fuel t now ts n = Ok t' ∧
    dbi_of t' (shadowName n) = Some hs ∧ dflags t' hs = shadowFlags t h ∧
    only_shadow t t' n ∧ txn_ID t' = txn_ID t ∧
    ∀ k, dbm t' hs !! k = shadowVal (shadowCfg t now ts) k (dbm t h !! k) (shadowOf t n !! k).
Proof using PL HL Hhint Hcan Hfilter.
  intros H Hs Hid Hfuel. unfold mainToShadowOne. rewrite (sy_name _ _ _ H).
  pose proof (sy_handle _ _ _ H) as Hh. pose proof (sy_uniq _ _ _ H) as Hdup.
  pose proof (readDBI_ok s sizeHint Hhint fuel t n n h h true Hh Hh) as Hread.
  rewrite dumpRows_raw in Hread.
  destruct Hread as (d & -> & Hd);
    [congruence| |exact (sy_len _ _ _ H)|exact (sy_flags _ _ _ H)|exact (sy_rows _ _ _ H)|lia|].
  { intros _. eapply sorted_nodup_keys. by eapply sy_sorted. }
  rewrite bind_ok. cbv beta iota. rewrite (open_existing t n 0 h Hh), bind_ok. cbv beta iota.
  rewrite (get_flags t h) by (right; by exists n). rewrite bind_ok, Hdup. cbv zeta.
  rewrite andb_false_r, bind_ok, Hcan. cbn [andb].
  destruct (open_shadow t n h H Hs)
    as (t1 & hs & Eo & Hn1 & Hsh & Hk1 & Hm1 & Hv1 & Honly & Hid1 & Hlen).
  change (Z.land (dflags t h) AllowedShadowDBIFlagsMask) with (shadowFlags t h).
  change (SyncDBIShadowPrefix ++ n) with (shadowName n).
  rewrite Eo, bind_ok. cbv beta iota. rewrite Hid1.
  rewrite (new_shadow_iterator t now ts d Hid), wrap_err_ok, bind_ok.
  set (c := shadowCfg t now ts).
  pose proof (dumped_remains n (dflags t h) _ d Hd (rawKVs_written t n h H)) as Hrem.
  destruct (IterUpdate_ok (Sp := native_spec c) fuel t1 hs (MkNative c d 0 false None emptyKV)
    (rawKVs (entries t h))) as (t' & -> & Hfr & Hres).
  - by eapply shadow_uniq.
  - by eapply shadow_ordered.
  - done.
  - exact (new_native_at d _ c Hrem).
  - by eapply shadow_sorted_items.
  - apply Forall_fmap, Forall_forall. intros e _. cbn. split; [by eexists|].
    rewrite Hm1. destruct (shadowOf t n !! e.1) as [o|] eqn:Eo'; [|by eexists].
    rewrite <- Hm1 in Eo'. by eapply nmerge_valid, Hv1.
  - intros k v Hkv. by eapply nclean_valid, Hv1.
  - unfold rawKVs. rewrite length_fmap. lia.
  - rewrite wrap_err_ok, bind_ok, Hcan. exists t', hs.
    pose proof (framed_only_shadow _ _ _ _ _ Hn1 Honly Hfr) as Hof.
    destruct Hfr as (F1 & F2 & F3 & F4 & F5).
    split_and!; [done|by rewrite F3|by rewrite F2, (sh_flags _ _ _ _ Hsh)|done|congruence|].
    intros k. rewrite Hres, imap_raw, Hm1. unfold shadowVal.
    change (list_to_map (entries t h)) with (dbm t h).
    by destruct (dbm t h !! k), (shadowOf t n !! k).
Qed.

(** The meaning of the copy: new and changed values get the timestamp of the
    copy, unless the shadow has a later one; missing keys become deletions. *)
Definition shadowCell (ts : Z) (main : option bytes) (old : option cell) : option cell :=
  match main, old with
  | Some v, None => Some (MkCell ts false v)
  | Some v, Some co =>
      Some (if bool_decide (cVal co = v) then co else amerge (MkCell ts false v) co)
  | None, Some co => Some (if cDel co then co else MkCell ts true [])
  | None, None => None
  end.

(** The intended meaning: main determines the keys and values, the shadow only
    their timestamps.  It differs for a value of main that equals the (empty)
    value of the deletion marker in the shadow, which stays deleted. *)
Definition shadowSpec (ts : Z) (main : option bytes) (old : option cell) : option cell :=
  match main, old with
  | Some v, None => Some (MkCell ts false v)
  | Some v, Some co =>
      Some (if negb (cDel co) && bool_decide (cVal co = v) then co
            else amerge (MkCell ts false v) co)
  | None, Some co => Some (if cDel co then co else MkCell ts true [])
  | None, None => None
  end.

Definition over_marker (main : option bytes) (old : option cell) : Prop :=
  ∃ co, old = Some co ∧ cDel co = true ∧ main = Some (cVal co).

(** The value of a key, when it is not deleted. *)
Definition liveVal (c : cell) : option bytes := if cDel c then None else Some (cVal c).

Lemma shadowCell_spec ts main old :
  ¬ over_marker main old → shadowCell ts main old = shadowSpec ts main old.
Proof using.
  intros Hn. destruct main as [v|], old as [co|]; simpl; try done.
  case_bool_decide as E; [|by rewrite andb_false_r]. destruct (cDel co) eqn:Ed; [|done].
  destruct Hn. exists co. by rewrite E.
Qed.

(** Past all timestamps of the shadow, its live keys are those of main. *)
Lemma shadowSpec_live ts main old :
  (∀ co, old = Some co → cTS co < ts) → shadowSpec ts main old ≫= liveVal = main.
Proof using.
  intros Ho. destruct main as [v|], old as [co|]; simpl; try done.
  - specialize (Ho co eq_refl). unfold amerge, older. cbn [cTS cVal].
    rewrite (proj2 (Z.ltb_ge _ _)), (proj2 (Z.eqb_neq _ _)) by lia. cbn [orb andb].
    destruct (cDel co) eqn:Ed; [done|]. case_bool_decide as E; [|done].
    cbn [negb andb]. unfold liveVal. by rewrite Ed, E.
  - unfold liveVal. by destruct (cDel co) eqn:E; [rewrite E|].
Qed.

Lemma shadowVal_cell c k main (old : option bytes) :
  cfg_ok c → FormatVersion c = CurrentFormatVersion →
  (∀ v, old = Some v → is_Some (cellOf v)) →
  (shadowVal c k main old ≫= cellOf) =
    shadowCell (DefaultTimestampNano c) main (old ≫= cellOf).
Proof.
  intros Hc Hfv Hold. unfold shadowVal, shadowCell.
  assert (Hhf : ∀ val f, headerFlags c val f = f).
  { intros. unfold headerFlags. rewrite Hfv. by rewrite andb_false_r. }
  assert (Hnew : ∀ v ts, 0 <= ts < 2 ^ 64 → headerTS c ts = DefaultTimestampNano c →
    cellOf (nheader c v ts 0) = Some (MkCell (DefaultTimestampNano c) false v)).
  { intros v ts Hts Ets. rewrite cellOf_nheader by (done || by left). by rewrite Hhf, Ets. }
  destruct main as [v|], old as [o|]; [| | |done].
  - destruct (Hold o eq_refl) as [co Hco]. simpl. rewrite Hco. unfold nmerge.
    unfold cellOf in Hco. destruct (Parse o) as [[h app]| | |] eqn:Ep; try done.
    injection Hco as <-. assert (glen (Some o) ≠ 0%nat) as Hl.
    { simpl. destruct o; [by rewrite parse_short in Ep|done]. }
    rewrite bool_decide_eq_false_2 by done. change (gdata (Some o)) with o. rewrite Ep.
    cbn [okval cVal]. unfold oldWins. cbn [kvTimestampNano kvValue].
    assert (Hkeep : present (Some o) ≫= cellOf =
      Some (MkCell (hTimestamp h) (IsDeleted (hFlags h)) app)).
    { destruct (present_some _ Hl) as [-> _]. simpl. unfold cellOf. unfold id. by rewrite Ep. }
    case_bool_decide; cbn [andb orb Z.eqb]; [done|].
    unfold amerge, older. cbn [cTS cVal]. change (headerTS c 0) with (DefaultTimestampNano c).
    destruct (_ || _); [done|]. rewrite nheader_present. simpl.
    destruct Hc as [Hd Ht]. apply Hnew; [done|]. unfold headerTS. by case_if.
  - unfold nmerge. rewrite bool_decide_eq_true_2 by done.
    change (MaskedFlags (MkKV k v 0 0)) with 0. change (IsDeleted 0) with false.
    cbn [okval kvTimestampNano kvValue andb]. rewrite nheader_present.
    apply Hnew; [lia|]. unfold headerTS. by case_if.
  - destruct (Hold o eq_refl) as [co Hco]. simpl. rewrite Hco. unfold nclean.
    change (gdata (Some o)) with o. unfold cellOf in Hco.
    destruct (Parse o) as [[h app]| | |] eqn:Ep; try done. injection Hco as <-. cbn [okval cDel].
    destruct (IsDeleted (hFlags h)) eqn:Ed; simpl.
    + unfold cellOf. by rewrite Ep, Ed.
    + rewrite cellOf_nheader by (done || by right). by rewrite Hhf.
Qed.

(** *** Shadow to main *)

(** The shadow rows of a dump. *)
Lemma dumpRows_cells l kvs :
  dumpRows s false l = Ok kvs →
  kvKey <$> kvs = l.*1 ∧
  ∀ k, kvValue <$> imap (Sp := plain_spec) kvs !! k =
       cVal <$> ((list_to_map l : gmap bytes bytes) !! k ≫= cellOf).
Proof using Hfilter.
  revert kvs. induction l as [|[k v] l IH]; intros kvs E; simpl in E.
  - injection E as <-. done.
  - destruct (Parse v) as [[h app]| | |] eqn:Ep; simpl in E; try done.
    destruct (dumpRows s false l) as [kvs'| | |]; simpl in E; try done.
    unfold included in E. rewrite Hfilter in E. injection E as <-.
    destruct (IH kvs' eq_refl) as [IH1 IH2]. split; [by rewrite fmap_cons, IH1|].
    intros k'. rewrite (imap_cons (Sp := plain_spec)). simpl.
    destruct (decide (k = k')) as [<-|Hne].
    + rewrite lookup_insert_eq. simpl. unfold cellOf. by rewrite Ep.
    + by rewrite lookup_insert_ne.
Qed.

Lemma dumpRows_valid l :
  Forall (λ e, is_Some (cellOf e.2)) l → ∃ kvs, dumpRows s false l = Ok kvs.
Proof.
  induction 1 as [|[k v] l [co Hco] _ [kvs IH]]; [by eexists|]. simpl in *.
  unfold cellOf in Hco. destruct (Parse v) as [[h app]| | |]; try done. simpl. rewrite IH.
  by eexists.
Qed.

Lemma sorted_by_keys t h h' (kvs : list KV) (l : list (bytes * bytes)) :
  kvKey <$> kvs = l.*1 → (∀ k k', klt t h' k k' → klt t h k k') →
  StronglySorted (λ e e', klt t h' e.1 e'.1) l →
  StronglySorted (λ x y, klt t h (kvKey x) (kvKey y)) kvs.
Proof.
  intros E Hkl Hs. revert kvs E. induction Hs as [|e l _ IH Hl]; intros [|kv kvs] E;
    try done; [constructor|].
  simpl in E. injection E as Ek E. constructor; [by apply IH|].
  rewrite Forall_forall in *. intros y Hy. rewrite Ek.
  assert (kvKey y ∈ l.*1) as Hin.
  { change (kvKey <$> kvs = l.*1) in E. rewrite <- E. apply list_elem_of_fmap. exists y.
    split; [done|]. by apply list_elem_of_In. }
  apply list_elem_of_fmap in Hin as (e' & -> & Hin). apply Hkl, Hl.
  by apply list_elem_of_In.
Qed.

(** A shadow whose content can be copied back. *)
Record shadow_full (t : Txn) (n : bytes) (h hs : DBIh) : Prop := MkShadowFull {
  sf_handle : dbi_of t (shadowName n) = Some hs;
  sf_flags : dflags t hs = shadowFlags t h;
  sf_keys : keys_ok t hs;
  sf_headers : headers_valid (dbm t hs);
  sf_rows : Forall row_ok (entries t hs);
  sf_zero : has_flag (dflags t h) LMDBIntegerKeyFlag = true →
            ∀ k, is_Some (dbm t hs !! k) → le_get k ≠ 0;
}.

Lemma sf_shadows t n h hs : shadow_full t n h hs → shadows t h t hs.
Proof. intros Hf. split; [by exists (shadowName n); apply Hf|apply Hf]. Qed.

Lemma sf_sorted t n h hs :
  syncable t n h → shadow_full t n h hs →
  StronglySorted (λ e e', klt t hs e.1 e'.1) (entries t hs).
Proof using HL.
  intros H Hf. apply entries_sorted; [|by eapply sf_keys].
  eapply shadow_uniq. by eapply sf_shadows.
Qed.

Lemma sf_entry t n h hs e :
  syncable t n h → shadow_full t n h hs → e ∈ entries t hs → dbm t hs !! e.1 = Some e.2.
Proof using HL.
  intros H Hf He. apply elem_of_list_to_map_1; [|by destruct e].
  by eapply sorted_nodup_keys, sf_sorted.
Qed.

(** The rows of the dump of a shadow, in the form the copy needs. *)
Lemma sf_dump t n h hs :
  syncable t n h → shadow_full t n h hs →
  ∃ kvs, dumpRows s false (entries t hs) = Ok kvs ∧ kvKey <$> kvs = (entries t hs).*1 ∧
    (∀ k, kvValue <$> imap (Sp := plain_spec) kvs !! k = cVal <$> (dbm t hs !! k ≫= cellOf)) ∧
    (∀ kv, kv ∈ kvs → key_ok t hs (kvKey kv) ∧ is_Some (dbm t hs !! kvKey kv)) ∧
    Forall kv_written kvs.
Proof using PL HL Hfilter.
  intros H Hf. destruct (dumpRows_valid (entries t hs)) as [kvs Ekvs].
  { apply Forall_forall. intros e He. apply list_elem_of_In in He.
    by eapply (sf_headers _ _ _ _ Hf), sf_entry. }
  destruct (dumpRows_cells _ _ Ekvs) as [Hkeys Hvals].
  assert (Hkk : ∀ kv, kv ∈ kvs → key_ok t hs (kvKey kv) ∧ is_Some (dbm t hs !! kvKey kv)).
  { intros kv Hin. assert (kvKey kv ∈ (entries t hs).*1) as Hin'.
    { rewrite <- Hkeys. apply list_elem_of_fmap. by exists kv. }
    apply list_elem_of_fmap in Hin' as (e & -> & He).
    pose proof (sf_entry _ _ _ _ _ H Hf He) as Hv.
    split; [apply (sf_keys _ _ _ _ Hf)|]; by rewrite Hv. }
  exists kvs. split_and!; try done.
  pose proof (dumpRows_ok s false _ _ (sf_rows _ _ _ _ Hf) Ekvs) as Hok.
  rewrite Forall_forall in *. intros kv Hin. apply kv_written_key; [by apply Hok|].
  apply list_elem_of_In in Hin. destruct (Hkk kv Hin) as [[Hl _] _].
  intros E. rewrite E, zlen_nil in Hl. lia.
Qed.

(** The items of that dump are in the order of the main database. *)
Lemma sf_sorted_items t n h hs kvs :
  syncable t n h → shadow_full t n h hs → kvKey <$> kvs = (entries t hs).*1 →
  (∀ kv, kv ∈ kvs → key_ok t hs (kvKey kv) ∧ is_Some (dbm t hs !! kvKey kv)) →
  sorted_items (Sp := plain_spec) t h kvs.
Proof using HL.
  intros H Hf Hkeys Hkk. pose proof (sf_shadows _ _ _ _ Hf) as Hsh. split.
  - apply (sorted_by_keys t h hs kvs (entries t hs) Hkeys); [|by eapply sf_sorted].
    intros k k' Hlt. unfold klt in *.
    by rewrite (sh_flags _ _ _ _ Hsh), shadow_cmp in Hlt by apply H.
  - apply Forall_forall. intros kv Hin. apply list_elem_of_In in Hin.
    apply (shadow_key_ok _ _ _ _ _ _ H Hsh). by apply Hkk.
  - destruct kvs as [|kv kvs']; [done|]. intros Hi. apply (sf_zero _ _ _ _ Hf Hi).
    apply Hkk. by left.
Qed.

Lemma shadowToMainOne_ok fuel t n h hs :
  syncable t n h → shadow_full t n h hs →
  (length (entries t hs) + length (entries t h) < fuel)%nat →
  ∃ t', shadowToMainOne s sizeHint isCanceled fuel t n = Ok t' ∧ framed t t' h ∧
    ∀ k, dbm t' h !! k = (dbm t hs !! k ≫= cellOf) ≫= λ c, present (Some (cVal c)).
Proof using PL HL Hhint Hcan Hfilter.
  intros H Hf Hfuel. unfold shadowToMainOne. rewrite (sy_name _ _ _ H).
  pose proof (sy_handle _ _ _ H) as Hh. pose proof (sy_uniq _ _ _ H) as Hdup.
  rewrite (open_existing t n 0 h Hh), bind_ok. cbv beta iota.
  rewrite (get_flags t h) by (right; by exists n). rewrite bind_ok, Hdup. cbv zeta. cbn [andb].
  destruct (sf_dump t n h hs H Hf) as (kvs & Ekvs & Hkeys & Hvals & Hkk & Hw).
  pose proof (readDBI_ok s sizeHint Hhint fuel t (shadowName n) n hs h false
    (sf_handle _ _ _ _ Hf) Hh) as Hread.
  rewrite Ekvs in Hread. change (SyncDBIShadowPrefix ++ n) with (shadowName n).
  destruct Hread as (d & -> & Hd);
    [congruence|intros _; by eapply sorted_nodup_keys, sf_sorted|exact (sy_len _ _ _ H)
    |exact (sy_flags _ _ _ H)|exact (sf_rows _ _ _ _ Hf)|lia|].
  rewrite !bind_ok, Hcan. cbv beta iota zeta.
  destruct (IterUpdate_ok (Sp := plain_spec) fuel t h (NewPlainIterator d) kvs)
    as (t' & -> & Hfr & Hres).
  - by eapply sy_uniq'.
  - exact (sy_ordered _ _ _ H).
  - exact (sy_keys _ _ _ H).
  - apply new_plain_at. by eapply dumped_remains.
  - by eapply sf_sorted_items.
  - apply Forall_forall. intros kv _. split; by eexists.
  - intros k v _. by eexists.
  - assert (length kvs = length (entries t hs)) as El.
    { rewrite <- (length_fmap kvKey kvs), Hkeys. by rewrite length_fmap. }
    change (length kvs + length (entries t h) < fuel)%nat. lia.
  - rewrite wrap_err_ok, bind_ok, Hcan. exists t'. split_and!; [done|done|].
    intros k. rewrite Hres. specialize (Hvals k).
    destruct (imap (Sp := plain_spec) kvs !! k) as [kv|], (dbm t hs !! k ≫= cellOf) as [co|];
      simpl in *; try done.
    + injection Hvals as <-. by destruct (kvValue kv).
    + by destruct (dbm t h !! k).
Qed.
(** *** All databases *)

Lemma dbm_same t t' n h : same t t' n → dbi_of t n = Some h → dbm t' h = dbm t h.
Proof. intros [_ H] Hn. unfold dbm. by destruct (H h Hn) as [-> _]. Qed.

Lemma key_ok_flags t t' h k : dflags t' h = dflags t h → key_ok t h k ↔ key_ok t' h k.
Proof. intros E. unfold key_ok. by rewrite E. Qed.

Lemma syncable_same t t' n h : same t t' n → syncable t n h → syncable t' n h.
Proof.
  intros Hs H. pose proof (sy_handle _ _ _ H) as Hh. pose proof (dbm_same _ _ _ _ Hs Hh) as Hm.
  destruct Hs as [E1 E2]. destruct (E2 h Hh) as [Ee Ef].
  destruct H. constructor; rewrite ?E1, ?Ef, ?Ee, ?Hm; try done.
  - unfold ordered in *. by rewrite Ef.
  - intros k. rewrite Hm, <- (key_ok_flags t t' h k Ef). auto.
Qed.

Lemma shadowOf_same t t' n : same t t' (shadowName n) → shadowOf t' n = shadowOf t n.
Proof.
  intros Hs. unfold shadowOf. destruct (Hs) as [-> _].
  destruct (dbi_of t (shadowName n)) eqn:E; [|done]. by eapply dbm_same.
Qed.

Lemma shadow_ok_same t t' n h :
  same t t' n → same t t' (shadowName n) → dbi_of t n = Some h →
  shadow_ok t n h → shadow_ok t' n h.
Proof.
  intros [_ H1] H2 Hh Hok hs Ehs. destruct (H2) as [E H2']. rewrite E in Ehs.
  destruct (Hok hs Ehs) as (F1 & F2 & F3). destruct (H1 h Hh) as [_ Ef].
  destruct (H2' hs Ehs) as [_ Ef']. unfold shadowFlags, headers_valid.
  rewrite (dbm_same _ _ _ _ H2 Ehs), Ef, Ef'. split_and!; [done| |done].
  intros k. rewrite (dbm_same _ _ _ _ H2 Ehs), <- (key_ok_flags t t' hs k Ef'). apply F2.
Qed.

Lemma shadowName_inj n n' : shadowName n = shadowName n' → n = n'.
Proof. unfold shadowName. apply app_inv_head. Qed.

Lemma shadowName_prefix n : HasPrefix (shadowName n) SyncDBIPrefix = true.
Proof. by apply bool_decide_eq_true. Qed.

Lemma not_shadowName n n' : HasPrefix n SyncDBIPrefix = false → n ≠ shadowName n'.
Proof. intros H ->. by rewrite shadowName_prefix in H. Qed.

(** A database that [mainToShadow] can copy. *)
Definition copyable (fuel : nat) (id : Z) (t : Txn) (n : bytes) (h : DBIh) : Prop :=
  syncable t n h ∧ shadow_ok t n h ∧ txn_ID t = id ∧
  (length (entries t h) + size (shadowOf t n) < fuel)%nat.

(** What [mainToShadow] makes of a database. *)
Definition copied (now ts : Z) (t t' : Txn) (n : bytes) (h : DBIh) : Prop :=
  same t t' n ∧
  ∃ hs, dbi_of t' (shadowName n) = Some hs ∧ dflags t' hs = shadowFlags t h ∧
    ∀ k, dbm t' hs !! k = shadowVal (shadowCfg t now ts) k (dbm t h !! k) (shadowOf t n !! k).

(** The databases one step of the loop leaves alone. *)
Definition main_step (t t' : Txn) (n : bytes) : Prop :=
  txn_ID t' = txn_ID t ∧ if HasPrefix n SyncDBIPrefix then t' = t else only_shadow t t' n.

Lemma main_step_same t t' n n' :
  main_step t t' n → n ≠ n' → HasPrefix n' SyncDBIPrefix = false →
  same t t' n' ∧ same t t' (shadowName n').
Proof.
  intros [_ Hs] Hne Hp. destruct (HasPrefix n SyncDBIPrefix); [by subst t'|].
  split; apply Hs; [by apply not_shadowName|]. intros E. by apply Hne, shadowName_inj.
Qed.

Lemma copyable_step fuel i t t' n n' h :
  main_step t t' n → n ≠ n' → copyable fuel i t n' h → copyable fuel i t' n' h.
Proof.
  intros Hs Hne (Hsy & Hok & Hi & Hf).
  destruct (main_step_same _ _ _ _ Hs Hne (sy_name _ _ _ Hsy)) as [H1 H2].
  pose proof (sy_handle _ _ _ Hsy) as Hh. unfold copyable.
  rewrite (shadowOf_same _ _ _ H2). destruct (H1) as [_ H1']. destruct (H1' h Hh) as [-> _].
  split_and!; [by eapply syncable_same|by eapply shadow_ok_same| |done].
  destruct Hs as [-> _]. done.
Qed.

Lemma copied_back now ts t t1 t2 n n' h :
  main_step t t1 n → n ≠ n' → syncable t n' h →
  copied now ts t1 t2 n' h → copied now ts t t2 n' h.
Proof.
  intros Hs Hne Hsy ([S1 S2] & hs & C1 & C2 & C3).
  destruct (main_step_same _ _ _ _ Hs Hne (sy_name _ _ _ Hsy)) as [H1 H2].
  pose proof (sy_handle _ _ _ Hsy) as Hh. pose proof (dbm_same _ _ _ _ H1 Hh) as Hm.
  destruct H1 as [E1 E2]. destruct (E2 h Hh) as [Ee Ef]. split.
  - split; [congruence|]. intros h' Hh'. assert (h' = h) as -> by congruence.
    rewrite <- E1 in Hh. destruct (S2 h Hh) as [-> ->]. done.
  - exists hs. unfold shadowFlags in *. rewrite <- Ef. split_and!; [done|done|].
    intros k. rewrite C3, Hm, (shadowOf_same _ _ _ H2). unfold shadowCfg.
    by destruct Hs as [-> _].
Qed.

Lemma copied_forward now ts t t1 t2 n n' h :
  syncable t n h → copied now ts t t1 n h → main_step t1 t2 n' → n ≠ n' →
  copied now ts t t2 n h.
Proof.
  intros Hsy ([S1 S2] & hs & C1 & C2 & C3) Hs Hne.
  destruct (main_step_same _ _ _ _ Hs (not_eq_sym Hne) (sy_name _ _ _ Hsy)) as [[E1 E2] H2].
  split.
  - split; [congruence|]. intros h' Hh'. destruct (S2 h' Hh') as [<- <-].
    apply E2. congruence.
  - exists hs. rewrite (dbm_same _ _ _ _ H2 C1). destruct H2 as [H3 H4].
    destruct (H4 hs C1) as [_ ->]. split_and!; [congruence|done|done].
Qed.

Lemma mainToShadow_ok fuel t now ts :
  0 < txn_ID t < 2 ^ 64 → (length (dbnames t) < fuel)%nat →
  (∀ n, n ∈ dbnames t → HasPrefix n SyncDBIPrefix = false →
     ∃ h, copyable fuel (txn_ID t) t n h) →
  ∃ t', mainToShadow s sizeHint isCanceled fuel t now ts = Ok t' ∧
    (∀ n h, n ∈ dbnames t → syncable t n h → copied now ts t t' n h) ∧
    ∀ n, HasPrefix n SyncDBIPrefix = false → dbi_of t' n = dbi_of t n.
Proof using PL HL Hhint Hcan Hfilter.
  intros Hid Hfuel Hall. unfold mainToShadow. rewrite ReadDBINames_ok, bind_ok by done.
  revert Hid Hall. generalize (txn_ID t) as i. intros i Hid Hall.
  set (good := λ (t : Txn) n, HasPrefix n SyncDBIPrefix = false → ∃ h, copyable fuel i t n h).
  set (post := λ (t t' : Txn) n, ∀ h, syncable t n h → copied now ts t t' n h).
  destruct (forEach_ok id (λ t n, mainToShadowOne s sizeHint isCanceled fuel t now ts n)
    main_step post good) with (xs := dbnames t) (t := t) as (t' & -> & Hpost & _ & Hkeep).
  - intros t0 n Hg. destruct (HasPrefix n SyncDBIPrefix) eqn:Ep.
    + exists t0. unfold mainToShadowOne, main_step. rewrite Ep. split_and!; [done..|].
      intros h Hsy. by rewrite (sy_name _ _ _ Hsy) in Ep.
    + destruct (Hg Ep) as (h & Hsy & Hok & Hi & Hf).
      destruct (mainToShadowOne_ok fuel t0 now ts n h Hsy Hok) as (t' & hs & E & H1 & H2 & H3 & H4 & H5);
        [by rewrite Hi|done|]. exists t'. unfold main_step. rewrite Ep. split_and!; [done..|].
      intros h' Hsy'. assert (h' = h) as ->.
      { pose proof (sy_handle _ _ _ Hsy). pose proof (sy_handle _ _ _ Hsy'). congruence. }
      split; [by apply H3, not_shadowName|by exists hs].
  - intros t0 t1 n n' Hs Hne Hg Hp. destruct (Hg Hp) as [h Hc]. exists h. by eapply copyable_step.
  - intros t0 t1 t2 n n' Hs Hne _ Hp h Hsy. eapply copied_back; [done..|]. apply Hp.
    eapply syncable_same; [|done]. by eapply main_step_same; [..|apply Hsy].
  - intros t0 t1 t2 n n' Hp Hs Hne h Hsy. eapply copied_forward; [done|by apply Hp|done|done].
  - rewrite list_fmap_id. apply dbnames_nodup.
  - exact Hall.
  - exists t'. split; [done|]. split; [intros n h Hn Hsy; by apply Hpost|]. intros n Hp.
    apply (Hkeep (λ t1, dbi_of t1 n = dbi_of t n)); [done|]. intros t1 t2 n' _ [_ Hs] <-.
    destruct (HasPrefix n' SyncDBIPrefix); [by subst|]. by apply Hs, not_shadowName.
Qed.

(** A database that [shadowToMain] can restore from its shadow. *)
Definition restorable (fuel : nat) (t : Txn) (n : bytes) (h hs : DBIh) : Prop :=
  syncable t n h ∧ shadow_full t n h hs ∧
  (length (entries t hs) + length (entries t h) < fuel)%nat.

(** What [shadowToMain] makes of it: the values of the shadow that are not
    empty. *)
Definition restored (t t' : Txn) (h hs : DBIh) : Prop :=
  ∀ k, dbm t' h !! k = (dbm t hs !! k ≫= cellOf) ≫= λ c, present (Some (cVal c)).

Definition back_step (t t' : Txn) (n : bytes) : Prop :=
  if HasPrefix n SyncDBIPrefix then t' = t else ∀ n', n' ≠ n → same t t' n'.

Lemma back_step_same t t' n n' :
  back_step t t' n → n ≠ n' → same t t' n' ∧ same t t' (shadowName n').
Proof.
  unfold back_step. intros Hs Hne. destruct (HasPrefix n SyncDBIPrefix) eqn:E; [by subst t'|].
  split; apply Hs; [done|]. apply not_eq_sym. by apply not_shadowName.
Qed.

Lemma shadow_full_same t t' n h hs :
  same t t' n → same t t' (shadowName n) → dbi_of t n = Some h →
  shadow_full t n h hs → shadow_full t' n h hs.
Proof.
  intros [_ H1] H2 Hh Hf. pose proof (sf_handle _ _ _ _ Hf) as Ehs.
  destruct (H1 h Hh) as [_ Ef]. pose proof (dbm_same _ _ _ _ H2 Ehs) as Hm.
  destruct (H2) as [E H2']. destruct (H2' hs Ehs) as [Ee Ef'].
  destruct Hf. unfold headers_valid in *.
  constructor; unfold shadowFlags, headers_valid; rewrite ?E, ?Ef', ?Ee, ?Hm, ?Ef; try done.
  intros k. rewrite Hm, <- (key_ok_flags t t' hs k Ef'). auto.
Qed.

Lemma restorable_step fuel t t' n n' h hs :
  back_step t t' n → n ≠ n' → restorable fuel t n' h hs → restorable fuel t' n' h hs.
Proof.
  intros Hs Hne (Hsy & Hf & Hl). destruct (back_step_same _ _ _ _ Hs Hne) as [H1 H2].
  pose proof (sy_handle _ _ _ Hsy) as Hh. unfold restorable.
  split_and!; [by eapply syncable_same|by eapply shadow_full_same|].
  destruct H1 as [_ H1]. destruct (H1 h Hh) as [-> _].
  destruct H2 as [_ H2]. by destruct (H2 hs (sf_handle _ _ _ _ Hf)) as [-> _].
Qed.

Lemma framed_same t t' n h n' :
  dbi_of t n = Some h → framed t t' h → n' ≠ n → same t t' n'.
Proof using HL.
  intros Hh (F1 & F2 & F3 & _) Hne. split; [apply F3|]. intros h' Hh'. split; [|apply F2].
  apply F1; intros ->; [by apply Hne, (dbi_of_inj t _ _ h)|by apply (dbi_of_root t n')].
Qed.

Lemma shadowToMain_ok fuel t :
  (length (dbnames t) < fuel)%nat →
  (∀ n, n ∈ dbnames t → HasPrefix n SyncDBIPrefix = false → ∃ h hs, restorable fuel t n h hs) →
  ∃ t', shadowToMain s sizeHint isCanceled fuel t = Ok t' ∧
    ∀ n h hs, n ∈ dbnames t → restorable fuel t n h hs →
      dbi_of t' n = Some h ∧ restored t t' h hs.
Proof using PL HL Hhint Hcan Hfilter.
  intros Hfuel Hall. unfold shadowToMain. rewrite ReadDBINames_ok, bind_ok by done.
  set (good := λ (t : Txn) n, HasPrefix n SyncDBIPrefix = false → ∃ h hs, restorable fuel t n h hs).
  set (post := λ (t t' : Txn) n, ∀ h hs, restorable fuel t n h hs →
    dbi_of t' n = Some h ∧ restored t t' h hs).
  destruct (forEach_ok id (λ t n, shadowToMainOne s sizeHint isCanceled fuel t n)
    back_step post good) with (xs := dbnames t) (t := t) as (t' & -> & Hpost & _ & _).
  - intros t0 n Hg. destruct (HasPrefix n SyncDBIPrefix) eqn:Ep.
    + exists t0. unfold shadowToMainOne, back_step. rewrite Ep. split_and!; [done..|].
      intros h hs [Hsy _]. by rewrite (sy_name _ _ _ Hsy) in Ep.
    + destruct (Hg Ep) as (h & hs & Hsy & Hf & Hl). pose proof (sy_handle _ _ _ Hsy) as Hh.
      destruct (shadowToMainOne_ok fuel t0 n h hs Hsy Hf Hl) as (t' & E & Hfr & Hres).
      exists t'. unfold back_step. rewrite Ep. split_and!; [done| |].
      * intros n' Hne. by eapply framed_same.
      * intros h' hs' (Hsy' & Hf' & _). pose proof (sy_handle _ _ _ Hsy').
        pose proof (sf_handle _ _ _ _ Hf). pose proof (sf_handle _ _ _ _ Hf').
        assert (h' = h) as -> by congruence. assert (hs' = hs) as -> by congruence.
        split; [|done]. destruct Hfr as (_ & _ & -> & _). done.
  - intros t0 t1 n n' Hs Hne Hg Hp. destruct (Hg Hp) as (h & hs & Hc). exists h, hs.
    by eapply restorable_step.
  - intros t0 t1 t2 n n' Hs Hne _ Hp h hs Hr.
    destruct (Hp h hs) as [H1 H2]; [by eapply restorable_step|]. split; [done|].
    destruct (back_step_same _ _ _ _ Hs Hne) as [_ Hsh].
    intros k. rewrite (H2 k), (dbm_same _ _ _ _ Hsh); [done|]. apply (sf_handle _ _ _ _ (proj1 (proj2 Hr))).
  - intros t0 t1 t2 n n' Hp Hs Hne h hs Hr. unfold id in Hne. destruct (Hp h hs Hr) as [H1 H2].
    destruct (back_step_same _ _ _ _ Hs (not_eq_sym Hne)) as [Hn _].
    split; [destruct Hn as [-> _]; done|]. intros k. by rewrite (dbm_same _ _ _ _ Hn H1).
  - rewrite list_fmap_id. apply dbnames_nodup.
  - exact Hall.
  - exists t'. split; [done|]. intros n h hs Hn Hr. by apply Hpost.
Qed.
(** *** There and back *)

(** The shadow as mainToShadow keeps it: sized entries, older timestamps,
    deletions without a value. *)
Record shadow_older (ts : Z) (t : Txn) (n : bytes) (h : DBIh) : Prop := MkShadowOlder {
  so_key : ∀ k, is_Some (shadowOf t n !! k) → key_ok t h k ∧
    (has_flag (dflags t h) LMDBIntegerKeyFlag = true → le_get k ≠ 0);
  so_size : ∀ k v, shadowOf t n !! k = Some v → zlen v < 2 ^ 60;
  so_cell : ∀ k c, shadowOf t n !! k ≫= cellOf = Some c →
    cTS c < ts ∧ (cDel c = true → cVal c = []);
}.

Lemma shadowCfg_ok t now ts : 0 <= ts < 2 ^ 64 → 0 < txn_ID t < 2 ^ 64 → cfg_ok (shadowCfg t now ts).
Proof. intros H1 H2. split; simpl; [done|]. rewrite uint64_small; lia. Qed.

Lemma shadowOf_valid t n h k v :
  shadow_ok t n h → shadowOf t n !! k = Some v → is_Some (cellOf v).
Proof.
  intros Hok. unfold shadowOf. destruct (dbi_of t (shadowName n)) as [hs|] eqn:E; [|done].
  apply (Hok hs E).
Qed.

Lemma zlen_nheader_nopad c val ts flags :
  HeaderPaddingBlock c = false → zlen (nheader c val ts flags) <= 24 + zlen val.
Proof.
  intros E. unfold nheader. rewrite E, zlen_app, zlen_layout, zlen_nil by done.
  unfold zlen. case_match; simpl; lia.
Qed.

Lemma shadowVal_size c k main old v :
  HeaderPaddingBlock c = false →
  (∀ m, main = Some m → zlen m < 2 ^ 59) → (∀ o, old = Some o → zlen o < 2 ^ 60) →
  shadowVal c k main old = Some v → zlen v < 2 ^ 60.
Proof.
  intros Hp Hm Ho E. unfold shadowVal in E.
  assert (Hnh : ∀ val ts f, zlen val < 2 ^ 59 → zlen (nheader c val ts f) < 2 ^ 60)
    by (intros val ts f Hv; pose proof (zlen_nheader_nopad c val ts f Hp); lia).
  assert (Hpr : ∀ b w, present b = Some w → b = Some w) by (by intros [[|]|] w [= <-]).
  destruct main as [m|].
  - specialize (Hm m eq_refl). apply Hpr in E. unfold nmerge in E.
    case_bool_decide; [|destruct (Parse _) as [[hd app]| | |]]; simpl in E; try done.
    + injection E as <-. by apply Hnh.
    + case_match; [by apply Ho|]. injection E as <-. by apply Hnh.
  - destruct old as [o|]; [|done]. unfold nclean in E.
    destruct (Parse _) as [[hd app]| | |]; simpl in E; try done.
    case_match; [by apply Ho|]. injection E as <-. by apply Hnh.
Qed.

(** The shadow right after the copy can be copied back. *)
Lemma copied_full now ts t t' n h hs :
  syncable t n h → shadow_ok t n h → shadow_older ts t n h →
  (∀ k v, dbm t h !! k = Some v → zlen v < 2 ^ 59) →
  0 <= ts < 2 ^ 64 → 0 < txn_ID t < 2 ^ 64 →
  same t t' n → dbi_of t' (shadowName n) = Some hs → dflags t' hs = shadowFlags t h →
  (∀ k, dbm t' hs !! k = shadowVal (shadowCfg t now ts) k (dbm t h !! k) (shadowOf t n !! k)) →
  shadow_full t' n h hs.
Proof using HL.
  intros H Hok Ho Hsz Hts Hid Hsame Hhs Hfl Hval.
  pose proof (sy_handle _ _ _ H) as Hh. destruct (Hsame) as [_ Hs2]. destruct (Hs2 h Hh) as [_ Ef].
  assert (Hdom : ∀ k, is_Some (dbm t' hs !! k) → key_ok t h k ∧
    (has_flag (dflags t h) LMDBIntegerKeyFlag = true → le_get k ≠ 0)).
  { intros k [v Hv]. rewrite Hval in Hv. unfold shadowVal in Hv.
    destruct (dbm t h !! k) eqn:Em.
    - split; [apply (sy_keys _ _ _ H)|intros Hi; apply (sy_zero _ _ _ H Hi)]; by rewrite Em.
    - destruct (shadowOf t n !! k) eqn:Eo; [|done]. apply (so_key _ _ _ _ Ho). by rewrite Eo. }
  assert (Hsh : shadows t h t' hs) by (split; [by exists (shadowName n)|done]).
  assert (Hk : keys_ok t' hs).
  { intros k Hk. apply (shadow_key_ok _ _ _ _ _ _ H Hsh). by apply Hdom. }
  constructor; [done| |done| | |].
  - unfold shadowFlags. by rewrite Ef.
  - intros k v Hv. rewrite Hval in Hv.
    pose proof (shadowVal_cell (shadowCfg t now ts) k (dbm t h !! k) (shadowOf t n !! k)
      (shadowCfg_ok t now ts Hts Hid) eq_refl (λ o, shadowOf_valid t n h k o Hok)) as Hc.
    rewrite Hv in Hc. simpl in Hc. rewrite Hc. unfold shadowCell.
    destruct (dbm t h !! k), (shadowOf t n !! k ≫= cellOf) eqn:Eo; try by eexists.
    unfold shadowVal in Hv. destruct (shadowOf t n !! k) as [o|] eqn:E2; [|done].
    simpl in Eo. destruct (shadowOf_valid t n h k o Hok E2) as [? ?]. congruence.
  - apply Forall_forall. intros e He. apply list_elem_of_In in He.
    assert (Hnd : NoDup (entries t' hs).*1).
    { eapply sorted_nodup_keys. apply entries_sorted; [by eapply shadow_uniq|done]. }
    assert (dbm t' hs !! e.1 = Some e.2) as Hv by (apply elem_of_list_to_map_1; [done|by destruct e]).
    split.
    + destruct (Hk e.1) as [? _]; [by rewrite Hv|]. lia.
    + rewrite Hval in Hv. eapply shadowVal_size; [| | |exact Hv]; [done|by apply Hsz|].
      by apply (so_size _ _ _ _ Ho).
  - rewrite Ef. intros Hi k Hk'. by apply (Hdom k Hk').
Qed.

(** Copying a value forth and back gives it back. *)
Lemma shadowCell_back ts main old :
  (∀ v, main = Some v → v ≠ []) →
  (∀ c, old = Some c → cTS c < ts ∧ (cDel c = true → cVal c = [])) →
  (shadowCell ts main old ≫= λ c, present (Some (cVal c))) = main.
Proof.
  intros Hm Ho. destruct main as [v|], old as [co|]; simpl; try done.
  - specialize (Hm v eq_refl). destruct (Ho co eq_refl) as [Hts _].
    case_bool_decide as E; [rewrite E; by destruct v|]. unfold amerge, older. simpl.
    rewrite (proj2 (Z.ltb_ge _ _)), (proj2 (Z.eqb_neq _ _)) by lia. simpl. by destruct v.
  - specialize (Hm v eq_refl). by destruct v.
  - destruct (Ho co eq_refl) as [_ Hd]. destruct (cDel co); [|done]. by rewrite Hd.
Qed.

(** A database that survives the way to its shadow and back: its values are not
    empty, and the clock has passed the timestamps of its shadow. *)
Definition returnable (fuel : nat) (ts : Z) (t : Txn) (n : bytes) (h : DBIh) : Prop :=
  copyable fuel (txn_ID t) t n h ∧ shadow_older ts t n h ∧
  ∀ k v, dbm t h !! k = Some v → v ≠ [] ∧ zlen v < 2 ^ 59.

(** The copy of such a database. *)
Lemma returnable_full fuel now ts t t1 n h :
  returnable fuel ts t n h → 0 <= ts < 2 ^ 64 → 0 < txn_ID t < 2 ^ 64 → copied now ts t t1 n h →
  ∃ hs, syncable t1 n h ∧ shadow_full t1 n h hs ∧
    ∀ k, (dbm t1 hs !! k ≫= cellOf) ≫= (λ c, present (Some (cVal c))) = dbm t h !! k.
Proof using HL.
  intros ((Hsy & Hok & _ & _) & Ho & Hv) Hts Hid (Hsame & hs & Hhs & Hfl & Hval).
  exists hs. split; [by eapply syncable_same|]. split.
  - eapply copied_full; try done. intros k v Hkv. by apply (Hv k).
  - intros k. rewrite Hval, shadowVal_cell;
      [|by apply shadowCfg_ok|done|intros o Eo; by eapply shadowOf_valid].
    apply shadowCell_back; [by apply Hv|]. apply (so_cell _ _ _ _ Ho).
Qed.

(** The larger of the costs of the databases. *)
Lemma bounded_cost (f : bytes → nat) (l : list bytes) : ∃ b, ∀ n, n ∈ l → (f n <= b)%nat.
Proof using.
  induction l as [|x l [b IH]]; [exists 0%nat; by intros n ?%not_elem_of_nil|]. exists (max (f x) b).
  intros n [->|Hn]%elem_of_cons; [lia|]. specialize (IH n Hn). lia.
Qed.

Definition backCost (t : Txn) (n : bytes) : nat :=
  match dbi_of t (shadowName n), dbi_of t n with
  | Some hs, Some h => length (entries t hs) + length (entries t h)
  | _, _ => 0
  end.

Lemma there_and_back_ok fuel t now ts :
  0 <= ts < 2 ^ 64 → 0 < txn_ID t < 2 ^ 64 → (length (dbnames t) < fuel)%nat →
  (∀ n, n ∈ dbnames t → HasPrefix n SyncDBIPrefix = false → ∃ h, returnable fuel ts t n h) →
  ∃ t1 b, mainToShadow s sizeHint isCanceled fuel t now ts = Ok t1 ∧
    ∀ fuel', (b < fuel')%nat → ∃ t2, shadowToMain s sizeHint isCanceled fuel' t1 = Ok t2 ∧
      ∀ n h, dbi_of t n = Some h → HasPrefix n SyncDBIPrefix = false →
        dbi_of t2 n = Some h ∧ dbm t2 h = dbm t h.
Proof using PL HL Hhint Hcan Hfilter.
  intros Hts Hid Hfuel Hall.
  destruct (mainToShadow_ok fuel t now ts Hid Hfuel) as (t1 & E1 & Hc & Hk).
  { intros n Hn Hp. destruct (Hall n Hn Hp) as (h & H & _). by exists h. }
  destruct (bounded_cost (backCost t1) (dbnames t1)) as [b Hb].
  exists t1, (max b (length (dbnames t1))). split; [done|]. intros fuel' Hf'.
  assert (Hr : ∀ n, n ∈ dbnames t1 → HasPrefix n SyncDBIPrefix = false → ∃ h hs,
    dbi_of t n = Some h ∧ restorable fuel' t1 n h hs ∧
    ∀ k, (dbm t1 hs !! k ≫= cellOf) ≫= (λ c, present (Some (cVal c))) = dbm t h !! k).
  { intros n Hn Hp. assert (n ∈ dbnames t) as Hn0 by (apply dbi_of_names; rewrite <- Hk by done; by apply dbi_of_names).
    destruct (Hall n Hn0 Hp) as (h & Hret). pose proof (proj1 (proj1 Hret)) as Hsy.
    destruct (returnable_full fuel now ts t t1 n h Hret Hts Hid (Hc n h Hn0 Hsy)) as (hs & H1 & H2 & H3).
    exists h, hs. split; [apply Hsy|]. split; [|done]. split_and!; [done|done|].
    specialize (Hb n Hn). unfold backCost in Hb. rewrite (sf_handle _ _ _ _ H2), (sy_handle _ _ _ H1) in Hb.
    lia. }
  destruct (shadowToMain_ok fuel' t1) as (t2 & E2 & Hb2); [lia| |].
  { intros n Hn Hp. destruct (Hr n Hn Hp) as (h & hs & _ & H & _). by exists h, hs. }
  exists t2. split; [done|]. intros n h Hh Hp.
  assert (n ∈ dbnames t1) as Hn by (apply dbi_of_names; rewrite Hk by done; by eexists).
  destruct (Hr n Hn Hp) as (h' & hs & Hh' & H1 & H2). assert (h' = h) as -> by congruence.
  destruct (Hb2 n h hs Hn H1) as [H3 H4]. split; [done|]. apply map_eq. intros k. by rewrite H4.
Qed.
End shadow.

(** ** Theorems *)

Section theorems.
Context `{P : CSProto} `{PL : !CSProtoLaws P}.
Context `{V : LMDBView} `{HL : !LMDBLaws L V}.
Context (s : Syncer) (sizeHint : Z → Z → bool → Z) (isCanceled : bytes → bool → bool).
Hypothesis (Hhint : ∀ a b r, 0 <= sizeHint a b r).
Hypothesis (Hcan : ∀ n b, isCanceled n b = false).
Hypothesis (Hfilter : FilterReadDBI s = None).

(** C17: [mainToShadow] leaves every database of the application, without
    duplicate keys, as it is and brings its shadow up to date: a new or changed value gets the timestamp of
    the copy unless the shadow already has a newer one, an unchanged value
    keeps its timestamp, and a missing key becomes a deletion.  When the clock
    has passed the timestamp of a key in the shadow, the key is live there with
    the value it has in main, or deleted when main does not have it.  The keys
    whose value in main equals that of their deletion marker are excepted: they
    stay deleted. *)
Theorem main_to_shadow fuel t now ts :
  0 <= ts < 2 ^ 64 → 0 < txn_ID t < 2 ^ 64 → (length (dbnames t) < fuel)%nat →
  (∀ n, n ∈ dbnames t → HasPrefix n SyncDBIPrefix = false →
     ∃ h, copyable fuel (txn_ID t) t n h) →
  ∃ t', mainToShadow s sizeHint isCanceled fuel t now ts = Ok t' ∧
    ∀ n h, n ∈ dbnames t → syncable t n h → shadow_ok t n h →
      same t t' n ∧
      ∃ hs, dbi_of t' (shadowName n) = Some hs ∧
        ∀ k, let old := shadowOf t n !! k ≫= cellOf in
             ¬ over_marker (dbm t h !! k) old →
             (dbm t' hs !! k ≫= cellOf) = shadowSpec ts (dbm t h !! k) old ∧
             ((∀ co, old = Some co → cTS co < ts) →
              (dbm t' hs !! k ≫= cellOf) ≫= liveVal = dbm t h !! k).
Proof using PL HL Hhint Hcan Hfilter.
  intros Hts Hid Hfuel Hall.
  destruct (mainToShadow_ok s sizeHint isCanceled Hhint Hcan Hfilter fuel t now ts Hid Hfuel Hall)
    as (t' & E & Hc & _).
  exists t'. split; [done|]. intros n h Hn Hsy Hok. destruct (Hc n h Hn Hsy) as (H1 & hs & H2 & _ & H3).
  split; [done|]. exists hs. split; [done|]. intros k old Hno.
  assert ((dbm t' hs !! k ≫= cellOf) = shadowSpec ts (dbm t h !! k) old) as Ec.
  { rewrite H3, shadowVal_cell, shadowCell_spec; [done|done|by apply shadowCfg_ok|done|].
    intros o Ho. by eapply shadowOf_valid. }
  split; [done|]. rewrite Ec. apply shadowSpec_live.
Qed.

(** A shadow in which the deletion markers, and only they, have no value. *)
Definition markers_only (t : Txn) (hs : DBIh) : Prop :=
  ∀ k c, dbm t hs !! k ≫= cellOf = Some c → cDel c = true ↔ cVal c = [].

(** C18: [shadowToMain] makes every database of the application hold exactly the
    key-values of its shadow that are not deleted, as long as no live value in
    the shadow is empty (and the deletion markers are, as they are written).
    The databases have no duplicate keys. *)
Theorem shadow_to_main fuel t :
  (length (dbnames t) < fuel)%nat →
  (∀ n, n ∈ dbnames t → HasPrefix n SyncDBIPrefix = false → ∃ h hs, restorable fuel t n h hs) →
  ∃ t', shadowToMain s sizeHint isCanceled fuel t = Ok t' ∧
    ∀ n h hs, n ∈ dbnames t → restorable fuel t n h hs → markers_only t hs →
      dbi_of t' n = Some h ∧
      ∀ k, dbm t' h !! k = (dbm t hs !! k ≫= cellOf) ≫= liveVal.
Proof using PL HL Hhint Hcan Hfilter.
  intros Hf Hall.
  destruct (shadowToMain_ok s sizeHint isCanceled Hhint Hcan Hfilter fuel t Hf Hall) as (t' & E & Hr).
  exists t'. split; [done|]. intros n h hs Hn Hrs Hm. destruct (Hr n h hs Hn Hrs) as [H1 H2].
  split; [done|]. intros k. rewrite H2. specialize (Hm k).
  destruct (dbm t hs !! k ≫= cellOf) as [c|]; [|done]. specialize (Hm c eq_refl). simpl.
  unfold liveVal. destruct (cDel c), (cVal c); try done; by destruct Hm as [? ?]; intuition.
Qed.

(** Contrary to the comment, a live key of the shadow with an empty value is
    not in main after [shadowToMain]: it is dropped there even if it was. *)
Theorem shadow_empty_value_dropped fuel t n h hs k co :
  (length (dbnames t) < fuel)%nat →
  (∀ n, n ∈ dbnames t → HasPrefix n SyncDBIPrefix = false → ∃ h hs, restorable fuel t n h hs) →
  n ∈ dbnames t → restorable fuel t n h hs →
  dbm t hs !! k ≫= cellOf = Some co → cDel co = false → cVal co = [] →
  ∃ t', shadowToMain s sizeHint isCanceled fuel t = Ok t' ∧ dbm t' h !! k = None.
Proof using PL HL Hhint Hcan Hfilter.
  intros Hf Hall Hn Hrs Hc Hd Hv.
  destruct (shadowToMain_ok s sizeHint isCanceled Hhint Hcan Hfilter fuel t Hf Hall) as (t' & E & Hr).
  exists t'. split; [done|]. destruct (Hr n h hs Hn Hrs) as [_ H2]. rewrite H2, Hc. simpl. by rewrite Hv.
Qed.

(** C19: copying all databases to their shadows and back, with nothing loaded
    in between, leaves them unchanged, when no value is empty, no database has
    duplicate keys, and the clock has passed every timestamp of the shadows.
    [fuel'] bounds the second loop and must exceed what the databases need. *)
Theorem shadow_there_and_back fuel t now ts :
  0 <= ts < 2 ^ 64 → 0 < txn_ID t < 2 ^ 64 → (length (dbnames t) < fuel)%nat →
  (∀ n, n ∈ dbnames t → HasPrefix n SyncDBIPrefix = false → ∃ h, returnable fuel ts t n h) →
  ∃ t1 b, mainToShadow s sizeHint isCanceled fuel t now ts = Ok t1 ∧
    ∀ fuel', (b < fuel')%nat → ∃ t2, shadowToMain s sizeHint isCanceled fuel' t1 = Ok t2 ∧
      ∀ n h, dbi_of t n = Some h → HasPrefix n SyncDBIPrefix = false →
        dbi_of t2 n = Some h ∧ dbm t2 h = dbm t h.
Proof using PL HL Hhint Hcan Hfilter. by apply there_and_back_ok. Qed.
End theorems.

(** ** Witnesses on the reference database *)

Section examples.
#[local] Existing Instances RefProto RefProto_laws Ref.RefLMDB Ref.RefView Ref.RefLMDB_laws.

Definition exs : Syncer :=
  MkSyncer (str "main") ex_lmdb (MkSweeper true (1, 0) 0 0 0 0 0) None.

Definition exCfg (ts : Z) : nativeCfg := MkNativeCfg ts 5 3 false 0.
Definition exMain : list (bytes * bytes) := [(str "a", str "1"); (str "c", str "333")].
Definition exShadow : list (bytes * bytes) :=
  [(str "a", nheader (exCfg 50) (str "0") 0 0); (str "b", nheader (exCfg 60) (str "x") 0 0)].

Definition exT : @Txn Ref.RefLMDB :=
  Ref.MkTxn 7 {[ str "db" := Ref.MkDb 0 (list_to_map exMain) [];
                 shadowName (str "db") := Ref.MkDb 0 (list_to_map exShadow) [] ]}.
Definition exH : @DBIh Ref.RefLMDB := Some (str "db").
Definition exHs : @DBIh Ref.RefLMDB := Some (shadowName (str "db")).

Lemma exT_main : dbm exT exH = list_to_map exMain.
Proof. exact (Ref.sorted_map (Ref.MkDb 0 (list_to_map exMain) [])). Qed.

Lemma exT_shadow : dbm exT exHs = list_to_map exShadow.
Proof. exact (Ref.sorted_map (Ref.MkDb 0 (list_to_map exShadow) [])). Qed.

Lemma ex_two (P : bytes → bytes → Prop) (k1 v1 k2 v2 : bytes) :
  P k1 v1 → P k2 v2 →
  ∀ k v, (list_to_map [(k1, v1); (k2, v2)] : gmap bytes bytes) !! k = Some v → P k v.
Proof.
  intros H1 H2 k v Hk. apply elem_of_list_to_map_2 in Hk.
  apply elem_of_cons in Hk as [[= -> ->]|Hk]; [done|].
  by apply list_elem_of_singleton in Hk as [= -> ->].
Qed.

Lemma ex_key h k : (h = exH ∨ h = exHs) → 1 <= zlen k <= 511 → key_ok exT h k.
Proof. intros Hh Hk. split; [done|]. by destruct Hh as [-> | ->]. Qed.

Lemma exT_syncable : syncable exT (str "db") exH.
Proof.
  constructor; [reflexivity|reflexivity|reflexivity|by right| |done|done| |done|done].
  - intros k [v Hv]. rewrite exT_main in Hv. apply ex_key; [by left|]. revert k v Hv.
    by apply ex_two.
  - change (Forall row_ok exMain). repeat constructor; done.
Qed.

Lemma exT_shadow_ok : shadow_ok exT (str "db") exH.
Proof.
  intros hs E. assert (hs = exHs) as -> by (symmetry; exact (proj1 (inj_iff Some _ _) E)).
  split_and!; [reflexivity| |].
  - intros k [v Hv]. rewrite exT_shadow in Hv. apply ex_key; [by right|]. revert k v Hv.
    by apply ex_two.
  - intros k v Hv. rewrite exT_shadow in Hv. revert k v Hv.
    apply ex_two; vm_compute; by eexists.
Qed.

Lemma exT_shadowOf : shadowOf exT (str "db") = list_to_map exShadow.
Proof. exact exT_shadow. Qed.

Lemma exT_older : shadow_older 100 exT (str "db") exH.
Proof.
  constructor; rewrite exT_shadowOf.
  - intros k [v Hv]. split; [|done]. apply ex_key; [by left|]. revert k v Hv.
    by apply (ex_two (λ k _, 1 <= zlen k <= 511)).
  - by apply (ex_two (λ _ v, zlen v < 2 ^ 60)).
  - intros k c Hc. destruct (list_to_map exShadow !! k) as [v|] eqn:E; [|done]. simpl in Hc.
    revert c Hc. revert k v E.
    apply (ex_two (λ _ v, ∀ c, cellOf v = Some c → cTS c < 100 ∧ (cDel c = true → cVal c = [])));
      intros c Hc; vm_compute in Hc; injection Hc as <-; done.
Qed.

Lemma exT_values k v : dbm exT exH !! k = Some v → v ≠ [] ∧ zlen v < 2 ^ 59.
Proof. rewrite exT_main. revert k v. by apply ex_two. Qed.

Lemma exT_names : dbnames exT = [shadowName (str "db"); str "db"].
Proof. by vm_compute. Qed.

Lemma main_to_shadow_witness : ∃ t' hs,
  mainToShadow exs (λ _ _ _, 0) (λ _ _, false) 10 exT 1000 100 = Ok t' ∧
  dbi_of t' (shadowName (str "db")) = Some hs ∧
  (dbm t' hs !! str "b" ≫= cellOf) = Some (MkCell 100 true []).
Proof.
  destruct (main_to_shadow exs (λ _ _ _, 0) (λ _ _, false)) with (fuel := 10%nat) (t := exT)
    (now := 1000) (ts := 100) as (t' & E & H);
    [done|done|reflexivity|lia|by split| | |].
  - rewrite exT_names. simpl. lia.
  - intros n Hn Hp. rewrite exT_names in Hn. exists exH.
    apply elem_of_cons in Hn as [->|Hn]; [by vm_compute in Hp|].
    apply list_elem_of_singleton in Hn as ->.
    split_and!; [apply exT_syncable|apply exT_shadow_ok|done|vm_compute; lia].
  - destruct (H (str "db") exH) as (_ & hs & H1 & H2); [|exact exT_syncable|exact exT_shadow_ok|].
    + rewrite exT_names. by right; left.
    + exists t', hs. split; [exact E|]. split; [exact H1|].
      destruct (H2 (str "b")) as [Hb _].
      * rewrite exT_main. intros (co & _ & _ & Hm). vm_compute in Hm. discriminate Hm.
      * rewrite Hb, exT_main, exT_shadowOf. by vm_compute.
Defined.

Lemma exT_full : shadow_full exT (str "db") exH exHs.
Proof.
  destruct (exT_shadow_ok exHs) as (H1 & H2 & H3); [by vm_compute|].
  constructor; [reflexivity|exact H1|exact H2|exact H3| |done].
  change (Forall row_ok exShadow). repeat constructor; done.
Qed.

(** The shadow of the example has live values only. *)
Lemma exT_markers : markers_only exT exHs.
Proof.
  intros k c. rewrite exT_shadow. destruct (list_to_map exShadow !! k) as [v|] eqn:E; [|done].
  simpl. revert c. revert k v E.
  apply (ex_two (λ _ v, ∀ c, cellOf v = Some c → cDel c = true ↔ cVal c = []));
    intros c Hc; vm_compute in Hc; injection Hc as <-; by split.
Qed.

Lemma shadow_to_main_witness : ∃ t',
  shadowToMain exs (λ _ _ _, 0) (λ _ _, false) 10 exT = Ok t' ∧
  dbm t' exH !! str "a" = Some (str "0") ∧ dbm t' exH !! str "c" = None.
Proof.
  assert (Hr : restorable 10 exT (str "db") exH exHs).
  { split_and!; [apply exT_syncable|apply exT_full|vm_compute; lia]. }
  destruct (shadow_to_main exs (λ _ _ _, 0) (λ _ _, false)) with (fuel := 10%nat) (t := exT)
    as (t' & E & H); [done|done|reflexivity| | |].
  - rewrite exT_names. simpl. lia.
  - intros n Hn Hp. rewrite exT_names in Hn. exists exH, exHs.
    apply elem_of_cons in Hn as [->|Hn]; [by vm_compute in Hp|].
    by apply list_elem_of_singleton in Hn as ->.
  - destruct (H (str "db") exH exHs) as [_ H2]; [|exact Hr|exact exT_markers|].
    + rewrite exT_names. by right; left.
    + exists t'. split; [exact E|]. rewrite !H2, exT_shadow. split; by vm_compute.
Defined.

Lemma shadow_there_and_back_witness : ∃ t1 b,
  mainToShadow exs (λ _ _ _, 0) (λ _ _, false) 10 exT 1000 100 = Ok t1 ∧
  ∀ fuel', (b < fuel')%nat →
    ∃ t2, shadowToMain exs (λ _ _ _, 0) (λ _ _, false) fuel' t1 = Ok t2 ∧
      dbm t2 exH = dbm exT exH.
Proof.
  destruct (shadow_there_and_back exs (λ _ _ _, 0) (λ _ _, false)) with (fuel := 10%nat) (t := exT)
    (now := 1000) (ts := 100) as (t1 & b & H1 & H2); [done|done|reflexivity|lia|by split| | |].
  - rewrite exT_names. simpl. lia.
  - intros n Hn Hp. rewrite exT_names in Hn. exists exH.
    apply elem_of_cons in Hn as [->|Hn]; [by vm_compute in Hp|].
    apply list_elem_of_singleton in Hn as ->. split; [|split; [exact exT_older|exact exT_values]].
    split_and!; [apply exT_syncable|apply exT_shadow_ok|done|vm_compute; lia].
  - exists t1, b. split; [exact H1|]. intros fuel' Hf. destruct (H2 fuel' Hf) as (t2 & E2 & H3).
    exists t2. split; [exact E2|]. by apply (H3 (str "db") exH).
Defined.

End examples.
