(* ===== verification/Name.v ===== *)
(** * Snapshot names (snapshot/name.go)

    A snapshot is stored under a name made of the database, the instance, a
    timestamp and a generation.  The receiver and the cleaner rely on the
    order of these names, so the formatting of the timestamp by Go's [time]
    package is modelled too. *)

From S2P Require Import Prelude.

(** ** Dates

    The proleptic Gregorian calendar of [time.Time], in UTC, with years that
    start in March, so that the leap day is the last day of a year. *)

(** The first day of a year, counted from 1 March of year 0. *)
Definition yearStart (y : Z) : Z := 365 * y + y / 4 - y / 100 + y / 400.

(** The year of a day: an estimate, corrected by one. *)
Definition marchYear (z : Z) : Z :=
  let y := 400 * z / 146097 in
  if z <? yearStart y then y - 1 else if yearStart (y + 1) <=? z then y + 1 else y.

(** The first day of a month, counted from 1 March. *)
Definition monthStart (mp : Z) : Z := (153 * mp + 2) / 5.

Record date : Type := MkDate { dYear : Z; dMonth : Z; dDay : Z }.

(** 1 March of year 0 as a day number. *)
Definition epochShift : Z := 719468.

(** Days since 1970-01-01 to a date and back. *)
Definition date_of_days (days : Z) : date :=
  let z := days + epochShift in
  let y := marchYear z in
  let doy := z - yearStart y in
  let mp := (5 * doy + 2) / 153 in
  MkDate (if mp <? 10 then y else y + 1) (if mp <? 10 then mp + 3 else mp - 9)
    (doy - monthStart mp + 1).

Definition days_of_date (d : date) : Z :=
  let y := if dMonth d <=? 2 then dYear d - 1 else dYear d in
  let mp := if dMonth d <=? 2 then dMonth d + 9 else dMonth d - 3 in
  yearStart y + monthStart mp + dDay d - 1 - epochShift.

Definition isLeap (y : Z) : bool := (y mod 4 =? 0) && (negb (y mod 100 =? 0) || (y mod 400 =? 0)).

Definition daysIn (m y : Z) : Z :=
  if m =? 2 then (if isLeap y then 29 else 28)
  else if (m =? 4) || (m =? 6) || (m =? 9) || (m =? 11) then 30 else 31.

(** ** Formatting and parsing times *)

(** Decimal digits, zero-padded to a width. *)
Definition digit (d : Z) : byte := zb (48 + d).

Fixpoint dec (width : nat) (v : Z) : bytes :=
  match width with
  | O => []
  | S w => dec w (v / 10) ++ [digit (v mod 10)]
  end.

Definition undigit (b : byte) : option Z :=
  if (48 <=? bz b) && (bz b <=? 57) then Some (bz b - 48) else None.

Fixpoint undec (acc : Z) (s : bytes) : option Z :=
  match s with
  | [] => Some acc
  | b :: s => match undigit b with Some d => undec (10 * acc + d) s | None => None end
  end.

Definition dash : byte := Byte.x2d.
Definition dot : byte := Byte.x2e.
Definition plus : byte := Byte.x2b.

(** A [time.Time] is its number of nanoseconds since the Unix epoch.  The
    four-digit year covers every [int64] number of nanoseconds. *)
Definition nsPerSec : Z := 1000000000.
Definition nsPerDay : Z := 86400 * nsPerSec.

(** [ts.UTC().Format("20060102-150405.000000000")] *)
Definition time_Format (ts : Z) : bytes :=
  let d := date_of_days (ts / nsPerDay) in
  let ns := ts mod nsPerDay in
  let secs := ns / nsPerSec in
  dec 4 (dYear d) ++ dec 2 (dMonth d) ++ dec 2 (dDay d) ++ [dash] ++
  dec 2 (secs / 3600) ++ dec 2 (secs / 60 mod 60) ++ dec 2 (secs mod 60) ++ [dot] ++
  dec 9 (ns mod nsPerSec).

Definition timeFormatLen : Z := 25.
Definition dotIndex : Z := 15.

(** The fraction is read with a function that accepts a sign. *)
Definition parseNanoseconds (s : bytes) : option Z :=
  match s with
  | b :: s' =>
      if bool_decide (b = dash) then Z.opp <$> undec 0 s'
      else if bool_decide (b = plus) then undec 0 s'
      else undec 0 s
  | [] => None
  end.

(** [time.Parse] with the same layout, of a string of the right length with
    its dot in place. *)
Definition time_Parse (s : bytes) : option Z :=
  y ← undec 0 (take 4 s);
  mo ← undec 0 (take 2 (drop 4 s));
  da ← undec 0 (take 2 (drop 6 s));
  h ← undec 0 (take 2 (drop 9 s));
  mi ← undec 0 (take 2 (drop 11 s));
  se ← undec 0 (take 2 (drop 13 s));
  ns ← parseNanoseconds (take 9 (drop 16 s));
  if bool_decide (s !! 8%nat = Some dash) &&
     (1 <=? mo) && (mo <=? 12) && (h <? 24) && (mi <? 60) && (se <? 60) && (0 <=? ns) &&
     (1 <=? da) && (da <=? daysIn mo y)
  then Some (days_of_date (MkDate y mo da) * nsPerDay + (h * 3600 + mi * 60 + se) * nsPerSec + ns)
  else None.

(** [strings.Replace(s, old, new, 1)] for single bytes *)
Fixpoint replaceOne (old new : byte) (s : bytes) : bytes :=
  match s with
  | [] => []
  | b :: s => if bool_decide (b = old) then new :: s else b :: replaceOne old new s
  end.

Definition NameTimestamp (ts : Z) : bytes := replaceOne dot dash (time_Format ts).

(** [Timestamp.Time()] reads the timestamp as an [int64]. *)
Definition NameTimestampFromNano (tsNano : Z) : bytes := NameTimestamp (int64 tsNano).

(** ** Names *)

Definition underscore : byte := Byte.x5f.
Definition sep : bytes := [underscore; underscore].

(** [strings.Cut(s, b)] *)
Fixpoint cut (b : byte) (s : bytes) : option (bytes * bytes) :=
  match s with
  | [] => None
  | x :: s => if bool_decide (x = b) then Some ([], s)
              else (λ p, (x :: p.1, p.2)) <$> cut b s
  end.

(** [strings.Split(s, sep)] *)
Fixpoint split (acc s : bytes) : list bytes :=
  match s with
  | [] => [acc]
  | x :: ((y :: r) as s') =>
      if bool_decide (x = underscore) && bool_decide (y = underscore)
      then acc :: split [] r else split (acc ++ [x]) s'
  | [x] => [acc ++ [x]]
  end.

Record NameInfo : Type := MkNameInfo {
  FullName : bytes;
  BaseName : bytes;
  Extension : bytes;
  Kind : bytes;
  SyncerName : bytes;
  InstanceID : bytes;
  GenerationID : bytes;
  TimestampString : bytes;
  niTimestamp : Z;
  Extra : list bytes;
}.

Definition KindSnapshot : bytes := str "snapshot".
Definition DefaultExtension : bytes := str "pb.gz".

(** The extensions registered with [RegisterExtension], and what [init]
    registers. *)
Abbreviation extensions := (gmap bytes bytes).
Definition RegisterExtension (reg : extensions) (extension kind : bytes) : extensions :=
  <[extension := kind]> reg.
Definition registeredExtensions : extensions := RegisterExtension ∅ DefaultExtension KindSnapshot.

Definition BuildName (ni : NameInfo) : bytes :=
  let ts := if bool_decide (TimestampString ni = []) then NameTimestamp (niTimestamp ni)
            else TimestampString ni in
  SyncerName ni ++ sep ++ InstanceID ni ++ sep ++ ts ++ sep ++ GenerationID ni ++
  concat ((λ e, sep ++ e) <$> Extra ni) ++ [dot] ++ Extension ni.

Definition Name (syncerName instanceID generationID : bytes) (ts : Z) : bytes :=
  BuildName (MkNameInfo [] [] DefaultExtension [] syncerName instanceID generationID [] ts []).

Definition ParseName (reg : extensions) (name : bytes) : outcome NameInfo :=
  match cut dot name with
  | None => Err (EMsg "invalid name: no dot")
  | Some (basename, ext) =>
      match reg !! ext with
      | None => Err (EMsg "unknown extension")
      | Some kind =>
          match split [] basename with
          | p0 :: p1 :: p2 :: p3 :: extra =>
              c ← (if negb (zlen p2 =? timeFormatLen) then Ok Byte.x00 else gindex p2 dotIndex);
              if negb (zlen p2 =? timeFormatLen) || negb (bool_decide (c = dash))
              then Err (EMsg "invalid timestamp format")
              else
                match time_Parse (take 15 p2 ++ [dot] ++ drop 16 p2) with
                | None => Err (EMsg "timestamp parse error")
                | Some ts => Ok (MkNameInfo name basename ext kind p0 p1 p3 p2 ts extra)
                end
          | _ => Err (EMsg "not enough name parts")
          end
      end
  end.

(** *** Extra values *)

Definition Type_ (nei : bytes) : outcome byte := gindex nei 0.
Definition Value (nei : bytes) : outcome bytes := gfrom nei 1.

Fixpoint Get (ne : list bytes) (extraType : byte) : outcome (option bytes) :=
  match ne with
  | [] => Ok None
  | nei :: ne =>
      t ← Type_ nei;
      if bool_decide (t = extraType) then v ← Value nei; Ok (Some v) else Get ne extraType
  end.

(** ** Dates are ordered and can be read back *)

(** [lia] with divisions by constants. *)
Ltac dlia := Z.div_mod_to_equations; lia.

Lemma marchYear_spec z : yearStart (marchYear z) <= z < yearStart (marchYear z + 1).
Proof. unfold marchYear, yearStart. cbv zeta. repeat case_if; dlia. Qed.

Lemma yearStart_mono y y' : y < y' → yearStart (y + 1) <= yearStart y'.
Proof. unfold yearStart. dlia. Qed.

Lemma year_length y :
  yearStart (y + 1) - yearStart y = 365 + (if isLeap (y + 1) then 1 else 0).
Proof.
  unfold yearStart, isLeap. destruct (Z.eqb_spec ((y + 1) mod 4) 0),
    (Z.eqb_spec ((y + 1) mod 100) 0), (Z.eqb_spec ((y + 1) mod 400) 0); simpl; dlia.
Qed.

Definition date_valid (d : date) : Prop :=
  1 <= dMonth d <= 12 ∧ 1 <= dDay d <= daysIn (dMonth d) (dYear d).

(** The day number within its year, and its month. *)
Lemma date_of_days_parts days : ∃ y doy,
  days + epochShift = yearStart y + doy ∧ 0 <= doy < 365 + (if isLeap (y + 1) then 1 else 0) ∧
  let mp := (5 * doy + 2) / 153 in
  0 <= mp <= 11 ∧
  date_of_days days = MkDate (if mp <? 10 then y else y + 1) (if mp <? 10 then mp + 3 else mp - 9)
    (doy - monthStart mp + 1).
Proof.
  set (y := marchYear (days + epochShift)). exists y, (days + epochShift - yearStart y).
  pose proof (marchYear_spec (days + epochShift)) as H. fold y in H. pose proof (year_length y).
  assert (0 <= days + epochShift - yearStart y < 365 + (if isLeap (y + 1) then 1 else 0)) by lia.
  split; [lia|]. split; [done|]. split; [|done]. destruct (isLeap (y + 1)); dlia.
Qed.

Lemma date_of_days_valid days : date_valid (date_of_days days).
Proof.
  destruct (date_of_days_parts days) as (y & doy & _ & Hd & Hm & ->).
  unfold date_valid, daysIn, monthStart. cbn [dMonth dDay dYear].
  set (mp := (5 * doy + 2) / 153) in *.
  assert (153 * mp <= 5 * doy + 2 < 153 * mp + 153) as Hb by (unfold mp; dlia). clearbody mp.
  assert (mp = 0 ∨ mp = 1 ∨ mp = 2 ∨ mp = 3 ∨ mp = 4 ∨ mp = 5 ∨ mp = 6 ∨ mp = 7 ∨ mp = 8 ∨
          mp = 9 ∨ mp = 10 ∨ mp = 11) as Hc by lia.
  repeat destruct Hc as [->|Hc]; subst; simpl.
  all: destruct (isLeap (y + 1)); dlia.
Qed.

Lemma days_of_date_of_days days : days_of_date (date_of_days days) = days.
Proof.
  destruct (date_of_days_parts days) as (y & doy & E & _ & Hm & ->).
  unfold days_of_date. cbn [dMonth dDay dYear]. revert Hm.
  generalize ((5 * doy + 2) / 153) as mp. intros mp Hm. destruct (Z.ltb_spec mp 10).
  - rewrite (proj2 (Z.leb_gt _ _)) by lia. replace (mp + 3 - 3) with mp by lia. lia.
  - rewrite (proj2 (Z.leb_le _ _)) by lia. replace (mp - 9 + 9) with mp by lia.
    replace (y + 1 - 1) with y by lia. lia.
Qed.

(** A date as one number, in calendar order. *)
Definition packed (d : date) : Z := (dYear d * 100 + dMonth d) * 100 + dDay d.

Lemma date_of_days_mono days days' :
  days < days' → packed (date_of_days days) < packed (date_of_days days').
Proof.
  intros Hlt. pose proof (date_of_days_valid days) as [_ [_ Hv]].
  pose proof (date_of_days_valid days') as [_ [Hv' _]].
  destruct (date_of_days_parts days) as (y & doy & E & Hd & Hm & Ed).
  destruct (date_of_days_parts days') as (y' & doy' & E' & Hd' & Hm' & Ed').
  assert (daysIn (dMonth (date_of_days days)) (dYear (date_of_days days)) <= 31) as H31
    by (unfold daysIn; repeat case_match; lia).
  rewrite Ed, Ed' in *. unfold packed. cbn [dMonth dDay dYear] in *.
  set (mp := (5 * doy + 2) / 153) in *. set (mp' := (5 * doy' + 2) / 153) in *.
  assert (y < y' ∨ y = y' ∧ doy < doy') as [Hy|[<- Hdoy]].
  { destruct (Z.lt_trichotomy y y') as [?|[?|Hgt]]; [by left|right; split; [done|subst; lia]|].
    pose proof (yearStart_mono y' y Hgt). pose proof (year_length y'). lia. }
  - assert (12 * y + mp < 12 * y' + mp') by lia. repeat case_match; bool_arith; lia.
  - assert (mp < mp' ∨ mp = mp') as [Hmp|Emp] by (unfold mp, mp'; dlia).
    + repeat case_match; bool_arith; lia.
    + rewrite <- Emp in *. repeat case_match; bool_arith; lia.
Qed.

(** ** Digits *)

Lemma length_dec n v : length (dec n v) = n.
Proof. revert v. induction n as [|n IH]; intros v; [done|]. simpl. rewrite length_app, IH. simpl. lia. Qed.

Lemma bz_digit d : 0 <= d < 10 → bz (digit d) = 48 + d.
Proof. intros H. unfold digit. rewrite bz_zb. by rewrite Z.mod_small by lia. Qed.

Lemma undec_app acc s s' : undec acc (s ++ s') = undec acc s ≫= λ a, undec a s'.
Proof. revert acc. induction s as [|b s IH]; intros acc; [done|]. simpl. by case_match. Qed.

Lemma undec_dec n v acc :
  0 <= v < 10 ^ Z.of_nat n → undec acc (dec n v) = Some (acc * 10 ^ Z.of_nat n + v).
Proof.
  revert v acc. induction n as [|n IH]; intros v acc H; [simpl in *; f_equal; lia|].
  rewrite Nat2Z.inj_succ, Z.pow_succ_r in * by lia. simpl dec.
  pose proof (Z.mod_pos_bound v 10 ltac:(lia)) as Hm. rewrite undec_app, IH by dlia. simpl.
  unfold undigit. rewrite bz_digit by done.
  replace (_ && _) with true by (symmetry; apply andb_true_iff; rewrite !Z.leb_le; lia).
  f_equal. dlia.
Qed.

Lemma dec_app n m a b :
  0 <= b < 10 ^ Z.of_nat m → dec n a ++ dec m b = dec (n + m) (a * 10 ^ Z.of_nat m + b).
Proof.
  revert a b. induction m as [|m IH]; intros a b H.
  - simpl in *. rewrite app_nil_r, Nat.add_0_r. f_equal. lia.
  - rewrite Nat2Z.inj_succ, Z.pow_succ_r in * by lia. rewrite Nat.add_succ_r. simpl dec.
    rewrite app_assoc, IH by dlia.
    replace (a * (10 * 10 ^ Z.of_nat m) + b) with (b + (a * 10 ^ Z.of_nat m) * 10) by lia.
    rewrite Z.div_add, Z.mod_add by lia.
    by rewrite (Z.add_comm (b / 10)).
Qed.

Lemma dec_order n a b :
  0 <= a < 10 ^ Z.of_nat n → 0 <= b < 10 ^ Z.of_nat n →
  bytes_Compare (dec n a) (dec n b) = (a ?= b).
Proof.
  revert a b. induction n as [|n IH]; intros a b Ha Hb.
  - simpl in *. symmetry. apply Z.compare_eq_iff. lia.
  - rewrite Nat2Z.inj_succ, Z.pow_succ_r in * by lia. simpl dec.
    rewrite bytes_Compare_app by (by rewrite !length_dec). rewrite IH by dlia. simpl.
    rewrite !bz_digit by (apply Z.mod_pos_bound; lia).
    destruct (Z.compare_spec (a / 10) (b / 10)), (Z.compare_spec a b); try done; try dlia;
      destruct (Z.compare_spec (48 + a mod 10) (48 + b mod 10)); done || dlia.
Qed.

Lemma dec_digits n v b : b ∈ dec n v → 48 <= bz b <= 57.
Proof.
  revert v. induction n as [|n IH]; intros v; simpl; [set_solver|].
  intros [H| ->%list_elem_of_singleton]%elem_of_app; [by eapply IH|].
  pose proof (Z.mod_pos_bound v 10 ltac:(lia)). rewrite bz_digit; lia.
Qed.

(** ** Timestamps *)

(** The fields of a formatted time, with the last separator as a parameter. *)
Definition fields (c : byte) (d : date) (h mi s ns : Z) : bytes :=
  dec 4 (dYear d) ++ dec 2 (dMonth d) ++ dec 2 (dDay d) ++ [dash] ++
  dec 2 h ++ dec 2 mi ++ dec 2 s ++ [c] ++ dec 9 ns.

Definition hourOf (ts : Z) : Z := ts mod nsPerDay / nsPerSec / 3600.
Definition minuteOf (ts : Z) : Z := ts mod nsPerDay / nsPerSec / 60 mod 60.
Definition secondOf (ts : Z) : Z := ts mod nsPerDay / nsPerSec mod 60.
Definition nanoOf (ts : Z) : Z := ts mod nsPerDay mod nsPerSec.
Definition dateOf (ts : Z) : date := date_of_days (ts / nsPerDay).

Lemma time_Format_fields ts :
  time_Format ts = fields dot (dateOf ts) (hourOf ts) (minuteOf ts) (secondOf ts) (nanoOf ts).
Proof. done. Qed.

Lemma replaceOne_app b b' s t : b ∉ s → replaceOne b b' (s ++ b :: t) = s ++ b' :: t.
Proof.
  induction s as [|x s IH]; intros H; simpl.
  - by rewrite bool_decide_eq_true_2.
  - rewrite bool_decide_eq_false_2 by set_solver. f_equal. apply IH. set_solver.
Qed.

Lemma dec_not n v b : (bz b < 48 ∨ 57 < bz b) → b ∉ dec n v.
Proof. intros Hb Hin. apply dec_digits in Hin. lia. Qed.

Lemma NameTimestamp_fields ts :
  NameTimestamp ts = fields dash (dateOf ts) (hourOf ts) (minuteOf ts) (secondOf ts) (nanoOf ts).
Proof.
  unfold NameTimestamp. rewrite time_Format_fields. unfold fields. rewrite !app_assoc.
  match goal with |- replaceOne _ _ ((?p ++ [dot]) ++ ?q) = _ =>
    rewrite <- (app_assoc p [dot] q); change ([dot] ++ q) with (dot :: q);
    rewrite (replaceOne_app dot dash p q) end.
  - by rewrite <- (app_assoc _ [dash] (dec 9 _)).
  - rewrite !not_elem_of_app, not_elem_of_cons. split_and!; try (apply dec_not; by left).
    + done.
    + apply not_elem_of_nil.
Qed.

(** Times an [int64] of nanoseconds can express. *)
Definition int64_time (ts : Z) : Prop := - 2 ^ 63 <= ts < 2 ^ 63.

Lemma dateOf_range ts :
  int64_time ts →
  date_valid (dateOf ts) ∧ 1000 <= dYear (dateOf ts) <= 9000 ∧ 1 <= dDay (dateOf ts) <= 31.
Proof.
  intros H. unfold dateOf. set (days := ts / nsPerDay).
  assert (-106753 < days < 106753) as Hd
    by (unfold days, int64_time, nsPerDay, nsPerSec in *; dlia).
  pose proof (date_of_days_mono _ _ (proj1 Hd)) as H1.
  pose proof (date_of_days_mono _ _ (proj2 Hd)) as H2.
  change (packed (date_of_days (-106753))) with 16770920 in H1.
  change (packed (date_of_days 106753)) with 22620413 in H2.
  pose proof (date_of_days_valid days) as [Hm Hday]. split; [done|].
  assert (daysIn (dMonth (date_of_days days)) (dYear (date_of_days days)) <= 31)
    by (unfold daysIn; repeat case_match; lia).
  unfold packed in *. lia.
Qed.

Lemma timeOf_range ts :
  0 <= hourOf ts < 24 ∧ 0 <= minuteOf ts < 60 ∧ 0 <= secondOf ts < 60 ∧
  0 <= nanoOf ts < 1000000000.
Proof. unfold hourOf, minuteOf, secondOf, nanoOf, nsPerDay, nsPerSec. dlia. Qed.

Lemma time_split ts :
  ts = ts / nsPerDay * nsPerDay +
       (hourOf ts * 3600 + minuteOf ts * 60 + secondOf ts) * nsPerSec + nanoOf ts.
Proof. unfold hourOf, minuteOf, secondOf, nanoOf, nsPerDay, nsPerSec. dlia. Qed.

Lemma parseNanoseconds_dec ns :
  0 <= ns < 1000000000 → parseNanoseconds (dec 9 ns) = Some ns.
Proof.
  intros H. pose proof (length_dec 9 ns) as Hl. destruct (dec 9 ns) as [|b s] eqn:E; [done|].
  assert (48 <= bz b <= 57) as Hb by (apply (dec_digits 9 ns); rewrite E; by left).
  unfold parseNanoseconds. rewrite !bool_decide_eq_false_2;
    [|intros ->; change (bz plus) with 43 in Hb; lia|intros ->; change (bz dash) with 45 in Hb; lia].
  rewrite <- E, undec_dec by done. done.
Qed.

Lemma time_Parse_fields d h mi s ns :
  date_valid d → 0 <= dYear d < 10000 → 1 <= dDay d <= 31 →
  0 <= h < 24 → 0 <= mi < 60 → 0 <= s < 60 → 0 <= ns < 1000000000 →
  time_Parse (fields dot d h mi s ns) =
    Some (days_of_date d * nsPerDay + (h * 3600 + mi * 60 + s) * nsPerSec + ns).
Proof.
  intros [Hm Hd] Hy Hd' Hh Hmi Hs Hns. unfold time_Parse.
  set (f := fields dot d h mi s ns).
  assert (take 4 f = dec 4 (dYear d)) as -> by reflexivity.
  assert (take 2 (drop 4 f) = dec 2 (dMonth d)) as -> by reflexivity.
  assert (take 2 (drop 6 f) = dec 2 (dDay d)) as -> by reflexivity.
  assert (take 2 (drop 9 f) = dec 2 h) as -> by reflexivity.
  assert (take 2 (drop 11 f) = dec 2 mi) as -> by reflexivity.
  assert (take 2 (drop 13 f) = dec 2 s) as -> by reflexivity.
  assert (take 9 (drop 16 f) = dec 9 ns) as -> by reflexivity.
  assert (f !! 8%nat = Some dash) as -> by reflexivity.
  rewrite !undec_dec by (change (10 ^ Z.of_nat 4) with 10000; change (10 ^ Z.of_nat 2) with 100; lia).
  rewrite parseNanoseconds_dec by done.
  cbn [mbind option_bind]. rewrite !Z.mul_0_l, !Z.add_0_l, bool_decide_eq_true_2 by done.
  rewrite !(proj2 (Z.leb_le _ _)), !(proj2 (Z.ltb_lt _ _)) by lia. by destruct d.
Qed.

(** Formatting a time and parsing it gives it back. *)
Lemma time_roundtrip ts : int64_time ts → time_Parse (time_Format ts) = Some ts.
Proof.
  intros H. destruct (dateOf_range ts H) as (H1 & H2 & H3). destruct (timeOf_range ts) as (?&?&?&?).
  rewrite time_Format_fields, time_Parse_fields by (done || lia).
  unfold dateOf. rewrite days_of_date_of_days. by rewrite <- time_split.
Qed.

(** The timestamps of names are ordered as the times. *)
Lemma NameTimestamp_packed ts :
  int64_time ts →
  NameTimestamp ts = dec 8 (packed (dateOf ts)) ++ [dash] ++
    dec 6 ((hourOf ts * 100 + minuteOf ts) * 100 + secondOf ts) ++ [dash] ++ dec 9 (nanoOf ts).
Proof.
  intros H. destruct (dateOf_range ts H) as ([Hm _] & Hy & Hd).
  destruct (timeOf_range ts) as (?&?&?&?). rewrite NameTimestamp_fields. unfold fields, packed.
  change 100 with (10 ^ Z.of_nat 2). change 8%nat with (4 + 2 + 2)%nat.
  change 6%nat with (2 + 2 + 2)%nat.
  rewrite <- !dec_app by (change (10 ^ Z.of_nat 2) with 100; lia). by rewrite <- !app_assoc.
Qed.

Lemma NameTimestamp_mono ts ts' :
  int64_time ts → int64_time ts' → ts < ts' →
  bytes_Compare (NameTimestamp ts) (NameTimestamp ts') = Lt.
Proof.
  intros H H' Hlt. rewrite !NameTimestamp_packed by done.
  destruct (dateOf_range ts H) as ([Hm _] & Hy & Hd).
  destruct (dateOf_range ts' H') as ([Hm' _] & Hy' & Hd').
  destruct (timeOf_range ts) as (?&?&?&?). destruct (timeOf_range ts') as (?&?&?&?).
  pose proof (time_split ts) as E. pose proof (time_split ts') as E'.
  rewrite bytes_Compare_app by (by rewrite !length_dec).
  rewrite dec_order by (change (10 ^ Z.of_nat 8) with 100000000; unfold packed; lia).
  assert (ts / nsPerDay < ts' / nsPerDay ∨ ts / nsPerDay = ts' / nsPerDay) as [Hday|Eday]
    by (unfold nsPerDay, nsPerSec in *; dlia).
  { pose proof (date_of_days_mono _ _ Hday) as Hp. unfold dateOf.
    by rewrite (proj2 (Z.compare_lt_iff _ _) Hp). }
  assert (dateOf ts = dateOf ts') as -> by (unfold dateOf; by rewrite Eday).
  rewrite Z.compare_refl, bytes_Compare_app by done. rewrite bytes_Compare_refl.
  rewrite bytes_Compare_app by (by rewrite !length_dec).
  rewrite dec_order by (change (10 ^ Z.of_nat 6) with 1000000; lia).
  destruct (Z.compare_spec ((hourOf ts * 100 + minuteOf ts) * 100 + secondOf ts)
    ((hourOf ts' * 100 + minuteOf ts') * 100 + secondOf ts')) as [Es|?|Hgt]; [|done|].
  - rewrite bytes_Compare_app, bytes_Compare_refl by done.
    rewrite dec_order by (change (10 ^ Z.of_nat 9) with 1000000000; lia).
    apply Z.compare_lt_iff. unfold nsPerSec, nsPerDay in *. lia.
  - unfold nsPerSec, nsPerDay in *. lia.
Qed.

(** ** Names *)

(** A part of a name that cannot be confused with a separator. *)
Fixpoint clean (p : bytes) : bool :=
  match p with
  | [] => true
  | x :: ((y :: _) as p') =>
      negb (bool_decide (x = underscore) && bool_decide (y = underscore)) && clean p'
  | [x] => negb (bool_decide (x = underscore))
  end.

Definition part_ok (p : bytes) : Prop := clean p = true ∧ dot ∉ p.

Lemma clean_cons x y p :
  clean (x :: y :: p) = true →
  bool_decide (x = underscore) && bool_decide (y = underscore) = false ∧ clean (y :: p) = true.
Proof. intros [H1%negb_true_iff H2]%andb_true_iff. done. Qed.

Lemma split_step acc x y r :
  bool_decide (x = underscore) && bool_decide (y = underscore) = false →
  split acc (x :: y :: r) = split (acc ++ [x]) (y :: r).
Proof. intros H. cbn [split]. by rewrite H. Qed.

Lemma split_part acc p r :
  clean p = true → split acc (p ++ sep ++ r) = (acc ++ p) :: split [] r.
Proof.
  revert acc. induction p as [|x p IH]; intros acc Hc; [by rewrite app_nil_r|].
  destruct p as [|y p].
  - apply negb_true_iff in Hc. simpl. by rewrite Hc.
  - apply clean_cons in Hc as [Hx Hc]. specialize (IH (acc ++ [x]) Hc).
    change ((x :: y :: p) ++ sep ++ r) with (x :: y :: (p ++ sep ++ r)).
    rewrite (split_step _ _ _ _ Hx). rewrite <- app_assoc in IH. exact IH.
Qed.

Lemma split_end acc p : clean p = true → split acc p = [acc ++ p].
Proof.
  revert acc. induction p as [|x p IH]; intros acc Hc; [by rewrite app_nil_r|].
  destruct p as [|y p]; [done|]. apply clean_cons in Hc as [Hx Hc].
  rewrite (split_step _ _ _ _ Hx), (IH (acc ++ [x]) Hc). by rewrite <- app_assoc.
Qed.

(** The parts of a name joined by separators. *)
Definition joined (ps : list bytes) : bytes := concat ((λ e, sep ++ e) <$> ps).

Lemma build_joined (a b t g ext : bytes) ex :
  a ++ sep ++ b ++ sep ++ t ++ sep ++ g ++ concat ((λ e, sep ++ e) <$> ex) ++ [dot] ++ ext =
  (a ++ joined (b :: t :: g :: ex)) ++ dot :: ext.
Proof. unfold joined. by repeat (simpl; rewrite <- app_assoc). Qed.

Lemma split_joined p ps :
  Forall (λ p, clean p = true) (p :: ps) → split [] (p ++ joined ps) = p :: ps.
Proof.
  revert p. induction ps as [|q ps IH]; intros p H.
  - rewrite app_nil_r. apply split_end. by apply Forall_inv in H.
  - apply Forall_cons_1 in H as [Hp H].
    change (joined (q :: ps)) with ((sep ++ q) ++ joined ps). rewrite <- app_assoc.
    rewrite (split_part [] p (q ++ joined ps) Hp). simpl. f_equal. by apply IH.
Qed.

Lemma joined_split acc s : ∃ p ps, split acc s = p :: ps ∧ acc ++ s = p ++ joined ps.
Proof.
  remember (length s) as n eqn:En. revert acc s En.
  induction n as [n IH] using lt_wf_ind; intros acc s ->.
  destruct s as [|x [|y r]]; [by exists acc, []|by exists (acc ++ [x]), []; rewrite app_nil_r|].
  destruct (bool_decide (x = underscore) && bool_decide (y = underscore)) eqn:E.
  - apply andb_true_iff in E as [->%bool_decide_eq_true ->%bool_decide_eq_true].
    change (split acc (underscore :: underscore :: r)) with (acc :: split [] r).
    destruct (IH (length r)) with (acc := @nil byte) (s := r) as (p & ps & -> & Er);
      [simpl; lia|done|]. exists acc, (p :: ps).
    split; [done|]. simpl in Er. unfold joined. simpl. by rewrite Er.
  - rewrite (split_step _ _ _ _ E). destruct (IH (length (y :: r))) with (acc := acc ++ [x]) (s := y :: r) as (p & ps & -> & Er);
      [simpl; lia|done|]. exists p, ps. split; [done|]. by rewrite <- Er, <- app_assoc.
Qed.

Lemma cut_app b p q : b ∉ p → cut b (p ++ b :: q) = Some (p, q).
Proof.
  induction p as [|x p IH]; intros H; simpl.
  - by rewrite bool_decide_eq_true_2.
  - rewrite bool_decide_eq_false_2 by set_solver. by rewrite IH by set_solver.
Qed.

Lemma cut_inv b s p q : cut b s = Some (p, q) → s = p ++ b :: q.
Proof.
  revert p. induction s as [|x s IH]; intros p; simpl; [done|]. case_bool_decide as E.
  - intros [= <- <-]. by rewrite E.
  - destruct (cut b s) as [[p' q']|]; [|done]. intros [= <- <-]. simpl. f_equal. by apply IH.
Qed.

Lemma not_in_joined b ps : b ≠ underscore → Forall (λ p, b ∉ p) ps → b ∉ joined ps.
Proof.
  intros Hb H. induction H as [|p ps Hp _ IH]; [apply not_elem_of_nil|]. unfold joined. simpl.
  rewrite !not_elem_of_cons, not_elem_of_app. done.
Qed.

Lemma NameTimestamp_bytes ts b : b ∈ NameTimestamp ts → b = dash ∨ 48 <= bz b <= 57.
Proof.
  rewrite NameTimestamp_fields. unfold fields. rewrite !elem_of_app, !list_elem_of_singleton.
  intros H. repeat match type of H with _ ∨ _ => destruct H as [H|H] end; (by left) || (right; by eapply dec_digits).
Qed.

Lemma clean_no_underscore p : underscore ∉ p → clean p = true.
Proof.
  induction p as [|x p IH]; [done|]. intros [Hx Hp]%not_elem_of_cons. specialize (IH Hp).
  assert (bool_decide (x = underscore) = false) as E by (apply bool_decide_eq_false_2; congruence).
  destruct p as [|y p].
  - simpl. by rewrite E.
  - change (negb (bool_decide (x = underscore) && bool_decide (y = underscore)) && clean (y :: p)
      = true). rewrite IH. by rewrite E.
Qed.

Lemma NameTimestamp_part ts : part_ok (NameTimestamp ts).
Proof.
  split; [apply clean_no_underscore|]; intros [E|H]%NameTimestamp_bytes; try done.
  - change (bz underscore) with 95 in H. lia.
  - change (bz dot) with 46 in H. lia.
Qed.

Lemma timestamp_parses ts :
  int64_time ts →
  (zlen (NameTimestamp ts) =? timeFormatLen) = true ∧
  gindex (NameTimestamp ts) dotIndex = Ok dash ∧
  time_Parse (take 15 (NameTimestamp ts) ++ [dot] ++ drop 16 (NameTimestamp ts)) = Some ts.
Proof.
  intros H. pose proof (time_roundtrip ts H) as E. rewrite time_Format_fields in E.
  rewrite NameTimestamp_fields. revert E.
  generalize (dateOf ts), (hourOf ts), (minuteOf ts), (secondOf ts), (nanoOf ts).
  intros d h mi s ns E. split_and!; [reflexivity|reflexivity|]. rewrite <- E. reflexivity.
Qed.

Lemma name_parses reg ni kind :
  TimestampString ni = [] → int64_time (niTimestamp ni) →
  reg !! Extension ni = Some kind →
  Forall part_ok (SyncerName ni :: InstanceID ni :: GenerationID ni :: Extra ni) →
  ∃ base, ParseName reg (BuildName ni) =
    Ok (MkNameInfo (BuildName ni) base (Extension ni) kind (SyncerName ni) (InstanceID ni)
          (GenerationID ni) (NameTimestamp (niTimestamp ni)) (niTimestamp ni) (Extra ni)).
Proof.
  intros Ht Hts Hk Hp. apply Forall_cons_1 in Hp as [Hs Hp]. apply Forall_cons_1 in Hp as [Hi Hp].
  apply Forall_cons_1 in Hp as [Hg He]. set (T := NameTimestamp (niTimestamp ni)).
  pose proof (NameTimestamp_part (niTimestamp ni)) as HT.
  set (ps := InstanceID ni :: T :: GenerationID ni :: Extra ni).
  assert (Forall part_ok (SyncerName ni :: ps)) as Hall
    by (unfold ps; repeat (apply List.Forall_cons; [done|]); done).
  assert (BuildName ni = (SyncerName ni ++ joined ps) ++ dot :: Extension ni) as ->.
  { unfold BuildName. rewrite Ht, bool_decide_eq_true_2 by done. apply build_joined. }
  exists (SyncerName ni ++ joined ps). unfold ParseName. rewrite cut_app.
  2: { rewrite not_elem_of_app. split; [apply Hs|]. apply not_in_joined; [done|].
       apply Forall_cons_1 in Hall as [_ Hall]. eapply Forall_impl; [|exact Hall]. by intros p [_ ?]. }
  rewrite Hk, split_joined by (eapply Forall_impl; [|exact Hall]; by intros p [? _]).
  unfold ps. destruct (timestamp_parses (niTimestamp ni) Hts) as (H1 & H2 & H3).
  fold T in H1, H2, H3. rewrite H1, H2. cbn [negb orb].
  rewrite bind_ok, bool_decide_eq_true_2 by done. cbn [negb]. by rewrite H3.
Qed.

(** C31: the parser reads back every name the program builds from parts without
    dots and separators: all parts, the kind of the extension and the exact
    nanosecond timestamp. *)
Theorem name_roundtrip reg ni kind :
  TimestampString ni = [] → int64_time (niTimestamp ni) →
  reg !! Extension ni = Some kind →
  Forall part_ok (SyncerName ni :: InstanceID ni :: GenerationID ni :: Extra ni) →
  ∃ base, ParseName reg (BuildName ni) =
    Ok (MkNameInfo (BuildName ni) base (Extension ni) kind (SyncerName ni) (InstanceID ni)
          (GenerationID ni) (NameTimestamp (niTimestamp ni)) (niTimestamp ni) (Extra ni)).
Proof. apply name_parses. Qed.

(** whatever name the parser accepts, rebuilding it from the parsed parts
    gives the same name. *)
Theorem name_reprint reg name ni : ParseName reg name = Ok ni → BuildName ni = name.
Proof.
  unfold ParseName. destruct (cut dot name) as [[base ext]|] eqn:Ec; [|done].
  destruct (reg !! ext) as [kind|]; [|done].
  destruct (joined_split [] base) as (p0 & ps & Es & Eb). rewrite Es.
  destruct ps as [|p1 [|p2 [|p3 extra]]]; try done. intros H. inv_bind.
  destruct (zlen p2 =? timeFormatLen) eqn:Hl; [|done]. simpl in H.
  destruct (bool_decide (a = dash)); [|done]. simpl in H.
  destruct (time_Parse _); [|done]. injection H as <-. unfold BuildName. simpl.
  rewrite bool_decide_eq_false_2.
  - apply cut_inv in Ec. rewrite Ec. simpl in Eb. rewrite Eb. apply build_joined.
  - intros ->. by vm_compute in Hl.
Qed.

Lemma name_lt syncer instance gen gen' ts ts' :
  int64_time ts → int64_time ts' → ts < ts' →
  bytes_Compare (Name syncer instance gen ts) (Name syncer instance gen' ts') = Lt.
Proof.
  intros H H' Hlt. unfold Name, BuildName. simpl TimestampString.
  cbn [SyncerName InstanceID niTimestamp GenerationID Extra Extension].
  rewrite !(bool_decide_eq_true_2 ([] = [])) by done.
  do 4 rewrite bytes_Compare_app, bytes_Compare_refl by done.
  rewrite bytes_Compare_app; [by rewrite NameTimestamp_mono|].
  by rewrite !NameTimestamp_packed, !length_app, !length_dec.
Qed.

(** the names of one instance sort by time. *)
Theorem name_order syncer instance gen gen' ts ts' :
  int64_time ts → int64_time ts' → ts < ts' →
  bytes_Compare (Name syncer instance gen ts) (Name syncer instance gen' ts') = Lt.
Proof. apply name_lt. Qed.

(** ** Listings *)

Section listing.
Context (reg : extensions).

Lemma ParseName_total name : is_ok (ParseName reg name) ∨ ∃ e, ParseName reg name = Err e.
Proof.
  unfold ParseName. destruct (cut dot name) as [[base ext]|]; [|by right; eexists].
  destruct (reg !! ext); [|by right; eexists].
  destruct (split [] base) as [|p0 [|p1 [|p2 [|p3 extra]]]]; try by right; eexists.
  destruct (Z.eqb_spec (zlen p2) timeFormatLen) as [El|]; cbn [negb]; [|by right; eexists].
  unfold gindex. change (0 <=? dotIndex) with true. cbv iota.
  destruct (p2 !! Z.to_nat dotIndex) as [c|] eqn:Ec.
  - rewrite bind_ok. case_bool_decide; simpl; [|by right; eexists].
    destruct (time_Parse _); [left|right]; by eexists.
  - apply lookup_ge_None in Ec. change (Z.to_nat dotIndex) with 15%nat in Ec.
    unfold zlen, timeFormatLen in El. lia.
Qed.

Lemma ParseName_full name ni : ParseName reg name = Ok ni → FullName ni = name.
Proof.
  unfold ParseName. intros H. repeat (case_match; try done; []).
  inv_bind. repeat (case_match; try done; []). by simplify_eq.
Qed.

(** The snapshot behind a listed name. *)
Definition snapOf (ignored : gset bytes) (name : bytes) : option NameInfo :=
  if bool_decide (name ∈ ignored) then None
  else match ParseName reg name with
  | Ok ni => if bool_decide (Kind ni = KindSnapshot) then Some ni else None
  | _ => None
  end.

Lemma snapOf_name ignored name ni : snapOf ignored name = Some ni → FullName ni = name.
Proof.
  unfold snapOf. case_bool_decide; [done|]. destruct (ParseName reg name) eqn:E; try done.
  case_bool_decide; [|done]. intros [= ->]. by apply ParseName_full.
Qed.

Lemma snapOf_ignore ignored name name' :
  (∃ e, ParseName reg name = Err e) → snapOf ({[name]} ∪ ignored) name' = snapOf ignored name'.
Proof.
  intros [e He]. unfold snapOf. destruct (decide (name' = name)) as [->|Hne].
  - rewrite He. by repeat case_bool_decide.
  - by rewrite (bool_decide_ext _ (name' ∈ ignored)) by set_solver.
Qed.

Lemma snaps_elem ignored (names : list bytes) ni :
  ni ∈ omap (snapOf ignored) names ↔ FullName ni ∈ names ∧ snapOf ignored (FullName ni) = Some ni.
Proof.
  rewrite list_elem_of_omap. split.
  - intros (n & Hn & E). pose proof (snapOf_name _ _ _ E) as <-. done.
  - intros [Hn E]. by eexists.
Qed.

Lemma snaps_nodup ignored (names : list bytes) :
  NoDup names → NoDup (FullName <$> omap (snapOf ignored) names).
Proof.
  induction 1 as [|n names Hn _ IH]; [constructor|]. cbn [omap list_omap].
  destruct (snapOf ignored n) as [ni|] eqn:E; [|done].
  rewrite fmap_cons. apply NoDup_cons_2; [|done]. rewrite (snapOf_name _ _ _ E).
  intros (ni' & -> & Hni')%list_elem_of_fmap. by apply snaps_elem in Hni' as [? _].
Qed.
End listing.

(** ** Witnesses *)

Definition ex_ts : Z := 1641092645012345678.
Definition ex_ni : NameInfo :=
  MkNameInfo [] [] DefaultExtension [] (str "db_1") (str "inst1") (str "G1") [] ex_ts
    [str "X123"; str "Y456"].
Definition ex_name : bytes := str "db_1__inst1__20220102-030405-012345678__G1__X123__Y456.pb.gz".

Lemma name_roundtrip_witness : ∃ base, ParseName registeredExtensions ex_name =
  Ok (MkNameInfo ex_name base DefaultExtension KindSnapshot (str "db_1") (str "inst1") (str "G1")
        (str "20220102-030405-012345678") ex_ts [str "X123"; str "Y456"]).
Proof.
  change ex_name with (BuildName ex_ni).
  apply (name_roundtrip registeredExtensions ex_ni KindSnapshot);
    [reflexivity|split; [discriminate|reflexivity]|reflexivity|].
  unfold ex_ni. simpl. unfold part_ok.
  repeat (apply List.Forall_cons; [split; [reflexivity|by apply (bool_decide_unpack _)]|]).
  constructor.
Defined.

Lemma name_reprint_witness : ∃ ni,
  ParseName registeredExtensions ex_name = Ok ni ∧ BuildName ni = ex_name.
Proof.
  assert (∃ ni, ParseName registeredExtensions ex_name = Ok ni) as [ni E]
    by (eexists; vm_compute; reflexivity).
  exists ni. split; [exact E|]. exact (name_reprint registeredExtensions ex_name ni E).
Defined.

Lemma name_order_witness :
  bytes_Compare (Name (str "db") (str "a") (str "G9") ex_ts)
    (Name (str "db") (str "a") (str "G1") (ex_ts + 1)) = Lt.
Proof. apply name_order; [split; [discriminate|reflexivity]..|reflexivity]. Defined.
