(* ===== verification/Utils.v ===== *)
(** * Utilities (utils/utils.go)

    Sleeping with a cancellable context, the random spread of an interval, the
    display of keys and values, and the difference of times in log lines. *)

From S2P Require Import Prelude Config Name.

(** ** Sleeping *)

(** A context is given by the time it is cancelled, if ever.  When both channels
    of the select are ready, [pick] is the one Go takes.  The result comes with
    the time of the return. *)
Definition SleepContext (cancelAt : option Z) (pick : bool) (now d : Z) : Z * outcome unit :=
  let fire := now + Z.max 0 d in
  match cancelAt with
  | None => (fire, Ok tt)
  | Some c =>
      if (Z.max c now <? fire) || (Z.max c now =? fire) && pick
      then (Z.max c now, Err Canceled)
      else (fire, Ok tt)
  end.

(** [r] is [rand.Intn(400)]. *)
Definition perturbed (r d : Z) : Z := Z.quot (int64 ((800 + r) * d)) 1000.

Definition SleepContextPerturb (cancelAt : option Z) (pick : bool) (r now d : Z) : Z * outcome unit :=
  SleepContext cancelAt pick now (perturbed r d).

Definition IsCanceled (cancelAt : option Z) (now : Z) : bool :=
  match cancelAt with Some c => c <=? now | None => false end.

(** A sleep takes its time unless the context is cancelled, and then it ends
    with an error. *)
Theorem sleep_result cancelAt pick now d :
  match SleepContext cancelAt pick now d with
  | (t, Ok _) => t = now + Z.max 0 d
  | (t, Err e) => e = Canceled ∧ now <= t <= now + Z.max 0 d ∧ IsCanceled cancelAt t = true
  | _ => False
  end.
Proof.
  unfold SleepContext, IsCanceled. destruct cancelAt as [c|]; [|done].
  destruct ((Z.max c now <? now + Z.max 0 d) || _ && pick) eqn:E; [|done].
  assert (Z.max c now <= now + Z.max 0 d).
  { apply orb_true_iff in E as [E|E]; [apply Z.ltb_lt in E; lia|].
    apply andb_true_iff in E as [E _]. apply Z.eqb_eq in E. lia. }
  split; [done|]. split; [lia|]. apply Z.leb_le. lia.
Qed.

(** The spread is 80 to 120 percent, for durations below 89 days. *)
Theorem perturbed_bounds r d :
  0 <= r < 400 → 0 <= d <= 89 * 24 * Hour → 800 * d <= 1000 * perturbed r d + 999 ∧ 1000 * perturbed r d < 1200 * d + 1.
Proof.
  unfold Hour, Minute, Second, Millisecond. intros Hr Hd. unfold perturbed.
  rewrite int64_small by nia. rewrite Z.quot_div_nonneg by nia.
  pose proof (Z.div_mod ((800 + r) * d) 1000 ltac:(lia)) as E.
  pose proof (Z.mod_pos_bound ((800 + r) * d) 1000 ltac:(lia)). nia.
Qed.

(** The product overflows for longer ones: an interval of 120 days can become
    a negative duration, for which the sleep returns at once. *)
Theorem long_interval_not_slept now :
  SleepContextPerturb None false 399 now (120 * 24 * Hour) = (now, Ok tt).
Proof.
  unfold SleepContextPerturb, SleepContext. f_equal.
  change (Z.max 0 (perturbed 399 (120 * 24 * Hour))) with 0. lia.
Qed.

(** ** Displaying keys and values *)

(** [fmt]'s [% 0x]: two hexadecimal digits for every byte, separated by spaces. *)
Definition hexByte (b : byte) : bytes := [hexDigit (bz b / 16); hexDigit (bz b mod 16)].

Fixpoint hexSpaced (b : bytes) : bytes :=
  match b with
  | [] => []
  | [x] => hexByte x
  | x :: b => hexByte x ++ str " " ++ hexSpaced b
  end.

(** The fraction of a second without its final zeros. *)
Fixpoint trimZeros (rs : bytes) : bytes :=
  match rs with
  | b :: r => if bool_decide (b = Byte.x30) then trimZeros r else rs
  | [] => []
  end.

Definition fraction (ns : Z) : bytes :=
  match rev (trimZeros (rev (dec 9 ns))) with [] => [] | s => str "." ++ s end.

(** [ts.Format(time.RFC3339Nano)] of a time in UTC. *)
Definition RFC3339Nano (ts : Z) : bytes :=
  let d := date_of_days (ts / nsPerDay) in
  let ns := ts mod nsPerDay in
  let secs := ns / nsPerSec in
  dec 4 (dYear d) ++ str "-" ++ dec 2 (dMonth d) ++ str "-" ++ dec 2 (dDay d) ++ str "T" ++
  dec 2 (secs / 3600) ++ str ":" ++ dec 2 (secs / 60 mod 60) ++ str ":" ++ dec 2 (secs mod 60) ++
  fraction (ns mod nsPerSec) ++ str "Z".

Definition safe (ch : byte) : bool := negb ((bz ch <? 32) || (126 <? bz ch)).

(** [time.Date(2022, 1, 1, 0, 0, 0, 0, time.UTC)] *)
Definition start2022 : Z := days_of_date (MkDate 2022 1 1) * nsPerDay.

Definition DisplayASCII (now : Z) (b : bytes) : bytes :=
  let ret := (λ ch, if safe ch then ch else Byte.x2e) <$> b in
  let unsafe := existsb (λ ch, negb (safe ch)) b in
  let tsString :=
    if 8 <=? zlen b then
      let ts := int64 (be_get (take 8 b)) in
      if (start2022 <? ts) && (ts <? now + 30 * 24 * Hour) then RFC3339Nano ts else []
    else [] in
  let withTS := negb (bool_decide (tsString = [])) in
  if unsafe || (zlen b <=? 8) || withTS then
    if withTS then ret ++ str " [" ++ hexSpaced b ++ str "] (" ++ tsString ++ str ")"
    else ret ++ str " [" ++ hexSpaced b ++ str "]"
  else ret.

Definition printable (s : bytes) : Prop := Forall (λ ch, safe ch = true) s.

Lemma safe_range ch : safe ch = true ↔ 32 <= bz ch <= 126.
Proof. unfold safe. rewrite negb_true_iff, orb_false_iff, Z.ltb_ge, Z.ltb_ge. lia. Qed.

Lemma printable_digits s : Forall (λ b, 48 <= bz b <= 57) s → printable s.
Proof. apply Forall_impl. intros b Hb. apply safe_range. lia. Qed.

Lemma dec_printable n v : printable (dec n v).
Proof.
  apply printable_digits, List.Forall_forall. intros b Hb. by apply list_elem_of_In, dec_digits in Hb.
Qed.

Lemma hexByte_printable b : printable (hexByte b).
Proof.
  pose proof (bz_range b). repeat constructor; apply safe_range.
  - pose proof (hexDigit_range (bz b / 16)). assert (bz b / 16 < 16) by (apply Z.div_lt_upper_bound; lia).
    pose proof (Z.div_pos (bz b) 16). lia.
  - pose proof (hexDigit_range (bz b mod 16)). pose proof (Z.mod_pos_bound (bz b) 16). lia.
Qed.

Lemma hexSpaced_printable b : printable (hexSpaced b).
Proof.
  induction b as [|x [|y b] IH]; [constructor|apply hexByte_printable|].
  change (hexSpaced (x :: y :: b)) with (hexByte x ++ str " " ++ hexSpaced (y :: b)).
  apply Forall_app. split; [apply hexByte_printable|]. by repeat constructor.
Qed.

Lemma fraction_printable ns : printable (fraction ns).
Proof.
  unfold fraction. assert (H : printable (rev (trimZeros (rev (dec 9 ns))))).
  { apply Forall_rev. assert (Ht : ∀ s, printable s → printable (trimZeros s)).
    { induction s as [|b s IH]; intros Hs; [done|]. simpl. case_bool_decide; [|done].
      apply IH. by apply Forall_cons_1 in Hs as [_ ?]. }
    apply Ht, Forall_rev, dec_printable. }
  destruct (rev _) as [|c s]; [constructor|]. by constructor.
Qed.

Lemma RFC3339Nano_printable ts : printable (RFC3339Nano ts).
Proof.
  unfold RFC3339Nano, printable. rewrite !Forall_app.
  split_and!; try apply dec_printable; try apply fraction_printable; by repeat constructor.
Qed.

(** Whatever the bytes, the text has only printable characters. *)
Theorem display_is_printable now b : printable (DisplayASCII now b).
Proof.
  assert (Hret : printable ((λ ch, if safe ch then ch else Byte.x2e) <$> b)).
  { apply List.Forall_forall. intros x Hx. apply list_elem_of_In, list_elem_of_fmap in Hx as (ch & -> & _).
    by destruct (safe ch) eqn:E. }
  unfold DisplayASCII. set (ts := if 8 <=? zlen b then _ else []).
  assert (Hts : printable ts).
  { unfold ts. repeat case_if; [apply RFC3339Nano_printable|constructor..]. }
  clearbody ts. pose proof (hexSpaced_printable b). unfold printable in *.
  repeat case_if; try done; rewrite !Forall_app; split_and!; try done; by repeat constructor.
Qed.

(** Before 2043 a longer printable key is shown as it is: its first bytes are
    not a time that has come. *)
Theorem printable_shown_as_is now b :
  printable b → 8 < zlen b → now + 30 * 24 * Hour <= 32 * 2 ^ 56 → DisplayASCII now b = b.
Proof.
  intros Hb Hl Hnow. unfold DisplayASCII.
  assert (Eret : (λ ch, if safe ch then ch else Byte.x2e) <$> b = b).
  { clear Hl. induction Hb as [|ch b Hch _ IH]; [done|]. rewrite fmap_cons, IH. by rewrite Hch. }
  assert (Eun : existsb (λ ch, negb (safe ch)) b = false).
  { clear Hl Eret. induction Hb as [|ch b Hch _ IH]; [done|]. simpl. by rewrite Hch. }
  rewrite Eret, Eun, (proj2 (Z.leb_le 8 (zlen b))) by lia. rewrite (proj2 (Z.leb_gt (zlen b) 8)) by lia.
  assert (Hts : 32 * 2 ^ 56 <= int64 (be_get (take 8 b))).
  { do 8 (destruct b as [|? b]; [autorewrite with golen in Hl; lia|]).
    apply Forall_cons_1 in Hb as [Hb _]. apply safe_range in Hb. cbn [take]. rewrite take_0. unfold be_get. cbn [rev app le_get].
    repeat match goal with |- context [bz ?x] => lazymatch goal with H : 0 <= bz x < 256 |- _ => fail
      | _ => pose proof (bz_range x) end end.
    rewrite int64_small; lia. }
  by rewrite (proj2 (Z.ltb_ge (int64 (be_get (take 8 b))) (now + 30 * 24 * Hour))), andb_false_r by lia.
Qed.

(** ** Time differences *)

(** [d.Round(m)]: to the nearest multiple, half away from zero, with the
    extreme durations where the result overflows. *)
Definition Round (d m : Z) : Z :=
  if m <=? 0 then d
  else
    let r := Z.rem d m in
    if d <? 0 then
      let r := - r in
      if r + r <? m then d + r
      else if - 2 ^ 63 <=? d - m + r then d - m + r else - 2 ^ 63
    else if r + r <? m then d - r
    else if d + m - r <=? 2 ^ 63 - 1 then d + m - r else 2 ^ 63 - 1.

Definition TimeDiff (t1 t0 : Z) : Z := Round (time_Sub t1 t0) Millisecond.

(** The difference in the log is within half a millisecond of the true one. *)
Theorem time_diff_rounded t1 t0 :
  - 2 ^ 62 <= t1 - t0 <= 2 ^ 62 →
  2 * Z.abs (TimeDiff t1 t0 - (t1 - t0)) <= Millisecond ∧ Z.rem (TimeDiff t1 t0) Millisecond = 0.
Proof.
  intros H. unfold TimeDiff, time_Sub, Millisecond. rewrite Z.min_r, Z.max_r by lia.
  set (d := t1 - t0) in *. unfold Round. change (1000000 <=? 0) with false. cbv iota zeta.
  pose proof (Z.quot_rem' d 1000000) as Hq.
  assert (Hr : ∀ q, Z.rem (q * 1000000) 1000000 = 0) by (intros; apply Z.rem_mul; lia).
  destruct (Z.ltb_spec d 0).
  - pose proof (Z.rem_bound_pos_neg d 1000000 ltac:(lia) ltac:(lia)) as Hb.
    repeat case_if; split; try lia.
    + replace (d + - Z.rem d 1000000) with (Z.quot d 1000000 * 1000000) by lia. apply Hr.
    + replace (d - 1000000 + - Z.rem d 1000000) with ((Z.quot d 1000000 - 1) * 1000000) by lia. apply Hr.
  - pose proof (Z.rem_bound_pos d 1000000 ltac:(lia) ltac:(lia)) as Hb.
    repeat case_if; split; try lia.
    + replace (d - Z.rem d 1000000) with (Z.quot d 1000000 * 1000000) by lia. apply Hr.
    + replace (d + 1000000 - Z.rem d 1000000) with ((Z.quot d 1000000 + 1) * 1000000) by lia. apply Hr.
Qed.
