(* ===== verification/ShortHash.v ===== *)
(** * Short hashes and extra items of names (snapshot/name.go)

    The seven characters that tell snapshots apart in log lines, with the
    SHA-256 of Go's standard library they are taken from, and the remaining
    operations on the extra items of a name. *)

From S2P Require Import Prelude Name Utils.

(** ** SHA-256 *)

Module Sha256.
Definition w32 (v : Z) : Z := v mod 2 ^ 32.
Definition rotr (n x : Z) : Z := Z.lor (Z.shiftr x n) (w32 (Z.shiftl x (32 - n))).

(** The constants are the first 32 bits of the fractional parts of the cube
    roots and square roots of the first primes; cube roots are built bit by bit. *)
Fixpoint cbrt (bits : nat) (n r : Z) : Z :=
  match bits with
  | O => r
  | S bits =>
      let r' := r + 2 ^ Z.of_nat bits in cbrt bits n (if r' * r' * r' <=? n then r' else r)
  end.

Definition isPrime (n : Z) : bool :=
  forallb (λ d, negb (n mod Z.of_nat d =? 0)) (seq 2 (Z.to_nat n - 2)).

Definition primes : list Z := filter isPrime (Z.of_nat <$> seq 2 310).

Definition K : list Z := Eval vm_compute in (λ p, w32 (cbrt 36 (p * 2 ^ 96) 0)) <$> primes.
Definition H0 : list Z := Eval vm_compute in (λ p, w32 (Z.sqrt (p * 2 ^ 64))) <$> take 8 primes.

(** The schedule with its newest word first. *)
Definition nextWord (w : list Z) : Z :=
  let s1 := let x := nth 1 w 0 in Z.lxor (Z.lxor (rotr 17 x) (rotr 19 x)) (Z.shiftr x 10) in
  let s0 := let x := nth 14 w 0 in Z.lxor (Z.lxor (rotr 7 x) (rotr 18 x)) (Z.shiftr x 3) in
  w32 (s1 + nth 6 w 0 + s0 + nth 15 w 0).

Fixpoint schedule (n : nat) (w : list Z) : list Z :=
  match n with O => w | S n => schedule n (nextWord w :: w) end.

Definition round (h : list Z) (kw : Z * Z) : list Z :=
  match h with
  | [a; b; c; d; e; f; g; i] =>
      let t1 := i + Z.lxor (Z.lxor (rotr 6 e) (rotr 11 e)) (rotr 25 e)
                + Z.lxor (Z.land e f) (Z.land (Z.lxor e (Z.ones 32)) g) + kw.1 + kw.2 in
      let t2 := Z.lxor (Z.lxor (rotr 2 a) (rotr 13 a)) (rotr 22 a)
                + Z.lxor (Z.lxor (Z.land a b) (Z.land a c)) (Z.land b c) in
      [w32 (t1 + t2); a; b; c; w32 (d + t1); e; f; g]
  | h => h
  end.

Fixpoint words (n : nat) (b : bytes) : list Z :=
  match n with O => [] | S n => be_get (take 4 b) :: words n (drop 4 b) end.

Definition block (h : list Z) (b : bytes) : list Z :=
  zip_with (λ x y, w32 (x + y)) h
    (foldl round h (zip K (rev (schedule 48 (rev (words 16 b)))))).

Definition padded (msg : bytes) : bytes :=
  msg ++ Byte.x80 :: replicate (Z.to_nat ((- (zlen msg + 9)) mod 64)) Byte.x00 ++ be_put 8 (8 * zlen msg).

Fixpoint blocks (n : nat) (h : list Z) (b : bytes) : list Z :=
  match n with O => h | S n => blocks n (block h (take 64 b)) (drop 64 b) end.

Definition Sum (msg : bytes) : bytes :=
  let b := padded msg in concat (be_put 4 <$> blocks (length b / 64) H0 b).

Example constants : length K = 64%nat ∧ length H0 = 8%nat.
Proof. done. Qed.

Example sum_vectors :
  concat (hexByte <$> Sum (str "abc")) =
    str "ba7816bf8f01cfea414140de5dae2223b00361a396177a9cb410ff61f20015ad" ∧
  concat (hexByte <$> Sum (replicate 100 Byte.x78)) =
    str "09ecb6ebc8bcefc733f6f2ec44f791abeed6a99edf0cc31519637898aebd52d8".
Proof. by vm_compute. Qed.

Lemma length_block h b : length h = 8%nat → length (block h b) = 8%nat.
Proof.
  intros Hh. unfold block. rewrite length_zip_with, Hh.
  assert (Hf : ∀ l h, length h = 8%nat → length (foldl round h l) = 8%nat).
  { clear. induction l as [|kw l IH]; [done|]. intros h Hh. simpl. apply IH.
    do 8 (destruct h as [|? h]; [done|]). by destruct h. }
  by rewrite Hf.
Qed.

Lemma length_blocks n h b : length h = 8%nat → length (blocks n h b) = 8%nat.
Proof. revert h b. induction n as [|n IH]; [done|]. intros h b Hh. simpl. by apply IH, length_block. Qed.

Lemma length_Sum msg : length (Sum msg) = 32%nat.
Proof.
  unfold Sum. pose proof (length_blocks (length (padded msg) / 64) H0 (padded msg) eq_refl) as E.
  destruct (blocks _ _ _) as [|h l]; [done|]. rewrite length_concat.
  do 8 (try (destruct l as [|? l])); try done.
Qed.
End Sha256.

(** ** The short hash *)

(** [hex.EncodeToString] *)
Definition hexString (b : bytes) : bytes := concat (hexByte <$> b).

Definition ShortHash (inst timestamp : bytes) : outcome bytes :=
  gslice (hexString (Sha256.Sum (inst ++ [dash] ++ timestamp))) 0 7.

Definition NameInfoShortHash (ni : NameInfo) : outcome bytes :=
  ShortHash (InstanceID ni) (TimestampString ni).

Example short_hash_of : ShortHash (str "a") (str "20220102-030405-012345678") = Ok (str "1189c08").
Proof. by vm_compute. Qed.

(** ** Extra items *)

Fixpoint ExtraString (ne : list bytes) : bytes :=
  match ne with
  | [] => []
  | [nei] => nei
  | nei :: ne => nei ++ str " " ++ ExtraString ne
  end.

Definition ExtraLen (ne : list bytes) : Z := zlen ne.

(** [ne[i]] panics out of range. *)
Definition item (ne : list bytes) (i : nat) : outcome bytes :=
  match ne !! i with Some nei => Ok nei | None => Panic end.

Definition Less (ne : list bytes) (i j : nat) : outcome bool :=
  a ← item ne i;
  a ← Type_ a;
  b ← item ne j;
  b ← Type_ b;
  Ok (bz a <? bz b).

Definition Swap (ne : list bytes) (i j : nat) : outcome (list bytes) :=
  x ← item ne j;
  y ← item ne i;
  Ok (<[j := y]> (<[i := x]> ne)).

(** ** Properties *)

Definition isHex (b : byte) : Prop := 48 <= bz b <= 57 ∨ 97 <= bz b <= 102.

Lemma hexDigit_isHex d : 0 <= d < 16 → isHex (hexDigit d).
Proof. intros H. unfold hexDigit, isHex. rewrite bz_zb. case_if; rewrite Z.mod_small; lia. Qed.

Lemma hexString_isHex b : Forall isHex (hexString b).
Proof.
  induction b as [|x b IH]; [constructor|]. unfold hexString. cbn [fmap list_fmap concat].
  pose proof (Z.mod_pos_bound (bz x) 16 ltac:(lia)). pose proof (bz_range x).
  constructor; [|constructor; [|exact IH]]; apply hexDigit_isHex; [|lia].
  split; [apply Z.div_pos; lia|apply Z.div_lt_upper_bound; lia].
Qed.

Lemma length_hexString b : length (hexString b) = (2 * length b)%nat.
Proof.
  induction b as [|x b IH]; [done|]. unfold hexString in *. cbn [fmap list_fmap concat].
  rewrite length_app, IH. change (length (hexByte x)) with 2%nat. simpl. lia.
Qed.

(** A short hash is always seven lower-case hexadecimal digits: cutting it out
    of the digest never fails. *)
Theorem short_hash_shape inst timestamp :
  ∃ s, ShortHash inst timestamp = Ok s ∧ length s = 7%nat ∧ Forall isHex s.
Proof.
  unfold ShortHash. set (h := hexString _).
  assert (Hl : length h = 64%nat) by (unfold h; rewrite length_hexString, Sha256.length_Sum; done).
  exists (take 7 h). rewrite gslice_ok by (unfold zlen; lia).
  split_and!; [done| |apply Forall_take, hexString_isHex]. rewrite length_take. lia.
Qed.

(** [Swap] and [Less] fit together as sorting needs it. *)
Theorem swap_less ne i j ne' :
  Swap ne i j = Ok ne' → ne' ≡ₚ ne ∧ Less ne' i j = Less ne j i.
Proof.
  unfold Swap, Less, item. destruct (ne !! j) as [x|] eqn:Ej; [|done].
  destruct (ne !! i) as [y|] eqn:Ei; [|done]. intros [= <-].
  pose proof (lookup_lt_Some _ _ _ Ei) as Li. pose proof (lookup_lt_Some _ _ _ Ej) as Lj. split.
  - by apply (Permutation_insert_swap ne i j y x).
  - rewrite list_lookup_insert_eq by (by rewrite length_insert).
    destruct (decide (i = j)) as [->|Hne].
    + rewrite list_lookup_insert_eq by (by rewrite length_insert). by simplify_eq.
    + rewrite list_lookup_insert_ne by done. by rewrite list_lookup_insert_eq.
Qed.
