(* ===== verification/Snapshot.v ===== *)
(** * Snapshots (snapshot/snapshot.go, meta.go, load.go, transforms.go, utils.go)

    A snapshot is a protobuf message with two version numbers, the metadata of
    the dump and one message per database, compressed with gzip.  The reader of
    csproto and the gzip implementation are not part of the repository: they
    are the classes [CSDecoder] and [Gzip], with reference instances. *)

From S2P Require Import Prelude Header Proto Kv Dbi DupSort Lmdb.

(** ** csproto.Decoder

    A decoder is the data it has not read yet; [max] is the largest length it
    accepts for a length-delimited field. *)
Class CSDecoder : Type := {
  DefaultMaxFieldLength : Z;
  DecodeTag : bytes → outcome (Z * Z * bytes);
  DecodeUInt32 : bytes → outcome (Z * bytes);
  DecodeInt64 : bytes → outcome (Z * bytes);
  DecodeFixed64 : bytes → outcome (Z * bytes);
  DecodeBytes : Z → bytes → outcome (bytes * bytes);
  DecodeString : Z → bytes → outcome (bytes * bytes);
  d_Skip : Z → Z → bytes → outcome bytes;
}.

Class CSDecoderLaws (P : CSProto) (D : CSDecoder) : Prop := {
  default_max : 2 ^ 30 <= DefaultMaxFieldLength;
  decoder_tag tag wt r :
    1 <= tag < 2 ^ 29 → 0 <= wt < 8 → DecodeTag (EncodeTag tag wt ++ r) = Ok (tag, wt, r);
  decoder_uint32 v r : 0 <= v < 2 ^ 32 → DecodeUInt32 (EncodeVarint v ++ r) = Ok (v, r);
  decoder_int64 v r :
    - 2 ^ 63 <= v < 2 ^ 63 → DecodeInt64 (EncodeVarint (uint64 v) ++ r) = Ok (v, r);
  decoder_fixed64 v r : 0 <= v < 2 ^ 64 → DecodeFixed64 (le_put 8 v ++ r) = Ok (v, r);
  decoder_bytes max s r :
    zlen s <= max → zlen s < 2 ^ 63 → DecodeBytes max (EncodeVarint (zlen s) ++ s ++ r) = Ok (s, r);
  decoder_string max s r :
    zlen s <= max → zlen s < 2 ^ 63 → DecodeString max (EncodeVarint (zlen s) ++ s ++ r) = Ok (s, r);
}.

Section reference.
#[local] Existing Instances RefProto RefProto_laws.

Definition ref_varint (d : bytes) : outcome (Z * bytes) :=
  '(v, n) ← DecodeVarint d; r ← gfrom d n; Ok (v, r).

Definition ref_bytes (max : Z) (d : bytes) : outcome (bytes * bytes) :=
  '(v, r) ← ref_varint d;
  if (max <? v) || (zlen r <? v) then Err ErrUnexpectedEOF
  else s ← gslice r 0 v; r ← gfrom r v; Ok (s, r).

Definition RefDecoder : CSDecoder := {|
  DefaultMaxFieldLength := 2 ^ 31 - 1;
  DecodeTag d := '(v, r) ← ref_varint d; Ok (Z.shiftr v 3, Z.land v 7, r);
  DecodeUInt32 d :=
    '(v, r) ← ref_varint d;
    if v <? 2 ^ 32 then Ok (v, r) else Err (EMsg "integer overflow");
  DecodeInt64 d := '(v, r) ← ref_varint d; Ok (int64 v, r);
  DecodeFixed64 d :=
    if zlen d <? 8 then Err ErrUnexpectedEOF
    else b ← gslice d 0 8; r ← gfrom d 8; Ok (le_get b, r);
  DecodeBytes := ref_bytes;
  DecodeString := ref_bytes;
  d_Skip _ wt d := n ← skipTag d wt; gfrom d n;
|}.

Lemma ref_varint_ok v r :
  0 <= v < 2 ^ 64 → ref_varint (EncodeVarint v ++ r) = Ok (v, r).
Proof. intros Hv. unfold ref_varint. by rewrite decode_encode, bind_ok, gfrom_app by done. Qed.

Lemma ref_bytes_ok max s r :
  zlen s <= max → zlen s < 2 ^ 64 →
  ref_bytes max (EncodeVarint (zlen s) ++ s ++ r) = Ok (s, r).
Proof.
  intros Hm Hs. unfold ref_bytes. pose proof (zlen_nonneg s). pose proof (zlen_nonneg r).
  rewrite ref_varint_ok, bind_ok by lia. cbv beta iota. autorewrite with golen.
  rewrite (proj2 (Z.ltb_ge max (zlen s))), (proj2 (Z.ltb_ge (zlen s + zlen r) (zlen s))) by lia.
  cbn [orb].
  pose proof (gslice_mid [] s r) as E. rewrite zlen_nil, Z.add_0_l in E. simpl in E.
  by rewrite E, bind_ok, gfrom_app.
Qed.

Lemma int64_uint64 v : - 2 ^ 63 <= v < 2 ^ 63 → int64 (uint64 v) = v.
Proof.
  intros Hv. unfold int64, uint64. rewrite Zplus_mod_idemp_l. rewrite Z.mod_small; lia.
Qed.

Lemma uint64_range v : 0 <= uint64 v < 2 ^ 64.
Proof. apply Z.mod_pos_bound. lia. Qed.

Lemma RefDecoder_laws : CSDecoderLaws RefProto RefDecoder.
Proof.
  split; cbn [DefaultMaxFieldLength DecodeTag DecodeUInt32 DecodeInt64 DecodeFixed64 DecodeBytes
    DecodeString RefDecoder].
  - done.
  - intros tag wt r Ht Hw. rewrite encode_tag by done. rewrite ref_varint_ok, bind_ok by lia.
    cbv beta iota. by rewrite tag_shiftr, tag_land.
  - intros v r Hv. rewrite ref_varint_ok, bind_ok by lia. cbv beta iota.
    by rewrite (proj2 (Z.ltb_lt _ _)) by lia.
  - intros v r Hv. rewrite ref_varint_ok, bind_ok by apply uint64_range. cbv beta iota.
    by rewrite int64_uint64.
  - intros v r Hv. autorewrite with golen. pose proof (zlen_nonneg r).
    rewrite (proj2 (Z.ltb_ge _ _)) by lia.
    pose proof (gslice_mid [] (le_put 8 v) r) as E.
    rewrite zlen_le_put, zlen_nil in E. change (0 + Z.of_nat 8) with 8 in E.
    change ([] ++ le_put 8 v ++ r) with (le_put 8 v ++ r) in E.
    rewrite E, bind_ok. pose proof (gfrom_app (le_put 8 v) r) as E'. rewrite zlen_le_put in E'.
    change (Z.of_nat 8) with 8 in E'. rewrite E', bind_ok, le_get_put_small by (simpl; lia). done.
  - intros. apply ref_bytes_ok; lia.
  - intros. apply ref_bytes_ok; lia.
Qed.
End reference.

(** ** snapshot/utils.go *)

Section utils.
Context `{CSProto} `{CSDecoder}.

Definition getUInt32 (d : bytes) (tag wireType : Z) : outcome (Z * bytes) :=
  _ ← expectWT tag wireType WireTypeVarint; DecodeUInt32 d.

Definition getFixed64 (d : bytes) (tag wireType : Z) : outcome (Z * bytes) :=
  _ ← expectWT tag wireType WireTypeFixed64; DecodeFixed64 d.

Definition getInt64 (d : bytes) (tag wireType : Z) : outcome (Z * bytes) :=
  _ ← expectWT tag wireType WireTypeVarint; DecodeInt64 d.

Definition getBytes (max : Z) (d : bytes) (tag wireType : Z) : outcome (bytes * bytes) :=
  _ ← expectWT tag wireType WireTypeLengthDelimited; DecodeBytes max d.

Definition getString (max : Z) (d : bytes) (tag wireType : Z) : outcome (bytes * bytes) :=
  _ ← expectWT tag wireType WireTypeLengthDelimited; DecodeString max d.
End utils.

(** ** Meta *)

Definition FieldMetaGenerationID : Z := 1.
Definition FieldMetaInstanceID : Z := 2.
Definition FieldMetaHostname : Z := 3.
Definition FieldMetaLMDBTxnID : Z := 4.
Definition FieldMetaTimestampNano : Z := 5.
Definition FieldMetaDatabaseName : Z := 7.
Definition FieldMetaFromLMDBTxnID : Z := 8.

Record Meta : Type := MkMeta {
  mGenerationID : bytes;
  mInstanceID : bytes;
  mHostname : bytes;
  mLmdbTxnID : Z;
  mTimestampNano : Z;
  mDatabaseName : bytes;
  mFromLmdbTxnID : Z;
}.

Definition emptyMeta : Meta := MkMeta [] [] [] 0 0 [] 0.

Section meta.
Context `{P : CSProto} `{D : CSDecoder}.

Definition w_string (w : wbuf) (tag : Z) (s : bytes) : outcome wbuf :=
  if 0 <? zlen s then w_ld w tag s else Ok w.

Definition MetaMarshal (m : Meta) : outcome bytes :=
  let bufSizeNeeded :=
    (zlen (mGenerationID m) + 20) + (zlen (mInstanceID m) + 20) + (zlen (mHostname m) + 20) +
    (zlen (mDatabaseName m) + 20) + 1000 in
  let w := (replicate (Z.to_nat bufSizeNeeded) Byte.x00, 0) in
  w ← w_string w FieldMetaGenerationID (mGenerationID m);
  w ← w_string w FieldMetaInstanceID (mInstanceID m);
  w ← w_string w FieldMetaHostname (mHostname m);
  w ← w_string w FieldMetaDatabaseName (mDatabaseName m);
  w ← (if 0 <? mLmdbTxnID m then w_varint w FieldMetaLMDBTxnID (uint64 (mLmdbTxnID m)) else Ok w);
  w ← (if 0 <? mTimestampNano m then
         w ← w_enc w (EncodeTag FieldMetaTimestampNano WireTypeFixed64);
         w_enc w (le_put 8 (mTimestampNano m))
       else Ok w);
  w ← (if 0 <? mFromLmdbTxnID m
       then w_varint w FieldMetaFromLMDBTxnID (uint64 (mFromLmdbTxnID m)) else Ok w);
  gslice w.1 0 w.2.

(** One field of [Meta.Unmarshal]. *)
Definition metaField (d : bytes) (tag wireType : Z) (m : Meta) : outcome (bytes * Meta) :=
  let max := DefaultMaxFieldLength in
  if tag =? FieldMetaGenerationID then
    '(s, d) ← getString max d tag wireType;
    Ok (d, MkMeta s (mInstanceID m) (mHostname m) (mLmdbTxnID m) (mTimestampNano m)
             (mDatabaseName m) (mFromLmdbTxnID m))
  else if tag =? FieldMetaInstanceID then
    '(s, d) ← getString max d tag wireType;
    Ok (d, MkMeta (mGenerationID m) s (mHostname m) (mLmdbTxnID m) (mTimestampNano m)
             (mDatabaseName m) (mFromLmdbTxnID m))
  else if tag =? FieldMetaHostname then
    '(s, d) ← getString max d tag wireType;
    Ok (d, MkMeta (mGenerationID m) (mInstanceID m) s (mLmdbTxnID m) (mTimestampNano m)
             (mDatabaseName m) (mFromLmdbTxnID m))
  else if tag =? FieldMetaLMDBTxnID then
    '(v, d) ← getInt64 d tag wireType;
    Ok (d, MkMeta (mGenerationID m) (mInstanceID m) (mHostname m) v (mTimestampNano m)
             (mDatabaseName m) (mFromLmdbTxnID m))
  else if tag =? FieldMetaTimestampNano then
    '(v, d) ← getFixed64 d tag wireType;
    Ok (d, MkMeta (mGenerationID m) (mInstanceID m) (mHostname m) (mLmdbTxnID m) v
             (mDatabaseName m) (mFromLmdbTxnID m))
  else if tag =? FieldMetaDatabaseName then
    '(s, d) ← getString max d tag wireType;
    Ok (d, MkMeta (mGenerationID m) (mInstanceID m) (mHostname m) (mLmdbTxnID m)
             (mTimestampNano m) s (mFromLmdbTxnID m))
  else if tag =? FieldMetaFromLMDBTxnID then
    '(v, d) ← getInt64 d tag wireType;
    Ok (d, MkMeta (mGenerationID m) (mInstanceID m) (mHostname m) (mLmdbTxnID m)
             (mTimestampNano m) (mDatabaseName m) v)
  else
    d ← d_Skip tag wireType d; Ok (d, m).

Fixpoint metaLoop (fuel : nat) (d : bytes) (m : Meta) : outcome Meta :=
  match fuel with
  | O => Hang
  | S fuel =>
      if zlen d =? 0 then Ok m
      else
        '(tag, wireType, d) ← DecodeTag d;
        '(d, m) ← metaField d tag wireType m;
        metaLoop fuel d m
  end.

Definition MetaUnmarshal (data : bytes) (m : Meta) : outcome Meta :=
  metaLoop (S (length data)) data m.
End meta.

(** ** Snapshot *)

Definition FieldSnapshotFormatVersion : Z := 1.
Definition FieldSnapshotMeta : Z := 2.
Definition FieldSnapshotDBI : Z := 3.
Definition FieldSnapshotCompatVersion : Z := 4.
Definition MaxFieldLength : Z := 100 * (1024 * 1024 * 1024).

Record Snapshot : Type := MkSnapshot {
  snFormatVersion : Z;
  snCompatVersion : Z;
  snMeta : Meta;
  Databases : list DBI;
}.

Definition emptySnapshot : Snapshot := MkSnapshot 0 0 emptyMeta [].

Section snapshot.
Context `{P : CSProto} `{D : CSDecoder}.

(** One field of [Snapshot.Unmarshal]. *)
Definition snapshotField (d : bytes) (tag wireType : Z) (s : Snapshot)
    : outcome (bytes * Snapshot) :=
  if tag =? FieldSnapshotFormatVersion then
    '(v, d) ← getUInt32 d tag wireType;
    Ok (d, MkSnapshot v (snCompatVersion s) (snMeta s) (Databases s))
  else if tag =? FieldSnapshotCompatVersion then
    '(v, d) ← getUInt32 d tag wireType;
    Ok (d, MkSnapshot (snFormatVersion s) v (snMeta s) (Databases s))
  else if tag =? FieldSnapshotMeta then
    '(msg, d) ← getBytes MaxFieldLength d tag wireType;
    m ← MetaUnmarshal msg (snMeta s);
    Ok (d, MkSnapshot (snFormatVersion s) (snCompatVersion s) m (Databases s))
  else if tag =? FieldSnapshotDBI then
    '(msg, d) ← getBytes MaxFieldLength d tag wireType;
    dbi ← NewDBIFromData msg;
    Ok (d, MkSnapshot (snFormatVersion s) (snCompatVersion s) (snMeta s) (Databases s ++ [dbi]))
  else
    d ← d_Skip tag wireType d; Ok (d, s).

Fixpoint snapshotLoop (fuel : nat) (d : bytes) (s : Snapshot) : outcome Snapshot :=
  match fuel with
  | O => Hang
  | S fuel =>
      if zlen d =? 0 then Ok s
      else
        '(tag, wireType, d) ← DecodeTag d;
        '(d, s) ← snapshotField d tag wireType s;
        snapshotLoop fuel d s
  end.

Definition SnapshotUnmarshal (data : bytes) (s : Snapshot) : outcome Snapshot :=
  snapshotLoop (S (length data)) data s.

(** *** WriteTo *)

(** [io.Writer]: the number of bytes written, and an error. *)
Context {W : Type} (Write : W → bytes → W * Z * option error).

Definition put (w : W) (nWritten : Z) (b : bytes) : W * Z * option error :=
  let '(w, n, err) := Write w b in (w, nWritten + n, err).

(** The tag and length of an embedded message, built in a temporary buffer. *)
Definition lenHeader (tag len : Z) : outcome bytes :=
  let w := (replicate 1000 Byte.x00, 0) in
  w ← w_enc w (EncodeTag tag WireTypeLengthDelimited);
  w ← w_enc w (EncodeVarint (uint64 len));
  gslice w.1 0 w.2.

(** A header and a message. *)
Definition putMessage (w : W) (nWritten tag : Z) (msg : bytes) : outcome (W * Z * option error) :=
  h ← lenHeader tag (zlen msg);
  match put w nWritten h with
  | (w, n, Some e) => Ok (w, n, Some e)
  | (w, n, None) => Ok (put w n msg)
  end.

(** The loop over the databases; [Marshal] flushes the fields of a dump. *)
Fixpoint writeDBIs (w : W) (nWritten : Z) (done todo : list DBI)
    : outcome (list DBI * (W * Z * option error)) :=
  match todo with
  | [] => Ok (done, (w, nWritten, None))
  | dbi :: todo =>
      '(dbi, dbiPB) ← Marshal dbi;
      if zlen dbiPB =? 0 then writeDBIs w nWritten (done ++ [dbi]) todo
      else
        r ← putMessage w nWritten FieldSnapshotDBI dbiPB;
        match r with
        | (w, n, Some e) => Ok (done ++ dbi :: todo, (w, n, Some e))
        | (w, n, None) => writeDBIs w n (done ++ [dbi]) todo
        end
  end.

Definition versionFields (s : Snapshot) : outcome bytes :=
  let b : wbuf := (replicate 1000 Byte.x00, 0) in
  b ← (if 0 <? uint64 (snFormatVersion s)
       then w_varint b FieldSnapshotFormatVersion (uint64 (snFormatVersion s)) else Ok b);
  b ← (if 0 <? uint64 (snCompatVersion s)
       then w_varint b FieldSnapshotCompatVersion (uint64 (snCompatVersion s)) else Ok b);
  gslice b.1 0 b.2.

Definition WriteTo (s : Snapshot) (w : W) : outcome (Snapshot * (W * Z * option error)) :=
  b ← versionFields s;
  match put w 0 b with
  | (w, n, Some e) => Ok (s, (w, n, Some e))
  | (w, n, None) =>
      metaPB ← MetaMarshal (snMeta s);
      r ← (if 0 <? zlen metaPB then putMessage w n FieldSnapshotMeta metaPB
           else Ok (w, n, None));
      match r with
      | (w, n, Some e) => Ok (s, (w, n, Some e))
      | (w, n, None) =>
          '(dbis, r) ← writeDBIs w n [] (Databases s);
          Ok (MkSnapshot (snFormatVersion s) (snCompatVersion s) (snMeta s) dbis, r)
      end
  end.
End snapshot.

(** ** gzip

    A writer that collects data, what closing it leaves in the output buffer,
    and the reader; [gz_content] is the data a writer received. *)
Class Gzip : Type := {
  gz_Writer : Type;
  gz_NewWriter : outcome gz_Writer;
  gz_Write : gz_Writer → bytes → gz_Writer * Z * option error;
  gz_Close : gz_Writer → outcome bytes;
  gz_ReadAll : bytes → outcome bytes;
}.

Class GzipLaws (G : Gzip) : Type := {
  gz_content : gz_Writer → bytes;
  gz_new : ∃ w, gz_NewWriter = Ok w ∧ gz_content w = [];
  gz_write w b :
    ∃ w', gz_Write w b = (w', zlen b, None) ∧ gz_content w' = gz_content w ++ b;
  gz_close w : ∃ z, gz_Close w = Ok z ∧ gz_ReadAll z = Ok (gz_content w);
}.

(** The reference instance stores the data behind a magic number. *)
Definition gz_magic : bytes := [Byte.x1f; Byte.x8b].

Definition RefGzip : Gzip := {|
  gz_Writer := bytes;
  gz_NewWriter := Ok [];
  gz_Write w b := (w ++ b, zlen b, None);
  gz_Close w := Ok (gz_magic ++ w);
  gz_ReadAll z :=
    if bool_decide (take 2 z = gz_magic) then Ok (drop 2 z) else Err (EMsg "gzip: invalid header");
|}.

#[program] Definition RefGzip_laws : GzipLaws RefGzip := {| gz_content w := w |}.
Next Obligation. by eexists. Qed.
Next Obligation. intros w b. by eexists. Qed.
Next Obligation. intros w. by eexists. Qed.

(** ** LoadData and DumpData *)

Record DumpDataStats : Type := MkStats { ProtobufSize : Z; CompressedSize : Z }.

Section load.
Context `{P : CSProto} `{D : CSDecoder} `{G : Gzip}.

Definition LoadData (data : bytes) : outcome Snapshot :=
  pbData ← gz_ReadAll data;
  SnapshotUnmarshal pbData emptySnapshot.

(** The estimate of the size flushes the fields of every dump. *)
Fixpoint estimateSize (ds : list DBI) : outcome (list DBI * Z) :=
  match ds with
  | [] => Ok ([], 0)
  | d :: ds =>
      '(d, n) ← Size d;
      '(ds, k) ← estimateSize ds;
      Ok (d :: ds, n + k)
  end.

Definition DumpData (msg : Snapshot) : outcome (Snapshot * bytes * DumpDataStats) :=
  '(ds, estimatedSize) ← estimateSize (Databases msg);
  let msg := MkSnapshot (snFormatVersion msg) (snCompatVersion msg) (snMeta msg) ds in
  gw ← gz_NewWriter;
  '(msg, (gw, pbSize, err)) ← WriteTo gz_Write msg gw;
  match err with
  | Some e => Err e
  | None =>
      compressedData ← gz_Close gw;
      Ok (msg, compressedData, MkStats (uint64 pbSize) (zlen compressedData))
  end.
End load.

(** ** Transforms *)

Definition TransformNone : bytes := [].

Definition TransformSupported (transform : bytes) : bool :=
  bool_decide (transform = TransformNone) || bool_decide (transform = TransformDupSortHackV1).

Definition ValidateTransform (d : DBI) (formatVersion : Z) (nativeSchema : bool) : outcome unit :=
  let transform := dTransform d in
  if negb (TransformSupported transform) then Err (EMsg "transform not supported")
  else if nativeSchema && negb (bool_decide (transform = TransformNone))
  then Err (EMsg "no transforms supported for native schema")
  else if 3 <=? formatVersion then
    let flagsDupSort := has_flag (dFlags d) lmdb_DupSort in
    let transformDupSort := bool_decide (transform = TransformDupSortHackV1) in
    if flagsDupSort && negb transformDupSort
    then Err (EMsg "dupsort DBI flag without expected transform")
    else if negb flagsDupSort && transformDupSort
    then Err (EMsg "non-dupsort DBI flags with unexpected dupsort transform")
    else Ok tt
  else Ok tt.

(** ** Round trips *)

Section roundtrip.
Context `{P : CSProto} `{PL : !CSProtoLaws P} `{D : CSDecoder} `{DL : !CSDecoderLaws P D}.

(** *** Meta *)

(** An optional string, varint and fixed64 field. *)
Definition opt_ld (tag : Z) (s : bytes) : bytes := if 0 <? zlen s then ld_field tag s else [].
Definition opt_varint (tag v : Z) : bytes := if 0 <? v then varint_field tag v else [].
Definition opt_fixed64 (tag v : Z) : bytes := if 0 <? v then fixed64_field tag v else [].

Definition meta_msg (m : Meta) : bytes :=
  opt_ld FieldMetaGenerationID (mGenerationID m) ++ opt_ld FieldMetaInstanceID (mInstanceID m) ++
  opt_ld FieldMetaHostname (mHostname m) ++ opt_ld FieldMetaDatabaseName (mDatabaseName m) ++
  opt_varint FieldMetaLMDBTxnID (mLmdbTxnID m) ++
  opt_fixed64 FieldMetaTimestampNano (mTimestampNano m) ++
  opt_varint FieldMetaFromLMDBTxnID (mFromLmdbTxnID m).

Definition small (s : bytes) : Prop := zlen s <= 2 ^ 30.

Definition meta_ok (m : Meta) : Prop :=
  small (mGenerationID m) ∧ small (mInstanceID m) ∧ small (mHostname m) ∧
  small (mDatabaseName m) ∧ 0 <= mLmdbTxnID m < 2 ^ 63 ∧ 0 <= mTimestampNano m < 2 ^ 64 ∧
  0 <= mFromLmdbTxnID m < 2 ^ 63.

Lemma opt_ld_length t s :
  1 <= t < 16 → small s → zlen (opt_ld t s) <= zlen s + 11.
Proof using PL.
  intros Ht Hs. unfold opt_ld, small in *. pose proof (zlen_nonneg s). case_if.
  - rewrite zlen_ld_field by done. pose proof (encode_length (zlen s) ltac:(lia)). lia.
  - rewrite zlen_nil. lia.
Qed.

Lemma opt_varint_length t v : 1 <= t < 16 → 0 <= v < 2 ^ 64 → zlen (opt_varint t v) <= 11.
Proof using PL.
  intros Ht Hv. unfold opt_varint. case_if; [|by rewrite zlen_nil].
  rewrite zlen_varint_field by done. pose proof (encode_length v Hv). lia.
Qed.

Lemma opt_fixed64_length t v : 1 <= t < 16 → zlen (opt_fixed64 t v) <= 9.
Proof using PL.
  intros Ht. unfold opt_fixed64. case_if; [|by rewrite zlen_nil]. by rewrite zlen_fixed64_field.
Qed.

Lemma w_opt_ld p n t s :
  small s → zlen (opt_ld t s) <= Z.of_nat n →
  w_string (wst p n) t s = Ok (wst (p ++ opt_ld t s) (n - length (opt_ld t s))).
Proof using PL.
  intros Hs Hn. unfold w_string, opt_ld in *.
  apply (w_opt p n (0 <? zlen s) (λ w, w_ld w t s)); intros E; rewrite E in *; [|done].
  apply w_ld_ok; [unfold small in Hs; lia|done].
Qed.

Lemma w_opt_varint p n t v :
  0 <= v < 2 ^ 64 → zlen (opt_varint t v) <= Z.of_nat n →
  (if 0 <? v then w_varint (wst p n) t (uint64 v) else Ok (wst p n)) =
    Ok (wst (p ++ opt_varint t v) (n - length (opt_varint t v))).
Proof using PL.
  intros Hv Hn. rewrite uint64_small by done. unfold opt_varint in *.
  apply (w_opt p n (0 <? v) (λ w, w_varint w t v)); intros E; rewrite E in *; [|done].
  by apply w_varint_ok.
Qed.

Lemma w_opt_fixed64 p n t v :
  zlen (opt_fixed64 t v) <= Z.of_nat n →
  (if 0 <? v then w ← w_enc (wst p n) (EncodeTag t WireTypeFixed64); w_enc w (le_put 8 v)
   else Ok (wst p n)) =
    Ok (wst (p ++ opt_fixed64 t v) (n - length (opt_fixed64 t v))).
Proof using PL.
  intros Hn. unfold opt_fixed64 in *.
  apply (w_opt p n (0 <? v) (λ w, w ← w_enc w (EncodeTag t WireTypeFixed64); w_enc w (le_put 8 v)));
    intros E; rewrite E in *; [|done]. by apply w_fixed64_ok.
Qed.

(** The content of a finished buffer. *)
Lemma wst_content p n : gslice (wst p n).1 0 (wst p n).2 = Ok p.
Proof. unfold wst. simpl. exact (gslice_mid [] p (replicate n Byte.x00)). Qed.

Lemma wst_start n : (replicate n Byte.x00, 0) = wst [] n.
Proof. done. Qed.

Lemma MetaMarshal_ok m : meta_ok m → MetaMarshal m = Ok (meta_msg m).
Proof using PL.
  intros (H1 & H2 & H3 & H4 & H5 & H6 & H7). unfold MetaMarshal, meta_msg. cbv zeta.
  rewrite wst_start.
  pose proof (opt_ld_length FieldMetaGenerationID _ ltac:(done) H1).
  pose proof (opt_ld_length FieldMetaInstanceID _ ltac:(done) H2).
  pose proof (opt_ld_length FieldMetaHostname _ ltac:(done) H3).
  pose proof (opt_ld_length FieldMetaDatabaseName _ ltac:(done) H4).
  pose proof (opt_varint_length FieldMetaLMDBTxnID (mLmdbTxnID m) ltac:(done) ltac:(lia)).
  pose proof (opt_fixed64_length FieldMetaTimestampNano (mTimestampNano m) ltac:(done)).
  pose proof (opt_varint_length FieldMetaFromLMDBTxnID (mFromLmdbTxnID m) ltac:(done) ltac:(lia)).
  repeat match goal with H : context [zlen ?x] |- _ =>
    lazymatch goal with G : 0 <= zlen x |- _ => fail | _ => pose proof (zlen_nonneg x) end end.
  rewrite w_opt_ld, bind_ok by (done || unfold zlen in *; lia).
  rewrite w_opt_ld, bind_ok by (done || unfold zlen in *; lia).
  rewrite w_opt_ld, bind_ok by (done || unfold zlen in *; lia).
  rewrite w_opt_ld, bind_ok by (done || unfold zlen in *; lia).
  rewrite w_opt_varint, bind_ok by (lia || unfold zlen in *; lia).
  rewrite w_opt_fixed64, bind_ok by (unfold zlen in *; lia).
  rewrite w_opt_varint, bind_ok by (lia || unfold zlen in *; lia).
  rewrite wst_content. f_equal. by rewrite <- !app_assoc.
Qed.

(** *** Reading messages field by field *)

(** A reader that consumes [f] and goes from state [a] to state [b]. *)
Definition reads {A} (loop : nat → bytes → A → outcome A) (f : bytes) (a b : A) : Prop :=
  ∀ fuel r, (length (f ++ r) < fuel)%nat →
    ∃ fuel', (length r < fuel')%nat ∧ loop fuel (f ++ r) a = loop fuel' r b.

Lemma reads_nil {A} (loop : nat → bytes → A → outcome A) a : reads loop [] a a.
Proof. intros fuel r Hf. by exists fuel. Qed.

Lemma reads_app {A} (loop : nat → bytes → A → outcome A) f g a b c :
  reads loop f a b → reads loop g b c → reads loop (f ++ g) a c.
Proof.
  intros H1 H2 fuel r Hf. rewrite <- app_assoc in *. destruct (H1 fuel (g ++ r) Hf) as (k & Hk & ->).
  exact (H2 k r Hk).
Qed.

Lemma reads_end {A} (loop : nat → bytes → A → outcome A) f a b :
  (∀ n, loop (S n) [] b = Ok b) → reads loop f a b → loop (S (length f)) f a = Ok b.
Proof.
  intros Hend H. destruct (H (S (length f)) []) as (k & Hk & E); [rewrite app_nil_r; lia|].
  rewrite app_nil_r in E. rewrite E. destruct k; [simpl in Hk; lia|]. apply Hend.
Qed.

Lemma tag_length t wt r : 1 <= t < 16 → 0 <= wt < 8 → 0 < zlen (EncodeTag t wt ++ r).
Proof using PL. intros. rewrite zlen_app, zlen_tag by done. pose proof (zlen_nonneg r). lia. Qed.

Lemma tag_shorter t wt r :
  1 <= t < 16 → 0 <= wt < 8 → (length r < length (EncodeTag t wt ++ r))%nat.
Proof using PL.
  intros Ht Hw. rewrite length_app. pose proof (zlen_tag t wt Ht Hw) as E. unfold zlen in E. lia.
Qed.

Lemma metaLoop_step t wt f r m m' :
  1 <= t < 16 → 0 <= wt < 8 →
  metaField (f ++ r) t wt m = Ok (r, m') →
  ∀ fuel, (length ((EncodeTag t wt ++ f) ++ r) < fuel)%nat →
  ∃ fuel', (length r < fuel')%nat ∧
    metaLoop fuel ((EncodeTag t wt ++ f) ++ r) m = metaLoop fuel' r m'.
Proof using PL DL.
  intros Ht Hw Hf fuel Hl. rewrite <- app_assoc in *.
  pose proof (tag_length t wt (f ++ r) Ht Hw). pose proof (tag_shorter t wt (f ++ r) Ht Hw) as Hs.
  destruct fuel as [|fuel]; [lia|]. exists fuel. split; [rewrite !length_app in *; lia|].
  simpl. rewrite (proj2 (Z.eqb_neq _ 0)) by lia.
  rewrite decoder_tag, bind_ok by lia. cbv beta iota. by rewrite Hf, bind_ok.
Qed.

Lemma snapshotLoop_step t wt f r s s' :
  1 <= t < 16 → 0 <= wt < 8 →
  snapshotField (f ++ r) t wt s = Ok (r, s') →
  ∀ fuel, (length ((EncodeTag t wt ++ f) ++ r) < fuel)%nat →
  ∃ fuel', (length r < fuel')%nat ∧
    snapshotLoop fuel ((EncodeTag t wt ++ f) ++ r) s = snapshotLoop fuel' r s'.
Proof using PL DL.
  intros Ht Hw Hf fuel Hl. rewrite <- app_assoc in *.
  pose proof (tag_length t wt (f ++ r) Ht Hw). pose proof (tag_shorter t wt (f ++ r) Ht Hw) as Hs.
  destruct fuel as [|fuel]; [lia|]. exists fuel. split; [rewrite !length_app in *; lia|].
  simpl. rewrite (proj2 (Z.eqb_neq _ 0)) by lia.
  rewrite decoder_tag, bind_ok by lia. cbv beta iota. by rewrite Hf, bind_ok.
Qed.

Lemma getString_ok t s r :
  small s → getString DefaultMaxFieldLength ((EncodeVarint (zlen s) ++ s) ++ r) t
    WireTypeLengthDelimited = Ok (s, r).
Proof using DL.
  intros Hs. unfold getString, small in *. rewrite expectWT_same, bind_ok, <- app_assoc.
  pose proof default_max. apply decoder_string; lia.
Qed.

Lemma getInt64_ok t v r :
  0 <= v < 2 ^ 63 → getInt64 (EncodeVarint v ++ r) t WireTypeVarint = Ok (v, r).
Proof using DL.
  intros Hv. unfold getInt64. rewrite expectWT_same, bind_ok.
  pose proof (decoder_int64 v r ltac:(lia)) as E. by rewrite uint64_small in E by lia.
Qed.

Lemma getFixed64_ok t v r :
  0 <= v < 2 ^ 64 → getFixed64 (le_put 8 v ++ r) t WireTypeFixed64 = Ok (v, r).
Proof using DL.
  intros Hv. unfold getFixed64. rewrite expectWT_same, bind_ok. by apply decoder_fixed64.
Qed.

(** An optional string field of the metadata, read into a field that was
    empty. *)
Lemma reads_opt_ld t s m m' :
  1 <= t < 16 → small s → (s = [] → m' = m) →
  (∀ r, metaField ((EncodeVarint (zlen s) ++ s) ++ r) t WireTypeLengthDelimited m = Ok (r, m')) →
  reads metaLoop (opt_ld t s) m m'.
Proof using PL DL.
  intros Ht Hs He Hf. unfold opt_ld. destruct (Z.ltb_spec 0 (zlen s)).
  - intros fuel r Hl. by apply (metaLoop_step t _ (EncodeVarint (zlen s) ++ s)).
  - rewrite He; [apply reads_nil|]. destruct s; [done|]. rewrite zlen_cons in *.
    pose proof (zlen_nonneg s). lia.
Qed.

Lemma reads_opt_varint t v m m' :
  1 <= t < 16 → 0 <= v → (v = 0 → m' = m) →
  (∀ r, metaField (EncodeVarint v ++ r) t WireTypeVarint m = Ok (r, m')) →
  reads metaLoop (opt_varint t v) m m'.
Proof using PL DL.
  intros Ht Hv He Hf. unfold opt_varint. destruct (Z.ltb_spec 0 v).
  - intros fuel r Hl. by apply (metaLoop_step t _ (EncodeVarint v)).
  - rewrite He by lia. apply reads_nil.
Qed.

Lemma reads_opt_fixed64 t v m m' :
  1 <= t < 16 → 0 <= v → (v = 0 → m' = m) →
  (∀ r, metaField (le_put 8 v ++ r) t WireTypeFixed64 m = Ok (r, m')) →
  reads metaLoop (opt_fixed64 t v) m m'.
Proof using PL DL.
  intros Ht Hv He Hf. unfold opt_fixed64. destruct (Z.ltb_spec 0 v).
  - intros fuel r Hl. by apply (metaLoop_step t _ (le_put 8 v)).
  - rewrite He by lia. apply reads_nil.
Qed.

Lemma MetaUnmarshal_ok m : meta_ok m → MetaUnmarshal (meta_msg m) emptyMeta = Ok m.
Proof using PL DL.
  intros (H1 & H2 & H3 & H4 & H5 & H6 & H7). destruct m as [g i h t ts db f]. simpl in *.
  unfold MetaUnmarshal. apply (reads_end metaLoop); [done|]. unfold meta_msg. simpl.
  eapply reads_app; [apply (reads_opt_ld _ g _ (MkMeta g [] [] 0 0 [] 0)); [done..|by intros ->|]|].
  { intros r. unfold metaField. lit_cases. by rewrite getString_ok, bind_ok. }
  eapply reads_app; [apply (reads_opt_ld _ i _ (MkMeta g i [] 0 0 [] 0)); [done..|by intros ->|]|].
  { intros r. unfold metaField. lit_cases. by rewrite getString_ok, bind_ok. }
  eapply reads_app; [apply (reads_opt_ld _ h _ (MkMeta g i h 0 0 [] 0)); [done..|by intros ->|]|].
  { intros r. unfold metaField. lit_cases. by rewrite getString_ok, bind_ok. }
  eapply reads_app; [apply (reads_opt_ld _ db _ (MkMeta g i h 0 0 db 0)); [done..|by intros ->|]|].
  { intros r. unfold metaField. lit_cases. by rewrite getString_ok, bind_ok. }
  eapply reads_app; [apply (reads_opt_varint _ t _ (MkMeta g i h t 0 db 0)); [done|lia|by intros ->|]|].
  { intros r. unfold metaField. lit_cases. by rewrite getInt64_ok, bind_ok by lia. }
  eapply reads_app; [apply (reads_opt_fixed64 _ ts _ (MkMeta g i h t ts db 0));
    [done|lia|by intros ->|]|].
  { intros r. unfold metaField. lit_cases. by rewrite getFixed64_ok, bind_ok by lia. }
  apply reads_opt_varint; [done|lia|by intros ->|].
  intros r. unfold metaField. lit_cases. by rewrite getInt64_ok, bind_ok by lia.
Qed.

(** *** Snapshots *)

(** What a dump holds. *)
Record content : Type := MkContent {
  coName : bytes;
  coFlags : Z;
  coTransform : bytes;
  coKVs : list KV;
}.

Definition content_msg (c : content) : bytes :=
  concat (dbi_fields (coName c) (coFlags c) (coTransform c)) ++ concat (entry_msg <$> coKVs c).

(** A dump under construction or finished, that fits a snapshot. *)
Record dump_of (c : content) (d : DBI) : Prop := MkDump {
  du_name : dName d = coName c;
  du_flags : dFlags d = coFlags c;
  du_transform : dTransform d = coTransform c;
  du_data : dData d ++ pending d = content_msg c;
  du_fields : fields_ok d;
  du_cap : cap_ok d;
  du_named : coName c ≠ [];
  du_size : zlen (content_msg c) <= MaxFieldLength;
  du_kvs : Forall kv_written (coKVs c);
}.

Lemma dump_flush c d :
  dump_of c d →
  ∃ d', flushFields d = Ok d' ∧ dData d' = content_msg c ∧ dump_of c d'.
Proof using PL.
  intros []. destruct (flushFields_ok d du_fields0 du_cap0)
    as (d' & E & E1 & E2 & _ & E4 & E5 & E6 & E7 & E8 & _).
  exists d'. split; [done|]. rewrite E1. split; [done|]. constructor; try congruence.
  unfold pending. rewrite E2, app_nil_r. congruence.
Qed.

Lemma content_msg_nonempty c d : dump_of c d → 0 < zlen (content_msg c).
Proof using PL.
  intros []. unfold content_msg, dbi_fields. destruct (coName c) as [|b n]; [done|].
  pose proof (zlen_nonneg n). rewrite (proj2 (Z.ltb_lt 0 _)) by (rewrite zlen_cons; lia).
  simpl. rewrite <- app_assoc, zlen_app, zlen_ld_field by done.
  match goal with |- _ < _ + zlen ?x => pose proof (zlen_nonneg x) end.
  pose proof (zlen_nonneg (EncodeVarint (zlen (b :: n)))). pose proof (zlen_nonneg (b :: n)). lia.
Qed.

Lemma estimateSize_ok cs ds :
  Forall2 dump_of cs ds → ∃ ds' n, estimateSize ds = Ok (ds', n) ∧ Forall2 dump_of cs ds'.
Proof using PL.
  induction 1 as [|c d cs ds Hd _ (ds' & n & E & IH)]; [by eexists _, _|]. simpl.
  destruct (dump_flush c d Hd) as (d' & Ef & Ed & Hd'). unfold Size. rewrite Ef, !bind_ok.
  rewrite E, bind_ok. eexists _, _. split; [done|]. by constructor.
Qed.

Section writing.
Context {W : Type} (Write : W → bytes → W * Z * option error) (written : W → bytes).
Hypothesis (HW : ∀ w b, ∃ w', Write w b = (w', zlen b, None) ∧ written w' = written w ++ b).

Lemma put_ok w n b :
  ∃ w' n', put Write w n b = (w', n', None) ∧ written w' = written w ++ b.
Proof using HW. unfold put. destruct (HW w b) as (w' & -> & E). by eexists _, _. Qed.

Lemma lenHeader_ok t len :
  1 <= t < 16 → 0 <= len < 2 ^ 64 →
  lenHeader t len = Ok (EncodeTag t WireTypeLengthDelimited ++ EncodeVarint len).
Proof using PL.
  intros Ht Hl. unfold lenHeader. rewrite wst_start, uint64_small by done.
  pose proof (zlen_tag t WireTypeLengthDelimited Ht ltac:(done)).
  pose proof (encode_length len Hl). unfold zlen in *.
  rewrite w_enc_ok, bind_ok by (unfold zlen; lia). rewrite w_enc_ok, bind_ok by (unfold zlen; lia).
  apply wst_content.
Qed.

Lemma putMessage_ok w n t msg :
  1 <= t < 16 → zlen msg < 2 ^ 64 →
  ∃ w' n', putMessage Write w n t msg = Ok (w', n', None) ∧
    written w' = written w ++ ld_field t msg.
Proof using PL HW.
  intros Ht Hl. unfold putMessage. pose proof (zlen_nonneg msg).
  rewrite lenHeader_ok, bind_ok by lia.
  destruct (put_ok w n (EncodeTag t WireTypeLengthDelimited ++ EncodeVarint (zlen msg)))
    as (w1 & n1 & -> & E1).
  destruct (put_ok w1 n1 msg) as (w2 & n2 & -> & E2). eexists _, _. split; [done|].
  rewrite E2, E1. unfold ld_field. by rewrite <- !app_assoc.
Qed.

Lemma writeDBIs_ok cs ds w n done_ :
  Forall2 dump_of cs ds →
  ∃ ds' w' n', writeDBIs Write w n done_ ds = Ok (done_ ++ ds', (w', n', None)) ∧
    Forall2 dump_of cs ds' ∧
    written w' = written w ++ concat ((λ c, ld_field FieldSnapshotDBI (content_msg c)) <$> cs).
Proof using PL HW.
  intros H. revert w n done_. induction H as [|c d cs ds Hd _ IH]; intros w n done_.
  - exists [], w, n. simpl. rewrite !app_nil_r. done.
  - simpl. destruct (dump_flush c d Hd) as (d' & Ef & Ed & Hd'). unfold Marshal.
    rewrite Ef, !bind_ok, Ed. pose proof (content_msg_nonempty c d Hd).
    rewrite (proj2 (Z.eqb_neq _ 0)) by lia. pose proof (du_size _ _ Hd).
    destruct (putMessage_ok w n FieldSnapshotDBI (content_msg c)) as (w1 & n1 & -> & E1);
      [done|unfold MaxFieldLength in *; lia|].
    rewrite bind_ok. destruct (IH w1 n1 (done_ ++ [d'])) as (ds' & w' & n' & -> & Hds & E2).
    exists (d' :: ds'), w', n'. rewrite <- app_assoc. split_and!; [done|by constructor|].
    by rewrite E2, E1, <- app_assoc.
Qed.

Definition snapshot_msg (s : Snapshot) (cs : list content) : bytes :=
  opt_varint FieldSnapshotFormatVersion (snFormatVersion s) ++
  opt_varint FieldSnapshotCompatVersion (snCompatVersion s) ++
  opt_ld FieldSnapshotMeta (meta_msg (snMeta s)) ++
  concat ((λ c, ld_field FieldSnapshotDBI (content_msg c)) <$> cs).

Record snapshot_ok (s : Snapshot) (cs : list content) : Prop := MkSnapshotOk {
  so_format : 0 <= snFormatVersion s < 2 ^ 32;
  so_compat : 0 <= snCompatVersion s < 2 ^ 32;
  so_meta : meta_ok (snMeta s);
  so_dbis : Forall2 dump_of cs (Databases s);
}.

Lemma versionFields_ok s cs :
  snapshot_ok s cs →
  versionFields s = Ok (opt_varint FieldSnapshotFormatVersion (snFormatVersion s) ++
                        opt_varint FieldSnapshotCompatVersion (snCompatVersion s)).
Proof using PL.
  intros [Hf Hc _ _]. unfold versionFields. rewrite wst_start.
  rewrite !(uint64_small (snFormatVersion s)), !(uint64_small (snCompatVersion s)) by lia.
  pose proof (opt_varint_length FieldSnapshotFormatVersion (snFormatVersion s) ltac:(done) ltac:(lia)).
  pose proof (opt_varint_length FieldSnapshotCompatVersion (snCompatVersion s) ltac:(done) ltac:(lia)).
  pose proof (w_opt_varint [] 1000 FieldSnapshotFormatVersion (snFormatVersion s)) as E1.
  rewrite uint64_small in E1 by lia. rewrite E1, bind_ok by lia.
  match goal with |- context [w_varint (wst ?p ?n) FieldSnapshotCompatVersion ?v] =>
    pose proof (w_opt_varint p n FieldSnapshotCompatVersion v) as E2 end.
  rewrite uint64_small in E2 by lia.
  match type of E2 with _ → _ → _ = ?r =>
    match goal with |- (?m ≫= _) = _ =>
      assert (m = r) as -> by (apply E2; unfold zlen in *; lia) end end.
  apply wst_content.
Qed.

Lemma meta_msg_size m : meta_ok m → zlen (meta_msg m) < 2 ^ 33.
Proof using PL.
  intros (H1 & H2 & H3 & H4 & H5 & H6 & H7). unfold meta_msg. rewrite !zlen_app.
  pose proof (opt_ld_length FieldMetaGenerationID _ ltac:(done) H1).
  pose proof (opt_ld_length FieldMetaInstanceID _ ltac:(done) H2).
  pose proof (opt_ld_length FieldMetaHostname _ ltac:(done) H3).
  pose proof (opt_ld_length FieldMetaDatabaseName _ ltac:(done) H4).
  pose proof (opt_varint_length FieldMetaLMDBTxnID (mLmdbTxnID m) ltac:(done) ltac:(lia)).
  pose proof (opt_fixed64_length FieldMetaTimestampNano (mTimestampNano m) ltac:(done)).
  pose proof (opt_varint_length FieldMetaFromLMDBTxnID (mFromLmdbTxnID m) ltac:(done) ltac:(lia)).
  unfold small in *. lia.
Qed.

Lemma WriteTo_ok s cs w :
  snapshot_ok s cs →
  ∃ s' w' n, WriteTo Write s w = Ok (s', (w', n, None)) ∧
    written w' = written w ++ snapshot_msg s cs.
Proof using PL HW.
  intros Hs. unfold WriteTo. rewrite (versionFields_ok s cs Hs), bind_ok.
  destruct Hs as [Hf Hc Hm Hd].
  match goal with |- context [put Write w 0 ?b] => destruct (put_ok w 0 b) as (w1 & n1 & -> & E1) end.
  rewrite MetaMarshal_ok, bind_ok by done. pose proof (meta_msg_size _ Hm).
  assert (∃ w2 n2, (if 0 <? zlen (meta_msg (snMeta s))
    then putMessage Write w1 n1 FieldSnapshotMeta (meta_msg (snMeta s)) else Ok (w1, n1, None)) =
    Ok (w2, n2, None) ∧ written w2 = written w1 ++ opt_ld FieldSnapshotMeta (meta_msg (snMeta s)))
    as (w2 & n2 & -> & E2).
  { unfold opt_ld. case_if; [apply putMessage_ok; [done|lia]|].
    exists w1, n1. by rewrite app_nil_r. }
  rewrite bind_ok. destruct (writeDBIs_ok cs (Databases s) w2 n2 [] Hd) as (ds & w3 & n3 & -> & _ & E3).
  rewrite bind_ok. eexists _, _, _. split; [done|]. rewrite E3, E2, E1. unfold snapshot_msg.
  by rewrite <- !app_assoc.
Qed.
End writing.

(** *** Reading snapshots *)

Lemma getBytes_ok t s r :
  zlen s <= MaxFieldLength →
  getBytes MaxFieldLength ((EncodeVarint (zlen s) ++ s) ++ r) t WireTypeLengthDelimited = Ok (s, r).
Proof using DL.
  intros Hs. unfold getBytes. rewrite expectWT_same, bind_ok, <- app_assoc.
  apply decoder_bytes; [done|]. unfold MaxFieldLength in Hs. lia.
Qed.

Lemma reads_version t v s s' :
  1 <= t < 16 → 0 <= v → (v = 0 → s' = s) →
  (∀ r, snapshotField (EncodeVarint v ++ r) t WireTypeVarint s = Ok (r, s')) →
  reads snapshotLoop (opt_varint t v) s s'.
Proof using PL DL.
  intros Ht Hv He Hf. unfold opt_varint. destruct (Z.ltb_spec 0 v).
  - intros fuel r Hl. by apply (snapshotLoop_step t _ (EncodeVarint v)).
  - rewrite He by lia. apply reads_nil.
Qed.

Lemma meta_msg_nil m : meta_ok m → zlen (meta_msg m) <= 0 → m = emptyMeta.
Proof using PL DL.
  intros Hm Hl. assert (meta_msg m = []) as E.
  { destruct (meta_msg m) as [|b l]; [done|]. rewrite zlen_cons in Hl. pose proof (zlen_nonneg l). lia. }
  pose proof (MetaUnmarshal_ok m Hm) as H. rewrite E in H. by injection H.
Qed.

Lemma reads_meta f c ds m :
  meta_ok m →
  reads snapshotLoop (opt_ld FieldSnapshotMeta (meta_msg m))
    (MkSnapshot f c emptyMeta ds) (MkSnapshot f c m ds).
Proof using PL DL.
  intros Hm. unfold opt_ld. destruct (Z.ltb_spec 0 (zlen (meta_msg m))).
  - intros fuel r Hl.
    apply (snapshotLoop_step FieldSnapshotMeta _ (EncodeVarint (zlen (meta_msg m)) ++ meta_msg m));
      [done|done| |done].
    unfold snapshotField. lit_cases. pose proof (meta_msg_size m Hm).
    rewrite getBytes_ok, bind_ok by (unfold MaxFieldLength; lia). cbv beta iota.
    rewrite MetaUnmarshal_ok by done. done.
  - rewrite (meta_msg_nil m) by done. apply reads_nil.
Qed.

Definition loadedDBI (c : content) : DBI :=
  MkDBI (coName c) (coFlags c) (coTransform c) (content_msg c) (zlen (content_msg c))
    false true 0 0.

Lemma reads_dbis f c m cs ds ds' :
  Forall2 dump_of cs ds →
  reads snapshotLoop (concat ((λ c, ld_field FieldSnapshotDBI (content_msg c)) <$> cs))
    (MkSnapshot f c m ds') (MkSnapshot f c m (ds' ++ (loadedDBI <$> cs))).
Proof using PL DL.
  intros H. revert ds'. induction H as [|co d cs ds Hd _ IH]; intros ds'.
  - simpl. rewrite app_nil_r. apply reads_nil.
  - simpl. eapply reads_app.
    + intros fuel r Hl.
      apply (snapshotLoop_step FieldSnapshotDBI _
        (EncodeVarint (zlen (content_msg co)) ++ content_msg co)); [done|done| |done].
      unfold snapshotField. lit_cases. rewrite getBytes_ok, bind_ok by apply (du_size _ _ Hd).
      cbv beta iota. destruct (du_fields _ _ Hd) as (Hn & Hf & Ht).
      rewrite (du_name _ _ Hd) in Hn. rewrite (du_flags _ _ Hd) in Hf.
      rewrite (du_transform _ _ Hd) in Ht.
      pose proof (NewDBIFromData_ok (coName co) (coFlags co) (coTransform co) (coKVs co)
        ltac:(lia) Hf ltac:(lia) (du_kvs _ _ Hd)) as E. cbv zeta in E.
      change (concat _ ++ concat (entry_msg <$> coKVs co)) with (content_msg co) in E.
      rewrite E, bind_ok. reflexivity.
    + specialize (IH (ds' ++ [loadedDBI co])). rewrite <- app_assoc in IH. exact IH.
Qed.

Lemma SnapshotUnmarshal_ok s cs :
  snapshot_ok s cs →
  SnapshotUnmarshal (snapshot_msg s cs) emptySnapshot =
    Ok (MkSnapshot (snFormatVersion s) (snCompatVersion s) (snMeta s) (loadedDBI <$> cs)).
Proof using PL DL.
  intros [Hf Hc Hm Hd]. destruct s as [f c m ds]. simpl in *. unfold SnapshotUnmarshal.
  apply (reads_end snapshotLoop); [done|]. unfold snapshot_msg. simpl.
  eapply reads_app; [apply (reads_version _ f _ (MkSnapshot f 0 emptyMeta []));
    [done|lia|by intros ->|]|].
  { intros r. unfold snapshotField, getUInt32. lit_cases.
    rewrite expectWT_same, bind_ok. rewrite decoder_uint32, bind_ok by lia. done. }
  eapply reads_app; [apply (reads_version _ c _ (MkSnapshot f c emptyMeta []));
    [done|lia|by intros ->|]|].
  { intros r. unfold snapshotField, getUInt32. lit_cases.
    rewrite expectWT_same, bind_ok. rewrite decoder_uint32, bind_ok by lia. done. }
  eapply reads_app; [by apply reads_meta|]. by eapply (reads_dbis f c m cs ds []).
Qed.

Lemma loadedDBI_kvs c d : dump_of c d → AsInefficientKVList (loadedDBI c) = Ok (coKVs c).
Proof using PL.
  intros Hd. destruct (du_fields _ _ Hd) as (Hn & Hf & Ht). rewrite (du_name _ _ Hd) in Hn.
  rewrite (du_flags _ _ Hd) in Hf. rewrite (du_transform _ _ Hd) in Ht.
  assert (remains (ResetCursor (loadedDBI c)) (coKVs c)) as Hr.
  { eapply remains_reset; [reflexivity|lia|done|lia|apply (du_kvs _ _ Hd)]. }
  unfold AsInefficientKVList. rewrite (listLoop_ok _ _ (coKVs c) []); [done|done|].
  apply remains_length in Hr. simpl in *. lia.
Qed.

(** the metadata of a snapshot survives writing and reading. *)
Theorem meta_roundtrip m :
  meta_ok m → ∃ b, MetaMarshal m = Ok b ∧ MetaUnmarshal b emptyMeta = Ok m.
Proof using PL DL.
  intros Hm. exists (meta_msg m). split; [by apply MetaMarshal_ok|by apply MetaUnmarshal_ok].
Qed.

Context `{G : Gzip} `{GL : !GzipLaws G}.

(** What [DumpData] and [LoadData] do to a snapshot. *)
Lemma dump_load s cs :
  snapshot_ok s cs →
  ∃ s' z st, DumpData s = Ok (s', z, st) ∧
    LoadData z =
      Ok (MkSnapshot (snFormatVersion s) (snCompatVersion s) (snMeta s) (loadedDBI <$> cs)).
Proof using PL DL GL.
  intros Hs. destruct (Hs) as [Hf Hc Hm Hd]. unfold DumpData.
  destruct (estimateSize_ok cs (Databases s) Hd) as (ds & n & -> & Hds). rewrite bind_ok.
  destruct gz_new as (gw & -> & E0). rewrite bind_ok.
  set (s1 := MkSnapshot (snFormatVersion s) (snCompatVersion s) (snMeta s) ds).
  destruct (WriteTo_ok gz_Write gz_content gz_write s1 cs gw) as (s' & gw' & n' & -> & E);
    [by constructor|].
  rewrite bind_ok. destruct (gz_close gw') as (z & -> & Hz). rewrite bind_ok.
  exists s', z. eexists. split; [done|]. unfold LoadData. rewrite Hz, bind_ok, E, E0.
  apply (SnapshotUnmarshal_ok s1 cs). by constructor.
Qed.

(** C8: a snapshot that is dumped and loaded again has its versions, its
    metadata and every database with its name, flags, transform and entries
    back. *)
Theorem snapshot_roundtrip s cs :
  snapshot_ok s cs →
  ∃ s' z st l, DumpData s = Ok (s', z, st) ∧ LoadData z = Ok l ∧
    snFormatVersion l = snFormatVersion s ∧ snCompatVersion l = snCompatVersion s ∧
    snMeta l = snMeta s ∧
    Forall2 (λ c d, dName d = coName c ∧ dFlags d = coFlags c ∧ dTransform d = coTransform c ∧
                    AsInefficientKVList d = Ok (coKVs c)) cs (Databases l).
Proof using PL DL GL.
  intros Hs. destruct (dump_load s cs Hs) as (s' & z & st & E & El).
  exists s', z, st. eexists. split_and!; [exact E|exact El|done|done|done|].
  simpl. destruct Hs as [_ _ _ Hd]. clear -Hd PL. induction Hd as [|c d cs ds Hc _ IH]; [constructor|].
  constructor; [|done]. split_and!; [done..|]. by eapply loadedDBI_kvs.
Qed.

(** a dump passes [ValidateTransform] in the current format exactly when it
    is a plain dump of a database without duplicate keys, or, outside the
    native schema, a dupsort dump marked with the hack. *)
Theorem validate_transform_iff d formatVersion nativeSchema :
  3 <= formatVersion →
  ValidateTransform d formatVersion nativeSchema = Ok tt ↔
    (dTransform d = [] ∧ has_flag (dFlags d) lmdb_DupSort = false) ∨
    (nativeSchema = false ∧ dTransform d = TransformDupSortHackV1 ∧
     has_flag (dFlags d) lmdb_DupSort = true).
Proof.
  intros Hv. unfold ValidateTransform, TransformSupported, TransformNone.
  rewrite (proj2 (Z.leb_le 3 formatVersion)) by done.
  assert (Hne : [] ≠ TransformDupSortHackV1) by done.
  repeat case_bool_decide; destruct nativeSchema, (has_flag (dFlags d) lmdb_DupSort); simpl;
    naive_solver congruence.
Qed.
End roundtrip.

(** ** Witnesses *)

Section examples.
#[local] Existing Instances RefProto RefProto_laws RefDecoder RefDecoder_laws RefGzip RefGzip_laws.

Definition ex_meta : Meta :=
  MkMeta (str "G1") (str "inst1") (str "host") 7 1641092645012345678 (str "db") 0.

Definition ex_content : content :=
  MkContent (str "records") 8 [] [MkKV (str "abcd") (str "hello") 5 0; MkKV (str "abce") [] 6 1].

Definition ex_dbi : DBI :=
  MkDBI (str "records") 8 [] (content_msg ex_content) (zlen (content_msg ex_content))
    false true 0 2.

Definition ex_snapshot : Snapshot := MkSnapshot 3 2 ex_meta [ex_dbi].

Lemma ex_meta_ok : meta_ok ex_meta.
Proof. unfold meta_ok, small. repeat split; vm_compute; done. Qed.

Lemma ex_snapshot_ok : snapshot_ok ex_snapshot [ex_content].
Proof.
  split; [done|done|apply ex_meta_ok|]. constructor; [|constructor]. constructor; try done.
  repeat constructor; by vm_compute.
Qed.

Lemma meta_roundtrip_witness :
  ∃ b, MetaMarshal ex_meta = Ok b ∧ MetaUnmarshal b emptyMeta = Ok ex_meta.
Proof. apply meta_roundtrip. exact ex_meta_ok. Defined.

Lemma snapshot_roundtrip_witness :
  ∃ s' z st l, DumpData ex_snapshot = Ok (s', z, st) ∧ LoadData z = Ok l ∧
    snFormatVersion l = 3 ∧ snCompatVersion l = 2 ∧ snMeta l = ex_meta ∧
    Forall2 (λ c d, dName d = coName c ∧ dFlags d = coFlags c ∧ dTransform d = coTransform c ∧
                    AsInefficientKVList d = Ok (coKVs c)) [ex_content] (Databases l).
Proof. exact (snapshot_roundtrip ex_snapshot [ex_content] ex_snapshot_ok). Defined.

Lemma validate_transform_iff_witness :
  ValidateTransform ex_dbi 3 true = Ok tt ↔
    (dTransform ex_dbi = [] ∧ has_flag (dFlags ex_dbi) lmdb_DupSort = false) ∨
    (true = false ∧ dTransform ex_dbi = TransformDupSortHackV1 ∧
     has_flag (dFlags ex_dbi) lmdb_DupSort = true).
Proof. apply validate_transform_iff. lia. Defined.
End examples.
