(* ===== verification/Syncer.v ===== *)
(** * Sending and loading snapshots (syncer/send.go, sync.go, utils.go)

    [SendOnce] dumps a database environment into a snapshot and stores it;
    [LoadOnce] merges a snapshot into the environment.  The optional hooks
    other than the read filter are nil here; Hooks.v adds them.  Logging,
    metrics and the garbage collector are left out.  The clock, the storage
    backend and cancellations are parameters. *)

From Stdlib Require Import Sorted.
From S2P Require Import Prelude Header Proto Kv Dbi DupSort Lmdb Strategy Iterators Config.
From S2P Require Import Shadow Name Snapshot.

(** ** Instance names *)

(** The length in bytes of the first character of a UTF-8 string, one for a
    byte that does not start a valid character. *)
Definition contByte (b : byte) : bool := (128 <=? bz b) && (bz b <=? 191).
Definition within (lo hi : Z) (b : byte) : bool := (lo <=? bz b) && (bz b <=? hi).

Definition runeLen (s : bytes) : nat :=
  match s with
  | b0 :: b1 :: r =>
      if within 0xc2 0xdf b0 && contByte b1 then 2%nat
      else match r with
      | b2 :: r =>
          if (bz b0 =? 0xe0) && within 0xa0 0xbf b1 && contByte b2 ||
             (within 0xe1 0xec b0 || within 0xee 0xef b0) && contByte b1 && contByte b2 ||
             (bz b0 =? 0xed) && within 0x80 0x9f b1 && contByte b2
          then 3%nat
          else match r with
          | b3 :: _ =>
              if ((bz b0 =? 0xf0) && within 0x90 0xbf b1 ||
                  within 0xf1 0xf3 b0 && contByte b1 ||
                  (bz b0 =? 0xf4) && within 0x80 0x8f b1) && contByte b2 && contByte b3
              then 4%nat else 1%nat
          | [] => 1%nat
          end
      | [] => 1%nat
      end
  | _ => 1%nat
  end.

(** [[a-zA-Z0-9-]] *)
Definition safeByte (b : byte) : bool :=
  within 97 122 b || within 65 90 b || within 48 57 b || (bz b =? 45).

(** [reUnsafe.ReplaceAllString(n, "-")]: every unsafe character becomes a
    dash; [skip] counts the remaining bytes of the current character. *)
Fixpoint replaceUnsafe (skip : nat) (s : bytes) : bytes :=
  match s with
  | [] => []
  | b :: r =>
      match skip with
      | S k => replaceUnsafe k r
      | O => if safeByte b then b :: replaceUnsafe 0 r
             else dash :: replaceUnsafe (runeLen s - 1) r
      end
  end.

(** A running syncer: its database, its configuration and options. *)
Record Node : Type := MkNode {
  nSyncer : Syncer;
  nConf : Config;
  nHostname : bytes;
  nReceiveOnly : bool;
}.

Definition instanceID (n : Node) : bytes :=
  let name := Instance (nConf n) in
  let name := if bool_decide (name = []) then nHostname n else name in
  replaceUnsafe 0 name.

Definition generationID : bytes := str "GX".

(** ** LMDB environments *)

Class LMDBEnv (L : LMDB) : Type := {
  Env : Type;
  env_Info : Env → outcome Z;
  env_Begin : Env → bool → outcome Txn;
  env_Commit : Env → Txn → outcome Env;
}.

(** [env.Update] commits when the operation succeeds and aborts otherwise;
    [env.View] never commits. *)
Definition env_Update `{LMDBEnv} {A} (e : Env) (op : Txn → outcome (Txn * A)) : outcome (Env * A) :=
  t ← env_Begin e false;
  '(t, a) ← op t;
  e ← env_Commit e t;
  Ok (e, a).

Definition env_View `{LMDBEnv} {A} (e : Env) (op : Txn → outcome (Txn * A)) : outcome (Env * A) :=
  t ← env_Begin e true;
  '(_, a) ← op t;
  Ok (e, a).

Section syncer.
Context `{P : CSProto} `{D : CSDecoder} `{G : Gzip} `{L : LMDB} `{E : !LMDBEnv L}.
Context (n : Node) (sizeHint : Z → Z → bool → Z) (isCanceled : bytes → bool → bool).

Definition schemaTracksChanges : bool := lcSchemaTracksChanges (sLC (nSyncer n)).

(** The clock when a copy to the shadow databases starts. *)
Context (later : Z → Z).

(** Between a transaction and the next [env.Info] other processes may commit. *)
Context (others : Env → Env).

(** LMDB does not record a transaction without changes: adjust the ID. *)
Definition adjustTxnID (e : Env) (txnID : Z) : outcome Z :=
  lastTxnID ← env_Info e;
  Ok (if uint64 lastTxnID <? txnID then uint64 lastTxnID else txnID).

(** ** SendOnce *)

(** The databases of the snapshot, in order. *)
Fixpoint dumpDBIs (fuel : nat) (t : Txn) (names : list bytes) (acc : list DBI)
    : outcome (Txn * list DBI) :=
  match names with
  | [] => Ok (t, acc)
  | dbiName :: names =>
      if HasPrefix dbiName SyncDBIPrefix then dumpDBIs fuel t names acc
      else
        let readDBIName := if schemaTracksChanges then dbiName else SyncDBIShadowPrefix ++ dbiName in
        '(t, dbiMsg) ← wrap_err "dbi" (readDBI (nSyncer n) sizeHint fuel t readDBIName dbiName false);
        if isCanceled dbiName true then Err Canceled
        else dumpDBIs fuel t names (acc ++ [dbiMsg])
  end.

(** The transaction of [SendOnce] at time [ts]. *)
Definition sendTxn (fuel : nat) (ts : Z) (t : Txn) : outcome (Txn * (Z * list DBI)) :=
  let txnID := uint64 (txn_ID t) in
  t ← (if negb schemaTracksChanges
       then mainToShadow (nSyncer n) sizeHint isCanceled fuel t (later ts) (TimestampFromTime ts)
       else Ok t);
  if nReceiveOnly n then Ok (t, (txnID, []))
  else
    dbiNames ← ReadDBINames fuel t;
    '(t, dbis) ← dumpDBIs fuel t dbiNames [];
    Ok (t, (txnID, dbis)).

(** The retry loop of the store: [attempt i] is the error of the i-th call of
    [Store] and [interrupted i] whether the context ends in the pause after
    it.  The result is the number of the successful attempt, if any was made. *)
Section store.
Context (attempt : nat → option error) (interrupted : nat → bool).

Fixpoint storeLoop (fuel i : nat) (err : option error) : outcome (option nat) :=
  match fuel with
  | O => Hang
  | S fuel =>
      if (Z.of_nat i <? StorageRetryCount (nConf n)) || StorageRetryForever (nConf n) then
        match attempt i with
        | Some e => if interrupted i then Err Canceled else storeLoop fuel (S i) (Some e)
        | None => Ok (Some i)
        end
      else match err with Some e => Err e | None => Ok None end
  end.

(** What [SendOnce] leaves behind besides its result: the object it stored,
    the time of the snapshot and what it reported to the cleaner. *)
Record Sent : Type := MkSent {
  sentEnv : Env;
  sentTxnID : Z;
  sentObject : option (bytes * bytes);
  sentTime : option Z;
  sentCommitted : option (gmap bytes Z);
}.

Definition newMeta (ts txnID : Z) : Meta :=
  MkMeta generationID (instanceID n) (nHostname n) (int64 txnID) (TimestampFromTime ts)
    (sName (nSyncer n)) 0.

(** [ts] is the time in the transaction, [done] the time at the end. *)
Definition SendOnce (fuel : nat) (e : Env) (ts done : Z) (lastByInstance : gmap bytes Z)
    : outcome Sent :=
  '(e, (txnID, dbis)) ← (if schemaTracksChanges then env_View e (sendTxn fuel ts)
                          else env_Update e (sendTxn fuel ts));
  let e := others e in
  txnID ← adjustTxnID e txnID;
  if nReceiveOnly n then Ok (MkSent e txnID None None None)
  else
    let msg := MkSnapshot CurrentFormatVersion WriteCompatFormatVersion (newMeta ts txnID) dbis in
    let name := Name (sName (nSyncer n)) (instanceID n) generationID ts in
    '(_, out, _) ← DumpData msg;
    r ← storeLoop fuel 0 None;
    Ok (MkSent e txnID (match r with Some _ => Some (name, out) | None => None end)
          (Some done) (Some lastByInstance)).
End store.

(** ** LoadOnce *)

(** The flags for a new database. *)
Definition createFlags (dbiMsg : DBI) : Z :=
  match lcDBIOptions (sLC (nSyncer n)) !! dName dbiMsg with
  | Some (Some f) => f
  | _ => uint16 (dFlags dbiMsg)
  end.

Definition overrideFlags (dbiName : bytes) : bool :=
  match lcDBIOptions (sLC (nSyncer n)) !! dbiName with Some (Some _) => true | _ => false end.

(** In shadow mode, the database of the application is created too. *)
Definition createMain (t : Txn) (formatVersion : Z) (dbiMsg : DBI) : outcome Txn :=
  ex ← DBIExists t (dName dbiMsg);
  if (ex : bool) then Ok t
  else if (formatVersion <? 3) && negb (overrideFlags (dName dbiMsg))
  then Err (EMsg "DBI does not exist yet, and we cannot safely create it")
  else '(t, _) ← txn_OpenDBI t (dName dbiMsg) (Z.lor lmdb_Create (createFlags dbiMsg)); Ok t.

Definition createTarget (t : Txn) (targetDBIName : bytes) (dbiMsg : DBI) : outcome Txn :=
  ex ← DBIExists t targetDBIName;
  if (ex : bool) then Ok t
  else
    let flags := createFlags dbiMsg in
    let flags := if negb schemaTracksChanges then Z.land flags AllowedShadowDBIFlagsMask
                 else flags in
    '(t, _) ← txn_OpenDBI t targetDBIName (Z.lor lmdb_Create flags); Ok t.

(** One database of a snapshot; [t0] is the time at the start of the load. *)
Definition loadDBI (fuel : nat) (t0 : Z) (snap : Snapshot) (t : Txn) (dbiMsg : DBI)
    : outcome Txn :=
  let dbiName := dName dbiMsg in
  if HasPrefix dbiName SyncDBIPrefix then Ok t
  else
    _ ← ValidateTransform dbiMsg (snFormatVersion snap) schemaTracksChanges;
    let targetDBIName := if schemaTracksChanges then dbiName else SyncDBIShadowPrefix ++ dbiName in
    t ← (if schemaTracksChanges then Ok t else createMain t (snFormatVersion snap) dbiMsg);
    t ← createTarget t targetDBIName dbiMsg;
    '(t, targetDBI) ← txn_OpenDBI t targetDBIName 0;
    it ← wrap_err "create native iterator"
           (NewNativeIterator (snFormatVersion snap) (snCompatVersion snap) dbiMsg 0
              (uint64 (txn_ID t)) (deletedCutoff (nSyncer n) t0));
    let it := if lcHeaderExtraPaddingBlock (sLC (nSyncer n)) then setPaddingBlock it else it in
    t ← Update fuel t targetDBI it;
    if isCanceled dbiName true then Err Canceled else Ok t.

Definition loadDBIs (fuel : nat) (t0 : Z) (snap : Snapshot) (t : Txn) (ds : list DBI)
    : outcome Txn :=
  forEach (loadDBI fuel t0 snap) t ds.

(** The transaction of [LoadOnce]. *)
Definition loadTxn (fuel : nat) (t0 ts : Z) (snap : Snapshot) (lastTxnID : Z) (t : Txn)
    : outcome (Txn * (Z * bool)) :=
  let txnID := uint64 (txn_ID t) in
  let localChanged := lastTxnID <? uint64 (txnID - 1) in
  t ← (if negb schemaTracksChanges && localChanged
       then mainToShadow (nSyncer n) sizeHint isCanceled fuel t (later ts) (TimestampFromTime ts)
       else Ok t);
  t ← loadDBIs fuel t0 snap t (Databases snap);
  t ← (if negb schemaTracksChanges then shadowToMain (nSyncer n) sizeHint isCanceled fuel t
       else Ok t);
  Ok (t, (txnID, localChanged)).

(** The new environment, the transaction ID, whether there were local changes
    and the updated table of loaded snapshots. *)
Definition LoadOnce (fuel : nat) (e : Env) (instance : bytes) (snap : Snapshot) (ni : NameInfo)
    (lastTxnID t0 ts : Z) (lastByInstance : gmap bytes Z)
    : outcome (Env * Z * bool * gmap bytes Z) :=
  '(e, (txnID, localChanged)) ← env_Update e (loadTxn fuel t0 ts snap lastTxnID);
  let e := others e in
  txnID ← adjustTxnID e txnID;
  Ok (e, txnID, localChanged, <[instance := niTimestamp ni]> lastByInstance).
End syncer.

(** ** Instance names are safe *)

Lemma replaceUnsafe_safe skip s : Forall (λ b, safeByte b = true) (replaceUnsafe skip s).
Proof.
  revert skip. induction s as [|b s IH]; intros [|k]; simpl; try constructor; try apply IH.
  destruct (safeByte b) eqn:E; constructor; done.
Qed.

Lemma safe_part s : Forall (λ b, safeByte b = true) s → part_ok s.
Proof.
  intros H. rewrite Forall_forall in H. split; [apply clean_no_underscore|]; intros Hin;
    apply list_elem_of_In, H in Hin; by vm_compute in Hin.
Qed.

Lemma replaceUnsafe_nil s : replaceUnsafe 0 s = [] ↔ s = [].
Proof. destruct s as [|b s]; [done|]. simpl. by destruct (safeByte b). Qed.

Definition rawInstance (n : Node) : bytes :=
  if bool_decide (Instance (nConf n) = []) then nHostname n else Instance (nConf n).

(** every name the syncer stores a snapshot under is parsed back by the
    receivers to the same database, instance and time, whatever characters the
    instance name has, provided that the database name has no dot and no
    double or trailing underscore. *)
Theorem stored_name_parses n ts :
  part_ok (sName (nSyncer n)) → int64_time ts →
  ∃ ni, ParseName registeredExtensions
          (Name (sName (nSyncer n)) (instanceID n) generationID ts) = Ok ni ∧
    SyncerName ni = sName (nSyncer n) ∧ InstanceID ni = instanceID n ∧
    niTimestamp ni = ts ∧ Kind ni = KindSnapshot ∧
    (InstanceID ni = [] ↔ rawInstance n = []).
Proof.
  intros Hn Hts. unfold Name.
  set (ni := MkNameInfo [] [] DefaultExtension [] (sName (nSyncer n)) (instanceID n) generationID
               [] ts []).
  destruct (name_parses registeredExtensions ni KindSnapshot) as [base ->];
    [done|done|reflexivity| |].
  - repeat (apply List.Forall_cons; [done || apply safe_part, replaceUnsafe_safe ||
      (split; [done|by apply (bool_decide_unpack _)])|]). constructor.
  - eexists. split; [done|]. split_and!; [done..|]. apply replaceUnsafe_nil.
Qed.

(** a database name with a dot is accepted by the configuration and makes
    the names of all its snapshots unparsable. *)
Theorem dotted_name_unparsable n ts p q :
  sName (nSyncer n) = p ++ dot :: q → dot ∉ p →
  ParseName registeredExtensions (Name (sName (nSyncer n)) (instanceID n) generationID ts) =
    Err (EMsg "unknown extension").
Proof.
  intros E Hp. unfold ParseName, Name, BuildName. cbn [SyncerName]. rewrite E, <- app_assoc.
  simpl app. rewrite cut_app by done.
  match goal with |- context [registeredExtensions !! ?x] => assert (registeredExtensions !! x = None) as -> end;
    [|done].
  unfold registeredExtensions, RegisterExtension. rewrite lookup_insert_ne; [done|].
  intros Ex. apply (f_equal length) in Ex. revert Ex. unfold DefaultExtension.
  cbn [InstanceID TimestampString niTimestamp GenerationID Extra Extension].
  repeat (rewrite length_app || cbn [length]). lia.
Qed.

Lemma within_low lo hi b : bz b < lo → within lo hi b = false.
Proof. intros H. unfold within. by rewrite (proj2 (Z.leb_gt lo (bz b))) by lia. Qed.

Lemma runeLen_ascii b s : bz b < 128 → runeLen (b :: s) = 1%nat.
Proof.
  intros H. assert (He : ∀ z, 128 <= z → (bz b =? z) = false) by (intros; apply Z.eqb_neq; lia).
  destruct s as [|b1 [|b2 [|b3 s]]]; cbn [runeLen]; [done|..];
    rewrite ?(within_low _ _ b), ?He by lia; done.
Qed.

(** two instance names that the documentation calls safe, and that differ
    only in a dot, become the same instance. *)
Theorem instance_name_collision n1 n2 p q :
  rawInstance n1 = p ++ dot :: q → rawInstance n2 = p ++ dash :: q →
  Forall (λ b, safeByte b = true) p → instanceID n1 = instanceID n2.
Proof.
  intros E1 E2 Hp. unfold instanceID. fold (rawInstance n1) (rawInstance n2). rewrite E1, E2.
  clear E1 E2. induction Hp as [|b p Hb _ IH].
  - cbn [app replaceUnsafe]. change (safeByte dot) with false. change (safeByte dash) with true.
    by rewrite runeLen_ascii.
  - cbn [app replaceUnsafe]. by rewrite Hb, IH.
Qed.

(** ** Storing with retries *)

Section store.
Context (n : Node) (attempt : nat → option error) (interrupted : nat → bool).

(** All attempts before the [i]-th failed, the last of them with [err]. *)
Lemma storeLoop_spec fuel i err :
  StorageRetryForever (nConf n) = false → 1 <= StorageRetryCount (nConf n) →
  Z.of_nat i <= StorageRetryCount (nConf n) < Z.of_nat (i + fuel) →
  (∀ k, (k < i)%nat → is_Some (attempt k)) → (i ≠ 0%nat → is_Some err) →
  match storeLoop n attempt interrupted fuel i err with
  | Ok (Some j) => Z.of_nat j < StorageRetryCount (nConf n) ∧ attempt j = None ∧
                   ∀ k, (k < j)%nat → is_Some (attempt k)
  | Ok None => False
  | Err _ => (∀ k, Z.of_nat k < StorageRetryCount (nConf n) → is_Some (attempt k)) ∨
             ∃ j, interrupted j = true
  | _ => False
  end.
Proof.
  intros Hf H1. revert i err. induction fuel as [|fuel IH]; intros i err Hl Hall Herr; [lia|].
  simpl. rewrite Hf, orb_false_r. destruct (Z.ltb_spec (Z.of_nat i) (StorageRetryCount (nConf n))).
  - destruct (attempt i) as [e|] eqn:E; [|done].
    destruct (interrupted i) eqn:Ei; [right; by exists i|].
    apply IH; [lia| |done]. intros k Hk. destruct (decide (k = i)) as [->|]; [by rewrite E|].
    apply Hall. lia.
  - destruct (Herr ltac:(lia)) as [e ->]. left. intros k Hk. apply Hall. lia.
Qed.

(** C39: with the checked configuration, a send that returns without an error
    has stored its snapshot, after at most StorageRetryCount attempts in all,
    the first one included (the comment of the option counts only the retries);
    it gives up only when all of them failed or the program is stopped. *)
Theorem store_retries fuel :
  StorageRetryForever (nConf n) = false → 1 <= StorageRetryCount (nConf n) < Z.of_nat fuel →
  match storeLoop n attempt interrupted fuel 0 None with
  | Ok (Some j) => Z.of_nat j < StorageRetryCount (nConf n) ∧ attempt j = None ∧
                   ∀ k, (k < j)%nat → is_Some (attempt k)
  | Ok None => False
  | Err _ => (∀ k, Z.of_nat k < StorageRetryCount (nConf n) → is_Some (attempt k)) ∨
             ∃ j, interrupted j = true
  | _ => False
  end.
Proof. intros Hf H1. apply storeLoop_spec; [done|lia|lia|lia|done]. Qed.
End store.

(** ** Transaction IDs *)

Section ids.
Context `{P : CSProto} `{D : CSDecoder} `{G : Gzip} `{L : LMDB} `{E : !LMDBEnv L}.
Context (n : Node) (sizeHint : Z → Z → bool → Z) (isCanceled : bytes → bool → bool).
Context (later : Z → Z) (others : Env → Env).

(** [LoadOnce] reports local changes exactly when some other transaction
    came between the last synced one and its own, and returns an ID that is
    not ahead of what LMDB recorded, so that the next local change is seen. *)
Theorem load_reports_changes fuel e instance snap ni lastTxnID t0 ts lbi e' txnID changed lbi' :
  LoadOnce n sizeHint isCanceled later others fuel e instance snap ni lastTxnID t0 ts lbi =
    Ok (e', txnID, changed, lbi') →
  ∃ t last, env_Begin e false = Ok t ∧ env_Info e' = Ok last ∧
    (0 < txn_ID t < 2 ^ 64 → changed = true ↔ lastTxnID + 1 < txn_ID t) ∧
    (0 <= last < 2 ^ 64 → txnID <= last) ∧
    lbi' = <[instance := niTimestamp ni]> lbi.
Proof.
  unfold LoadOnce, env_Update, loadTxn, adjustTxnID. intros H.
  destruct (env_Begin e false) as [t| | |] eqn:Eb; try done. simpl in H.
  inv_bind. repeat match goal with x : _ * _ |- _ => destruct x end. simplify_eq/=.
  exists t, a4. split_and!; [done|done| | |done].
  - intros Ht. rewrite (uint64_small (txn_ID t)), uint64_small, Z.ltb_lt by lia. lia.
  - intros Hl. rewrite (uint64_small a4) by done. case_if; lia.
Qed.
End ids.

(** ** A reference environment and witnesses *)

(** The last committed state; a write transaction without changes is not
    recorded. *)
Definition refBegin (e : Ref.rtxn) (ro : bool) : outcome (@Txn Ref.RefLMDB) :=
  Ok (Ref.MkTxn (if ro then Ref.rid e else Ref.rid e + 1) (Ref.rdbs e)).

#[export] Instance rdb_eq_dec : EqDecision Ref.rdb.
Proof. solve_decision. Defined.

Definition refCommit (e : Ref.rtxn) (t : @Txn Ref.RefLMDB) : outcome Ref.rtxn :=
  Ok (if bool_decide (Ref.rdbs e = Ref.rdbs (t : Ref.rtxn)) then e else t).

Definition RefEnv : LMDBEnv Ref.RefLMDB :=
  @Build_LMDBEnv Ref.RefLMDB Ref.rtxn (λ e, Ok (Ref.rid e)) refBegin refCommit.

Section examples.
#[local] Existing Instances RefProto RefDecoder RefGzip Ref.RefLMDB RefEnv.

Definition exNode (inst db : bytes) : Node :=
  MkNode (MkSyncer db (MkLMDB (str "/db") (MkOptions 0 0 0 0 false true 0) ∅ true false false)
            (cSweeper Default) None)
    (MkConfig inst [] (cSweeper Default) (cCleanup Default) [] (cLog Default) (cHealth Default)
       Second Second Second Second 3 false 0 2 3 false false)
    (str "host.example.com") false.

Lemma stored_name_parses_witness : ∃ ni,
  ParseName registeredExtensions
    (Name (str "main") (instanceID (exNode [] (str "main"))) generationID ex_ts) = Ok ni ∧
  InstanceID ni = str "host-example-com".
Proof.
  destruct (stored_name_parses (exNode [] (str "main")) ex_ts) as (ni & E & _ & Ei & _).
  - split; [reflexivity|by apply (bool_decide_unpack _)].
  - split; [discriminate|reflexivity].
  - exists ni. split; [exact E|]. rewrite Ei. reflexivity.
Defined.

Lemma dotted_name_unparsable_witness :
  ParseName registeredExtensions
    (Name (str "my.db") (instanceID (exNode (str "a") (str "my.db"))) generationID ex_ts) =
    Err (EMsg "unknown extension").
Proof.
  apply (dotted_name_unparsable (exNode (str "a") (str "my.db")) ex_ts (str "my") (str "db"));
    [reflexivity|by apply (bool_decide_unpack _)].
Defined.

Lemma instance_name_collision_witness :
  instanceID (exNode (str "a.b") (str "db")) = instanceID (exNode (str "a-b") (str "db")).
Proof.
  apply (instance_name_collision _ _ (str "a") (str "b")); [reflexivity|reflexivity|].
  constructor; [reflexivity|constructor].
Defined.

Lemma store_retries_witness :
  match storeLoop (exNode (str "a") (str "db")) (λ i, if (i <? 2)%nat then Some EOF else None)
          (λ _, false) 4 0 None with
  | Ok (Some j) => Z.of_nat j < 3 ∧ (if (j <? 2)%nat then Some EOF else None) = None ∧
                   ∀ k, (k < j)%nat → is_Some (if (k <? 2)%nat then Some EOF else None)
  | Ok None => False
  | Err _ => (∀ k, Z.of_nat k < 3 → is_Some (if (k <? 2)%nat then Some EOF else None)) ∨
             ∃ j : nat, false = true
  | _ => False
  end.
Proof.
  apply (store_retries (exNode (str "a") (str "db"))
    (λ i, if (i <? 2)%nat then Some EOF else None) (λ _, false) 4); [reflexivity|].
  split; [discriminate|reflexivity].
Defined.

Definition exEnv : @Env _ RefEnv := Ref.MkTxn 9 {[ str "records" := Ref.MkDb 0 ∅ [] ]}.

Definition exLoad : outcome (@Env _ RefEnv * Z * bool * gmap bytes Z) :=
  LoadOnce (exNode (str "a") (str "db")) (λ _ _ _, 0) (λ _ _, false) id id 5 exEnv (str "b")
    (MkSnapshot 3 2 emptyMeta []) ex_ni 7 0 0 ∅.

Lemma exLoad_ok : ∃ txnID lbi', exLoad = Ok (exEnv, txnID, true, lbi').
Proof.
  unfold exLoad, LoadOnce, env_Update, loadTxn. cbn -[exEnv insert].
  unfold refCommit. rewrite bool_decide_eq_true_2 by done.
  by eexists _, _.
Qed.

Lemma load_reports_changes_witness : ∃ txnID lbi',
  exLoad = Ok (exEnv, txnID, true, lbi') ∧ lbi' = {[ str "b" := ex_ts ]} ∧ txnID <= 9.
Proof.
  destruct exLoad_ok as (txnID & lbi' & E). exists txnID, lbi'. split; [exact E|].
  destruct (load_reports_changes _ _ _ _ _ _ _ _ _ _ _ _ _ _ _ _ _ _ E)
    as (t & last & _ & Ei & _ & Hl & El).
  split; [exact El|]. injection Ei as <-. apply Hl. split; [discriminate|reflexivity].
Defined.
End examples.
