(* ===== verification/Transfer.v ===== *)
(** * From one instance to another

    A snapshot taken in one transaction ([sendTxn]), dumped, stored, loaded and
    applied in a transaction of another instance ([loadTxn]) merges every
    database of the sender into the receiver's, and two instances that load
    each other's snapshots agree.  The instances track changes themselves
    ([schema_tracks_changes]). *)

From Stdlib Require Import Sorted.
From S2P Require Import Prelude Header Proto Kv Dbi DupSort Lmdb Strategy Iterators.
From S2P Require Import Convergence Config Shadow Name Snapshot Syncer.

Section transfer.
Context `{P : CSProto} `{PL : !CSProtoLaws P} `{D : CSDecoder} `{DL : !CSDecoderLaws P D}.
Context `{G : Gzip} `{GL : !GzipLaws G}.
Context `{V : LMDBView} `{HL : !LMDBLaws L V} `{EN : !LMDBEnv L}.
Context (sizeHint : Z → Z → bool → Z) (isCanceled : bytes → bool → bool) (later : Z → Z).
Hypothesis (Hhint : ∀ a b r, 0 <= sizeHint a b r).
Hypothesis (Hcan : ∀ n b, isCanceled n b = false).

(** ** Sending *)

(** The snapshot entry of a row with a valid header. *)
Definition rowKV (e : bytes * bytes) : KV :=
  match Parse e.2 with
  | Ok (h, app) => MkKV e.1 app (hTimestamp h) (Masked (hFlags h))
  | _ => emptyKV
  end.

Definition contentOfDB (t : Txn) (n : bytes) (h : DBIh) : content :=
  MkContent n (dflags t h) [] (rowKV <$> entries t h).

(** A cell the application or an earlier load wrote. *)
Definition cell_ok (c : cell) : Prop := 0 < cTS c ∧ (cDel c = true → cVal c = []).

(** A database with headers, without duplicate keys, that fits a snapshot. *)
Record native_db (t : Txn) (n : bytes) (h : DBIh) : Prop := MkNativeDB {
  nd_name : HasPrefix n SyncDBIPrefix = false;
  nd_nonempty : n ≠ [];
  nd_handle : dbi_of t n = Some h;
  nd_uniq : has_flag (dflags t h) lmdb_DupSort = false;
  nd_keys : keys_ok t h;
  nd_flags : 0 <= dflags t h < 2 ^ 64;
  nd_len : zlen n <= 511;
  nd_rows : Forall row_ok (entries t h);
  nd_cells : ∀ k v, dbm t h !! k = Some v → ∃ c, cellOf v = Some c ∧ cell_ok c;
  nd_size : zlen (content_msg (contentOfDB t n h)) <= MaxFieldLength;
}.

Lemma nd_sorted t n h :
  native_db t n h → StronglySorted (λ e e', klt t h e.1 e'.1) (entries t h).
Proof using HL.
  intros H. apply entries_sorted; [|apply H]. split; [exists n; apply H|apply H].
Qed.

Lemma nd_nodup t n h : native_db t n h → NoDup (entries t h).*1.
Proof using HL. intros H. eapply sorted_nodup_keys. by eapply nd_sorted. Qed.

Lemma nd_entry t n h e : native_db t n h → e ∈ entries t h → dbm t h !! e.1 = Some e.2.
Proof using HL.
  intros H He. apply elem_of_list_to_map_1; [by eapply nd_nodup|by destruct e].
Qed.

Lemma nd_entry_cell t n h e :
  native_db t n h → e ∈ entries t h → ∃ c, cellOf e.2 = Some c ∧ cell_ok c.
Proof using HL. intros H He. eapply nd_cells; [done|]. by eapply nd_entry. Qed.

(** The entry of a row has the fields of its cell. *)
Lemma rowKV_cell e c :
  cellOf e.2 = Some c →
  kvKey (rowKV e) = e.1 ∧ kvValue (rowKV e) = cVal c ∧ kvTimestampNano (rowKV e) = cTS c ∧
  IsDeleted (MaskedFlags (rowKV e)) = cDel c ∧ 0 <= cTS c < 2 ^ 64 ∧
  (kvFlags (rowKV e) = 0 ∨ kvFlags (rowKV e) = 1).
Proof.
  unfold cellOf, rowKV. destruct (Parse e.2) as [[h app]| | |] eqn:Ep; try done.
  intros [= <-]. simpl. destruct (parse_range _ _ _ Ep) as (H1 & H2 & H3).
  split_and!; try done; try lia; [|apply Masked_01].
  unfold MaskedFlags, Masked, IsDeleted, FlagSyncMask, FlagDeleted. simpl.
  rewrite !land_1. pose proof (Z.mod_pos_bound (hFlags h) 2 ltac:(lia)).
  rewrite (Z.mod_small (hFlags h mod 2) 256) by lia. by rewrite !Z.mod_mod by lia.
Qed.

Lemma dumpRows_rowKV s l :
  FilterReadDBI s = None → Forall (λ e, is_Some (cellOf e.2)) l →
  dumpRows s false l = Ok (rowKV <$> l).
Proof.
  intros Hf. induction 1 as [|[k v] l [c Hc] _ IH]; [done|]. simpl in *. unfold cellOf in Hc.
  unfold rowKV at 1. simpl. destruct (Parse v) as [[h app]| | |]; try done. simpl.
  rewrite IH. simpl. unfold included. by rewrite Hf.
Qed.

Lemma rowKVs_written t n h :
  native_db t n h → Forall kv_written (rowKV <$> entries t h).
Proof using PL HL.
  intros H. apply Forall_fmap, Forall_forall. intros e He. simpl.
  pose proof (nd_rows _ _ _ H) as Hr. rewrite Forall_forall in Hr. destruct (Hr e He) as [Hk Hv].
  apply list_elem_of_In in He. destruct (nd_entry_cell _ _ _ _ H He) as (c & Hc & _).
  destruct (rowKV_cell e c Hc) as (E1 & E2 & E3 & _ & Hts & Hfl).
  apply kv_written_key.
  - unfold kv_ok. rewrite E1, E2, E3. split_and!; [done| |lia..].
    unfold cellOf in Hc. destruct (Parse e.2) as [[hd app]| | |] eqn:Ep; try done.
    injection Hc as <-. simpl. pose proof (parse_range _ _ _ Ep). lia.
  - rewrite E1. destruct (nd_keys _ _ _ H e.1) as [Hl _]; [by rewrite (nd_entry _ _ _ _ H He)|].
    intros E. rewrite E, zlen_nil in Hl. lia.
Qed.

(** What a node sends: every database that is not private. *)
Definition contentsOf (t : Txn) (names : list bytes) : list content :=
  omap (λ n, if HasPrefix n SyncDBIPrefix then None else contentOfDB t n <$> dbi_of t n) names.

Lemma dump_native s fuel t n h :
  FilterReadDBI s = None → native_db t n h → (length (entries t h) < fuel)%nat →
  ∃ d, readDBI s sizeHint fuel t n n false = Ok (t, d) ∧ dump_of (contentOfDB t n h) d.
Proof using PL HL Hhint.
  intros Hf H Hl. pose proof (nd_handle _ _ _ H) as Hh.
  pose proof (readDBI_ok s sizeHint Hhint fuel t n n h h false Hh Hh) as Hread.
  rewrite dumpRows_rowKV in Hread; [|done|].
  2: { apply Forall_forall. intros e He. apply list_elem_of_In in He.
       destruct (nd_entry_cell _ _ _ _ H He) as (c & Hc & _). by eexists. }
  pose proof (nd_uniq _ _ _ H) as Hu.
  destruct Hread as (d & E & Hd);
    [congruence|intros _; by eapply nd_nodup|exact (nd_len _ _ _ H)|exact (nd_flags _ _ _ H)
    |exact (nd_rows _ _ _ H)|done|].
  exists d. split; [done|]. unfold dumped in Hd. rewrite Hu in Hd.
  destruct Hd as (E1 & E2 & E3 & E4 & E5 & Hfo & Hcap). constructor; try done.
  - unfold pending. by rewrite E5, app_nil_r.
  - apply (nd_nonempty _ _ _ H).
  - apply (nd_size _ _ _ H).
  - by eapply rowKVs_written.
Qed.

(** Every database of the list is private or can be sent. *)
Definition sendable (fuel : nat) (t : Txn) (names : list bytes) : Prop :=
  ∀ n, n ∈ names → HasPrefix n SyncDBIPrefix = false →
    ∃ h, native_db t n h ∧ (length (entries t h) < fuel)%nat.

Lemma dumpDBIs_ok n fuel t names acc :
  schemaTracksChanges n = true → FilterReadDBI (nSyncer n) = None → sendable fuel t names →
  ∃ ds, dumpDBIs n sizeHint isCanceled fuel t names acc = Ok (t, acc ++ ds) ∧
    Forall2 dump_of (contentsOf t names) ds.
Proof using PL HL Hhint Hcan.
  intros Hs Hf. revert acc. induction names as [|dbi names IH]; intros acc Hall.
  - exists []. by rewrite app_nil_r.
  - assert (Hall' : sendable fuel t names) by (intros m Hm; apply Hall; by right).
    unfold contentsOf. cbn [omap list_omap]. fold (contentsOf t names).
    simpl. destruct (HasPrefix dbi SyncDBIPrefix) eqn:Ep.
    { destruct (IH acc Hall') as (ds & E & H). by exists ds. }
    destruct (Hall dbi) as (h & Hn & Hl); [by left|done|].
    destruct (dump_native (nSyncer n) fuel t dbi h Hf Hn Hl) as (d & E & Hd).
    rewrite Hs, E, (nd_handle _ _ _ Hn). cbn [wrap_err fmap option_fmap option_map].
    rewrite bind_ok, Hcan. destruct (IH (acc ++ [d]) Hall') as (ds & E' & Hds).
    exists (d :: ds). rewrite <- app_assoc in E'. split; [exact E'|]. by constructor.
Qed.

Lemma sendTxn_ok n fuel ts t :
  schemaTracksChanges n = true → FilterReadDBI (nSyncer n) = None → nReceiveOnly n = false →
  sendable fuel t (dbnames t) → (length (dbnames t) < fuel)%nat →
  ∃ ds, sendTxn n sizeHint isCanceled later fuel ts t = Ok (t, (uint64 (txn_ID t), ds)) ∧
    Forall2 dump_of (contentsOf t (dbnames t)) ds.
Proof using PL HL Hhint Hcan.
  intros Hs Hf Hr Hall Hl. unfold sendTxn. rewrite Hs, Hr. cbn [negb]. rewrite bind_ok.
  rewrite ReadDBINames_ok, bind_ok by done.
  destruct (dumpDBIs_ok n fuel t (dbnames t) [] Hs Hf Hall) as (ds & E & H).
  rewrite E, bind_ok. by exists ds.
Qed.

(** ** Loading *)

(** The content of a database, empty when it does not exist. *)
Definition dbOf (t : Txn) (n : bytes) : gmap bytes bytes :=
  match dbi_of t n with Some h => dbm t h | None => ∅ end.

(** The flags a created database gets keep what matters here. *)
Lemma created_flag f m :
  m = lmdb_DupSort ∨ m = LMDBIntegerKeyFlag →
  has_flag (Z.land (Z.lor lmdb_Create (uint16 f)) 0x7e) m = has_flag f m.
Proof.
  intros Hm. unfold has_flag, uint16. change (2 ^ 16) with (2 ^ Z.of_nat 16).
  rewrite <- Z.land_ones by lia.
  rewrite Z.land_lor_distr_l, Z.land_lor_distr_l, <- !Z.land_assoc.
  by destruct Hm as [-> | ->].
Qed.

Lemma create_has f : has_flag (Z.lor lmdb_Create (uint16 f)) lmdb_Create = true.
Proof.
  unfold has_flag, uint16. change (2 ^ 16) with (2 ^ Z.of_nat 16).
  rewrite <- Z.land_ones by lia. rewrite Z.land_lor_distr_l, <- Z.land_assoc.
  change (Z.land (Z.ones (Z.of_nat 16)) lmdb_Create) with 0. by rewrite Z.land_0_r, Z.lor_0_r.
Qed.

(** A received dump of a plain database. *)
Record content_ok (c : content) : Prop := MkContentOk {
  ck_name : HasPrefix (coName c) SyncDBIPrefix = false;
  ck_len : zlen (coName c) <= 511;
  ck_flags : 0 <= coFlags c < 2 ^ 64;
  ck_uniq : has_flag (coFlags c) lmdb_DupSort = false;
  ck_plain : coTransform c = [];
  ck_kvs : Forall kv_written (coKVs c);
  ck_keys : Forall (λ kv, zlen (kvKey kv) <= 511 ∧ kvKey kv ≠ []) (coKVs c);
  ck_width : has_flag (coFlags c) LMDBIntegerKeyFlag = true →
    Forall (λ kv, ∀ h, zlen (kvKey kv) = ksize h) (coKVs c);
}.

(** A receiver that can take it: its database, if it exists, has the same kind
    of keys and valid headers. *)
Definition accepts (t : Txn) (c : content) : Prop :=
  ∀ h, dbi_of t (coName c) = Some h →
    has_flag (dflags t h) lmdb_DupSort = false ∧
    has_flag (dflags t h) LMDBIntegerKeyFlag = has_flag (coFlags c) LMDBIntegerKeyFlag ∧
    headers_ok (dbm t h).

Definition only_db (t t' : Txn) (n : bytes) : Prop :=
  txn_ID t' = txn_ID t ∧ ∀ n', n' ≠ n → same t t' n'.

(** The database exists after [createTarget], with its content. *)
Lemma createTarget_ok n t c :
  schemaTracksChanges n = true → lcDBIOptions (sLC (nSyncer n)) !! coName c = None →
  content_ok c → accepts t c →
  ∃ t1 h, createTarget n t (coName c) (loadedDBI c) = Ok t1 ∧ dbi_of t1 (coName c) = Some h ∧
    uniq t1 h ∧ Forall (λ kv, key_ok t1 h (kvKey kv)) (coKVs c) ∧ headers_ok (dbm t1 h) ∧
    dbm t1 h = dbOf t (coName c) ∧ only_db t t1 (coName c).
Proof using HL.
  intros Hs Hopt Hc Hacc. unfold createTarget. rewrite DBIExists_ok, bind_ok.
  assert (Hkeys : ∀ t1 (h : DBIh),
    has_flag (dflags t1 h) LMDBIntegerKeyFlag = has_flag (coFlags c) LMDBIntegerKeyFlag →
    Forall (λ kv, key_ok t1 h (kvKey kv)) (coKVs c)).
  { intros t1 h Hi. pose proof (ck_keys _ Hc) as Hk. pose proof (ck_width _ Hc) as Hw.
    rewrite Forall_forall in *. intros kv Hin. destruct (Hk kv Hin) as [H1 H2]. split.
    - split; [|done]. destruct (kvKey kv); [done|]. rewrite zlen_cons.
      match goal with |- _ <= _ + zlen ?x => pose proof (zlen_nonneg x) end. lia.
    - intros Hf. rewrite Hi in Hf. by apply Hw. }
  unfold dbOf. destruct (dbi_of t (coName c)) as [h|] eqn:Eh.
  - rewrite bool_decide_eq_true_2 by (apply dbi_of_names; by rewrite Eh).
    destruct (Hacc h Eh) as (Hd & Hi & Hh). exists t, h.
    split_and!; [done|done|split; [by exists (coName c)|done]|by apply Hkeys|done|done|].
    split; [done|]. by intros n' _.
  - rewrite bool_decide_eq_false_2 by (rewrite <- dbi_of_names, Eh; by intros [? ?]).
    unfold createFlags. cbn [loadedDBI dName dFlags]. rewrite Hopt, Hs. cbn [negb].
    destruct (open_create t (coName c) (Z.lor lmdb_Create (uint16 (coFlags c))) Eh
      (create_has _)) as (t1 & h & -> & Hh & He & Hf & Hn & Ho & _ & Hid).
    rewrite bind_ok. exists t1, h.
    assert (Hm : dbm t1 h = ∅) by (unfold dbm; by rewrite He).
    split_and!; [done|done| | | |done|].
    + split; [by exists (coName c)|]. rewrite Hf, created_flag by auto. apply Hc.
    + apply Hkeys. rewrite Hf. apply created_flag. auto.
    + rewrite Hm. intros k v Hv. by rewrite lookup_empty in Hv.
    + split; [done|]. intros n' Hne. split; [by apply Hn|]. intros h' Hh'. by apply (Ho n').
Qed.

(** The configuration of the iterator of a load. *)
Definition loadCfg (n : Node) (t : Txn) (t0 : Z) (snap : Snapshot) : nativeCfg :=
  MkNativeCfg 0 (uint64 (txn_ID t)) (snFormatVersion snap)
    (lcHeaderExtraPaddingBlock (sLC (nSyncer n))) (deletedCutoff (nSyncer n) t0).

Definition stampedKVs (c : nativeCfg) (kvs : list KV) : list (nativeCfg * KV) :=
  (λ kv, (c, kv)) <$> kvs.

Lemma loadDBI_ok n fuel t0 snap t c :
  schemaTracksChanges n = true → lcDBIOptions (sLC (nSyncer n)) !! coName c = None →
  snFormatVersion snap = CurrentFormatVersion → snCompatVersion snap <= CurrentFormatVersion →
  0 < txn_ID t < 2 ^ 64 →
  content_ok c → accepts t c →
  Forall (λ kv, fresh (loadCfg n t t0 snap, kv)) (coKVs c) → (length (coKVs c) < fuel)%nat →
  ∃ t' h, loadDBI n isCanceled fuel t0 snap t (loadedDBI c) = Ok t' ∧
    dbi_of t' (coName c) = Some h ∧ only_db t t' (coName c) ∧
    dbm t' h = foldl mergeStamped (dbOf t (coName c))
                 (stampedKVs (loadCfg n t t0 snap) (coKVs c)).
Proof using PL HL Hcan.
  intros Hs Hopt Hfv Hcv Hid Hc Hacc Hfresh Hfuel. unfold loadDBI.
  change (dName (loadedDBI c)) with (coName c). rewrite (ck_name _ Hc), Hs.
  assert (ValidateTransform (loadedDBI c) (snFormatVersion snap) true = Ok tt) as ->.
  { unfold ValidateTransform. cbn [loadedDBI dTransform dFlags].
    rewrite (ck_plain _ Hc), (ck_uniq _ Hc), Hfv. done. }
  rewrite !bind_ok.
  destruct (createTarget_ok n t c Hs Hopt Hc Hacc)
    as (t1 & h & -> & Hh & Hu & Hk & Hok & Hdb & Hid1 & Hon). rewrite bind_ok.
  rewrite (open_existing t1 _ 0 h Hh), bind_ok, Hid1.
  set (cfg := loadCfg n t t0 snap) in *.
  assert (∃ it, NewNativeIterator (snFormatVersion snap) (snCompatVersion snap) (loadedDBI c) 0
    (uint64 (txn_ID t)) (deletedCutoff (nSyncer n) t0) = Ok it ∧
    (if lcHeaderExtraPaddingBlock (sLC (nSyncer n)) then setPaddingBlock it else it) =
      MkNative cfg (loadedDBI c) 0 false None emptyKV) as (it & -> & Eit).
  { unfold NewNativeIterator. rewrite Hfv, uint64_small by lia. eexists.
    rewrite (proj2 (Z.ltb_ge _ _)), (proj2 (Z.eqb_neq (txn_ID t) 0)) by lia. split; [reflexivity|].
    unfold cfg, loadCfg. rewrite Hfv, uint64_small by lia. by case_match. }
  rewrite wrap_err_ok, bind_ok. cbv zeta. rewrite Eit.
  assert (remains (ResetCursor (loadedDBI c)) (coKVs c)) as Hr.
  { pose proof (ck_len _ Hc). pose proof (ck_flags _ Hc).
    eapply remains_reset; [reflexivity|lia|lia|rewrite (ck_plain _ Hc), zlen_nil; lia|apply Hc]. }
  destruct (Update_ok (Sp := native_spec cfg) h fuel t1
    (MkNative cfg (loadedDBI c) 0 false None emptyKV) None (coKVs c))
    as (t' & -> & Hfr & Hres); [done|exact (new_native_at _ _ cfg Hr)|exact Hk| |done|].
  { clear -Hok Hfresh. revert Hok. generalize (dbm t1 h) as m. intros m.
    revert m. induction Hfresh as [|kv kvs Hkv Hf IH]; intros m Hm; [done|].
    destruct (mergeStamped_cells m (cfg, kv) [] Hm Hkv) as (Hm' & Hok' & _).
    split; [exact Hok'|]. apply IH. exact Hm'. }
  rewrite bind_ok, Hcan. exists t', h. destruct Hfr as (F1 & F2 & F3 & F4 & F5).
  split_and!; [done|by rewrite F3| |].
  - split; [congruence|]. intros n' Hne. destruct (Hon n' Hne) as [E1 E2]. split; [by rewrite F3|].
    intros h' Hh'. destruct (E2 h' Hh') as [<- <-]. rewrite F2. rewrite <- E1 in Hh'.
    split; [|done]. apply F1; intros ->; [by apply Hne, (dbi_of_inj t1 _ _ h)
      |by apply (dbi_of_root t1 n')].
  - rewrite Hres, Hdb. unfold stampedKVs. clear. generalize (dbOf t (coName c)) as m.
    induction (coKVs c) as [|kv kvs IH]; intros m; [done|]. simpl. apply IH.
Qed.

(** *** All databases of a snapshot *)

Lemma same_trans t1 t2 t3 n : same t1 t2 n → same t2 t3 n → same t1 t3 n.
Proof.
  intros [E1 H1] [E2 H2]. split; [congruence|]. intros h Hh. destruct (H1 h Hh) as [<- <-].
  apply H2. congruence.
Qed.

Lemma forEach_fmap {T A B} (f : T → B → outcome T) (g : A → B) t xs :
  forEach f t (g <$> xs) = forEach (λ t x, f t (g x)) t xs.
Proof.
  revert t. induction xs as [|x xs IH]; intros t; [done|]. simpl.
  by destruct (f t (g x)); simpl.
Qed.

(** Conditions on one dump of a snapshot and its target. *)
Record loadable (n : Node) (fuel : nat) (t0 : Z) (snap : Snapshot) (i : Z) (t : Txn) (c : content)
    : Prop := MkLoadable {
  lo_txn : txn_ID t = i;
  lo_content : content_ok c;
  lo_accepts : accepts t c;
  lo_fresh : Forall (λ kv, fresh (loadCfg n t t0 snap, kv)) (coKVs c);
  lo_fuel : (length (coKVs c) < fuel)%nat;
}.

Definition merged (n : Node) (t0 : Z) (snap : Snapshot) (t t' : Txn) (c : content) : Prop :=
  ∃ h, dbi_of t' (coName c) = Some h ∧
    dbm t' h = foldl mergeStamped (dbOf t (coName c)) (stampedKVs (loadCfg n t t0 snap) (coKVs c)).

Lemma dbOf_same t t' n : same t t' n → dbOf t' n = dbOf t n.
Proof.
  intros Hs. unfold dbOf. destruct (Hs) as [-> _]. destruct (dbi_of t n) eqn:E; [|done].
  by eapply dbm_same.
Qed.

Lemma accepts_same t t' c : same t t' (coName c) → accepts t c → accepts t' c.
Proof.
  intros Hs Ha h Hh. destruct (Hs) as [E1 E2]. rewrite E1 in Hh. destruct (Ha h Hh) as (H1 & H2 & H3).
  rewrite (dbm_same _ _ _ _ Hs Hh). by destruct (E2 h Hh) as [_ ->].
Qed.

Lemma loadCfg_txn n t t' t0 snap : txn_ID t' = txn_ID t → loadCfg n t' t0 snap = loadCfg n t t0 snap.
Proof. intros E. unfold loadCfg. by rewrite E. Qed.

Lemma loadDBIs_ok n fuel t0 snap t cs :
  schemaTracksChanges n = true → lcDBIOptions (sLC (nSyncer n)) = ∅ →
  snFormatVersion snap = CurrentFormatVersion → snCompatVersion snap <= CurrentFormatVersion →
  0 < txn_ID t < 2 ^ 64 → NoDup (coName <$> cs) →
  (∀ c, c ∈ cs → loadable n fuel t0 snap (txn_ID t) t c) →
  ∃ t', loadDBIs n isCanceled fuel t0 snap t (loadedDBI <$> cs) = Ok t' ∧
    (∀ c, c ∈ cs → merged n t0 snap t t' c) ∧ ∀ n', n' ∉ coName <$> cs → same t t' n'.
Proof using PL HL Hcan.
  intros Hs Hopt Hfv Hcv Hid Hnd Hall. unfold loadDBIs. rewrite forEach_fmap.
  remember (txn_ID t) as i eqn:Ei.
  destruct (forEach_ok coName (λ t c, loadDBI n isCanceled fuel t0 snap t (loadedDBI c))
    (λ t t' c, only_db t t' (coName c)) (merged n t0 snap) (loadable n fuel t0 snap i))
    with (xs := cs) (t := t) as (t' & E & Hpost & _ & Hinv); [| | | |done|done|].
  - intros t1 c [H1 H2 H3 H4 H5]. rewrite <- H1 in *.
    destruct (loadDBI_ok n fuel t0 snap t1 c) as (t2 & h & E & Hh & Ho & Hr); try done.
    { by rewrite Hopt, lookup_empty. }
    exists t2. split_and!; [done|done|]. by exists h.
  - intros t1 t2 c c' [Hi Ho] Hne []. constructor; try done; [congruence| |].
    + eapply accepts_same; [|done]. by apply Ho, not_eq_sym.
    + by rewrite (loadCfg_txn _ _ _ _ _ Hi).
  - intros t1 t2 t3 c c' [Hi Ho] Hne _ (h & Hh & Hm). exists h. split; [done|].
    rewrite Hm, (loadCfg_txn _ _ _ _ _ Hi), (dbOf_same t1 t2); [done|]. by apply Ho, not_eq_sym.
  - intros t1 t2 t3 c c' (h & Hh & Hm) [Hi Ho] Hne. destruct (Ho (coName c)) as [E1 E2]; [done|].
    exists h. split; [congruence|]. rewrite <- Hm. unfold dbm. by destruct (E2 h Hh) as [-> _].
  - exists t'. split_and!; [done|done|]. intros n' Hn'.
    apply (Hinv (λ t', same t t' n')); [done|]. intros t1 t2 c Hc [_ Ho] H1.
    eapply same_trans; [exact H1|]. apply Ho. intros ->. apply Hn'. by apply list_elem_of_fmap_2.
Qed.

(** ** What a load does to cells *)

(** Entries of the sender win where they are newer. *)
Definition joinCells (sent own : option cell) : option cell :=
  match sent with
  | Some a => Some (match own with Some b => amerge a b | None => a end)
  | None => own
  end.

Lemma stampCell_rowKV c e co :
  FormatVersion c = CurrentFormatVersion → cellOf e.2 = Some co → cell_ok co →
  stampCell (c, rowKV e) = co.
Proof.
  intros Hf Hc [Hts Hd]. destruct (rowKV_cell e co Hc) as (_ & E2 & E3 & E4 & _).
  unfold stampCell, entryCell, entryDel, headerFlags, headerTS. simpl.
  rewrite Hf, E2, E3. rewrite (proj2 (Z.eqb_neq _ _)) by lia.
  rewrite andb_false_r, E4. destruct co as [ts del val]. simpl in *.
  destruct del; [by rewrite Hd|done].
Qed.

Lemma fresh_rowKV c e co :
  cfg_ok c → FormatVersion c = CurrentFormatVersion → cellOf e.2 = Some co → cell_ok co →
  (cDel co = true → DeletedCutoff c <= cTS co) → fresh (c, rowKV e).
Proof.
  intros Hcfg Hf Hc [Hts Hd] Hst. destruct (rowKV_cell e co Hc) as (_ & E2 & E3 & E4 & Hr & _).
  unfold fresh, entry_ok, entryDel, headerFlags, stale. simpl. rewrite Hf, E2, E3, E4.
  rewrite andb_false_r, E4. split_and!; try done; try lia.
  destruct (cDel co); [|done]. simpl. apply Z.ltb_ge. by apply Hst.
Qed.

Lemma stamped_cells c (l : list (bytes * bytes)) k o :
  FormatVersion c = CurrentFormatVersion → NoDup l.*1 →
  (∀ e, e ∈ l → ∃ co, cellOf e.2 = Some co ∧ cell_ok co) →
  foldl putCell o (stampCell <$> at_key k (stampedKVs c (rowKV <$> l))) =
    joinCells ((list_to_map l : gmap bytes bytes) !! k ≫= cellOf) o.
Proof.
  intros Hf. revert o. induction l as [|e l IH]; intros o Hnd Hl; [done|].
  destruct (Hl e) as (co & Hco & Hok); [by left|].
  destruct (rowKV_cell e co Hco) as (Ek & _).
  assert (IH' := λ o, IH o (NoDup_cons_1_2 _ _ Hnd) (λ e' He', Hl e' (list_elem_of_further _ _ _ He'))).
  unfold stampedKVs, at_key in *. rewrite !fmap_cons, filter_cons.
  destruct e as [k0 v]. simpl in Ek, Hco, Hnd.
  destruct (decide (kvKey (c, rowKV (k0, v)).2 = k)) as [Hk|Hne]; simpl in *; rewrite Ek in *.
  - subst k0. rewrite lookup_insert_eq. simpl. rewrite Hco.
    rewrite (stampCell_rowKV c (k, v) co Hf Hco Hok), IH'.
    rewrite (not_elem_of_list_to_map_1 l k (NoDup_cons_1_1 _ _ Hnd)). by destruct o.
  - rewrite lookup_insert_ne by done. apply IH'.
Qed.

Lemma contentsOf_names t names :
  NoDup names → NoDup (coName <$> contentsOf t names) ∧
  ∀ n, n ∈ coName <$> contentsOf t names → n ∈ names.
Proof.
  induction names as [|m names IH]; intros Hnd; [split; [constructor|set_solver]|].
  destruct (IH (NoDup_cons_1_2 _ _ Hnd)) as [H1 H2]. unfold contentsOf. cbn [omap list_omap].
  fold (contentsOf t names).
  destruct (HasPrefix m SyncDBIPrefix); simpl; [split; [done|set_solver]|].
  destruct (dbi_of t m) as [h|]; simpl; [|split; [done|set_solver]].
  split; [|set_solver]. apply NoDup_cons_2; [|done]. intros Hm. by apply (NoDup_cons_1_1 _ _ Hnd), H2.
Qed.

Lemma contentsOf_elem t names c :
  c ∈ contentsOf t names ↔
  ∃ n h, n ∈ names ∧ HasPrefix n SyncDBIPrefix = false ∧ dbi_of t n = Some h ∧ c = contentOfDB t n h.
Proof.
  unfold contentsOf. rewrite list_elem_of_omap. split.
  - intros (n & Hn & E). destruct (HasPrefix n SyncDBIPrefix) eqn:Ep; [done|].
    destruct (dbi_of t n) as [h|] eqn:Eh; [|done]. injection E as <-. by exists n, h.
  - intros (n & h & Hn & Hp & Eh & ->). exists n. split; [done|]. by rewrite Hp, Eh.
Qed.

(** ** One snapshot *)

(** A node that sends its own headers. *)
Record native_node (n : Node) : Prop := MkNativeNode {
  nn_native : schemaTracksChanges n = true;
  nn_filter : FilterReadDBI (nSyncer n) = None;
  nn_sends : nReceiveOnly n = false;
  nn_options : lcDBIOptions (sLC (nSyncer n)) = ∅;
}.

(** A transaction that can be sent. *)
Record can_send (a : Node) (fuel : nat) (tsA : Z) (tA : Txn) : Prop := MkCanSend {
  cs_meta : meta_ok (newMeta a tsA 0);
  cs_txn : 0 <= txn_ID tA < 2 ^ 63;
  cs_names : (length (dbnames tA) < fuel)%nat;
  cs_dbs : sendable fuel tA (dbnames tA);
}.

(** A transaction that can take it: its databases have the same kind of keys,
    and no deletion of the sender is older than the retention of the
    receiver. *)
Record can_receive (b : Node) (t0 : Z) (tA tB : Txn) : Prop := MkCanReceive {
  cr_txn : 0 < txn_ID tB < 2 ^ 64;
  cr_accepts : ∀ n h, native_db tA n h → accepts tB (contentOfDB tA n h);
  cr_stale : ∀ n h k c, native_db tA n h → cells (dbm tA h) k = Some c → cDel c = true →
    deletedCutoff (nSyncer b) t0 <= cTS c;
  cr_width : ∀ n h, native_db tA n h → has_flag (dflags tA h) LMDBIntegerKeyFlag = true →
    ∀ h', ksize h' = ksize h;
}.

Lemma content_of_ok b t0 tA tB n h :
  can_receive b t0 tA tB → native_db tA n h → content_ok (contentOfDB tA n h).
Proof using PL HL.
  intros Hr H. constructor; simpl; [apply (nd_name _ _ _ H)|apply (nd_len _ _ _ H)
    |apply (nd_flags _ _ _ H)|apply (nd_uniq _ _ _ H)|done|by eapply rowKVs_written| |].
  - apply Forall_fmap, Forall_forall. intros e He%list_elem_of_In. simpl.
    destruct (nd_entry_cell _ _ _ _ H He) as (c & Hc & _).
    destruct (rowKV_cell e c Hc) as (-> & _).
    destruct (nd_keys _ _ _ H e.1) as [Hl _]; [by rewrite (nd_entry _ _ _ _ H He)|].
    split; [lia|]. intros E. rewrite E, zlen_nil in Hl. lia.
  - intros Hi. apply Forall_fmap, Forall_forall. intros e He%list_elem_of_In h'. simpl.
    destruct (nd_entry_cell _ _ _ _ H He) as (c & Hc & _).
    destruct (rowKV_cell e c Hc) as (-> & _). rewrite (cr_width _ _ _ _ Hr n h H Hi h').
    destruct (nd_keys _ _ _ H e.1) as [_ Hw]; [by rewrite (nd_entry _ _ _ _ H He)|]. by apply Hw.
Qed.

Lemma content_loadable b fuel t0 snap tA tB n h :
  can_receive b t0 tA tB → native_db tA n h → (length (entries tA h) < fuel)%nat →
  snFormatVersion snap = CurrentFormatVersion →
  loadable b fuel t0 snap (txn_ID tB) tB (contentOfDB tA n h).
Proof using PL HL.
  intros Hr H Hl Hf. constructor; [done|by eapply content_of_ok|by eapply cr_accepts| |
    by simpl; rewrite length_fmap].
  apply Forall_fmap, Forall_forall. intros e He%list_elem_of_In. simpl.
  destruct (nd_entry_cell _ _ _ _ H He) as (c & Hc & Hok).
  eapply fresh_rowKV; [|done|done|done|].
  - pose proof (cr_txn _ _ _ _ Hr). split; simpl; [lia|]. rewrite uint64_small; lia.
  - intros Hd. simpl. eapply (cr_stale _ _ _ _ Hr n h e.1 c H); [|done].
    unfold cells. rewrite (nd_entry _ _ _ _ H He). done.
Qed.

(** Merging the entries of a sent database, cell by cell. *)
Lemma merged_cells b fuel t0 snap tA tB n h k :
  native_db tA n h → snFormatVersion snap = CurrentFormatVersion →
  loadable b fuel t0 snap (txn_ID tB) tB (contentOfDB tA n h) →
  cells (foldl mergeStamped (dbOf tB n)
           (stampedKVs (loadCfg b tB t0 snap) (rowKV <$> entries tA h))) k =
    joinCells (cells (dbm tA h) k) (cells (dbOf tB n) k).
Proof using PL HL.
  intros Hn Hf [_ _ Hacc Hfr _]. simpl in Hfr.
  assert (Hok : headers_ok (dbOf tB n)).
  { unfold dbOf. destruct (dbi_of tB n) as [hb|] eqn:Eb; [by apply (Hacc hb)|].
    intros k' v Hv. by rewrite lookup_empty in Hv. }
  assert (Hfr' : Forall fresh (stampedKVs (loadCfg b tB t0 snap) (rowKV <$> entries tA h)))
    by by apply Forall_fmap.
  rewrite (proj2 (foldl_cells _ _ k Hok Hfr')).
  apply stamped_cells; [done|by eapply nd_nodup|]. intros e He. by eapply nd_entry_cell.
Qed.

(** The database transaction of a load: every database becomes the join of the
    sender's and the receiver's. *)
Lemma loadTxn_joins b fuel t0 tsB lastTxnID m tA tB :
  native_node b → sendable fuel tA (dbnames tA) → can_receive b t0 tA tB →
  ∃ tB' r, loadTxn b sizeHint isCanceled later fuel t0 tsB
      (MkSnapshot CurrentFormatVersion WriteCompatFormatVersion m
         (loadedDBI <$> contentsOf tA (dbnames tA))) lastTxnID tB = Ok (tB', r) ∧
    (∀ n, HasPrefix n SyncDBIPrefix = true → same tB tB' n) ∧
    ∀ n k, HasPrefix n SyncDBIPrefix = false →
      cells (dbOf tB' n) k = joinCells (cells (dbOf tA n) k) (cells (dbOf tB n) k).
Proof using PL DL HL Hhint Hcan.
  intros [Hb1 _ _ Hb4] Hd Hr. set (cs := contentsOf tA (dbnames tA)).
  set (snap := MkSnapshot _ _ m _). unfold loadTxn. rewrite Hb1. cbn [negb andb]. rewrite bind_ok.
  destruct (contentsOf_names tA (dbnames tA) (dbnames_nodup tA)) as [Hnd Hin].
  assert (Hdb : ∀ n h, HasPrefix n SyncDBIPrefix = false → dbi_of tA n = Some h →
    native_db tA n h ∧ (length (entries tA h) < fuel)%nat ∧ contentOfDB tA n h ∈ cs).
  { intros n h Hp Hh. assert (Hn : n ∈ dbnames tA) by (apply dbi_of_names; by rewrite Hh).
    destruct (Hd n Hn Hp) as (h' & Hnd' & Hl). pose proof (nd_handle _ _ _ Hnd').
    assert (h' = h) as -> by congruence. split_and!; [done|done|].
    apply contentsOf_elem. by exists n, h. }
  change (Databases snap) with (loadedDBI <$> cs).
  destruct (loadDBIs_ok b fuel t0 snap tB cs) as (tB' & -> & Hmg & Hrest); try done.
  - apply (cr_txn _ _ _ _ Hr).
  - intros c Hc. apply contentsOf_elem in Hc as (n & h & _ & Hp & Hh & ->).
    destruct (Hdb n h Hp Hh) as (? & ? & _). by apply content_loadable.
  - rewrite !bind_ok. exists tB'. eexists. split; [done|]. split.
    { intros n Hp. apply Hrest. intros (c & -> & Hc)%list_elem_of_fmap.
      apply contentsOf_elem in Hc as (n & h & _ & Hp' & _ & ->). simpl in Hp. congruence. }
    intros n k Hp. unfold dbOf at 2. destruct (dbi_of tA n) as [h|] eqn:Eh.
    + destruct (Hdb n h Hp Eh) as (Hn & Hl & Hc). destruct (Hmg _ Hc) as (h' & Hh' & E).
      unfold dbOf at 1. simpl in Hh'. rewrite Hh', E. eapply merged_cells; [done..|].
      apply (content_loadable b fuel t0 snap tA tB n h Hr Hn Hl eq_refl).
    + rewrite (dbOf_same tB tB' n); [done|]. apply Hrest. intros (c & -> & Hc)%list_elem_of_fmap.
      apply contentsOf_elem in Hc as (n & h & _ & _ & Hh & ->). simpl in Eh. congruence.
Qed.

(** ** Environments *)

(** Transactions see the committed state. *)
Class LMDBEnvLaws : Prop := {
  env_begin_same e ro ro' t t' :
    env_Begin e ro = Ok t → env_Begin e ro' = Ok t' → ∀ n, same t t' n;
  env_commit_same e t e' ro t' :
    env_Commit e t = Ok e' → env_Begin e' ro = Ok t' → ∀ n, same t t' n;
}.

Context `{EL : !LMDBEnvLaws}.

(** The environment does not fail: transactions begin and commit, and its
    information can be read. *)
Record env_works (others : Env → Env) (e : Env) (tr tw : Txn) : Prop := MkEnvWorks {
  ew_read : env_Begin e true = Ok tr;
  ew_write : env_Begin e false = Ok tw;
  ew_commit : ∀ t, ∃ e' i, env_Commit e t = Ok e' ∧ env_Info e' = Ok i;
  ew_info : ∃ i, env_Info (others e) = Ok i ∧ 0 <= i < 2 ^ 63;
}.

(** What one pass needs besides the environments: times, the store and the
    tables the node keeps. *)
Record pass : Type := MkPass {
  pAttempt : nat → option error;
  pInterrupted : nat → bool;
  pSent : Z;
  pDone : Z;
  pStart : Z;
  pLoaded : Z;
  pLastTxnID : Z;
  pNameInfo : NameInfo;
  pLastByInstance : gmap bytes Z;
}.

(** Instance [a] sends a snapshot; instance [b] loads what was stored. *)
Definition exchange (a b : Node) (others : Env → Env) (fuel : nat) (p : pass) (eA eB : Env)
    : outcome Env :=
  s ← SendOnce a sizeHint isCanceled later others (pAttempt p) (pInterrupted p) fuel eA
        (pSent p) (pDone p) (pLastByInstance p);
  match sentObject s with
  | None => Err (EMsg "nothing stored")
  | Some (_, out) =>
      snap ← LoadData out;
      '(eB, _, _, _) ← LoadOnce b sizeHint isCanceled later id fuel eB (instanceID a) snap
        (pNameInfo p) (pLastTxnID p) (pStart p) (pLoaded p) (pLastByInstance p);
      Ok eB
  end.

Lemma adjustTxnID_ok e txnID :
  (∃ i, env_Info e = Ok i ∧ 0 <= i < 2 ^ 63) → 0 <= txnID < 2 ^ 63 →
  ∃ i, adjustTxnID e txnID = Ok i ∧ 0 <= i < 2 ^ 63.
Proof using.
  intros (i & Ei & Hr) Ht. unfold adjustTxnID. rewrite Ei, bind_ok.
  rewrite uint64_small by lia. eexists. split; [done|]. case_if; lia.
Qed.

Lemma newMeta_ok a ts i : meta_ok (newMeta a ts 0) → 0 <= i < 2 ^ 63 → meta_ok (newMeta a ts i).
Proof using.
  intros (H1 & H2 & H3 & H4 & _ & H6 & H7) Hi. unfold meta_ok, newMeta in *. simpl in *.
  split_and!; try done; try lia; rewrite int64_small; lia.
Qed.

(** A send stores an object that loads as the content of the databases. *)
Lemma SendOnce_ok a others fuel p eA tA tAw :
  native_node a → env_works others eA tA tAw → can_send a fuel (pSent p) tA →
  pAttempt p 0%nat = None → 1 <= StorageRetryCount (nConf a) → (0 < fuel)%nat →
  ∃ s out m, SendOnce a sizeHint isCanceled later others (pAttempt p) (pInterrupted p) fuel eA
      (pSent p) (pDone p) (pLastByInstance p) = Ok s ∧
    sentObject s = Some (Name (sName (nSyncer a)) (instanceID a) generationID (pSent p), out) ∧
    LoadData out = Ok (MkSnapshot CurrentFormatVersion WriteCompatFormatVersion m
                         (loadedDBI <$> contentsOf tA (dbnames tA))).
Proof using PL DL GL HL Hhint Hcan.
  intros [Ha1 Ha2 Ha3 _] [Hr _ _ Hinfo] [Hm Ht Hn Hd] Hatt Hc Hfuel. unfold SendOnce, env_View.
  rewrite Ha1, Hr, bind_ok.
  destruct (sendTxn_ok a fuel (pSent p) tA Ha1 Ha2 Ha3 Hd Hn) as (ds & -> & Hds).
  rewrite !bind_ok. destruct (adjustTxnID_ok (others eA) (uint64 (txn_ID tA)) Hinfo)
    as (i & -> & Hi); [rewrite uint64_small; lia|]. rewrite bind_ok, Ha3. cbv zeta.
  destruct (dump_load (MkSnapshot CurrentFormatVersion WriteCompatFormatVersion
    (newMeta a (pSent p) i) ds) (contentsOf tA (dbnames tA))) as (s' & z & st & -> & El).
  { constructor; [done|done|by apply newMeta_ok|done]. }
  rewrite bind_ok. destruct fuel as [|fuel]; [lia|]. simpl.
  rewrite (proj2 (Z.ltb_lt _ _)) by lia. rewrite Hatt. simpl.
  eexists _, z, _. split; [done|]. simpl. split; [done|]. exact El.
Qed.

(** A whole pass joins every database into the receiver's. *)
Lemma exchange_ok a b others fuel p eA tA tAw eB tB tBw :
  native_node a → native_node b → env_works others eA tA tAw → env_works id eB tB tBw →
  can_send a fuel (pSent p) tA → can_receive b (pStart p) tA tBw →
  pAttempt p 0%nat = None → 1 <= StorageRetryCount (nConf a) → (0 < fuel)%nat →
  ∃ eB', exchange a b others fuel p eA eB = Ok eB' ∧
    ∀ ro tB', env_Begin eB' ro = Ok tB' →
      (∀ n, HasPrefix n SyncDBIPrefix = true → same tB tB' n) ∧
      ∀ n k, HasPrefix n SyncDBIPrefix = false →
        cells (dbOf tB' n) k = joinCells (cells (dbOf tA n) k) (cells (dbOf tB n) k).
Proof using PL DL GL HL EL Hhint Hcan.
  intros Ha Hb HeA [HrB HwB HcB HiB] Hs Hr Hatt Hc Hfuel. unfold exchange.
  destruct (SendOnce_ok a others fuel p eA tA tAw) as (s & out & m & -> & Eo & El); try done.
  rewrite bind_ok, Eo, El, bind_ok. unfold LoadOnce, env_Update. rewrite HwB, bind_ok.
  destruct (loadTxn_joins b fuel (pStart p) (pLoaded p) (pLastTxnID p) m tA tBw Hb
    (cs_dbs _ _ _ _ Hs) Hr) as (t1 & [i ch] & -> & Hpriv & Hcells).
  rewrite bind_ok. destruct (HcB t1) as (e1 & j & E1 & Ej). rewrite E1, !bind_ok. unfold adjustTxnID.
  change (id e1) with e1. rewrite Ej, !bind_ok. exists e1. split; [done|].
  intros ro tB' Hro. pose proof (env_begin_same _ _ _ _ _ HrB HwB) as S1.
  pose proof (env_commit_same _ _ _ _ _ E1 Hro) as S2. split.
  - intros n Hp. eapply same_trans; [apply S1|]. eapply same_trans; [by apply Hpriv|apply S2].
  - intros n k Hp. by rewrite (dbOf_same t1 tB'), Hcells, (dbOf_same tB tBw).
Qed.

(** C4: a snapshot sent with [SendOnce] and loaded with [LoadOnce] on another
    instance joins every database of the sender into the receiver's: at every
    key the newest cell of the two wins, databases the receiver does not have
    are created, and the private databases of the receiver are untouched. *)
Theorem snapshot_transfer a b others fuel p eA tA tAw eB tB tBw :
  native_node a → native_node b → env_works others eA tA tAw → env_works id eB tB tBw →
  can_send a fuel (pSent p) tA → can_receive b (pStart p) tA tBw →
  pAttempt p 0%nat = None → 1 <= StorageRetryCount (nConf a) → (0 < fuel)%nat →
  ∃ eB', exchange a b others fuel p eA eB = Ok eB' ∧
    ∀ ro tB', env_Begin eB' ro = Ok tB' →
      (∀ n, HasPrefix n SyncDBIPrefix = true → same tB tB' n) ∧
      ∀ n k, HasPrefix n SyncDBIPrefix = false →
        cells (dbOf tB' n) k = joinCells (cells (dbOf tA n) k) (cells (dbOf tB n) k).
Proof using PL DL GL HL EL Hhint Hcan. apply exchange_ok. Qed.

Lemma joinCells_comm a b :
  (∀ x y, a = Some x → b = Some y → compat x y) → joinCells a b = joinCells b a.
Proof using.
  intros H. destruct a, b; try done. simpl. f_equal. apply amerge_comm. by apply H.
Qed.

(** C3: two instances that load each other's snapshot hold the same entry,
    timestamp and deletion state at every key of every shared database,
    whatever each of them had, unless one key has a live empty value on one
    and a deletion on the other with the very same timestamp. *)
Theorem two_way_sync_converges a b fuel p q eA tA tAw eB tB tBw :
  native_node a → native_node b → env_works id eA tA tAw → env_works id eB tB tBw →
  can_send a fuel (pSent p) tA → can_receive b (pStart p) tA tBw →
  can_send b fuel (pSent q) tB → can_receive a (pStart q) tB tAw →
  pAttempt p 0%nat = None → pAttempt q 0%nat = None → (0 < fuel)%nat →
  1 <= StorageRetryCount (nConf a) → 1 <= StorageRetryCount (nConf b) →
  (∀ n k x y, cells (dbOf tA n) k = Some x → cells (dbOf tB n) k = Some y → compat x y) →
  ∃ eA' eB', exchange a b id fuel p eA eB = Ok eB' ∧ exchange b a id fuel q eB eA = Ok eA' ∧
    ∀ ro ro' tA' tB', env_Begin eA' ro = Ok tA' → env_Begin eB' ro' = Ok tB' →
      ∀ n k, HasPrefix n SyncDBIPrefix = false →
        cells (dbOf tA' n) k = cells (dbOf tB' n) k.
Proof using PL DL GL HL EL Hhint Hcan.
  intros Ha Hb HA HB Sa Rb Sb Ra Ap Aq Hf Ca Cb Hcompat.
  destruct (exchange_ok a b id fuel p eA tA tAw eB tB tBw) as (eB' & E1 & H1); try done.
  destruct (exchange_ok b a id fuel q eB tB tBw eA tA tAw) as (eA' & E2 & H2); try done.
  exists eA', eB'. split_and!; [done|done|]. intros ro ro' tA' tB' HtA HtB n k Hp.
  rewrite (proj2 (H1 _ _ HtB) n k Hp), (proj2 (H2 _ _ HtA) n k Hp).
  apply joinCells_comm. intros x y Hx Hy. intros T Vl. symmetry. symmetry in T, Vl. by eapply Hcompat.
Qed.
End transfer.

(** ** Witnesses on the reference environment *)

Section examples.
#[local] Existing Instances RefProto RefProto_laws RefDecoder RefDecoder_laws RefGzip RefGzip_laws
  Ref.RefLMDB Ref.RefView Ref.RefLMDB_laws RefEnv.

Lemma RefEnv_laws : LMDBEnvLaws.
Proof.
  split.
  - intros e ro ro' t t' [= <-] [= <-] n. split; [done|]. by intros h _.
  - intros e t e' ro t' [= <-] [= <-] n. case_bool_decide as Hc; [|by split].
    destruct e as [i dbs], t as [i' dbs']. simpl in *. subst dbs'. by split.
Qed.

#[local] Existing Instance RefEnv_laws.

(** An instance whose one database has two rows. *)
Definition exRecords : bytes := str "records".
Definition exState (i : Z) (l : list (bytes * bytes)) : @Txn Ref.RefLMDB :=
  Ref.MkTxn i {[ exRecords := Ref.MkDb 0 (list_to_map l) [] ]}.

Definition exRowsA : list (bytes * bytes) :=
  [(str "a", ex_value 100 0 (str "x")); (str "b", ex_value 300 0 (str "y"))].
Definition exRowsB : list (bytes * bytes) :=
  [(str "a", ex_value 200 1 []); (str "c", ex_value 10 0 (str "z"))].

Lemma exState_map i l : dbm (exState i l) (Some exRecords) = list_to_map l.
Proof. exact (Ref.sorted_map (Ref.MkDb 0 (list_to_map l) [])). Qed.

Lemma exState_db i l n h : dbi_of (exState i l) n = Some h → n = exRecords ∧ h = Some exRecords.
Proof.
  simpl. destruct (decide (n = exRecords)) as [->|Hne].
  - rewrite lookup_singleton_eq. by intros [= <-].
  - by rewrite lookup_singleton_ne.
Qed.

Definition exRow (k v : bytes) : Prop :=
  1 <= zlen k <= 511 ∧ ∃ c, cellOf v = Some c ∧ cell_ok c.

Lemma exState_native i l :
  (∀ k v, (list_to_map l : gmap bytes bytes) !! k = Some v → exRow k v) →
  Forall row_ok (entries (exState i l) (Some exRecords)) →
  zlen (content_msg (contentOfDB (exState i l) exRecords (Some exRecords))) <= MaxFieldLength →
  native_db (exState i l) exRecords (Some exRecords).
Proof.
  intros Hl Hrows Hsize. constructor; try done.
  - intros k [v Hv]. rewrite exState_map in Hv. split; [by eapply Hl|done].
  - intros k v Hv. rewrite exState_map in Hv. by eapply Hl.
Qed.

Lemma exState_names i l : dbnames (exState i l) = [exRecords].
Proof. done. Qed.

Lemma exState_send inst i l :
  native_db (exState i l) exRecords (Some exRecords) → 0 <= i < 2 ^ 63 →
  meta_ok (newMeta (exNode inst (str "db")) ex_ts 0) →
  (length (entries (exState i l) (Some exRecords)) < 9)%nat →
  can_send (exNode inst (str "db")) 9 ex_ts (exState i l).
Proof.
  intros Hn Hi Hm Hl. constructor; [done|done|rewrite exState_names; simpl; lia|].
  intros n Hin _. rewrite exState_names in Hin. apply list_elem_of_singleton in Hin as ->.
  by exists (Some exRecords).
Qed.

Lemma exState_receive inst i l j l' :
  0 < j < 2 ^ 63 →
  (∀ k v, (list_to_map l' : gmap bytes bytes) !! k = Some v → exRow k v) →
  can_receive (exNode inst (str "db")) 0 (exState i l) (exState j l').
Proof.
  intros Hj Hl. constructor; [simpl; lia| | |done].
  - intros n h Hn hb Hb. destruct (exState_db _ _ _ _ (nd_handle _ _ _ Hn)) as [-> ->].
    destruct (exState_db _ _ _ _ Hb) as [_ ->]. split_and!; [done|done|].
    rewrite exState_map. intros k v Hv. destruct (Hl k v Hv) as (_ & c & Hc & _). by rewrite Hc.
  - intros n h k c Hn Hc _. destruct (exState_db _ _ _ _ (nd_handle _ _ _ Hn)) as [-> ->].
    change (deletedCutoff _ 0) with 0. unfold cells in Hc.
    destruct (dbm (exState i l) (Some exRecords) !! k) as [v|] eqn:Ev; [|done].
    destruct (nd_cells _ _ _ Hn k v Ev) as (c' & Hc' & H0 & _). simpl in Hc. rewrite Hc' in Hc.
    injection Hc as <-. lia.
Qed.

Lemma exRowsA_ok k v : (list_to_map exRowsA : gmap bytes bytes) !! k = Some v → exRow k v.
Proof. revert k v. apply ex_two; (split; [done|]; eexists; split; [by vm_compute|done]). Qed.

Lemma exRowsB_ok k v : (list_to_map exRowsB : gmap bytes bytes) !! k = Some v → exRow k v.
Proof. revert k v. apply ex_two; (split; [done|]; eexists; split; [by vm_compute|done]). Qed.

Lemma exA_native i : native_db (exState i exRowsA) exRecords (Some exRecords).
Proof.
  apply exState_native; [apply exRowsA_ok|change (Forall row_ok exRowsA); repeat constructor; done|].
  by vm_compute.
Qed.

Lemma exB_native i : native_db (exState i exRowsB) exRecords (Some exRecords).
Proof.
  apply exState_native; [apply exRowsB_ok|change (Forall row_ok exRowsB); repeat constructor; done|].
  by vm_compute.
Qed.

Lemma exRows_compat n k x y :
  cells (dbOf (exState 9 exRowsA) n) k = Some x → cells (dbOf (exState 5 exRowsB) n) k = Some y →
  compat x y.
Proof.
  unfold dbOf, cells. destruct (dbi_of (exState 9 exRowsA) n) as [h|] eqn:Eh.
  2: { by rewrite lookup_empty. }
  destruct (exState_db _ _ _ _ Eh) as [-> ->]. change (dbi_of (exState 5 exRowsB) exRecords)
    with (Some (Some exRecords : @DBIh Ref.RefLMDB)). cbv iota. rewrite !exState_map.
  destruct (list_to_map exRowsA !! k) as [v|] eqn:Ev; [|done].
  revert k v Ev. apply (ex_two (λ k v, Some v ≫= cellOf = Some x →
    (list_to_map exRowsB : gmap bytes bytes) !! k ≫= cellOf = Some y → compat x y));
    intros Hx Hy; vm_compute in Hx, Hy; by simplify_eq.
Qed.

Definition exA : Node := exNode (str "a") (str "db").
Definition exB : Node := exNode (str "b") (str "db").
Definition exPass : pass :=
  MkPass (λ _, None) (λ _, false) ex_ts ex_ts 0 ex_ts 0 ex_ni ∅.

Lemma exNode_native inst : native_node (exNode inst (str "db")).
Proof. by constructor. Qed.

Lemma exA_send : can_send exA 9 ex_ts (exState 9 exRowsA).
Proof.
  apply exState_send; [apply exA_native|done| |vm_compute; lia].
  unfold meta_ok, small. by split_and!; vm_compute.
Qed.

Lemma exB_send : can_send exB 9 ex_ts (exState 5 exRowsB).
Proof.
  apply exState_send; [apply exB_native|done| |vm_compute; lia].
  unfold meta_ok, small. by split_and!; vm_compute.
Qed.

Lemma exState_works i l :
  0 <= i < 2 ^ 63 → env_works (EN := RefEnv) id (exState i l) (exState i l) (exState (i + 1) l).
Proof. intros Hi. constructor; [done|done| |by exists i]. intros t. by eexists _, _. Qed.

(** Both witnesses: A deletes nothing of B's and takes its newer deletion. *)
Lemma snapshot_transfer_witness : ∃ eB',
  exchange (λ _ _ _, 0) (λ _ _, false) id exA exB id 9 exPass (exState 9 exRowsA)
    (exState 5 exRowsB) = Ok eB' ∧
  cells (dbOf (eB' : @Txn Ref.RefLMDB) exRecords) (str "a") = Some (MkCell 200 true []) ∧
  cells (dbOf (eB' : @Txn Ref.RefLMDB) exRecords) (str "b") = Some (MkCell 300 false (str "y")).
Proof.
  destruct (snapshot_transfer (λ _ _ _, 0) (λ _ _, false) id) with
    (a := exA) (b := exB) (others := @id Ref.rtxn) (fuel := 9%nat) (p := exPass)
    (eA := exState 9 exRowsA) (tA := exState 9 exRowsA) (tAw := exState 10 exRowsA)
    (eB := exState 5 exRowsB) (tB := exState 5 exRowsB) (tBw := exState 6 exRowsB)
    as (eB' & E & H); [done|done|exact RefEnv_laws|apply exNode_native|apply exNode_native
    |by apply exState_works|by apply exState_works|apply exA_send
    |by apply exState_receive, exRowsB_ok|done|done|lia|].
  exists eB'. split; [exact E|].
  destruct (H true eB') as [_ Hc]; [by destruct eB'|].
  rewrite !Hc by done. unfold dbOf, exRecords. cbn [dbi_of Ref.RefView].
  split; by vm_compute.
Defined.

Lemma two_way_sync_converges_witness : ∃ eA' eB',
  exchange (λ _ _ _, 0) (λ _ _, false) id exA exB id 9 exPass (exState 9 exRowsA)
    (exState 5 exRowsB) = Ok eB' ∧
  exchange (λ _ _ _, 0) (λ _ _, false) id exB exA id 9 exPass (exState 5 exRowsB)
    (exState 9 exRowsA) = Ok eA' ∧
  ∀ k, cells (dbOf (eA' : @Txn Ref.RefLMDB) exRecords) k =
       cells (dbOf (eB' : @Txn Ref.RefLMDB) exRecords) k.
Proof.
  destruct (two_way_sync_converges (λ _ _ _, 0) (λ _ _, false) id) with
    (a := exA) (b := exB) (fuel := 9%nat) (p := exPass) (q := exPass)
    (eA := exState 9 exRowsA) (tA := exState 9 exRowsA) (tAw := exState 10 exRowsA)
    (eB := exState 5 exRowsB) (tB := exState 5 exRowsB) (tBw := exState 6 exRowsB)
    as (eA' & eB' & E1 & E2 & H); [done|done|exact RefEnv_laws|apply exNode_native|apply exNode_native
    |by apply exState_works|by apply exState_works|apply exA_send
    |by apply exState_receive, exRowsB_ok|apply exB_send|by apply exState_receive, exRowsA_ok
    |done|done|lia|done|done| |].
  - intros n k x y Hx Hy. apply exRows_compat with n k; done.
  - exists eA', eB'. split_and!; [exact E1|exact E2|]. intros k.
    apply (H true true); [by destruct eA'|by destruct eB'|done].
Defined.
End examples.
