(* ===== verification/Cluster.v ===== *)
(** * A cluster of instances (syncer/send.go and syncer/sync.go over one storage)

    Any number of instances with native databases share a storage.  In any order,
    applications write, instances send snapshots, load stored ones, and snapshots
    are removed.  Such a cluster implements a replicated last-writer-wins store:
    an instance knows a set of writes, a snapshot carries what its sender knew,
    and a load adds that to what the receiver knows.  Sweeping and shadow
    databases are not part of it. *)

From S2P Require Import Prelude Header Proto Kv Dbi Lmdb Strategy Iterators Convergence Config.
From S2P Require Import Shadow Name Snapshot Syncer Transfer.

(** ** Known writes *)

(** A write of a cell at a key of a database. *)
Definition write : Type := bytes * bytes * cell.

(** What a replica that knows the writes [K] holds at a key: the newest cell. *)
Definition newest (K : list write) (n k : bytes) (o : option cell) : Prop :=
  match o with
  | Some c => (n, k, c) ∈ K ∧ ∀ c', (n, k, c') ∈ K → older c' c = true
  | None => ∀ c, (n, k, c) ∉ K
  end.

(** No key has a live and a deleted cell with one timestamp and value. *)
Definition untied (K : list write) : Prop :=
  ∀ n k a b, (n, k, a) ∈ K → (n, k, b) ∈ K → compat a b.

Lemma newest_unique K n k o o' : untied K → newest K n k o → newest K n k o' → o = o'.
Proof.
  intros Hu. destruct o as [a|], o' as [b|]; simpl; [|naive_solver..|done].
  intros [Ha Hma] [Hb Hmb]. f_equal. eapply older_antisym; eauto.
Qed.

(** Only membership counts. *)
Definition same_writes (K K' : list write) : Prop := ∀ w, w ∈ K ↔ w ∈ K'.

#[export] Instance newest_proper : Proper (same_writes ==> eq ==> eq ==> eq ==> iff) newest.
Proof.
  intros K K' HK n _ <- k _ <- o _ <-. unfold same_writes in HK. unfold newest.
  destruct o; by setoid_rewrite HK.
Qed.

Lemma newest_join K K' n k o o' :
  newest K n k o → newest K' n k o' → newest (K ++ K') n k (joinCells o o').
Proof.
  intros H H'. destruct o as [a|], o' as [b|]; simpl in *; setoid_rewrite elem_of_app.
  - destruct H as [Ha Hm], H' as [Hb Hm']. unfold amerge. destruct (older a b) eqn:E.
    + split; [by right|]. intros c [Hc|Hc]; [eapply older_trans|]; eauto.
    + destruct (older_total a b) as [?|E']; [congruence|].
      split; [by left|]. intros c [Hc|Hc]; [|eapply older_trans]; eauto.
  - naive_solver.
  - naive_solver.
  - naive_solver.
Qed.

(** ** The specification *)

Record spec : Type := MkSpec {
  spKnown : gmap nat (list write);
  spObjects : gmap nat (list write);
  spNext : nat;
}.

(** [ws] are writes of the application while the operation runs. *)
Inductive label : Type :=
  | LWrite (i : nat) (ws : list write)
  | LSend (i id : nat) (ws : list write)
  | LLoad (i id : nat) (ws : list write)
  | LRemove (id : nat).

Inductive sstep : spec → label → spec → Prop :=
  | s_write s i K ws :
      spKnown s !! i = Some K →
      sstep s (LWrite i ws) (MkSpec (<[i := ws ++ K]> (spKnown s)) (spObjects s) (spNext s))
  | s_send s i K ws objs :
      spKnown s !! i = Some K → objs ⊆ spObjects s →
      sstep s (LSend i (spNext s) ws)
        (MkSpec (<[i := ws ++ K]> (spKnown s)) (<[spNext s := K]> objs) (S (spNext s)))
  | s_load s i id K K' ws :
      spKnown s !! i = Some K → spObjects s !! id = Some K' →
      sstep s (LLoad i id ws)
        (MkSpec (<[i := ws ++ K' ++ K]> (spKnown s)) (spObjects s) (spNext s))
  | s_remove s id :
      sstep s (LRemove id) (MkSpec (spKnown s) (delete id (spObjects s)) (spNext s)).

(** Runs of any step relation, the last step first. *)
Inductive runs {S : Type} (step : S → label → S → Prop) (s : S) : list label → S → Prop :=
  | runs_nil : runs step s [] s
  | runs_cons tr s1 l s2 : runs step s tr s1 → step s1 l s2 → runs step s (l :: tr) s2.

Definition label_writes (l : label) : list write :=
  match l with LWrite _ ws | LSend _ _ ws | LLoad _ _ ws => ws | LRemove _ => [] end.

Definition trace_writes (tr : list label) : list write := concat (label_writes <$> tr).

(** What some instance knows. *)
Definition known_anywhere (s : spec) (w : write) : Prop :=
  ∃ i K, spKnown s !! i = Some K ∧ w ∈ K.

(** *** Nothing is invented, nothing is lost *)

Definition only (W : write → Prop) (s : spec) : Prop :=
  (∀ i K w, spKnown s !! i = Some K → w ∈ K → W w) ∧
  (∀ id K w, spObjects s !! id = Some K → w ∈ K → W w).

Lemma sstep_only W s l s' :
  only W s → sstep s l s' → only (λ w, W w ∨ w ∈ label_writes l) s'.
Proof.
  intros [H1 H2]. destruct 1 as [s i K ws HK|s i K ws objs HK Ho|s i id K K' ws HK HK'|s id];
    split; cbn [spKnown spObjects label_writes]; intros j Kj w;
    rewrite ?lookup_insert_Some, ?lookup_delete_Some.
  - intros [[<- <-]|[_ Hj]]; rewrite ?elem_of_app; naive_solver.
  - naive_solver.
  - intros [[<- <-]|[_ Hj]]; rewrite ?elem_of_app; naive_solver.
  - intros [[<- <-]|[_ Hj]] Hw; left; [|eapply lookup_weaken in Hj; [|done]]; eauto.
  - intros [[<- <-]|[_ Hj]]; rewrite ?elem_of_app; naive_solver.
  - naive_solver.
  - naive_solver.
  - naive_solver.
Qed.

Lemma runs_only W s tr s' :
  only W s → runs sstep s tr s' → only (λ w, W w ∨ w ∈ trace_writes tr) s'.
Proof.
  intros H. induction 1 as [|tr s1 l s2 _ IH Hs]; [destruct H; split; naive_solver|].
  destruct (sstep_only _ _ _ _ IH Hs) as [H1 H2]. unfold trace_writes. cbn [fmap list_fmap concat].
  split; intros j K w HK Hw; [specialize (H1 _ _ _ HK Hw)|specialize (H2 _ _ _ HK Hw)];
    rewrite elem_of_app; unfold trace_writes in *; naive_solver.
Qed.

(** An instance keeps what it knows. *)
Lemma sstep_keeps s l s' i K :
  sstep s l s' → spKnown s !! i = Some K → ∃ K', spKnown s' !! i = Some K' ∧ K ⊆ K'.
Proof.
  assert (Hk : ∀ j Kj X, spKnown s !! j = Some Kj → Kj ⊆ X → spKnown s !! i = Some K →
      ∃ K', <[j := X]> (spKnown s) !! i = Some K' ∧ K ⊆ K').
  { intros j Kj X HK HX Hi. destruct (decide (j = i)) as [->|Hne].
    - exists X. rewrite lookup_insert_eq. split; [done|]. by simplify_eq.
    - exists K. by rewrite lookup_insert_ne. }
  destruct 1; simpl; [eapply Hk; [done|]; set_solver..|]. by exists K.
Qed.

Lemma runs_keep s tr s' i K :
  runs sstep s tr s' → spKnown s !! i = Some K → ∃ K', spKnown s' !! i = Some K' ∧ K ⊆ K'.
Proof.
  intros Hr HK. induction Hr as [|tr s1 l s2 _ IH Hs]; [by exists K|].
  destruct IH as (K1 & H1 & Hsub). destruct (sstep_keeps _ _ _ _ _ Hs H1) as (K2 & H2 & ?).
  exists K2. split; [done|]. by etrans.
Qed.

(** The instances are the same throughout. *)
Lemma runs_instances s tr s' i : runs sstep s tr s' → is_Some (spKnown s' !! i) → is_Some (spKnown s !! i).
Proof.
  induction 1 as [|tr s1 l s2 _ IH Hs]; [done|]. intros Hi. apply IH. revert Hi.
  destruct Hs; simpl; rewrite ?lookup_insert_is_Some'; naive_solver.
Qed.

(** Every write is known by some instance. *)
Lemma runs_known s tr s' w :
  runs sstep s tr s' → known_anywhere s w ∨ w ∈ trace_writes tr → known_anywhere s' w.
Proof.
  intros Hr. induction Hr as [|tr s1 l s2 _ IH Hs]; [intros [|?%not_elem_of_nil]; done|].
  unfold trace_writes. cbn [fmap list_fmap concat]. rewrite elem_of_app. intros Hw.
  assert (Hw' : known_anywhere s1 w ∨ w ∈ label_writes l) by (unfold trace_writes in IH; naive_solver).
  destruct Hw' as [(i & K & HK & Hin)|Hin].
  - destruct (sstep_keeps _ _ _ _ _ Hs HK) as (K' & HK' & Hsub). exists i, K'. set_solver.
  - destruct Hs as [s1 i K ws HK|s1 i K ws objs HK _|s1 i id K K' ws HK _|s1 id]; simpl in Hin;
      [exists i..|set_solver]; eexists; simpl; rewrite lookup_insert_eq; (split; [done|set_solver]).
Qed.

(** *** Exchanged snapshots *)

(** Since [s1], [tr] happened: a snapshot carries what its sender knew at [s1],
    and whoever loads it knows that. *)
Record passed_on (s1 : spec) (tr : list label) (s : spec) : Prop := MkPassedOn {
  po_ids id : is_Some (spObjects s !! id) → (id < spNext s)%nat;
  po_sent j id ws : LSend j id ws ∈ tr → (id < spNext s)%nat ∧
    ∀ Kj K, spKnown s1 !! j = Some Kj → spObjects s !! id = Some K → Kj ⊆ K;
  po_loaded i id ws : LLoad i id ws ∈ tr → (id < spNext s)%nat ∧
    ∀ j ws' Kj Ki, LSend j id ws' ∈ tr → spKnown s1 !! j = Some Kj → spKnown s !! i = Some Ki →
      Kj ⊆ Ki;
}.

(** Steps that only add to what is known keep it. *)
Lemma passed_on_grow s1 tr s l s' :
  passed_on s1 tr s → sstep s l s' → spNext s' = spNext s → spObjects s' ⊆ spObjects s →
  (∀ j id ws, l ≠ LSend j id ws) →
  (∀ i id ws, l = LLoad i id ws → (id < spNext s)%nat ∧
     ∀ j ws' Kj Ki, LSend j id ws' ∈ tr → spKnown s1 !! j = Some Kj → spKnown s' !! i = Some Ki →
       Kj ⊆ Ki) →
  passed_on s1 (l :: tr) s'.
Proof.
  intros [H1 H2 H3] Hs Hn Ho Hl Hll. split.
  - intros id [K HK]. rewrite Hn. apply H1. exists K. by eapply lookup_weaken.
  - intros j id ws Hin. apply elem_of_cons in Hin as [E|Hin]; [by destruct (Hl _ _ _ (eq_sym E))|].
    rewrite Hn. destruct (H2 _ _ _ Hin) as [Hid HK]. split; [done|]. intros Kj K Hj Hobj.
    eapply HK; [done|]. by eapply lookup_weaken.
  - intros i id ws Hin. rewrite Hn. setoid_rewrite elem_of_cons.
    apply elem_of_cons in Hin as [E|Hin].
    { destruct (Hll _ _ _ (eq_sym E)) as [Hid HK]. split; [done|].
      intros j ws' Kj Ki [E'|Hin'] ? ?; [by destruct (Hl _ _ _ (eq_sym E'))|]. by eapply HK. }
    destruct (H3 _ _ _ Hin) as [Hid HK]. split; [done|]. intros j ws' Kj Ki [E'|Hin'] Hj Hi.
    { by destruct (Hl _ _ _ (eq_sym E')). }
    destruct (spKnown s !! i) as [Ki'|] eqn:Ei.
    + destruct (sstep_keeps _ _ _ _ _ Hs Ei) as (Ki2 & E2 & Hsub). simplify_eq.
      etrans; [by eapply HK|done].
    + destruct Hs; simpl in *; [apply lookup_insert_Some in Hi as [[<- <-]|[_ Hi]]; congruence..|].
      congruence.
Qed.

Lemma runs_passed_on s1 tr s :
  (∀ id, is_Some (spObjects s1 !! id) → (id < spNext s1)%nat) → runs sstep s1 tr s →
  passed_on s1 tr s.
Proof.
  intros H0. induction 1 as [|tr sa l sb Hr IH Hs].
  { split; [done|by intros ? ? ? ?%not_elem_of_nil..]. }
  assert (Hs' := Hs). destruct Hs' as [sa i K ws HK|sa i K ws objs HK Ho|sa i id K K' ws HK HK'|sa id].
  - by apply (passed_on_grow s1 tr sa).
  - destruct IH as [H1 H2 H3]. split; simpl.
    + intros id. rewrite lookup_insert_is_Some'. intros [<-|[Kx Hx]]; [lia|].
      apply Nat.lt_lt_succ_r, H1. exists Kx. by eapply lookup_weaken.
    + intros j id ws' [[= -> -> ->]|Hin]%elem_of_cons.
      * split; [lia|]. intros Kj Kx Hj. rewrite lookup_insert_eq. intros [= <-].
        destruct (runs_keep _ _ _ _ _ Hr Hj) as (K2 & E2 & Hsub). by simplify_eq.
      * destruct (H2 _ _ _ Hin) as [Hid HKx]. split; [lia|]. intros Kj Kx Hj.
        rewrite lookup_insert_ne by lia. intros Hx. eapply HKx; [done|]. by eapply lookup_weaken.
    + intros i' id ws' [[=]|Hin]%elem_of_cons. destruct (H3 _ _ _ Hin) as [Hid HKx].
      split; [lia|]. intros j ws2 Kj Ki [[= -> -> ->]|Hin']%elem_of_cons Hj Hi; [lia|].
      apply lookup_insert_Some in Hi as [[<- <-]|[_ Hi]]; [|by eapply HKx].
      etrans; [by eapply HKx|]. set_solver.
  - apply (passed_on_grow s1 tr sa); try done. simpl. intros i' id' ws' [= <- <- <-].
    split; [by eapply po_ids|]. intros j ws2 Kj Ki Hin Hj. rewrite lookup_insert_eq. intros [= <-].
    destruct (po_sent _ _ _ IH _ _ _ Hin) as [_ Hsub]. specialize (Hsub Kj K' Hj HK'). set_solver.
  - apply (passed_on_grow s1 tr sa); try done. apply delete_subseteq.
Qed.

(** Every instance loaded a snapshot of every other one that was sent in [tr]. *)
Definition exchanged (nodes : gset nat) (tr : list label) : Prop :=
  ∀ i j, i ∈ nodes → j ∈ nodes → i ≠ j → ∃ id ws ws', LSend j id ws ∈ tr ∧ LLoad i id ws' ∈ tr.

(** A cluster at its start: nothing is stored. *)
Definition fresh_spec (known : gmap nat (list write)) : spec := MkSpec known ∅ 0.

Lemma exchanged_known known tr1 s1 tr2 s2 i K w :
  runs sstep (fresh_spec known) tr1 s1 → runs sstep s1 tr2 s2 →
  trace_writes tr2 = [] → exchanged (dom known) tr2 → spKnown s2 !! i = Some K →
  w ∈ K ↔ known_anywhere (fresh_spec known) w ∨ w ∈ trace_writes tr1.
Proof.
  intros Hr1 Hr2 Hq Hx Hi.
  assert (Hids : passed_on (fresh_spec known) tr1 s1).
  { apply runs_passed_on; [|done]. by intros id [? ?]. }
  split.
  - assert (Ho : only (known_anywhere (fresh_spec known)) (fresh_spec known)).
    { split; simpl; [intros j Kj v Hj Hv; by exists j, Kj|by intros id Kx v]. }
    pose proof (runs_only _ _ _ _ (runs_only _ _ _ _ Ho Hr1) Hr2) as [H _]. intros Hw.
    destruct (H _ _ _ Hi Hw) as [|Hw2]; [done|]. rewrite Hq in Hw2. by apply not_elem_of_nil in Hw2.
  - intros Hw. destruct (runs_known _ _ _ _ Hr1 Hw) as (j & Kj & Hj & Hin).
    destruct (decide (i = j)) as [<-|Hne].
    + destruct (runs_keep _ _ _ _ _ Hr2 Hj) as (K' & Hi' & Hsub). simplify_eq. by apply Hsub.
    + destruct (Hx i j) as (id & ws & ws' & Hs & Hl); [| |done|].
      { apply elem_of_dom. eapply (runs_instances (fresh_spec known)); [done|].
        eapply runs_instances; [exact Hr2|by eexists]. }
      { apply elem_of_dom. eapply (runs_instances (fresh_spec known)); [done|by eexists]. }
      pose proof (runs_passed_on s1 tr2 s2 (po_ids _ _ _ Hids) Hr2) as Hp.
      destruct (po_loaded _ _ _ Hp _ _ _ Hl) as [_ HK]. by apply (HK j ws Kj K).
Qed.

(** ** Writes of an application *)

Definition cellsOf (ws : list write) (n k : bytes) : list cell :=
  snd <$> filter (λ w, w.1 = (n, k)) ws.

Lemma newest_other K n k o w : w.1 ≠ (n, k) → newest K n k o → newest (w :: K) n k o.
Proof.
  intros Hw. destruct w as [[n' k'] c0]. destruct o as [c|]; simpl.
  - intros [H1 H2]. split; [by right|]. intros c' [E|H]%elem_of_cons; [by simplify_eq|eauto].
  - intros H c [E|Hc]%elem_of_cons; [by simplify_eq|by eapply H].
Qed.

Lemma newest_written K ws n k o :
  newest K n k o → newest (ws ++ K) n k (foldl putCell o (cellsOf ws n k)).
Proof.
  revert K o. induction ws as [|w ws IH]; intros K o H; [done|].
  assert (Hp : same_writes ((w :: ws) ++ K) (ws ++ w :: K)) by (intros x; set_solver).
  rewrite Hp. unfold cellsOf. rewrite filter_cons. case_decide as Hw.
  - destruct w as [nk c]. simpl in Hw. subst nk. apply IH.
    apply (newest_join [(n, k, c)] K n k (Some c) o); [|done]. split; [by left|]. intros c' E%list_elem_of_singleton. injection E as ->. apply older_refl.
  - by apply IH, newest_other.
Qed.

(** ** The cluster *)

Section cluster.
Context `{P : CSProto} `{PL : !CSProtoLaws P} `{D : CSDecoder} `{DL : !CSDecoderLaws P D}.
Context `{G : Gzip} `{GL : !GzipLaws G}.
Context `{V : LMDBView} `{HL : !LMDBLaws L V} `{EN : !LMDBEnv L} `{EL : !LMDBEnvLaws}.
Context (sizeHint : Z → Z → bool → Z) (isCanceled : bytes → bool → bool) (later : Z → Z).
Hypothesis (Hhint : ∀ a b r, 0 <= sizeHint a b r).
Hypothesis (Hcan : ∀ n b, isCanceled n b = false).
Context (nodes : nat → Node) (fuel : nat).
Hypothesis (Hnative : ∀ i, native_node (nodes i)).

(** The content of a transaction, as known writes. *)
Definition holds (K : list write) (t : Txn) : Prop :=
  ∀ n k, HasPrefix n SyncDBIPrefix = false → newest K n k (cells (dbOf t n) k).

Definition env_holds (K : list write) (e : Env) : Prop :=
  ∀ ro t, env_Begin e ro = Ok t → holds K t.

(** An application writes cells; as native databases require, a cell it replaces
    is older. *)
Definition written (ws : list write) (t t' : Txn) : Prop :=
  ∀ n k, HasPrefix n SyncDBIPrefix = false →
    cells (dbOf t' n) k = foldl putCell (cells (dbOf t n) k) (cellsOf ws n k).

Definition writes (ws : list write) (e e' : Env) : Prop :=
  ∀ ro' t', env_Begin e' ro' = Ok t' → ∃ ro t, env_Begin e ro = Ok t ∧ written ws t t'.

(** A stored snapshot, and the transaction it was made from, which no operation
    reads. *)
Record object : Type := MkObject { obName : bytes; obData : bytes; obFrom : Txn }.

Record cluster : Type := MkCluster {
  clEnv : gmap nat Env;
  clStore : gmap nat object;
  clNext : nat;
}.

(** A store under an existing name replaces the object. *)
Definition storeObject (id : nat) (ob : object) (m : gmap nat object) : gmap nat object :=
  <[id := ob]> (filter (λ x, obName x.2 ≠ obName ob) m).

Inductive cstep : cluster → label → cluster → Prop :=
  | c_write c i e e' ws :
      clEnv c !! i = Some e → writes ws e e' →
      cstep c (LWrite i ws) (MkCluster (<[i := e']> (clEnv c)) (clStore c) (clNext c))
  | c_send c i e others p tA s name out ws :
      clEnv c !! i = Some e → env_Begin e true = Ok tA →
      can_send (nodes i) fuel (pSent p) tA →
      (∃ j, env_Info (others e) = Ok j ∧ 0 <= j < 2 ^ 63) → writes ws e (others e) →
      SendOnce (nodes i) sizeHint isCanceled later others (pAttempt p) (pInterrupted p) fuel e
        (pSent p) (pDone p) (pLastByInstance p) = Ok s →
      sentObject s = Some (name, out) →
      cstep c (LSend i (clNext c) ws)
        (MkCluster (<[i := sentEnv s]> (clEnv c))
           (storeObject (clNext c) (MkObject name out tA) (clStore c)) (S (clNext c)))
  | c_load c i id e others p ob tB snap from ni e' txnID ch lbi ws :
      clEnv c !! i = Some e → clStore c !! id = Some ob → env_Begin e false = Ok tB →
      can_receive (nodes i) (pStart p) (obFrom ob) tB → (∀ e, writes ws e (others e)) →
      LoadData (obData ob) = Ok snap →
      LoadOnce (nodes i) sizeHint isCanceled later others fuel e from snap ni
        (pLastTxnID p) (pStart p) (pLoaded p) (pLastByInstance p) = Ok (e', txnID, ch, lbi) →
      cstep c (LLoad i id ws) (MkCluster (<[i := e']> (clEnv c)) (clStore c) (clNext c))
  | c_remove c id :
      cstep c (LRemove id) (MkCluster (clEnv c) (delete id (clStore c)) (clNext c)).

(** ** Operations on known writes *)

Lemma written_holds K ws t t' : written ws t t' → holds K t → holds (ws ++ K) t'.
Proof using. intros Hw Hh n k Hp. rewrite (Hw n k Hp). by apply newest_written, Hh. Qed.

Lemma writes_holds K ws e e' : writes ws e e' → env_holds K e → env_holds (ws ++ K) e'.
Proof using.
  intros Hw Hh ro' t' Hb. destruct (Hw _ _ Hb) as (ro & t & Hb' & Hwr).
  eapply written_holds; [done|]. by eapply Hh.
Qed.

(** What a stored object loads as. *)
Definition snapshot_of (tA : Txn) (data : bytes) : Prop :=
  sendable fuel tA (dbnames tA) ∧
  ∃ m, LoadData data = Ok (MkSnapshot CurrentFormatVersion WriteCompatFormatVersion m
                             (loadedDBI <$> contentsOf tA (dbnames tA))).

Lemma SendOnce_stored i others p e tA s name out :
  env_Begin e true = Ok tA → can_send (nodes i) fuel (pSent p) tA →
  (∃ j, env_Info (others e) = Ok j ∧ 0 <= j < 2 ^ 63) →
  SendOnce (nodes i) sizeHint isCanceled later others (pAttempt p) (pInterrupted p) fuel e
    (pSent p) (pDone p) (pLastByInstance p) = Ok s →
  sentObject s = Some (name, out) → snapshot_of tA out ∧ sentEnv s = others e.
Proof using PL DL GL HL Hhint Hcan Hnative.
  intros Hb [Hm Ht Hn Hd] Hinfo. destruct (Hnative i) as [Ha1 Ha2 Ha3 _].
  unfold SendOnce, env_View. rewrite Ha1, Hb, bind_ok.
  destruct (sendTxn_ok sizeHint isCanceled later Hhint Hcan (nodes i) fuel (pSent p) tA Ha1 Ha2 Ha3 Hd Hn)
    as (ds & -> & Hds).
  rewrite !bind_ok. destruct (adjustTxnID_ok (others e) (uint64 (txn_ID tA)) Hinfo)
    as (j & -> & Hj); [rewrite uint64_small; lia|]. rewrite bind_ok, Ha3. cbv zeta.
  destruct (dump_load (MkSnapshot CurrentFormatVersion WriteCompatFormatVersion
    (newMeta (nodes i) (pSent p) j) ds) (contentsOf tA (dbnames tA))) as (s' & z & st & -> & El).
  { constructor; [done|done|by apply newMeta_ok|done]. }
  rewrite bind_ok. destruct (storeLoop _ _ _ _ _ _) as [r| | |]; [|done..].
  rewrite bind_ok. intros [= <-]. simpl. destruct r; [|done]. intros [= <- <-].
  split; [|done]. split; [done|]. by eexists.
Qed.

Lemma LoadOnce_holds K K' i others p e tB ob snap from ni e' txnID ch lbi ws :
  env_holds K e → holds K' (obFrom ob) → snapshot_of (obFrom ob) (obData ob) →
  env_Begin e false = Ok tB → can_receive (nodes i) (pStart p) (obFrom ob) tB →
  (∀ e, writes ws e (others e)) → LoadData (obData ob) = Ok snap →
  LoadOnce (nodes i) sizeHint isCanceled later others fuel e from snap ni
    (pLastTxnID p) (pStart p) (pLoaded p) (pLastByInstance p) = Ok (e', txnID, ch, lbi) →
  env_holds (ws ++ K' ++ K) e'.
Proof using PL DL HL EL Hhint Hcan Hnative.
  intros HK HK' [Hd [m El]] Hb Hr Hw El'. rewrite El in El'. injection El' as <-.
  unfold LoadOnce, env_Update. rewrite Hb, bind_ok.
  destruct (loadTxn_joins sizeHint isCanceled later Hhint Hcan (nodes i) fuel (pStart p) (pLoaded p)
    (pLastTxnID p) m (obFrom ob) tB (Hnative i) Hd Hr) as (t1 & [id0 ch0] & -> & _ & Hcells).
  rewrite bind_ok. destruct (env_Commit e t1) as [e1| | |] eqn:Ec; [|done..]. rewrite !bind_ok.
  destruct (adjustTxnID (others e1) id0) as [z| | |]; [|done..]. rewrite bind_ok.
  intros [= <- <- <- <-]. eapply writes_holds; [apply Hw|]. intros ro t Ht n k Hp.
  rewrite (dbOf_same t1 t n), Hcells by (done || by eapply env_commit_same).
  apply newest_join; [by apply HK'|by eapply HK].
Qed.

(** ** The cluster implements the specification *)

Record implements (c : cluster) (s : spec) : Prop := MkImplements {
  im_next : clNext c = spNext s;
  im_env : map_Forall2 (λ _ e K, env_holds K e) (clEnv c) (spKnown s);
  im_store : map_Forall2 (λ _ ob K, holds K (obFrom ob) ∧ snapshot_of (obFrom ob) (obData ob))
               (clStore c) (spObjects s);
}.

Lemma Forall2_lookup {A B} (R : nat → A → B → Prop) (m1 : gmap nat A) (m2 : gmap nat B) i x :
  map_Forall2 R m1 m2 → m1 !! i = Some x → ∃ y, m2 !! i = Some y ∧ R i x y.
Proof using. intros H Hx. specialize (H i). rewrite Hx in H. inversion H; eauto. Qed.

(** Objects that a store replaces are gone on both sides. *)
Lemma Forall2_filter {A B} (R : nat → A → B → Prop) (m1 : gmap nat A) (m2 : gmap nat B)
    (f : nat * A → Prop) `{∀ x, Decision (f x)} :
  map_Forall2 R m1 m2 →
  ∃ m2', m2' ⊆ m2 ∧ map_Forall2 R (filter f m1) m2'.
Proof using.
  intros HR. exists (filter (λ x, is_Some (filter f m1 !! x.1)) m2). split; [apply map_filter_subseteq|].
  intros i. pose proof (HR i) as Hi. destruct (filter f m1 !! i) as [x|] eqn:Ef.
  - apply map_lookup_filter_Some in Ef as Ef'. destruct Ef' as [E1 _]. rewrite E1 in Hi.
    inversion Hi as [? y Hxy E2 E3|]. rewrite (map_lookup_filter_Some_2 _ m2 i y); [by constructor|done|].
    simpl. by rewrite Ef.
  - rewrite map_lookup_filter_None_2; [constructor|]. right. intros y _. simpl. rewrite Ef. by intros [? ?].
Qed.

Lemma cstep_implements c l c' s :
  implements c s → cstep c l c' → ∃ s', sstep s l s' ∧ implements c' s'.
Proof using PL DL GL HL EL Hhint Hcan Hnative.
  intros [Hn He Hst] Hc. destruct Hc as [c i e e' ws Hi Hw
    |c i e others p tA s' name out ws Hi Hb Hs Hinfo Hw Hsend Hout
    |c i id e others p ob tB snap from ni e' txnID ch lbi ws Hi Hid Hb Hr Hw Hld Hload|c id].
  - destruct (Forall2_lookup _ _ _ _ _ He Hi) as (K & HK & Hh). eexists. split; [by apply s_write|].
    split; [done| |done]. apply map_Forall2_insert_2; [|done]. by eapply writes_holds.
  - destruct (Forall2_lookup _ _ _ _ _ He Hi) as (K & HK & Hh).
    destruct (SendOnce_stored i others p e tA s' name out) as [Hso Henv]; try done.
    destruct (Forall2_filter _ _ _ (λ x, obName x.2 ≠ name) Hst) as (objs & Hsub & Hf).
    exists (MkSpec (<[i := ws ++ K]> (spKnown s)) (<[spNext s := K]> objs) (S (spNext s))).
    rewrite Hn. split; [by apply s_send|]. rewrite <- Hn. split; [done| |]; simpl.
    + apply map_Forall2_insert_2; [|done]. rewrite Henv. by eapply writes_holds.
    + apply map_Forall2_insert_2; [|done]. split; [by eapply Hh|done].
  - destruct (Forall2_lookup _ _ _ _ _ He Hi) as (K & HK & Hh).
    destruct (Forall2_lookup _ _ _ _ _ Hst Hid) as (K' & HK' & Ho & Hso).
    eexists. split; [by eapply s_load|]. split; [done| |done].
    apply map_Forall2_insert_2; [|done]. by eapply LoadOnce_holds.
  - eexists. split; [apply s_remove|]. split; [done|done|]. by apply map_Forall2_delete.
Qed.

Lemma runs_implements c s tr c' :
  implements c s → runs cstep c tr c' → ∃ s', runs sstep s tr s' ∧ implements c' s'.
Proof using PL DL GL HL EL Hhint Hcan Hnative.
  intros H0. induction 1 as [|tr c1 l c2 _ (s1 & Hr & H1) Hs]; [exists s; by split; [apply runs_nil|]|].
  destruct (cstep_implements _ _ _ _ H1 Hs) as (s2 & Hs2 & H2).
  exists s2. split; [by eapply runs_cons|done].
Qed.

(** A cluster whose storage is empty and whose databases are described by
    [known]. *)
Definition starts (known : gmap nat (list write)) (c : cluster) : Prop :=
  clStore c = ∅ ∧ clNext c = 0%nat ∧ map_Forall2 (λ _ e K, env_holds K e) (clEnv c) known.

Lemma starts_implements known c : starts known c → implements c (fresh_spec known).
Proof using. intros (E1 & E2 & H). split; [done|done|]. rewrite E1. apply map_Forall2_empty. Qed.

(** C2: Any run of a cluster, with writes, sends, loads and removed snapshots in
    any order, is a run of the replicated store: what an instance holds at a key
    is the newest of the writes it knows, and a snapshot passes on what its
    sender knew. *)
Theorem cluster_implements_store known c0 tr c :
  starts known c0 → runs cstep c0 tr c →
  ∃ s, runs sstep (fresh_spec known) tr s ∧
    ∀ i e ro t, clEnv c !! i = Some e → env_Begin e ro = Ok t →
      ∃ K, spKnown s !! i = Some K ∧
        ∀ n k, HasPrefix n SyncDBIPrefix = false → newest K n k (cells (dbOf t n) k).
Proof using PL DL GL HL EL Hhint Hcan Hnative.
  intros H0 Hr. destruct (runs_implements _ _ _ _ (starts_implements _ _ H0) Hr) as (s & Hs & Him).
  exists s. split; [done|]. intros i e ro t Hi Hb.
  destruct (Forall2_lookup _ _ _ _ _ (im_env _ _ Him) Hi) as (K & HK & Hh). exists K. split; [done|].
  intros n k Hp. by eapply Hh.
Qed.

(** The writes there ever were. *)
Definition all_writes (known : gmap nat (list write)) (tr : list label) : list write :=
  concat (map_to_list known).*2 ++ trace_writes tr.

Lemma cluster_newest known c0 tr1 c1 tr2 c2 i e ro t n k :
  starts known c0 → runs cstep c0 tr1 c1 → runs cstep c1 tr2 c2 →
  trace_writes tr2 = [] → exchanged (dom known) tr2 →
  clEnv c2 !! i = Some e → env_Begin e ro = Ok t → HasPrefix n SyncDBIPrefix = false →
  newest (all_writes known tr1) n k (cells (dbOf t n) k).
Proof using PL DL GL HL EL Hhint Hcan Hnative.
  intros H0 Hr1 Hr2 Hq Hx Hi Hb Hp.
  destruct (runs_implements _ _ _ _ (starts_implements _ _ H0) Hr1) as (s1 & Hs1 & Him1).
  destruct (runs_implements _ _ _ _ Him1 Hr2) as (s2 & Hs2 & Him2).
  destruct (Forall2_lookup _ _ _ _ _ (im_env _ _ Him2) Hi) as (K & HK & Hh).
  assert (same_writes K (all_writes known tr1)) as <-; [|by eapply Hh].
  intros w. unfold all_writes.
  rewrite (exchanged_known known tr1 s1 tr2 s2 i K w), elem_of_app by done.
  apply or_iff_compat_r. unfold known_anywhere. simpl. rewrite list_elem_of_In, in_concat. split.
  - intros (j & Kj & Hj & Hw). exists Kj. rewrite <- !list_elem_of_In. split; [|done].
    apply list_elem_of_fmap. exists (j, Kj). split; [done|]. by apply elem_of_map_to_list.
  - intros (Kj & Hj & Hw). rewrite <- !list_elem_of_In in *.
    apply list_elem_of_fmap in Hj as ([j Kj'] & -> & Hj%elem_of_map_to_list). by exists j, Kj'.
Qed.

(** C1: When the applications stop writing and every instance loads a later
    snapshot of every other one, every instance holds, at every key of every
    shared database, the newest of all writes there ever were, and all of them
    hold the same, whatever happened before and in whichever order the snapshots
    are loaded. *)
Theorem cluster_converges known c0 tr1 c1 tr2 c2 i e ro t n k :
  starts known c0 → runs cstep c0 tr1 c1 → runs cstep c1 tr2 c2 →
  trace_writes tr2 = [] → exchanged (dom known) tr2 →
  clEnv c2 !! i = Some e → env_Begin e ro = Ok t → HasPrefix n SyncDBIPrefix = false →
  newest (all_writes known tr1) n k (cells (dbOf t n) k) ∧
  (untied (all_writes known tr1) → ∀ j e' ro' t',
     clEnv c2 !! j = Some e' → env_Begin e' ro' = Ok t' →
     cells (dbOf t' n) k = cells (dbOf t n) k).
Proof using PL DL GL HL EL Hhint Hcan Hnative.
  intros H0 Hr1 Hr2 Hq Hx Hi Hb Hp.
  assert (Hn : ∀ j e' ro' t', clEnv c2 !! j = Some e' → env_Begin e' ro' = Ok t' →
    newest (all_writes known tr1) n k (cells (dbOf t' n) k)) by (intros; by eapply cluster_newest).
  split; [by eapply Hn|]. intros Hu j e' ro' t' Hj Hb'.
  eapply newest_unique; [done|by apply (Hn j e' ro')|by apply (Hn i e ro)].
Qed.

(** ** Steps that can be taken *)

Lemma writes_none e : writes [] e e.
Proof using. intros ro t Hb. exists ro, t. by split. Qed.

Lemma send_enabled c i e p tA tAw :
  clEnv c !! i = Some e → env_works id e tA tAw → can_send (nodes i) fuel (pSent p) tA →
  pAttempt p 0%nat = None → 1 <= StorageRetryCount (nConf (nodes i)) → (0 < fuel)%nat →
  ∃ out, snapshot_of tA out ∧
    let ob := MkObject (Name (sName (nSyncer (nodes i))) (instanceID (nodes i)) generationID (pSent p))
                out tA in
    cstep c (LSend i (clNext c) []) (MkCluster (<[i := e]> (clEnv c))
      (storeObject (clNext c) ob (clStore c)) (S (clNext c))).
Proof using PL DL GL HL Hhint Hcan Hnative.
  intros Hi Hw Hs Ha Hc Hf.
  destruct (SendOnce_ok sizeHint isCanceled later Hhint Hcan (nodes i) id fuel p e tA tAw)
    as (s & out & m & E & Eo & El); try done.
  destruct (SendOnce_stored i id p e tA s _ out (ew_read _ _ _ _ Hw) Hs (ew_info _ _ _ _ Hw) E Eo)
    as [Hso Henv].
  change (id e) with e in Henv. exists out. split; [done|]. rewrite <- Henv.
  eapply c_send; [done|apply Hw|done|apply Hw|apply writes_none|done|done].
Qed.

Lemma load_enabled c i id0 e p ob tB tBw :
  clEnv c !! i = Some e → clStore c !! id0 = Some ob → snapshot_of (obFrom ob) (obData ob) →
  env_works id e tB tBw → can_receive (nodes i) (pStart p) (obFrom ob) tBw →
  ∃ e', cstep c (LLoad i id0 []) (MkCluster (<[i := e']> (clEnv c)) (clStore c) (clNext c)).
Proof using PL DL HL Hhint Hcan Hnative.
  intros Hi Hid [Hd [m El]] [_ Hb Hcm _] Hr.
  destruct (loadTxn_joins sizeHint isCanceled later Hhint Hcan (nodes i) fuel (pStart p) (pLoaded p)
    (pLastTxnID p) m (obFrom ob) tBw (Hnative i) Hd Hr) as (t1 & [i1 ch] & E1 & _).
  destruct (Hcm t1) as (e1 & z & Ec & Ez). exists e1.
  eapply (c_load c i id0 e id p ob tBw _ [] (pNameInfo p)); try done; [intros; apply writes_none|].
  unfold LoadOnce, env_Update. rewrite Hb, bind_ok, E1, bind_ok, Ec, !bind_ok. unfold adjustTxnID.
  change (id e1) with e1. by rewrite Ez, !bind_ok.
Qed.
End cluster.

(** ** Two instances exchange their snapshots *)

Section examples.
#[local] Existing Instances RefProto RefProto_laws RefDecoder RefDecoder_laws RefGzip RefGzip_laws
  Ref.RefLMDB Ref.RefView Ref.RefLMDB_laws RefEnv RefEnv_laws.

Definition exNodes (i : nat) : Node := match i with O => exA | _ => exB end.

Definition exCluster : cluster :=
  MkCluster {[ 0%nat := exState 9 exRowsA; 1%nat := exState 5 exRowsB ]} ∅ 0.

Definition exWrites (l : list (bytes * bytes)) : list write :=
  omap (λ e, (λ c, (exRecords, e.1, c)) <$> cellOf e.2) l.

Definition exKnown : gmap nat (list write) :=
  {[ 0%nat := exWrites exRowsA; 1%nat := exWrites exRowsB ]}.

Lemma exWrites_elem l n k c :
  NoDup l.*1 → (n, k, c) ∈ exWrites l ↔ n = exRecords ∧ cells (list_to_map l) k = Some c.
Proof.
  intros Hn. unfold exWrites, cells. rewrite list_elem_of_omap. split.
  - intros ([k' v] & He & E). simpl in E. destruct (cellOf v) as [c'|] eqn:Ec; [|done].
    simplify_eq/=. split; [done|]. by rewrite (elem_of_list_to_map_1 _ _ _ Hn He).
  - intros [-> E]. destruct (list_to_map l !! k) as [v|] eqn:Ek; [|done]. simpl in E.
    exists (k, v). split; [by apply elem_of_list_to_map_2|]. simpl. by rewrite E.
Qed.

Lemma exState_holds i l : NoDup l.*1 → env_holds (exWrites l) (exState i l).
Proof.
  intros Hn ro t Ht n k Hp.
  assert (∃ j, t = exState j l) as [j ->] by (destruct ro; injection Ht as <-; by eexists).
  assert (E : ∀ j, dbOf (exState j l) n = if bool_decide (n = exRecords) then list_to_map l else ∅).
  { clear. intros j. unfold dbOf. destruct (dbi_of (exState j l) n) as [h|] eqn:Eh.
    - apply exState_db in Eh as [-> ->]. rewrite bool_decide_eq_true_2 by done. apply exState_map.
    - rewrite bool_decide_eq_false_2; [done|]. intros ->. by vm_compute in Eh. }
  rewrite E. case_bool_decide as Hr.
  - destruct (cells _ k) as [c|] eqn:Ec; simpl.
    + split; [by apply exWrites_elem|]. intros c' [_ E']%exWrites_elem; [|done].
      rewrite Ec in E'. injection E' as ->. apply older_refl.
    + intros c [_ E']%exWrites_elem; [|done]. congruence.
  - change (cells ∅ k) with (@None cell). intros c [? _]%exWrites_elem; done.
Qed.

Lemma exRows_nodup : NoDup exRowsA.*1 ∧ NoDup exRowsB.*1.
Proof. split; apply (bool_decide_unpack _); by vm_compute. Qed.

Lemma exCluster_starts : starts exKnown exCluster.
Proof.
  split_and!; [done|done|]. unfold exKnown, exCluster. simpl clEnv.
  apply map_Forall2_insert_2; [apply exState_holds, exRows_nodup|].
  apply map_Forall2_insert_2; [apply exState_holds, exRows_nodup|]. apply map_Forall2_empty.
Qed.

Definition exTrace : list label :=
  [LLoad 0 1 []; LLoad 1 0 []; LSend 1 1 []; LSend 0 0 []].

#[local] Notation exStep := (cstep (λ _ _ _, 0) (λ _ _, false) id exNodes 9).

Lemma exB_receives : can_receive exB 0 (exState 9 exRowsA) (exState 6 exRowsB).
Proof. by apply exState_receive, exRowsB_ok. Qed.

Lemma exA_receives : can_receive exA 0 (exState 5 exRowsB) (exState 10 exRowsA).
Proof. by apply exState_receive, exRowsA_ok. Qed.

Lemma exNodes_native i : native_node (exNodes i).
Proof. destruct i; apply exNode_native. Qed.

(** Both send, then each loads the snapshot of the other. *)
Lemma exTrace_runs : ∃ c2, runs exStep exCluster exTrace c2 ∧ is_Some (clEnv c2 !! 0%nat).
Proof.
  destruct (send_enabled (λ _ _ _, 0) (λ _ _, false) id ltac:(done) ltac:(done) exNodes 9
    exNodes_native exCluster 0 (exState 9 exRowsA) exPass (exState 9 exRowsA) (exState 10 exRowsA))
    as (outA & HA & S1); [done|by apply exState_works|apply exA_send|done|done|lia|].
  cbv zeta in S1. match type of S1 with context [storeObject _ ?o _] => set (obA := o) in S1 end.
  match type of S1 with exStep _ _ ?c => set (c1 := c) in S1 end.
  destruct (send_enabled (λ _ _ _, 0) (λ _ _, false) id ltac:(done) ltac:(done) exNodes 9
    exNodes_native c1 1 (exState 5 exRowsB) exPass (exState 5 exRowsB) (exState 6 exRowsB))
    as (outB & HB & S2); [done|by apply exState_works|apply exB_send|done|done|lia|].
  cbv zeta in S2. match type of S2 with context [storeObject _ ?o _] => set (obB := o) in S2 end.
  match type of S2 with exStep _ _ ?c => set (c2 := c) in S2 end.
  assert (E0 : clStore c2 !! 0%nat = Some obA).
  { unfold c2, storeObject. cbn [clStore]. rewrite lookup_insert_ne by done.
    apply map_lookup_filter_Some. split; [apply lookup_insert_eq|]. simpl. by vm_compute. }
  assert (E1 : clStore c2 !! 1%nat = Some obB) by apply lookup_insert_eq.
  destruct (load_enabled (λ _ _ _, 0) (λ _ _, false) id ltac:(done) ltac:(done) exNodes 9
    exNodes_native c2 1 0 (exState 5 exRowsB) exPass obA (exState 5 exRowsB) (exState 6 exRowsB))
    as (eB & S3); [apply lookup_insert_eq|exact E0|exact HA|exact (exState_works 5 exRowsB ltac:(lia))
      |exact exB_receives|].
  match type of S3 with exStep _ _ ?c => set (c3 := c) in S3 end.
  destruct (load_enabled (λ _ _ _, 0) (λ _ _, false) id ltac:(done) ltac:(done) exNodes 9
    exNodes_native c3 0 1 (exState 9 exRowsA) exPass obB (exState 9 exRowsA) (exState 10 exRowsA))
    as (eA & S4); [|exact E1|exact HB|exact (exState_works 9 exRowsA ltac:(lia))
      |exact exA_receives|].
  { unfold c3, c2, c1. cbn [clEnv]. do 2 (rewrite (lookup_insert_ne _ 1%nat 0%nat) by lia).
    apply lookup_insert_eq. }
  match type of S4 with exStep _ _ ?c => exists c end.
  split; [|cbn [clEnv]; rewrite lookup_insert_eq; by eexists].
  do 4 (eapply runs_cons; [|eassumption]). apply runs_nil.
Qed.

Lemma exKnown_dom i : i ∈ dom exKnown → i = 0%nat ∨ i = 1%nat.
Proof. unfold exKnown. rewrite !dom_insert_L. set_solver. Qed.

Lemma exTrace_exchanged : exchanged (dom exKnown) exTrace.
Proof.
  intros i j [-> | ->]%exKnown_dom [-> | ->]%exKnown_dom Hne; [done| | |done]; unfold exTrace;
    [exists 1%nat|exists 0%nat]; eexists _, _; rewrite !elem_of_cons; split; eauto 10.
Qed.

Lemma exAll_untied : untied (all_writes exKnown []).
Proof.
  assert (H : Forall (λ w, Forall (λ w', w.1 = w'.1 → compat w.2 w'.2) (all_writes exKnown []))
    (all_writes exKnown [])).
  { unfold compat. apply (bool_decide_unpack _). by vm_compute. }
  intros n k a b Ha Hb. rewrite Forall_forall in H. apply list_elem_of_In, H in Ha.
  rewrite Forall_forall in Ha. apply list_elem_of_In in Hb. exact (Ha _ Hb eq_refl).
Qed.

Lemma exNewest :
  newest (all_writes exKnown []) exRecords (str "a") (Some (MkCell 200 true [])).
Proof.
  split; [apply (bool_decide_unpack _); by vm_compute|]. intros c Hc.
  assert (H : Forall (λ w, w.1 = (exRecords, str "a") → older w.2 (MkCell 200 true []) = true)
    (all_writes exKnown [])) by (apply (bool_decide_unpack _); by vm_compute).
  rewrite Forall_forall in H. apply list_elem_of_In in Hc. exact (H _ Hc eq_refl).
Qed.

Lemma cluster_implements_store_witness : ∃ c2 s,
  runs exStep exCluster exTrace c2 ∧ runs sstep (fresh_spec exKnown) exTrace s.
Proof.
  destruct exTrace_runs as (c2 & Hr & _).
  destruct (cluster_implements_store (λ _ _ _, 0) (λ _ _, false) id ltac:(done) ltac:(done) exNodes 9
    exNodes_native exKnown exCluster exTrace c2 exCluster_starts Hr) as (s & Hs & _).
  by exists c2, s.
Defined.

Lemma cluster_converges_witness : ∃ c2 eA,
  runs exStep exCluster exTrace c2 ∧ clEnv c2 !! 0%nat = Some eA ∧
  ∀ t, env_Begin eA true = Ok t →
    cells (dbOf t exRecords) (str "a") = Some (MkCell 200 true []).
Proof.
  destruct exTrace_runs as (c2 & Hr & [eA HA]). exists c2, eA. split_and!; [done|done|].
  intros t Ht.
  destruct (cluster_converges (λ _ _ _, 0) (λ _ _, false) id ltac:(done) ltac:(done) exNodes 9
    exNodes_native exKnown exCluster [] exCluster exTrace c2 0 eA true t exRecords (str "a")
    exCluster_starts (runs_nil _ _) Hr eq_refl exTrace_exchanged HA Ht eq_refl) as [Hn _].
  eapply newest_unique; [exact exAll_untied|exact Hn|exact exNewest].
Defined.
End examples.
