(* ===== verification/Cleaner.v ===== *)
(** * The cleaner (syncer/cleaner/cleaner.go)

    Removes old snapshots of all instances from the storage.  The listing and
    the result of each deletion come from the storage backend, and the sort
    from a library whose ties are unspecified: they are parameters. *)

From Stdlib Require Import Sorted.
From stdpp Require Import sorting.
From S2P Require Import Prelude Config Name.

(** ** The worker *)

Record Worker : Type := MkWorker {
  wIgnored : gset bytes;
  wFirstSeen : gmap bytes Z;
  wConf : Cleanup;
  wLastByInstance : gmap bytes Z;
}.

Definition NewWorker (cc : Cleanup) : Worker := MkWorker ∅ ∅ cc ∅.

(** [maps.Copy] *)
Definition SetCommitted (w : Worker) (last : gmap bytes Z) : Worker :=
  MkWorker (wIgnored w) (wFirstSeen w) (wConf w) (last ∪ wLastByInstance w).

Definition GetCommitted (w : Worker) (instance : bytes) : Z :=
  default zeroTime (wLastByInstance w !! instance).

(** [slices.SortFunc] with a comparison of timestamps, newest first. *)
Definition newerFirst (a b : NameInfo) : Prop := niTimestamp b <= niTimestamp a.

Class SortFunc : Type := sortNewest : list NameInfo → list NameInfo.
Class SortFuncLaws (F : SortFunc) : Prop := {
  sort_perm l : Permutation (sortNewest l) l;
  sort_sorted l : StronglySorted newerFirst (sortNewest l);
}.

Section cleaner.
Context `{F : SortFunc}.
Context (reg : extensions) (Delete : bytes → option error).

(** The snapshots of a listing, and the names that are not to be parsed
    again. *)
Fixpoint scan (ignored : gset bytes) (names : list bytes) (acc : list NameInfo) (seen : gset bytes)
    : outcome (gset bytes * list NameInfo * gset bytes) :=
  match names with
  | [] => Ok (ignored, acc, seen)
  | name :: names =>
      if bool_decide (name ∈ ignored) then scan ignored names acc seen
      else match ParseName reg name with
      | Err _ => scan ({[name]} ∪ ignored) names acc seen
      | Ok ni =>
          if negb (bool_decide (Kind ni = KindSnapshot)) then scan ignored names acc seen
          else scan ignored names (acc ++ [ni]) ({[name]} ∪ seen)
      | Panic => Panic
      | Hang => Hang
      end
  end.

(** The first filter protects what was first seen recently. *)
Fixpoint protectRecent (conf : Cleanup) (now : Z) (firstSeen : gmap bytes Z) (inst : gset bytes)
    (l : list NameInfo) : gmap bytes Z * gset bytes * list NameInfo :=
  match l with
  | [] => (firstSeen, inst, [])
  | ni :: l =>
      match firstSeen !! FullName ni with
      | None => protectRecent conf now (<[FullName ni := now]> firstSeen) inst l
      | Some firstSeenTime =>
          if time_Sub now firstSeenTime <=? cuMustKeepInterval conf
          then protectRecent conf now firstSeen ({[InstanceID ni]} ∪ inst) l
          else let '(fs, si, r) := protectRecent conf now firstSeen inst l in (fs, si, ni :: r)
      end
  end.

(** The second filter keeps the newest of each instance, and lists it when the
    instance may be dead. *)
Fixpoint keepNewest (conf : Cleanup) (now : Z) (inst : gset bytes) (l : list NameInfo)
    : list NameInfo * list NameInfo :=
  match l with
  | [] => ([], [])
  | ni :: l =>
      if bool_decide (InstanceID ni ∈ inst)
      then let '(tooOld, r) := keepNewest conf now inst l in (tooOld, ni :: r)
      else
        let '(tooOld, r) := keepNewest conf now ({[InstanceID ni]} ∪ inst) l in
        if cuRemoveOldInstancesInterval conf <? time_Sub now (niTimestamp ni)
        then (ni :: tooOld, r) else (tooOld, r)
  end.

(** The calls of [Delete], and how many succeeded and failed. *)
Record Calls : Type := MkCalls { cNames : list bytes; nCleaned : Z; nError : Z }.

Definition deleteOne (c : Calls) (ni : NameInfo) : Calls :=
  match Delete (FullName ni) with
  | Some _ => MkCalls (cNames c ++ [FullName ni]) (nCleaned c) (nError c + 1)
  | None => MkCalls (cNames c ++ [FullName ni]) (nCleaned c + 1) (nError c)
  end.

Definition deleteStale (w : Worker) (c : Calls) (ni : NameInfo) : Calls :=
  let lastCommitted := GetCommitted w (InstanceID ni) in
  if lastCommitted <? niTimestamp ni then c else deleteOne c ni.

(** One run at time [now] on a listing. *)
Definition RunOnce (w : Worker) (now : Z) (ls : outcome (list bytes)) : outcome (Worker * Calls) :=
  if negb (cuEnabled (wConf w)) then Ok (w, MkCalls [] 0 0)
  else
    names ← ls;
    '(ignored, candidates, seen) ← scan (wIgnored w) names [] ∅;
    let firstSeen := filter (λ e, e.1 ∈ seen) (wFirstSeen w) in
    let candidates := sortNewest candidates in
    let '(firstSeen, inst, candidates) := protectRecent (wConf w) now firstSeen ∅ candidates in
    let '(tooOld, candidates) := keepNewest (wConf w) now inst candidates in
    let calls := foldl deleteOne (MkCalls [] 0 0) candidates in
    let calls := foldl (deleteStale w) calls tooOld in
    Ok (MkWorker ignored firstSeen (wConf w) (wLastByInstance w), calls).
End cleaner.

(** ** Listings *)

Section listing.
Context (reg : extensions).

Lemma scan_ok names : ∀ ignored acc seen, ∃ ignored',
  scan reg ignored names acc seen =
    Ok (ignored', acc ++ omap (snapOf reg ignored) names,
        list_to_set (FullName <$> omap (snapOf reg ignored) names) ∪ seen).
Proof.
  induction names as [|name names IH]; intros ignored acc seen.
  { exists ignored. simpl. by rewrite app_nil_r, (left_id_L ∅ (∪)). }
  assert (Hs : snapOf reg ignored name = snapOf reg ignored name) by done. unfold snapOf at 2 in Hs.
  cbn [scan omap list_omap]. rewrite !Hs. clear Hs.
  case_bool_decide as Hi; [apply IH|].
  destruct (ParseName_total reg name) as [[ni Hp]|[e Hp]]; rewrite Hp.
  - case_bool_decide; cbn [negb]; [|apply IH].
    destruct (IH ignored (acc ++ [ni]) ({[name]} ∪ seen)) as [ig' ->]. exists ig'.
    rewrite <- app_assoc. simpl. rewrite (ParseName_full _ _ _ Hp). do 2 f_equal. set_solver.
  - destruct (IH ({[name]} ∪ ignored) acc seen) as [ig' ->]. exists ig'.
    by rewrite (list_omap_ext (snapOf reg ({[name]} ∪ ignored)) (snapOf reg ignored) names names)
      by (apply Forall_Forall2_diag, Forall_forall; intros x _; apply snapOf_ignore; by eexists).
Qed.

End listing.

(** ** The filters *)

Section filters.
Context (conf : Cleanup) (now : Z).

(** First seen long enough ago to be considered. *)
Definition longSeen (firstSeen : gmap bytes Z) (name : bytes) : Prop :=
  ∃ t, firstSeen !! name = Some t ∧ cuMustKeepInterval conf < time_Sub now t.

Lemma protectRecent_spec l : ∀ fs inst fs' inst' r,
  NoDup (FullName <$> l) → protectRecent conf now fs inst l = (fs', inst', r) →
  sublist r l ∧
  (∀ x, x ∈ r → longSeen fs (FullName x)) ∧
  (∀ i, i ∈ inst' → i ∈ inst ∨ ∃ x, x ∈ l ∧ InstanceID x = i ∧ ¬ longSeen fs (FullName x)) ∧
  (∀ n t, fs' !! n = Some t → fs !! n = Some t ∨ t = now ∧ n ∈ FullName <$> l).
Proof.
  induction l as [|ni l IH]; intros fs inst fs' inst' r Hnd H; simpl in H.
  { simplify_eq. split_and!; [done|set_solver|auto|auto]. }
  pose proof (NoDup_cons_1_1 _ _ Hnd) as Hni. apply NoDup_cons_1_2 in Hnd.
  destruct (fs !! FullName ni) as [t0|] eqn:Et.
  - destruct (Z.leb_spec (time_Sub now t0) (cuMustKeepInterval conf)).
    + apply IH in H as (H1 & H2 & H3 & H4); [|done]. split_and!; [by constructor|done| |].
      * intros i Hi. destruct (H3 i Hi) as [Hi'|(x & Hx & Ei & Hl)]; [|right; exists x; set_solver].
        destruct (decide (i = InstanceID ni)) as [->|]; [|set_solver].
        right. exists ni. split_and!; [by left|done|]. intros (t & E & Hk). simplify_eq. lia.
      * intros n t E. destruct (H4 n t E) as [|[]]; [auto|]. right. set_solver.
    + destruct (protectRecent conf now fs inst l) as [[fs1 inst1] r1] eqn:Ep. simplify_eq.
      apply IH in Ep as (H1 & H2 & H3 & H4); [|done]. split_and!; [by constructor| | |].
      * intros x [->|Hx]%elem_of_cons; [|by apply H2]. by exists t0.
      * intros i Hi. destruct (H3 i Hi) as [Hi'|(x & Hx & ?)]; [auto|]. right. exists x. set_solver.
      * intros n t E. destruct (H4 n t E) as [|[]]; [auto|]. right. set_solver.
  - assert (Hfs : ∀ x, x ∈ l → longSeen (<[FullName ni := now]> fs) (FullName x) ↔
                               longSeen fs (FullName x)).
    { intros x Hx. unfold longSeen. rewrite lookup_insert_ne; [done|]. intros E. apply Hni.
      rewrite E. by apply list_elem_of_fmap_2. }
    apply IH in H as (H1 & H2 & H3 & H4); [|done]. split_and!; [by constructor| | |].
    + intros x Hx. apply Hfs; [|by apply H2]. by eapply elem_of_sublist.
    + intros i Hi. destruct (H3 i Hi) as [Hi'|(x & Hx & Ei & Hl)]; [auto|]. right. exists x.
      rewrite Hfs in Hl by done. set_solver.
    + intros n t E. destruct (H4 n t E) as [E'|[]]; [|right; set_solver].
      apply lookup_insert_Some in E' as [[<- <-]|[_ E']]; [|auto]. right. set_solver.
Qed.

Lemma keepNewest_sub l : ∀ inst old r,
  keepNewest conf now inst l = (old, r) → (∀ x, x ∈ old ∨ x ∈ r → x ∈ l) ∧
  (∀ x, x ∈ old → InstanceID x ∉ inst).
Proof.
  induction l as [|ni l IH]; intros inst old r H; simpl in H; [simplify_eq; set_solver|].
  case_bool_decide as Hi.
  - destruct (keepNewest conf now inst l) as [old1 r1] eqn:E. simplify_eq.
    apply IH in E as [H1 H2]. set_solver.
  - destruct (keepNewest conf now _ l) as [old1 r1] eqn:E. apply IH in E as [H1 H2].
    case_match; simplify_eq; set_solver.
Qed.

(** Of every instance that was not protected, the newest is not in the second
    list, and in the first only when it is too old. *)
Lemma keepNewest_top l : ∀ inst old r i,
  StronglySorted newerFirst l → NoDup (FullName <$> l) →
  keepNewest conf now inst l = (old, r) → i ∉ inst → (∃ x, x ∈ l ∧ InstanceID x = i) →
  ∃ top, top ∈ l ∧ InstanceID top = i ∧ FullName top ∉ FullName <$> r ∧
    (∀ x, x ∈ l → InstanceID x = i → niTimestamp x <= niTimestamp top) ∧
    (FullName top ∈ FullName <$> old →
       cuRemoveOldInstancesInterval conf < time_Sub now (niTimestamp top)).
Proof.
  induction l as [|ni l IH]; intros inst old r i Hs Hnd H Hi (x & Hx & Ex); [set_solver|].
  pose proof (NoDup_cons_1_1 _ _ Hnd) as Hni. apply NoDup_cons_1_2 in Hnd.
  apply StronglySorted_inv in Hs as [Hs Hall]. rewrite Forall_forall in Hall.
  assert (Hin : ∀ (old r : list NameInfo), (∀ x, x ∈ old ∨ x ∈ r → x ∈ l) →
    FullName ni ∉ FullName <$> old ∧ FullName ni ∉ FullName <$> r).
  { intros o q Hsub. split; intros (y & Ey & Hy)%list_elem_of_fmap; apply Hni; rewrite Ey;
      apply list_elem_of_fmap_2, Hsub; auto. }
  simpl in H. case_bool_decide as Hc.
  - destruct (keepNewest conf now inst l) as [old1 r1] eqn:E. simplify_eq.
    destruct (IH _ _ _ (InstanceID x) Hs Hnd E Hi) as (top & T1 & T2 & T3 & T4 & T5).
    { exists x. split; [|done]. apply elem_of_cons in Hx as [->|]; done. }
    exists top. split_and!; [by right|done| | |done].
    + rewrite fmap_cons, not_elem_of_cons. split; [|done]. intros Ef. apply Hni. rewrite <- Ef.
      by apply list_elem_of_fmap_2.
    + intros y [->|Hy]%elem_of_cons Ey; [|by apply T4]. congruence.
  - destruct (keepNewest conf now ({[InstanceID ni]} ∪ inst) l) as [old1 r1] eqn:E.
    destruct (keepNewest_sub _ _ _ _ E) as [Hsub _]. destruct (Hin _ _ Hsub) as [Ho Hr].
    destruct (decide (i = InstanceID ni)) as [->|Hne].
    + exists ni. split_and!; [by left|done|by case_match; simplify_eq| |].
      * intros y [->|Hy]%elem_of_cons Ey; [lia|]. by apply Hall, list_elem_of_In.
      * destruct (Z.ltb_spec (cuRemoveOldInstancesInterval conf) (time_Sub now (niTimestamp ni)));
          [done|]. simplify_eq. done.
    + destruct (IH _ _ _ i Hs Hnd E) as (top & T1 & T2 & T3 & T4 & T5); [set_solver| |].
      { exists x. split; [|done]. apply elem_of_cons in Hx as [->|]; [congruence|done]. }
      exists top. split_and!; [by right|done|by case_match; simplify_eq| |].
      * intros y [->|Hy]%elem_of_cons Ey; [congruence|by apply T4].
      * intros Ht. apply T5. case_match; simplify_eq; [|done].
        apply elem_of_cons in Ht as [Ef|]; [|done]. destruct Hni. rewrite <- Ef.
        by apply list_elem_of_fmap_2.
Qed.
End filters.

(** ** Runs *)

Lemma StronglySorted_sublist {A} (P : A → A → Prop) l l' :
  sublist l l' → StronglySorted P l' → StronglySorted P l.
Proof.
  induction 1 as [|x l l' Hs IH|x l l' Hs IH]; [done|..]; intros [H1 H2]%StronglySorted_inv; auto.
  constructor; [auto|]. rewrite Forall_forall in *. intros y Hy. apply H2.
  apply list_elem_of_In in Hy. apply list_elem_of_In. by eapply elem_of_sublist.
Qed.

Section runs.
Context `{F : SortFunc} `{FL : !SortFuncLaws F} (reg : extensions).

Lemma deleteOne_names Delete l c :
  cNames (foldl (deleteOne Delete) c l) = cNames c ++ (FullName <$> l) ∧
  nCleaned (foldl (deleteOne Delete) c l) + nError (foldl (deleteOne Delete) c l) =
    nCleaned c + nError c + zlen l.
Proof using.
  revert c. induction l as [|ni l IH]; intros c; simpl.
  { rewrite app_nil_r, zlen_nil. split; [done|lia]. }
  destruct (IH (deleteOne Delete c ni)) as [-> ->]. rewrite zlen_cons. unfold deleteOne.
  destruct (Delete (FullName ni)); simpl; rewrite <- app_assoc; split; try done; lia.
Qed.

(** The stale snapshots that are deleted. *)
Definition proven (w : Worker) (ni : NameInfo) : Prop :=
  niTimestamp ni <= GetCommitted w (InstanceID ni).

#[local] Instance proven_dec w ni : Decision (proven w ni) := decide (niTimestamp ni <= _).

Lemma deleteStale_filter Delete w l c :
  foldl (deleteStale Delete w) c l = foldl (deleteOne Delete) c (filter (proven w) l).
Proof using.
  revert c. induction l as [|ni l IH]; intros c; [done|]. cbn [foldl]. rewrite IH.
  rewrite filter_cons. unfold deleteStale, proven at 3. cbv zeta.
  destruct (Z.ltb_spec (GetCommitted w (InstanceID ni)) (niTimestamp ni)).
  - by rewrite decide_False by lia.
  - by rewrite decide_True by lia.
Qed.

(** A run, in terms of its intermediate lists. *)
Record run (w : Worker) (now : Z) (names : list bytes) (w' : Worker) (c : Calls)
    (l r1 old r2 : list NameInfo) (inst : gset bytes) : Prop := MkRun {
  rn_perm : Permutation l (omap (snapOf reg (wIgnored w)) names);
  rn_sorted : StronglySorted newerFirst l;
  rn_recent : protectRecent (wConf w) now
    (filter (λ e, e.1 ∈ (list_to_set (FullName <$> omap (snapOf reg (wIgnored w)) names) : gset bytes))
       (wFirstSeen w)) ∅ l = (wFirstSeen w', inst, r1);
  rn_newest : keepNewest (wConf w) now inst r1 = (old, r2);
  rn_calls : cNames c = (FullName <$> r2) ++ (FullName <$> filter (proven w) old);
  rn_count : nCleaned c + nError c = zlen (cNames c);
  rn_conf : wConf w' = wConf w;
}.

Lemma RunOnce_run Delete w now names :
  cuEnabled (wConf w) = true →
  ∃ w' c l r1 old r2 inst, RunOnce reg Delete w now (Ok names) = Ok (w', c) ∧
    run w now names w' c l r1 old r2 inst.
Proof using FL.
  intros He. unfold RunOnce. rewrite He, bind_ok. cbn [negb].
  destruct (scan_ok reg names (wIgnored w) [] ∅) as [ig' ->]. rewrite bind_ok.
  rewrite app_nil_l, (right_id_L ∅ (∪)). set (l0 := omap _ names).
  destruct (protectRecent _ _ _ _ _) as [[fs inst] r1] eqn:Ep.
  destruct (keepNewest _ _ _ _) as [old r2] eqn:Ek.
  eexists _, _, (sortNewest l0), r1, old, r2, inst. split; [done|].
  rewrite deleteStale_filter.
  pose proof (deleteOne_names Delete r2 (MkCalls [] 0 0)) as [E1 N1].
  pose proof (deleteOne_names Delete (filter (proven w) old)
    (foldl (deleteOne Delete) (MkCalls [] 0 0) r2)) as [E2 N2].
  constructor; try done; [apply sort_perm|apply sort_sorted|by rewrite E2, E1|].
  rewrite N2, N1, E2, E1. simpl. rewrite zlen_app. unfold zlen. rewrite !length_fmap. lia.
Qed.

Section one.
Context {w : Worker} {now : Z} {names : list bytes} {w' : Worker} {c : Calls}.
Context {l r1 old r2 : list NameInfo} {inst : gset bytes}.
Context (Hnd : NoDup names) (R : run w now names w' c l r1 old r2 inst).

Lemma run_nodup : NoDup (FullName <$> l).
Proof using Hnd R.
  rewrite (rn_perm _ _ _ _ _ _ _ _ _ _ R). by apply snaps_nodup.
Qed.

Lemma run_elem x : x ∈ l ↔ FullName x ∈ names ∧ snapOf reg (wIgnored w) (FullName x) = Some x.
Proof using R. rewrite (rn_perm _ _ _ _ _ _ _ _ _ _ R). apply snaps_elem. Qed.

Lemma run_r1 : sublist r1 l.
Proof using Hnd R.
  by destruct (protectRecent_spec _ _ _ _ _ _ _ _ run_nodup (rn_recent _ _ _ _ _ _ _ _ _ _ R)).
Qed.

(** Names determine the snapshots of a listing. *)
Lemma run_inj x y : x ∈ l → y ∈ l → FullName x = FullName y → x = y.
Proof using R. rewrite !run_elem. intros [_ Ex] [_ Ey] E. rewrite E in Ex. congruence. Qed.

(** Only snapshots of the first list are deleted. *)
Lemma run_deleted x : x ∈ l → FullName x ∈ cNames c → x ∈ r1.
Proof using Hnd R.
  intros Hx. rewrite (rn_calls _ _ _ _ _ _ _ _ _ _ R), elem_of_app.
  destruct (keepNewest_sub _ _ _ _ _ _ (rn_newest _ _ _ _ _ _ _ _ _ _ R)) as [Hsub _].
  assert (∀ y, y ∈ r1 → FullName x = FullName y → x ∈ r1) as Heq.
  { intros y Hy E. rewrite (run_inj x y); [done|done| |done]. eapply elem_of_sublist; [|exact run_r1]. done. }
  intros [(y & E & Hy)%list_elem_of_fmap|(y & E & Hy)%list_elem_of_fmap]; eapply Heq; try done;
    apply Hsub; [auto|]. left. by apply list_elem_of_filter in Hy as [_ ?].
Qed.

Lemma sub_mono a x y : x <= y → time_Sub a y <= time_Sub a x.
Proof using. unfold time_Sub. lia. Qed.

Lemma run_keeps x :
  x ∈ l →
  (∃ y, y ∈ l ∧ InstanceID y = InstanceID x ∧ FullName y ∉ cNames c) ∨
  (∀ y, y ∈ l → InstanceID y = InstanceID x →
     proven w y ∧ cuRemoveOldInstancesInterval (wConf w) < time_Sub now (niTimestamp y)).
Proof using FL Hnd R.
  intros Hx. destruct (decide (Exists (λ y, InstanceID y = InstanceID x ∧ FullName y ∉ cNames c) l))
    as [Hex|Hno].
  { left. apply Exists_exists in Hex as (y & Hy & ? & ?). exists y. split_and!; try done.
    by apply list_elem_of_In. }
  assert (Hall : ∀ y, y ∈ l → InstanceID y = InstanceID x → FullName y ∈ cNames c).
  { intros y Hy Ey. destruct (decide (FullName y ∈ cNames c)) as [|Hn]; [done|]. destruct Hno.
    apply Exists_exists. exists y. split; [by apply list_elem_of_In|done]. }
  assert (Hr1 : ∀ y, y ∈ l → InstanceID y = InstanceID x → y ∈ r1) by (intros; auto using run_deleted).
  destruct (protectRecent_spec _ _ _ _ _ _ _ _ run_nodup (rn_recent _ _ _ _ _ _ _ _ _ _ R))
    as (Hsub & Hlong & Hinst & _).
  assert (Hni : InstanceID x ∉ inst).
  { intros Hi. destruct (Hinst _ Hi) as [|(y & Hy & Ey & Hl)]; [set_solver|].
    apply Hl, Hlong. by apply Hr1. }
  destruct (keepNewest_top (wConf w) now r1 inst old r2 (InstanceID x))
    as (top & T1 & T2 & T3 & T4 & T5); [| |apply R|done|exists x; auto|].
  - eapply StronglySorted_sublist; [exact Hsub|apply R].
  - eapply sublist_NoDup; [apply run_nodup|]. by apply fmap_sublist.
  - assert (Htop : top ∈ l) by (by eapply elem_of_sublist).
    pose proof (Hall top Htop T2) as Hc. rewrite (rn_calls _ _ _ _ _ _ _ _ _ _ R), elem_of_app in Hc.
    destruct Hc as [|(z & Ez & Hz)%list_elem_of_fmap]; [done|].
    apply list_elem_of_filter in Hz as [Hp Hz].
    destruct (keepNewest_sub _ _ _ _ _ _ (rn_newest _ _ _ _ _ _ _ _ _ _ R)) as [Hs _].
    assert (z = top) as ->.
    { apply run_inj; [|done|done]. eapply elem_of_sublist; [|exact run_r1]. apply Hs. auto. }
    right. intros y Hy Ey. pose proof (T4 y (Hr1 y Hy Ey) Ey). split.
    + unfold proven in *. rewrite Ey, <- T2. lia.
    + pose proof (sub_mono now (niTimestamp y) (niTimestamp top)).
      assert (FullName top ∈ FullName <$> old) by by apply list_elem_of_fmap_2.
      specialize (T5 ltac:(done)). lia.
Qed.
End one.

(** C9: cleaning never removes the last snapshot of an instance, unless all of
    them are older than the configured interval and this instance has merged
    every one of them and committed the result in a snapshot of its own. *)
Theorem cleaning_keeps_every_instance Delete w now names name x :
  cuEnabled (wConf w) = true → NoDup names →
  name ∈ names → snapOf reg (wIgnored w) name = Some x →
  ∃ w' c, RunOnce reg Delete w now (Ok names) = Ok (w', c) ∧
    ((∃ name' y, name' ∈ names ∧ snapOf reg (wIgnored w) name' = Some y ∧
        InstanceID y = InstanceID x ∧ name' ∉ cNames c) ∨
     (∀ name' y, name' ∈ names → snapOf reg (wIgnored w) name' = Some y →
        InstanceID y = InstanceID x →
        niTimestamp y <= GetCommitted w (InstanceID y) ∧
        cuRemoveOldInstancesInterval (wConf w) < time_Sub now (niTimestamp y))).
Proof using FL.
  intros He Hnd Hn Hx.
  destruct (RunOnce_run Delete w now names He) as (w' & c & l & r1 & old & r2 & inst & E & R).
  exists w', c. split; [done|]. pose proof (snapOf_name _ _ _ _ Hx) as <-.
  destruct (run_keeps Hnd R x) as [(y & Hy & Ey & Hc)|Hall]; [by apply (run_elem R)|left|right].
  - apply (run_elem R) in Hy as [? ?]. by exists (FullName y), y.
  - intros name' y Hn' Hy Ey. pose proof (snapOf_name _ _ _ _ Hy) as <-.
    apply Hall; [by apply (run_elem R)|done].
Qed.

(** The states a worker goes through, with the runs so far. *)
Inductive reach : Worker → list (Z * list bytes) → Prop :=
  | reach_new cc : reach (NewWorker cc) []
  | reach_commit w h last : reach w h → reach (SetCommitted w last) h
  | reach_run Delete w h now names w' c :
      reach w h → NoDup names → cuEnabled (wConf w) = true →
      RunOnce reg Delete w now (Ok names) = Ok (w', c) → reach w' (h ++ [(now, names)]).

Lemma reach_seen w h n t :
  reach w h → wFirstSeen w !! n = Some t → ∃ names, (t, names) ∈ h ∧ n ∈ names.
Proof using FL.
  intros H. revert n t. induction H as [cc|w h last _ IH|Delete w h now names w' c _ IH Hnd He Hr];
    intros n t Hn; [done|by apply IH|].
  destruct (RunOnce_run Delete w now names He) as (w2 & c2 & l & r1 & old & r2 & inst & E & R).
  rewrite Hr in E. symmetry in E. simplify_eq.
  destruct (protectRecent_spec _ _ _ _ _ _ _ _ (run_nodup Hnd R) (rn_recent _ _ _ _ _ _ _ _ _ _ R))
    as (_ & _ & _ & Hfs).
  destruct (Hfs n t Hn) as [Hold|[-> Hl]].
  - apply map_lookup_filter_Some in Hold as [Hold _]. destruct (IH n t Hold) as (ns & ? & ?).
    exists ns. set_solver.
  - exists names. apply list_elem_of_fmap in Hl as (x & -> & Hx). apply (run_elem R) in Hx.
    set_solver.
Qed.

(** C23: a snapshot is deleted only when an earlier run, more than the
    configured interval ago, listed it already, so that an instance that
    started to download it could finish; a deletion only concerns snapshots of
    the listing. *)
Theorem deletion_is_delayed Delete w h now names w' c n :
  reach w h → NoDup names → cuEnabled (wConf w) = true →
  RunOnce reg Delete w now (Ok names) = Ok (w', c) → n ∈ cNames c →
  n ∈ names ∧ ∃ t earlier, (t, earlier) ∈ h ∧ n ∈ earlier ∧
    cuMustKeepInterval (wConf w) < time_Sub now t.
Proof using FL.
  intros Hre Hnd He Hr Hn.
  destruct (RunOnce_run Delete w now names He) as (w2 & c2 & l & r1 & old & r2 & inst & E & R).
  rewrite Hr in E. symmetry in E. simplify_eq.
  assert (∃ x, x ∈ r1 ∧ n = FullName x) as (x & Hx & ->).
  { destruct (keepNewest_sub _ _ _ _ _ _ (rn_newest _ _ _ _ _ _ _ _ _ _ R)) as [Hs _].
    rewrite (rn_calls _ _ _ _ _ _ _ _ _ _ R), elem_of_app in Hn.
    destruct Hn as [(x & -> & Hx)%list_elem_of_fmap|(x & -> & Hx)%list_elem_of_fmap]; exists x;
      (split; [|done]); apply Hs; [auto|]. left. by apply list_elem_of_filter in Hx as [_ ?]. }
  assert (x ∈ l) as Hxl by (eapply elem_of_sublist; [exact Hx|exact (run_r1 Hnd R)]).
  split; [by apply (run_elem R)|].
  destruct (protectRecent_spec _ _ _ _ _ _ _ _ (run_nodup Hnd R) (rn_recent _ _ _ _ _ _ _ _ _ _ R))
    as (_ & Hlong & _). destruct (Hlong x Hx) as (t & Ht & Hk).
  apply map_lookup_filter_Some in Ht as [Ht _].
  destruct (reach_seen w h _ t Hre Ht) as (earlier & ? & ?). by exists t, earlier.
Qed.
End runs.

(** ** A reference sort and witnesses *)

#[local] Instance newerFirst_dec : RelDecision newerFirst.
Proof. intros a b. unfold newerFirst. apply _. Defined.

Definition RefSort : SortFunc := merge_sort newerFirst.

Lemma RefSort_laws : SortFuncLaws RefSort.
Proof.
  assert (Total newerFirst) by (intros a b; unfold newerFirst; lia).
  assert (Transitive newerFirst) by (intros a b c; unfold newerFirst; lia).
  split; intros l; [apply merge_sort_Permutation|by apply StronglySorted_merge_sort; try apply _].
Qed.

Section examples.
#[local] Existing Instances RefSort RefSort_laws.

Definition exOld : bytes := str "db__a__20220102-030405-000000000__G1.pb.gz".
Definition exNew : bytes := str "db__a__20220102-040405-000000000__G1.pb.gz".
Definition exT0 : Z := 1641100000 * 10 ^ 9.
Definition exHour : Z := 3600 * 10 ^ 9.
Definition exConf : Cleanup := MkCleanup true exHour exHour (7 * 24 * exHour).
Definition noError : bytes → option error := λ _, None.

(** Runs at the given times on the given listings, and all deletions. *)
Definition exRuns (runs : list (Z * list bytes)) : outcome (Worker * list bytes) :=
  foldl (λ acc r, '(w, ds) ← acc;
                  '(w, c) ← RunOnce registeredExtensions noError w r.1 (Ok r.2);
                  Ok (w, ds ++ cNames c)) (Ok (NewWorker exConf, [])) runs.

(** the newest snapshot of an instance is deleted, and an older one kept,
    when the older one appeared in the storage later, as happens when several
    sites are synced. *)
Theorem newest_deleted_after_late_older :
  snd <$> exRuns [(exT0, [exNew]); (exT0 + 2 * exHour, [exOld; exNew]);
                  (exT0 + 2 * exHour + 60, [exOld; exNew])] = Ok [exNew] ∧
  InstanceID <$> ParseName registeredExtensions exOld =
    InstanceID <$> ParseName registeredExtensions exNew ∧
  (∃ t t', niTimestamp <$> ParseName registeredExtensions exOld = Ok t ∧
     niTimestamp <$> ParseName registeredExtensions exNew = Ok t' ∧ t < t').
Proof.
  split; [vm_compute; reflexivity|]. split; [vm_compute; reflexivity|].
  eexists _, _. split; [vm_compute; reflexivity|]. split; [vm_compute; reflexivity|done].
Qed.

Definition exWorker : Worker :=
  MkWorker ∅ {[ exOld := exT0; exNew := exT0 ]} exConf ∅.

Lemma ex_nodup : NoDup [exOld; exNew].
Proof. by apply (bool_decide_unpack _). Qed.

Lemma ex_snap : is_Some (snapOf registeredExtensions ∅ exOld).
Proof. eexists. vm_compute. reflexivity. Qed.

Lemma cleaning_keeps_every_instance_witness : ∃ w' c x,
  RunOnce registeredExtensions noError exWorker (exT0 + 2 * exHour) (Ok [exOld; exNew]) =
    Ok (w', c) ∧ snapOf registeredExtensions ∅ exOld = Some x ∧
  ((∃ name' y, name' ∈ [exOld; exNew] ∧ snapOf registeredExtensions ∅ name' = Some y ∧
      InstanceID y = InstanceID x ∧ name' ∉ cNames c) ∨
   (∀ name' y, name' ∈ [exOld; exNew] → snapOf registeredExtensions ∅ name' = Some y →
      InstanceID y = InstanceID x → niTimestamp y <= GetCommitted exWorker (InstanceID y) ∧
      7 * 24 * exHour < time_Sub (exT0 + 2 * exHour) (niTimestamp y))).
Proof.
  destruct ex_snap as [x Hx].
  destruct (cleaning_keeps_every_instance registeredExtensions noError exWorker (exT0 + 2 * exHour)
    [exOld; exNew] exOld x) as (w' & c & E & H); [reflexivity|exact ex_nodup|by left|exact Hx|].
  exists w', c, x. split; [exact E|]. split; [exact Hx|exact H].
Defined.

(** Two runs, the second of which deletes the older snapshot. *)
Lemma ex_two_runs : ∃ w1 c1 w2 c2,
  RunOnce registeredExtensions noError (NewWorker exConf) exT0 (Ok [exOld; exNew]) = Ok (w1, c1) ∧
  wConf w1 = exConf ∧
  RunOnce registeredExtensions noError w1 (exT0 + 2 * exHour) (Ok [exOld; exNew]) = Ok (w2, c2) ∧
  exOld ∈ cNames c2.
Proof.
  assert (Hb : (match RunOnce registeredExtensions noError (NewWorker exConf) exT0
                   (Ok [exOld; exNew]) with
    | Ok (w1, _) => match RunOnce registeredExtensions noError w1 (exT0 + 2 * exHour)
                           (Ok [exOld; exNew]) with
                    | Ok (_, c2) => bool_decide (exOld ∈ cNames c2) | _ => false end
    | _ => false end) = true) by (vm_compute; reflexivity).
  destruct (RunOnce_run registeredExtensions noError (NewWorker exConf) exT0 [exOld; exNew] eq_refl)
    as (w1 & c1 & l & r1 & old & r2 & inst & E & R). rewrite E in Hb.
  destruct (RunOnce _ _ w1 _ _) as [[w2 c2]| | |] eqn:E2; try done.
  exists w1, c1, w2, c2. split_and!; [exact E|apply R|exact E2|by apply bool_decide_eq_true in Hb].
Qed.

Lemma deletion_is_delayed_witness : ∃ t earlier w h,
  reach registeredExtensions w h ∧ (t, earlier) ∈ h ∧ exOld ∈ earlier ∧
  exHour < time_Sub (exT0 + 2 * exHour) t.
Proof.
  destruct ex_two_runs as (w1 & c1 & w2 & c2 & E1 & Ec & E2 & Hd).
  assert (Hr : reach registeredExtensions w1 ([] ++ [(exT0, [exOld; exNew])])).
  { eapply reach_run; [apply (reach_new _ exConf)|exact ex_nodup|reflexivity|exact E1]. }
  destruct (deletion_is_delayed registeredExtensions noError w1 _ (exT0 + 2 * exHour)
    [exOld; exNew] w2 c2 exOld Hr) as (_ & t & earlier & H1 & H2 & H3);
    [exact ex_nodup|rewrite Ec; reflexivity|exact E2|exact Hd|].
  exists t, earlier, w1, ([] ++ [(exT0, [exOld; exNew])]). rewrite Ec in H3.
  split; [exact Hr|]. split; [exact H1|]. split; [exact H2|exact H3].
Defined.
End examples.
