(* ===== verification/Trackers.v ===== *)
(** * Health trackers (status/healthtracker, status/starttracker)

    What the health checks report about the storage and about the start of the
    syncer, from the successes and failures tracked. *)

From S2P Require Import Prelude Config.

(** What a check returns: nil, a warning or an error. *)
Inductive health : Type := Healthy | Warning | Failing.

#[export] Instance health_eq_dec : EqDecision health.
Proof. solve_decision. Defined.

(** ** Repeated failures *)

Definition MinEvaluationInterval : Z := Second.
Definition MinErrorDuration : Z := 0.
Definition MinWarnDuration : Z := 0.

Definition HealthValidated (hc : HealthConfig) : HealthConfig :=
  MkHealth
    (if hcEvaluationInterval hc <? MinEvaluationInterval then MinEvaluationInterval
     else hcEvaluationInterval hc)
    (if hcErrorDuration hc <? MinErrorDuration then MinErrorDuration else hcErrorDuration hc)
    (if hcWarnDuration hc <? MinWarnDuration then MinWarnDuration else hcWarnDuration hc).

Record HealthTracker : Type := MkHealthTracker {
  htConfig : HealthConfig;
  htSequence : Z;
  htSince : Z;
  htLastErr : bytes;
}.

Definition NewHealthTracker (hc : HealthConfig) : HealthTracker :=
  MkHealthTracker (HealthValidated hc) 0 zeroTime [].

Definition AddFailure (ht : HealthTracker) (now : Z) (err : bytes) : HealthTracker :=
  let failures := htSequence ht in
  let since := if failures =? 0 then now else htSince ht in
  MkHealthTracker (htConfig ht) (uint32 (failures + 1)) since err.

Definition AddSuccess (ht : HealthTracker) : HealthTracker :=
  MkHealthTracker (htConfig ht) 0 (htSince ht) [].

(** The check [RegisterDuration] registers, with its message. *)
Definition checkDuration (ht : HealthTracker) (now : Z) : health * bytes :=
  let failingFor := time_Sub now (htSince ht) in
  if 0 <? htSequence ht then
    if hcErrorDuration (htConfig ht) <=? failingFor then (Failing, htLastErr ht)
    else if hcWarnDuration (htConfig ht) <=? failingFor then (Warning, htLastErr ht)
    else (Healthy, [])
  else (Healthy, []).

(** *** What it promises

    The specification is over the attempts made: their times and, for a
    failure, its error. *)
Record attempt : Type := MkAttempt { atTime : Z; atError : option bytes }.

Definition track (ht : HealthTracker) (a : attempt) : HealthTracker :=
  match atError a with Some err => AddFailure ht (atTime a) err | None => AddSuccess ht end.

(** The failures since the last success, in order. *)
Definition failingStep (fs : list attempt) (a : attempt) : list attempt :=
  match atError a with Some _ => fs ++ [a] | None => [] end.
Definition failing (l : list attempt) : list attempt := foldl failingStep [] l.

Definition reported (hc : HealthConfig) (l : list attempt) (now : Z) : health * bytes :=
  match failing l, list.last (failing l) with
  | first :: _, Some final =>
      let d := time_Sub now (atTime first) in
      if hcErrorDuration hc <=? d then (Failing, default [] (atError final))
      else if hcWarnDuration hc <=? d then (Warning, default [] (atError final))
      else (Healthy, [])
  | _, _ => (Healthy, [])
  end.

(** A tracker and the failures it stands for. *)
Record tracks (hc : HealthConfig) (ht : HealthTracker) (fs : list attempt) : Prop := MkTracks {
  tr_conf : htConfig ht = hc;
  tr_count : htSequence ht = zlen fs;
  tr_since : ∀ a, list.head fs = Some a → htSince ht = atTime a;
  tr_err : ∀ a, list.last fs = Some a → atError a = Some (htLastErr ht);
}.

Lemma track_ok hc ht fs a :
  tracks hc ht fs → zlen (failingStep fs a) < 2 ^ 32 →
  tracks hc (track ht a) (failingStep fs a).
Proof.
  intros [H1 H2 H3 H4] Hl. destruct a as [t [err|]]; unfold track, failingStep in *; simpl in *.
  - rewrite zlen_app, zlen_cons, zlen_nil in Hl. pose proof (zlen_nonneg fs).
    constructor; simpl; [done| | |].
    + rewrite H2, uint32_small, zlen_app, zlen_cons, zlen_nil by lia. lia.
    + intros a Ha. rewrite H2. destruct fs as [|b fs]; [by simplify_eq/=|].
      rewrite (proj2 (Z.eqb_neq _ _)); [by apply H3|].
      rewrite zlen_cons. pose proof (zlen_nonneg fs). lia.
    + intros a. rewrite last_snoc. by intros [= <-].
  - constructor; simpl; [done|by vm_compute|done|done].
Qed.

(** No prefix has [2^32] failures in a row. *)
Fixpoint counted (fs l : list attempt) : Prop :=
  match l with [] => True | a :: l => zlen (failingStep fs a) < 2 ^ 32 ∧ counted (failingStep fs a) l end.

Lemma tracks_all hc l : ∀ ht fs,
  tracks hc ht fs → counted fs l → tracks hc (foldl track ht l) (foldl failingStep fs l).
Proof.
  induction l as [|a l IH]; intros ht fs H Hc; [done|]. destruct Hc as [Hl Hc].
  apply IH; [by apply track_ok|done].
Qed.

(** C37: after any attempts, the check reports what the specification says:
    nothing when the last attempt succeeded, otherwise by how long ago the
    first failure after the last success was, with the last error (as long as
    fewer than [2^32] attempts failed in a row). *)
Theorem health_check_refines hc l now :
  counted [] l →
  checkDuration (foldl track (NewHealthTracker hc) l) now = reported (HealthValidated hc) l now.
Proof.
  intros Hc. destruct (tracks_all (HealthValidated hc) l (NewHealthTracker hc) [])
    as [E1 E2 E3 E4]; [by constructor|done|]. fold (failing l) in *.
  unfold checkDuration, reported. rewrite E1, E2.
  destruct (failing l) as [|first fs] eqn:Ef; [done|].
  rewrite (proj2 (Z.ltb_lt 0 _)) by (rewrite zlen_cons; pose proof (zlen_nonneg fs); lia).
  rewrite (E3 first eq_refl). destruct (list.last (first :: fs)) as [final|] eqn:El.
  - by rewrite (E4 final eq_refl).
  - by apply last_None in El.
Qed.

(** The count of failures is 32 bits wide: after [2^32] failures in a row the
    check is quiet again. *)
Lemma health_count_wraps ht now err :
  htSequence ht = 2 ^ 32 - 1 → checkDuration (AddFailure ht now err) now = (Healthy, []).
Proof. intros E. unfold checkDuration, AddFailure. simpl. by rewrite E. Qed.

(** ** The start *)

Definition StartValidated (sc : StartConfig) : StartConfig :=
  MkStart
    (if scEvaluationInterval sc <? MinEvaluationInterval then MinEvaluationInterval
     else scEvaluationInterval sc)
    (if scErrorDuration sc <? MinErrorDuration then MinErrorDuration else scErrorDuration sc)
    (if scWarnDuration sc <? MinWarnDuration then MinWarnDuration else scWarnDuration sc)
    (scReportHealthz sc) (scReportMetadata sc).

Record StartTracker : Type := MkStartTracker {
  stConfig : StartConfig;
  initialListing : bool;
  initialStore : bool;
  initialReceiveAndLoad : bool;
  stSince : Z;
}.

Definition NewStartTracker (sc : StartConfig) (now : Z) : StartTracker :=
  MkStartTracker (StartValidated sc) false false false now.

Definition SetPassedInitialListing (st : StartTracker) : StartTracker :=
  MkStartTracker (stConfig st) true (initialStore st) (initialReceiveAndLoad st) (stSince st).
Definition SetPassedInitialStore (st : StartTracker) : StartTracker :=
  MkStartTracker (stConfig st) (initialListing st) true (initialReceiveAndLoad st) (stSince st).
Definition SetPassCompleted (st : StartTracker) : StartTracker :=
  if negb (initialReceiveAndLoad st)
  then MkStartTracker (stConfig st) (initialListing st) (initialStore st) true (stSince st)
  else st.

(** What the check reports, and whether it sets the metadata field and whether
    it deregisters itself. *)
Definition checkStart (st : StartTracker) (now : Z) : health * bool * bool :=
  let failingFor := time_Sub now (stSince st) in
  if negb (initialListing st) || negb (initialStore st) || negb (initialReceiveAndLoad st) then
    if scReportHealthz (stConfig st) then
      if scErrorDuration (stConfig st) <=? failingFor then (Failing, false, false)
      else if scWarnDuration (stConfig st) <=? failingFor then (Warning, false, false)
      else (Healthy, false, false)
    else (Healthy, false, false)
  else (Healthy, scReportMetadata (stConfig st), true).

(** ** Witness *)

Definition exAttempts : list attempt :=
  [MkAttempt 10 (Some (str "a")); MkAttempt 20 None; MkAttempt 30 (Some (str "b"));
   MkAttempt 40 (Some (str "c"))].

Lemma health_check_refines_witness :
  checkDuration (foldl track (NewHealthTracker DefaultHealthStorage) exAttempts) (30 + Minute) =
    (Warning, str "c").
Proof.
  rewrite (health_check_refines DefaultHealthStorage exAttempts (30 + Minute)).
  - reflexivity.
  - repeat split; reflexivity.
Defined.
