(* ===== verification/SyncLoop.v ===== *)
(** * The sync loop (syncer/sync.go, instanceset.go)

    [syncLoop] alternates between loading the snapshots that other instances
    stored and storing snapshots of local changes.  It is written against an
    interface of the operations it calls ([SyncWorld]); [SyncWorldLaws] says
    what it relies on.  NodeSync.v implements the interface. *)

From stdpp Require Import sorting.
From S2P Require Import Prelude Config Trackers Name Snapshot.

(** ** Sets of instances *)

Definition NewInstanceSet : gset bytes := ∅.
Definition Add (s : gset bytes) (name : bytes) : gset bytes := {[name]} ∪ s.
Definition Remove (s : gset bytes) (name : bytes) : gset bytes := s ∖ {[name]}.
Definition Done (s : gset bytes) : bool := bool_decide (size s = 0%nat).
Definition Contains (s : gset bytes) (name : bytes) : bool := bool_decide (name ∈ s).

(** [sort.Strings] *)
Definition str_le (a b : bytes) : Prop := bytes_Compare a b ≠ Gt.

#[export] Instance str_le_dec : RelDecision str_le.
Proof. intros a b. unfold str_le. apply _. Defined.

Definition ListInstances (s : gset bytes) : list bytes := merge_sort str_le (elements s).

(** The instances that are no longer seen are removed and returned. *)
Definition CleanDisappeared (s : gset bytes) (seen : list bytes) : gset bytes * list bytes :=
  let current : gset bytes := list_to_set seen in
  let toDelete := filter (λ i, i ∉ current) (elements s) in
  (foldl Remove s toDelete, merge_sort str_le toDelete).

Lemma foldl_Add l : ∀ s, foldl Add s l = list_to_set l ∪ s.
Proof. induction l as [|n l IH]; intros s; simpl; [set_solver|]. rewrite IH. unfold Add. set_solver. Qed.

Lemma foldl_Remove l : ∀ s, foldl Remove s l = s ∖ list_to_set l.
Proof.
  induction l as [|n l IH]; intros s; simpl; [set_solver|]. rewrite IH. unfold Remove. set_solver.
Qed.

Lemma CleanDisappeared_spec s seen :
  (CleanDisappeared s seen).1 = s ∩ list_to_set seen ∧
  ∀ n, n ∈ (CleanDisappeared s seen).2 ↔ n ∈ s ∧ n ∉ seen.
Proof.
  unfold CleanDisappeared. simpl. split.
  - rewrite foldl_Remove. apply set_eq. intros n. rewrite elem_of_difference, elem_of_intersection,
      elem_of_list_to_set, list_elem_of_filter, !elem_of_list_to_set, elem_of_elements.
    destruct (decide (n ∈ seen)); naive_solver.
  - intros n. rewrite merge_sort_Permutation, list_elem_of_filter, elem_of_elements,
      elem_of_list_to_set. naive_solver.
Qed.

Lemma Done_true s : Done s = true ↔ s = ∅.
Proof. unfold Done. rewrite bool_decide_eq_true, size_empty_iff. apply leibniz_equiv_iff. Qed.

(** ** The interface *)

(** [snapshot.Update]; the callback that returns its token is with the
    receiver. *)
Record Update : Type := MkUpdate {
  upSnapshot : Snapshot;
  upNameInfo : NameInfo;
}.

(** Everything outside the loop: the environment, the receiver, the storage,
    the clock and the other programs.  Any operation may let them proceed. *)
Class SyncWorld : Type := {
  World : Type;
  (** [env.Info().LastTxnID] *)
  w_Info : World → outcome (World * Z);
  (** [r.RunOnce(ctx, true)] and the pause after an error *)
  w_List : World → World * option error;
  w_HasSnapshots : World → bool;
  w_SeenInstances : World → list bytes;
  (** [mainToShadow] in a transaction, with the timestamp of migrated records *)
  w_Shadow : World → outcome World;
  (** with whether a snapshot was stored, which is used for the trace only *)
  w_SendOnce : World → outcome (World * Z * bool);
  (** the clock is read and the receiver started *)
  w_Start : World → World;
  w_Next : World → World * bytes * option Update;
  w_LoadOnce : World → bytes → Update → Z → outcome (World * Z * bool);
  (** [time.Since(s.lastSnapshotTime)] *)
  w_SinceSnapshot : World → World * Z;
  w_Sleep : World → outcome World;
}.

(** ** The loop *)

(** What the loop did, for stating its properties: an update was loaded, with
    the transaction that [LoadOnce] reports; the wait for some instances ended
    because their snapshots are gone; a snapshot was stored. *)
Inductive event : Type :=
  | Loaded (instance : bytes) (ni : NameInfo) (txnID : Z) (localChanged : bool)
  | Gone (instances : list bytes)
  | Sent (txnID : Z).

Record LoopState `{SyncWorld} : Type := MkLoop {
  lsWorld : World;
  lsLast : Z;
  lsWaiting : gset bytes;
  lsWarned : bool;
  lsTracker : StartTracker;
  lsTrace : list event;
}.

Arguments MkLoop {_} _ _ _ _ _ _.

(** The settings the loop reads. *)
Record LoopConf : Type := MkLoopConf {
  lcOwn : bytes;
  lcTracks : bool;
  lcReceiveOnly : bool;
  lcForceInterval : Z;
  lcOnlyOnce : bool;
  lcInstanceReady : option (NameInfo → bool);
}.

Definition MaxConsecutiveSnapshotLoads : Z := 10.

Section loop.
Context `{SW : SyncWorld} (c : LoopConf).

Definition setWorld (w : World) (st : LoopState) : LoopState :=
  MkLoop w (lsLast st) (lsWaiting st) (lsWarned st) (lsTracker st) (lsTrace st).
Definition setLast (z : Z) (st : LoopState) : LoopState :=
  MkLoop (lsWorld st) z (lsWaiting st) (lsWarned st) (lsTracker st) (lsTrace st).
Definition setWaiting (s : gset bytes) (st : LoopState) : LoopState :=
  MkLoop (lsWorld st) (lsLast st) s (lsWarned st) (lsTracker st) (lsTrace st).
Definition setTracker (t : StartTracker) (st : LoopState) : LoopState :=
  MkLoop (lsWorld st) (lsLast st) (lsWaiting st) (lsWarned st) t (lsTrace st).
Definition warned (st : LoopState) : LoopState :=
  MkLoop (lsWorld st) (lsLast st) (lsWaiting st) true (lsTracker st) (lsTrace st).
Definition emit (e : event) (st : LoopState) : LoopState :=
  MkLoop (lsWorld st) (lsLast st) (lsWaiting st) (lsWarned st) (lsTracker st) (lsTrace st ++ [e]).

(** Whether an update ends the wait for its instance. *)
Definition stopWaiting (waiting : gset bytes) (instance : bytes) (ni : NameInfo) : gset bytes :=
  let waiting :=
    if bool_decide (Kind ni = KindSnapshot) && Contains waiting instance &&
       match lcInstanceReady c with None => true | Some _ => false end
    then Remove waiting instance else waiting in
  match lcInstanceReady c with
  | Some ready => if Contains waiting instance && ready ni then Remove waiting instance else waiting
  | None => waiting
  end.

(** The body of [loadReadySnapshotsLoop]; the boolean tells whether to go on. *)
Definition loadNext (nLoads : Z) (st : LoopState) : outcome (LoopState * Z * bool) :=
  let '(w, instance, update) := w_Next (lsWorld st) in
  let st := setWorld w st in
  match update with
  | None => Ok (st, nLoads, false)
  | Some u =>
      if bool_decide (instance = []) then Ok (st, nLoads, false)
      else
        let ni := upNameInfo u in
        let nLoads := if bool_decide (Kind ni = KindSnapshot) then nLoads + 1 else nLoads in
        let st := setWaiting (stopWaiting (lsWaiting st) instance ni) st in
        '(w, actualTxnID, localChanged) ← w_LoadOnce (lsWorld st) instance u (lsLast st);
        let st := emit (Loaded instance ni actualTxnID localChanged) (setWorld w st) in
        let st := if negb localChanged then setLast actualTxnID st else st in
        Ok (st, nLoads, negb (localChanged && (MaxConsecutiveSnapshotLoads <? nLoads)))
  end.

Fixpoint loadReady (fuel : nat) (nLoads : Z) (st : LoopState) : outcome LoopState :=
  match fuel with
  | O => Hang
  | S fuel =>
      '(st, nLoads, more) ← loadNext nLoads st;
      if (more : bool) then loadReady fuel nLoads st else Ok st
  end.

(** Instances whose snapshots were removed are not waited for. *)
Definition cleanWaiting (st : LoopState) : LoopState :=
  if negb (Done (lsWaiting st)) then
    let '(s, cleaned) := CleanDisappeared (lsWaiting st) (w_SeenInstances (lsWorld st)) in
    let st := setWaiting s st in
    if bool_decide (cleaned = []) then st else emit (Gone cleaned) st
  else st.

Definition store (st : LoopState) : outcome LoopState :=
  '(w, actualTxnID, stored) ← w_SendOnce (lsWorld st);
  let st := setLast actualTxnID (setWorld w st) in
  let st := if (stored : bool) then emit (Sent actualTxnID) st else st in
  Ok (setTracker (SetPassedInitialStore (lsTracker st)) st).

(** Store a snapshot when there are local changes or one is overdue. *)
Definition storeChanges (hasDataAtStart : bool) (st : LoopState) : outcome LoopState :=
  let '(w, dt) := w_SinceSnapshot (lsWorld st) in
  let snapshotOverdue :=
    negb (lcReceiveOnly c) && (0 <? lcForceInterval c) && (lcForceInterval c <? dt) in
  '(w, lastTxnID) ← w_Info w;
  let st := setWorld w st in
  if (lsLast st <? uint64 lastTxnID) || snapshotOverdue then
    if Contains (lsWaiting st) (lcOwn c) then Ok st
    else
      let st := setLast (uint64 lastTxnID) st in
      if hasDataAtStart || (0 <? lsLast st) then store st
      else if negb (lsWarned st) then Ok (warned st) else Ok st
  else Ok st.

(** One iteration of the outer loop up to its pause; the boolean tells whether
    the loop is finished. *)
Definition pass (fuel : nat) (hasDataAtStart : bool) (st : LoopState)
    : outcome (LoopState * bool) :=
  st ← loadReady fuel 0 st;
  let st := cleanWaiting st in
  st ← storeChanges hasDataAtStart st;
  let st := if Done (lsWaiting st) then setTracker (SetPassCompleted (lsTracker st)) st else st in
  Ok (st, lcOnlyOnce c && Done (lsWaiting st)).

Fixpoint passes (fuel : nat) (hasDataAtStart : bool) (st : LoopState) : outcome LoopState :=
  match fuel with
  | O => Hang
  | S fuel' =>
      '(st, finished) ← pass fuel hasDataAtStart st;
      if (finished : bool) then Ok st
      else
        w ← w_Sleep (lsWorld st);
        passes fuel' hasDataAtStart (setWorld w st)
  end.

(** Wait for an initial listing. *)
Fixpoint waitListing (fuel : nat) (w : World) : outcome World :=
  match fuel with
  | O => Hang
  | S fuel =>
      match w_List w with
      | (w, None) => Ok w
      | (w, Some _) => waitListing fuel w
      end
  end.

(** Everything before the loop. *)
Definition startLoop (fuel : nat) (tr : StartTracker) (w : World) : outcome (LoopState * bool) :=
  '(w, lastTxnID) ← w_Info w;
  let hasDataAtStart := 0 <? lastTxnID in
  w ← waitListing fuel w;
  let tr := SetPassedInitialListing tr in
  let hasSnapshots := w_HasSnapshots w in
  let waiting := foldl Add NewInstanceSet (w_SeenInstances w) in
  w ← (if hasDataAtStart && negb (lcTracks c) then w_Shadow w else Ok w);
  let st := MkLoop w 0 waiting false tr [] in
  st ← (if hasDataAtStart && negb hasSnapshots then store st else Ok st);
  let st := if negb hasDataAtStart
            then setTracker (SetPassedInitialStore (lsTracker st)) st else st in
  Ok (setWorld (w_Start (lsWorld st)) st, hasDataAtStart).

Definition syncLoop (fuel : nat) (tr : StartTracker) (w : World) : outcome LoopState :=
  '(st, hasDataAtStart) ← startLoop fuel tr w;
  passes fuel hasDataAtStart st.
End loop.

(** ** What the loop relies on *)

(** Transaction IDs grow; a write transaction has the next one, and is not
    recorded when it changes nothing. *)
Class SyncWorldLaws (SW : SyncWorld) (lastID : World → Z) : Prop := {
  lastID_range w : 0 <= lastID w < 2 ^ 63;
  law_Info w w' z : w_Info w = Ok (w', z) → lastID w <= z <= lastID w';
  law_List w : lastID w <= lastID (w_List w).1;
  law_Shadow w w' : w_Shadow w = Ok w' → lastID w <= lastID w';
  law_SendOnce w w' z stored : w_SendOnce w = Ok (w', z, stored) → lastID w <= z <= lastID w';
  law_Start w : lastID w <= lastID (w_Start w);
  law_Next w : lastID w <= lastID (w_Next w).1.1;
  law_LoadOnce w i u z w' z' ch : w_LoadOnce w i u z = Ok (w', z', ch) →
    ∃ tid, lastID w < tid <= lastID w' + 1 ∧ tid - 1 <= z' <= Z.min tid (lastID w') ∧ ch = (z <? tid - 1);
  law_SinceSnapshot w : lastID w <= lastID (w_SinceSnapshot w).1;
  law_Sleep w w' : w_Sleep w = Ok w' → lastID w <= lastID w';
  law_HasSnapshots w w' : w_List w = (w', None) →
    w_HasSnapshots w' = true ↔ w_SeenInstances w' ≠ [];
}.

(** A send that succeeds has stored a snapshot, unless the syncer only
    receives. *)
Class SyncWorldStores (SW : SyncWorld) (receiveOnly : bool) : Prop :=
  law_stored w w' z stored : w_SendOnce w = Ok (w', z, stored) → stored = negb receiveOnly.

(** The states of the loop after [st0], before and after each pause. *)
Inductive steps `{SyncWorld} (c : LoopConf) (b : bool) (st0 : LoopState) : LoopState → Prop :=
  | steps_here : steps c b st0 st0
  | steps_pass fuel st st' fin :
      steps c b st0 st → pass c fuel b st = Ok (st', fin) → steps c b st0 st'
  | steps_sleep st w : steps c b st0 st → w_Sleep (lsWorld st) = Ok w → steps c b st0 (setWorld w st).

Section laws.
Context `{SW : SyncWorld} (lastID : World → Z) (c : LoopConf).
Context `{SL : !SyncWorldLaws SW lastID}.

(** *** Waiting for instances *)

(** An update that ends the wait for its instance. *)
Definition ends_wait (ni : NameInfo) : Prop :=
  match lcInstanceReady c with None => Kind ni = KindSnapshot | Some ready => ready ni = true end.

(** The instance was loaded, or its snapshots are gone. *)
Definition released (i : bytes) (tr : list event) : Prop :=
  (∃ ni z ch, Loaded i ni z ch ∈ tr ∧ ends_wait ni) ∨ (∃ l, Gone l ∈ tr ∧ i ∈ l).

(** Every snapshot was sent after the own instance was released. *)
Definition guarded (i : bytes) (tr : list event) : Prop :=
  ∀ l1 z l2, tr = l1 ++ Sent z :: l2 → released i l1.

(** No instance of [s0] is forgotten. *)
Record waits (s0 : gset bytes) (waiting : gset bytes) (tr : list event) : Prop := MkWaits {
  ws_sub : waiting ⊆ s0;
  ws_rel : ∀ i, i ∈ s0 → i ∉ waiting → released i tr;
  ws_own : lcOwn c ∈ s0 → guarded (lcOwn c) tr;
}.

Lemma released_app i tr tr' : released i tr → released i (tr ++ tr').
Proof.
  intros [(ni & z & ch & H & Hw)|(l & H & Hi)]; [left; exists ni, z, ch|right; exists l];
    (split; [|done]); apply elem_of_app; by left.
Qed.

Lemma guarded_snoc i tr e :
  guarded i tr → (∀ z, e = Sent z → released i tr) → guarded i (tr ++ [e]).
Proof.
  intros Hg He l1 z l2 E. destruct (decide (l2 = [])) as [->|Hne].
  - apply app_inj_tail in E as [-> ->]. by eapply He.
  - destruct (exists_last Hne) as (l2' & x & ->).
    rewrite app_comm_cons, app_assoc in E. apply app_inj_tail in E as [-> ->]. by eapply Hg.
Qed.

Lemma stopWaiting_spec waiting i ni :
  stopWaiting c waiting i ni = waiting ∨
  stopWaiting c waiting i ni = waiting ∖ {[i]} ∧ ends_wait ni.
Proof.
  unfold stopWaiting, ends_wait, Contains, Remove. destruct (lcInstanceReady c) as [ready|].
  - rewrite andb_false_r. destruct (ready ni) eqn:E; [|rewrite andb_false_r; auto].
    rewrite andb_true_r. case_bool_decide; auto.
  - rewrite andb_true_r. repeat case_bool_decide; simpl; auto.
Qed.

Lemma waits_load s0 waiting tr i ni z ch :
  waits s0 waiting tr → waits s0 (stopWaiting c waiting i ni) (tr ++ [Loaded i ni z ch]).
Proof.
  intros [H1 H2 H3]. destruct (stopWaiting_spec waiting i ni) as [->|[-> Hw]]; constructor.
  - done.
  - intros j Hj Hn. by apply released_app, H2.
  - intros Ho. apply guarded_snoc; [auto|done].
  - set_solver.
  - intros j Hj Hn. destruct (decide (j = i)) as [->|Hne].
    + left. exists ni, z, ch. split; [set_solver|done].
    + apply released_app, H2; [done|set_solver].
  - intros Ho. apply guarded_snoc; [auto|done].
Qed.

Lemma waits_gone s0 waiting tr seen :
  waits s0 waiting tr →
  waits s0 (CleanDisappeared waiting seen).1
    (if bool_decide ((CleanDisappeared waiting seen).2 = []) then tr
     else tr ++ [Gone (CleanDisappeared waiting seen).2]).
Proof.
  intros [H1 H2 H3]. destruct (CleanDisappeared_spec waiting seen) as [E Hc]. rewrite E.
  constructor; [set_solver| |].
  - intros i Hi Hn. destruct (decide (i ∈ waiting)) as [Hw|Hw].
    + assert (i ∈ (CleanDisappeared waiting seen).2) as Hin.
      { apply Hc. split; [done|]. intros Hs. apply Hn. set_solver. }
      rewrite bool_decide_eq_false_2 by (intros En; rewrite En in Hin; set_solver).
      right. eexists. split; [|exact Hin]. set_solver.
    + case_bool_decide; [by apply H2|]. by apply released_app, H2.
  - intros Ho. case_bool_decide; [auto|]. apply guarded_snoc; [auto|done].
Qed.

Lemma waits_sent s0 waiting tr z :
  waits s0 waiting tr → lcOwn c ∉ waiting → waits s0 waiting (tr ++ [Sent z]).
Proof.
  intros [H1 H2 H3] Hn. constructor; [done| |].
  - intros i Hi Hw. by apply released_app, H2.
  - intros Ho. apply guarded_snoc; [auto|]. intros _ _. by apply H2.
Qed.

(** *** Transaction IDs *)

(** What the loop considers synced was committed. *)
Definition synced (st : LoopState) : Prop := 0 <= lsLast st <= lastID (lsWorld st).

(** A local change that was not sent yet. *)
Definition pending (z : Z) (st : LoopState) : Prop := lsLast st < z <= lastID (lsWorld st).

Definition waiting_ok (s0 : gset bytes) (st : LoopState) : Prop :=
  waits s0 (lsWaiting st) (lsTrace st).

Lemma loadNext_ok s0 z n st st' n' more :
  loadNext c n st = Ok (st', n', more) → waiting_ok s0 st → synced st →
  waiting_ok s0 st' ∧ synced st' ∧ lastID (lsWorld st) <= lastID (lsWorld st') ∧
  (pending z st → pending z st').
Proof using SL.
  unfold loadNext, waiting_ok, synced, pending. intros H Hw Hs.
  pose proof (law_Next (lsWorld st)) as Hn.
  destruct (w_Next (lsWorld st)) as [[w i] u] eqn:En. simpl in Hn.
  destruct u as [u|]; [|simplify_eq/=; split_and!; done || lia].
  case_bool_decide; [simplify_eq/=; split_and!; done || lia|].
  destruct (w_LoadOnce _ i u _) as [[[w' id] ch]| | |] eqn:El; [|done..].
  rewrite bind_ok in H. simpl in El. pose proof (lastID_range w').
  apply law_LoadOnce in El as (tid & Ht & Hi & ->). simplify_eq/=.
  pose proof (waits_load s0 (lsWaiting st) (lsTrace st) i (upNameInfo u) id
    (lsLast st <? tid - 1) Hw) as Hw'.
  pose proof (lastID_range w).
  destruct (Z.ltb_spec (lsLast st) (tid - 1)); simpl; split_and!; try done; lia.
Qed.

Lemma loadReady_ok s0 z fuel : ∀ n st st',
  loadReady c fuel n st = Ok st' → waiting_ok s0 st → synced st →
  waiting_ok s0 st' ∧ synced st' ∧ lastID (lsWorld st) <= lastID (lsWorld st') ∧
  (pending z st → pending z st').
Proof using SL.
  induction fuel as [|fuel IH]; intros n st st' H Hw Hs; [done|]. simpl in H.
  destruct (loadNext c n st) as [[[st1 n1] more]| | |] eqn:En; [|done..]. rewrite bind_ok in H.
  destruct (loadNext_ok s0 z _ _ _ _ _ En Hw Hs) as (Hw1 & Hs1 & Hm1 & Hp1).
  destruct more; [|simplify_eq; auto].
  destruct (IH _ _ _ H Hw1 Hs1) as (Hw2 & Hs2 & Hm2 & Hp2). split_and!; [done|done|lia|auto].
Qed.

Lemma cleanWaiting_ok s0 st :
  waiting_ok s0 st → waiting_ok s0 (cleanWaiting st) ∧
  lsWorld (cleanWaiting st) = lsWorld st ∧ lsLast (cleanWaiting st) = lsLast st.
Proof.
  intros Hw. unfold cleanWaiting, waiting_ok in *. destruct (Done (lsWaiting st)); [done|].
  cbn [negb]. pose proof (waits_gone s0 _ _ (w_SeenInstances (lsWorld st)) Hw) as Hg.
  destruct (CleanDisappeared _ _) as [s cl]. simpl in Hg. by case_bool_decide.
Qed.

(** A store, and what it leaves in the trace. *)
Definition sent (st st' : LoopState) : Prop :=
  ∃ w w' b, w_SendOnce w = Ok (w', lsLast st', b) ∧
    lsTrace st' = lsTrace st ++ (if b then [Sent (lsLast st')] else []).

Lemma store_ok s0 st st' :
  store st = Ok st' → lcOwn c ∉ lsWaiting st → waiting_ok s0 st →
  waiting_ok s0 st' ∧ synced st' ∧ lsWaiting st' = lsWaiting st ∧
  lastID (lsWorld st) <= lsLast st' ∧ sent st st'.
Proof using SL.
  unfold store, sent. intros H Ho Hw.
  destruct (w_SendOnce (lsWorld st)) as [[[w z] b]| | |] eqn:Es; [|done..].
  rewrite bind_ok in H. pose proof (law_SendOnce _ _ _ _ Es) as Hz. unfold waiting_ok, synced in *.
  pose proof (lastID_range (lsWorld st)).
  assert (lsTrace st' = lsTrace st ++ (if b then [Sent (lsLast st')] else []) ∧
    lsLast st' = z ∧ lsWorld st' = w ∧ lsWaiting st' = lsWaiting st) as (Et & El & Ew & Ewt).
  { destruct b; simplify_eq/=; by rewrite ?app_nil_r. }
  rewrite Et, El, Ew, Ewt. split_and!; [|lia|lia|done|lia|by eauto].
  destruct b; [by apply waits_sent|by rewrite app_nil_r].
Qed.

Lemma storeChanges_ok s0 b st st' :
  storeChanges c b st = Ok st' → waiting_ok s0 st → synced st →
  waiting_ok s0 st' ∧ synced st' ∧ lsWaiting st' = lsWaiting st ∧
  lastID (lsWorld st) <= lastID (lsWorld st') ∧
  (∀ z, pending z st → lcOwn c ∉ lsWaiting st →
     z <= lsLast st' ∧ sent st st').
Proof using SL.
  unfold storeChanges. intros H Hw Hs. pose proof (law_SinceSnapshot (lsWorld st)) as Hss.
  destruct (w_SinceSnapshot (lsWorld st)) as [w dt]. simpl in Hss.
  destruct (w_Info w) as [[w' z]| | |] eqn:Ei; [|done..]. rewrite bind_ok in H.
  apply law_Info in Ei. pose proof (lastID_range w'). pose proof (lastID_range w).
  rewrite uint64_small in H by lia. set (overdue := _ && (_ <? dt)) in H. clearbody overdue.
  unfold waiting_ok, synced, pending in *. simpl in H.
  destruct ((lsLast st <? z) || overdue) eqn:Ec.
  - unfold Contains in H. case_bool_decide as Ho.
    { simplify_eq/=. split_and!; [done|lia|lia|done|lia|done]. }
    destruct (b || (0 <? z)) eqn:Eb.
    + destruct (store_ok s0 _ _ H Ho Hw) as (Q1 & Q2 & Q3 & Q4 & Q5). simpl in *.
      unfold synced in Q2. split_and!; [done|lia|lia|done|lia|].
      intros z' Hz _. split; [lia|done].
    + apply orb_false_iff in Eb as [_ Hz]. apply Z.ltb_ge in Hz.
      destruct (lsWarned st); simplify_eq/=; (split_and!; [done|lia|lia|done|lia|]; intros; lia).
  - apply orb_false_iff in Ec as [Ec _]. apply Z.ltb_ge in Ec. simplify_eq/=.
    split_and!; [done|lia|lia|done|lia|]. intros; lia.
Qed.

Lemma pass_ok s0 fuel b st st' fin :
  pass c fuel b st = Ok (st', fin) → waiting_ok s0 st → synced st →
  waiting_ok s0 st' ∧ synced st' ∧
  (fin = true → lcOnlyOnce c = true ∧ lsWaiting st' = ∅) ∧
  (lsWaiting st' = ∅ → initialReceiveAndLoad (lsTracker st') = true) ∧
  (∀ z, pending z st → lcOwn c ∉ lsWaiting st' →
     z <= lsLast st' ∧ ∃ st2, sent st2 st').
Proof using SL.
  unfold pass. intros H Hw Hs.
  destruct (loadReady c fuel 0 st) as [st1| | |] eqn:El; [|done..]. rewrite bind_ok in H.
  destruct (loadReady_ok s0 0 _ _ _ _ El Hw Hs) as (Hw1 & Hs1 & _).
  destruct (cleanWaiting_ok s0 st1 Hw1) as (Hw2 & Ew & Elast).
  destruct (storeChanges c b (cleanWaiting st1)) as [st3| | |] eqn:Ec; [|done..].
  rewrite bind_ok in H.
  assert (Hs2 : synced (cleanWaiting st1)) by (unfold synced; by rewrite Ew, Elast).
  destruct (storeChanges_ok s0 _ _ _ Ec Hw2 Hs2) as (Hw3 & Hs3 & Ewt & Hm3 & Hp3).
  assert (Hp : ∀ z, pending z st → lcOwn c ∉ lsWaiting st3 →
     z <= lsLast st3 ∧ ∃ st2, sent st2 st3).
  { intros z Hz Ho. rewrite Ewt in Ho.
    destruct (loadReady_ok s0 z _ _ _ _ El Hw Hs) as (_ & _ & _ & Hp1).
    destruct (Hp3 z) as [H1 H2]; [|done|split; [done|by eexists]].
    unfold pending in *. rewrite Ew, Elast. by apply Hp1. }
  simplify_eq. destruct (Done (lsWaiting st3)) eqn:Ed; simpl.
  - apply Done_true in Ed. split_and!; [done|done| | |done].
    + by intros [??]%andb_true_iff.
    + intros _. unfold SetPassCompleted. by destruct (initialReceiveAndLoad (lsTracker st3)) eqn:E.
  - split_and!; [done|done| | |done]; [by rewrite Ed, andb_false_r|].
    intros E. by apply Done_true in E; congruence.
Qed.

Lemma waitListing_has fuel : ∀ w w',
  waitListing fuel w = Ok w' → w_HasSnapshots w' = true ↔ w_SeenInstances w' ≠ [].
Proof using SL.
  induction fuel as [|fuel IH]; intros w w' H; [done|]. simpl in H.
  destruct (w_List w) as [w1 [e|]] eqn:El; [by eapply IH|]. simplify_eq. by eapply law_HasSnapshots.
Qed.

(** The world after the first successful listing. *)
Definition firstListing (fuel : nat) (w : World) : outcome World :=
  '(w, _) ← w_Info w;
  waitListing fuel w.

Definition seenAt (w : World) : gset bytes := list_to_set (w_SeenInstances w).

Lemma waits_start (seen : gset bytes) : waits seen seen [].
Proof using. constructor; [done|done|]. intros _ [|]; done. Qed.

(** A new loop waits for all instances of the listing. *)
Lemma startLoop_ok fuel tr w st b wl :
  startLoop c fuel tr w = Ok (st, b) → firstListing fuel w = Ok wl →
  waiting_ok (seenAt wl) st ∧ synced st.
Proof using SL.
  unfold startLoop, firstListing. intros H Hl. destruct (w_Info w) as [[w1 z]| | |]; [|done..].
  rewrite bind_ok in H. cbn in Hl. rewrite Hl, bind_ok in H. pose proof (waitListing_has _ _ _ Hl) as Hhas.
  assert (foldl Add NewInstanceSet (w_SeenInstances wl) = seenAt wl) as Eseen
    by (rewrite foldl_Add; apply (right_id_L ∅ (∪))).
  rewrite Eseen in H.
  destruct (if (0 <? z) && negb (lcTracks c) then w_Shadow wl else Ok wl) as [w3| | |]; [|done..].
  rewrite bind_ok in H. set (st1 := MkLoop _ _ _ _ _ _) in H.
  assert (waiting_ok (seenAt wl) st1 ∧ synced st1) as [Hw Hs].
  { split; [apply waits_start|]. unfold synced. simpl. pose proof (lastID_range w3). lia. }
  destruct (if (0 <? z) && negb (w_HasSnapshots wl) then store st1 else Ok st1) as [st2| | |] eqn:E;
    [|done..].
  assert (waiting_ok (seenAt wl) st2 ∧ synced st2) as [Hw2 Hs2].
  { destruct ((0 <? z) && negb (w_HasSnapshots wl)) eqn:Ec; [|by simplify_eq].
    destruct (store_ok (seenAt wl) st1 st2 E) as (H1 & H2 & _); [|done|done].
    apply andb_true_iff in Ec as [_ Hh%negb_true_iff]. simpl. intros Hin.
    assert (w_HasSnapshots wl = true); [|congruence]. apply Hhas. intros En.
    unfold seenAt in Hin. rewrite En in Hin. set_solver. }
  rewrite bind_ok in H. simplify_eq. unfold waiting_ok, synced in *.
  pose proof (law_Start (lsWorld st2)). destruct (0 <? z); simpl; (split; [done|lia]).
Qed.

Lemma startLoop_lists fuel tr w st b :
  startLoop c fuel tr w = Ok (st, b) → ∃ wl, firstListing fuel w = Ok wl.
Proof using.
  unfold startLoop, firstListing. intros H. destruct (w_Info w) as [[w1 z]| | |]; [|done..].
  rewrite bind_ok in H. cbn. destruct (waitListing fuel w1) as [wl| | |]; [by eexists|done..].
Qed.

Lemma steps_ok s0 b st0 st :
  steps c b st0 st → waiting_ok s0 st0 → synced st0 → waiting_ok s0 st ∧ synced st.
Proof using SL.
  intros H Hw Hs. induction H as [|fuel st st' fin _ [IH1 IH2] Hp|st w _ [IH1 IH2] Hsl].
  - done.
  - by destruct (pass_ok _ _ _ _ _ _ Hp IH1 IH2) as (H1 & H2 & _).
  - apply law_Sleep in Hsl. unfold waiting_ok, synced in *. simpl. split; [done|lia].
Qed.


Lemma passes_ok s0 fuel b : ∀ st st',
  passes c fuel b st = Ok st' → waiting_ok s0 st → synced st →
  waiting_ok s0 st' ∧ lcOnlyOnce c = true ∧ lsWaiting st' = ∅ ∧
  initialReceiveAndLoad (lsTracker st') = true.
Proof using SL.
  induction fuel as [|fuel IH]; intros st st' H Hw Hs; [done|]. cbn [passes] in H.
  destruct (pass c (S fuel) b st) as [[st1 fin]| | |] eqn:Ep; [|done..]. rewrite bind_ok in H.
  destruct (pass_ok s0 _ _ _ _ _ Ep Hw Hs) as (Hw1 & Hs1 & Hf & Ht & _). destruct fin.
  - simplify_eq. destruct (Hf eq_refl). split_and!; auto.
  - destruct (w_Sleep (lsWorld st1)) as [w| | |] eqn:Es; [|done..]. rewrite bind_ok in H.
    apply IH in H; [done|done|]. apply law_Sleep in Es. unfold synced in *. simpl. lia.
Qed.

(** C26: the loop returns without an error only when a single pass was
    requested, after every instance that the first listing of the storage has
    was loaded or has disappeared, and then reports the start as complete. *)
Theorem single_pass_is_complete fuel tr w st :
  syncLoop c fuel tr w = Ok st →
  lcOnlyOnce c = true ∧ initialReceiveAndLoad (lsTracker st) = true ∧
  ∃ wl, firstListing fuel w = Ok wl ∧
    ∀ i, i ∈ w_SeenInstances wl → released i (lsTrace st).
Proof using SL.
  unfold syncLoop. intros H.
  destruct (startLoop c fuel tr w) as [[st0 b]| | |] eqn:E; [|done..]. rewrite bind_ok in H.
  destruct (startLoop_lists _ _ _ _ _ E) as [wl Hl].
  destruct (startLoop_ok _ _ _ _ _ _ E Hl) as [Hw Hs].
  destruct (passes_ok (seenAt wl) _ _ _ _ H Hw Hs) as ([_ Hr _] & H1 & H2 & H3).
  split_and!; [done|done|]. exists wl. split; [done|]. intros i Hi.
  apply Hr; [by apply elem_of_list_to_set|]. rewrite H2. set_solver.
Qed.

(** *** What counts as synced *)

Section stores.
Context `{ST : !SyncWorldStores SW (lcReceiveOnly c)}.













(** C5: unless the syncer only receives, a local change that is pending at the
    start of a pass is sent in that pass, whatever is loaded meanwhile, when
    the own old snapshot is not waited for any more. *)
Theorem changes_are_sent fuel tr w st0 b st fuel' st' fin z :
  lcReceiveOnly c = false →
  startLoop c fuel tr w = Ok (st0, b) → steps c b st0 st →
  lsLast st < z <= lastID (lsWorld st) →
  pass c fuel' b st = Ok (st', fin) → lcOwn c ∉ lsWaiting st' →
  z <= lsLast st' ∧ ∃ tr', lsTrace st' = tr' ++ [Sent (lsLast st')].
Proof using SL ST.
  intros Hr H Hst Hz Hp Ho. destruct (startLoop_lists _ _ _ _ _ H) as [wl Hl].
  destruct (startLoop_ok _ _ _ _ _ _ H Hl) as [Hw Hs].
  destruct (steps_ok _ _ _ _ Hst Hw Hs) as [Hw' Hs'].
  destruct (pass_ok _ _ _ _ _ _ Hp Hw' Hs') as (_ & _ & _ & _ & H5).
  destruct (H5 z Hz Ho) as [H6 [st2 H7]]. split; [done|].
  destruct H7 as (w1 & w2 & s & Es & Et). apply law_stored in Es. rewrite Hr in Es. subst s.
  by eexists.
Qed.

End stores.

(** *** Termination *)

(** The world works and has at most [ready w] updates to offer. *)
Record works (ready : World → nat) : Prop := MkWorks {
  wk_next w i u w' : w_Next w = (w', i, Some u) → i ≠ [] → (ready w' < ready w)%nat;
  wk_load w i u z : ∃ w' z' ch, w_LoadOnce w i u z = Ok (w', z', ch) ∧ (ready w' <= ready w)%nat;
  wk_info w : is_ok (w_Info w);
  wk_send w : is_ok (w_SendOnce w);
}.

Lemma loadReady_returns ready : works ready → ∀ fuel n st,
  (ready (lsWorld st) < fuel)%nat → is_ok (loadReady c fuel n st).
Proof using.
  intros Hk. induction fuel as [|fuel IH]; intros n st Hf; [lia|]. simpl. unfold loadNext.
  destruct (w_Next (lsWorld st)) as [[w i] [u|]] eqn:En; [|by eexists].
  case_bool_decide as Hi; [by eexists|].
  destruct (wk_load _ Hk w i u (lsLast st)) as (w' & z' & ch & El & Hl). simpl. rewrite El, !bind_ok.
  pose proof (wk_next _ Hk _ _ _ _ En Hi).
  case_match; [|by eexists]. apply IH. destruct ch; simpl; lia.
Qed.

(** C27: a pass always returns when no operation fails and the receiver has
    finitely many updates to offer. *)
Theorem pass_returns ready fuel b st :
  works ready → (ready (lsWorld st) < fuel)%nat → is_ok (pass c fuel b st).
Proof using.
  intros Hk Hf. unfold pass. destruct (loadReady_returns ready Hk fuel 0 st Hf) as [st1 ->].
  rewrite bind_ok. assert (is_ok (storeChanges c b (cleanWaiting st1))) as [st2 ->]; [|by eexists].
  unfold storeChanges. destruct (w_SinceSnapshot _) as [w dt].
  destruct (wk_info _ Hk w) as [[w' z] ->]. rewrite bind_ok.
  destruct (_ || _); [|by eexists]. destruct (Contains _ _); [by eexists|].
  destruct (_ || _); [|destruct (lsWarned _); by eexists]. unfold store.
  match goal with |- context [w_SendOnce ?w] => destruct (wk_send _ Hk w) as [[[w2 z2] b2] ->] end.
  by eexists.
Qed.
End laws.

(** ** Witnesses in a small world *)

(** A world in which nobody writes: five transactions were committed, and the
    receiver offers the given updates. *)
Module Small.
Definition world : Type := list (bytes * Update).

Definition next (w : world) : world * bytes * option Update :=
  match w with [] => ([], [], None) | (i, u) :: w => (w, i, Some u) end.

Definition SW : SyncWorld := {|
  World := world;
  w_Info w := Ok (w, 5);
  w_List w := (w, None);
  w_HasSnapshots w := match w with [] => false | _ => true end;
  w_SeenInstances w := w.*1;
  w_Shadow w := Ok w;
  w_SendOnce w := Ok (w, 5, true);
  w_Start w := w;
  w_Next := next;
  w_LoadOnce w _ _ z := Ok (w, 5, z <? 5);
  w_SinceSnapshot w := (w, 0);
  w_Sleep w := Ok w;
|}.

Definition lastID (w : @World SW) : Z := 5.

Lemma laws : SyncWorldLaws SW lastID.
Proof.
  constructor; unfold lastID; simpl; try done; try lia; try (intros; simplify_eq; lia).
  - intros w i u z w' z' ch E. simplify_eq. exists 6. split_and!; done || lia.
  - intros w w' E. injection E as <-. by destruct w as [|[??]].
Qed.

Lemma stores : SyncWorldStores SW false.
Proof. intros w w' z b E. cbn in E. by injection E as _ _ <-. Qed.

Definition conf (once : bool) : LoopConf := MkLoopConf (str "me") true false 0 once None.
Definition upd (n : bytes) : bytes * Update :=
  (n, MkUpdate (MkSnapshot 3 2 emptyMeta []) (MkNameInfo [] [] [] KindSnapshot [] n [] [] 0 [])).
Definition tr0 : StartTracker := NewStartTracker DefaultHealthStart 0.
Definition w0 : world := [upd (str "other"); upd (str "me")].

Definition st0 : @LoopState SW :=
  @MkLoop SW w0 0 (foldl Add NewInstanceSet w0.*1) false (SetPassedInitialListing tr0) [].

Lemma started once : @startLoop SW (conf once) 1 tr0 w0 = Ok (st0, true).
Proof. reflexivity. Qed.
(** The first pass loads both updates and sends a snapshot. *)
Lemma first_pass : ∃ st, @pass SW (conf true) 3 true st0 = Ok (st, true) ∧
  lcOwn (conf true) ∉ lsWaiting st ∧ lsLast st = 5.
Proof. eexists. split; [vm_compute; reflexivity|]. split; [by apply (bool_decide_unpack _)|done]. Qed.


Lemma is_pending : lsLast st0 < 5 <= lastID (lsWorld st0).
Proof. split; [reflexivity|discriminate]. Qed.

Lemma bounded_ready : works (SW := SW) (λ w : world, length w).
Proof.
  constructor; simpl.
  - intros w i u w' E _. destruct w as [|[i' u'] w]; [discriminate E|]. injection E as <- _ _. apply le_n.
  - intros w i u z. eexists _, _, _. split; [reflexivity|apply le_n].
  - intros w. by eexists.
  - intros w. by eexists.
Qed.

Lemma finishes : ∃ st, @syncLoop SW (conf true) 3 tr0 w0 = Ok st.
Proof. eexists. vm_compute. reflexivity. Qed.
End Small.



Lemma changes_are_sent_witness : ∃ st tr,
  @pass Small.SW (Small.conf true) 3 true Small.st0 = Ok (st, true) ∧ lsTrace st = tr ++ [Sent 5].
Proof.
  destruct Small.first_pass as (st & E & Ho & El). exists st.
  destruct (changes_are_sent (SL := Small.laws) (ST := Small.stores) Small.lastID (Small.conf true) 1 Small.tr0 Small.w0
    Small.st0 true Small.st0 3 st true 5 eq_refl (Small.started true) (steps_here _ _ _)
    Small.is_pending E Ho) as (_ & tr & Ht).
  exists tr. split; [exact E|]. rewrite Ht, El. reflexivity.
Defined.

Lemma single_pass_is_complete_witness : ∃ st,
  @syncLoop Small.SW (Small.conf true) 3 Small.tr0 Small.w0 = Ok st ∧
  released (Small.conf true) (str "other") (lsTrace st).
Proof.
  destruct Small.finishes as [st E]. exists st. split; [exact E|].
  destruct (single_pass_is_complete (SL := Small.laws) Small.lastID (Small.conf true) 3 Small.tr0
    Small.w0 st E) as (_ & _ & wl & Es & H).
  pose proof (eq_trans (eq_sym Es) (eq_refl (Ok Small.w0))) as Eq. injection Eq as ->.
  apply H, list_elem_of_here.
Defined.

Lemma pass_returns_witness : is_ok (@pass Small.SW (Small.conf false) 3 true Small.st0).
Proof.
  exact (pass_returns (SW := Small.SW) (Small.conf false) (λ w : Small.world, length w) 3 true
    Small.st0 Small.bounded_ready (le_n 3)).
Defined.
