(* ===== verification/Receiver.v ===== *)
(** * The receiver (syncer/receiver, utils/climit)

    The receiver lists the storage and starts a downloader for every instance;
    the downloaders fetch and decode the newest snapshot of their instance and
    offer it to the syncer.  They are goroutines that share maps behind a mutex
    and tokens in channels: every section between two such points is one step
    of [rstep], and the steps interleave freely.  A listing has several: the
    storage is listed, the corrupt snapshots are merged into the ignored ones,
    the newest snapshots are published, and for each new one the downloader is
    fetched or started and then notified.  [RunOnce] is their sequence without
    steps of the other goroutines in between.  Logging and metrics are left
    out. *)

From Stdlib Require Import Sorted.
From S2P Require Import Prelude Proto Config Trackers Name Snapshot.

(** ** Concurrency limits (utils/climit) *)

Module Climit.
(** The free tokens are in the channel; a token is held until it is released,
    and releasing it again does nothing. *)
Record ConcurrencyLimit : Type := MkLimit {
  clFree : nat;
  clHeld : gset nat;
}.

Definition New (limit : Z) : ConcurrencyLimit :=
  let limit := if limit <? 1 then 1 else limit in
  MkLimit (Z.to_nat limit) ∅.

(** Blocks ([None]) while there is no free token. *)
Definition Acquire (cl : ConcurrencyLimit) : option (ConcurrencyLimit * nat) :=
  match clFree cl with
  | O => None
  | S n => let t := fresh (clHeld cl) in Some (MkLimit n ({[t]} ∪ clHeld cl), t)
  end.

Definition Release (cl : ConcurrencyLimit) (t : nat) : ConcurrencyLimit :=
  if bool_decide (t ∈ clHeld cl) then MkLimit (S (clFree cl)) (clHeld cl ∖ {[t]}) else cl.

Definition capacity (cl : ConcurrencyLimit) : nat := clFree cl + size (clHeld cl).

Lemma New_capacity limit : capacity (New limit) = Z.to_nat (Z.max 1 limit) ∧ clHeld (New limit) = ∅.
Proof.
  unfold capacity, New. cbv zeta. cbn [clFree clHeld]. rewrite size_empty. split; [|done].
  destruct (Z.ltb_spec limit 1); lia.
Qed.

Lemma Acquire_spec cl cl' t :
  Acquire cl = Some (cl', t) →
  capacity cl' = capacity cl ∧ t ∉ clHeld cl ∧ clHeld cl' = {[t]} ∪ clHeld cl.
Proof.
  unfold Acquire, capacity. destruct (clFree cl) as [|n]; [done|]. intros [= <- <-]. cbn [clFree clHeld].
  pose proof (is_fresh (clHeld cl)). rewrite size_union, size_singleton by set_solver. split_and!; [lia|done|done].
Qed.

Lemma Release_spec cl t :
  capacity (Release cl t) = capacity cl ∧ clHeld (Release cl t) = clHeld cl ∖ {[t]}.
Proof.
  unfold Release, capacity. case_bool_decide as Ht; cbn [clFree clHeld].
  - split; [|done]. rewrite size_difference, size_singleton by set_solver.
    assert (size (clHeld cl) ≠ 0%nat); [|lia]. intros E%size_empty_inv. set_solver.
  - split; [done|set_solver].
Qed.

(** A token can be acquired exactly when the limit is not reached. *)
Lemma Acquire_iff cl : is_Some (Acquire cl) ↔ (size (clHeld cl) < capacity cl)%nat.
Proof.
  unfold Acquire, capacity. destruct (clFree cl); [|split; [lia|by eexists]].
  split; [by intros [? ?]|lia].
Qed.
End Climit.

(** ** State *)

(** Where a downloader is. *)
Inductive pc : Type :=
  | Waiting
  | Checking
  | GetDownload (ni : NameInfo)
  | Fetching (ni : NameInfo) (dt : nat)
  | GetDecompress (ni : NameInfo) (data : bytes) (dt : nat)
  | Decoding (ni : NameInfo) (data : bytes) (dt token : nat)
  | Closing (ni : NameInfo) (overwritten : option nat)
  | Retrying.

(** [dLast] is the full name of the last processed snapshot, empty at first. *)
Record Downloader : Type := MkDownloader {
  dLast : bytes;
  dSignal : bool;
  dPc : pc;
}.

(** [snapshot.Update] with its token. *)
Record ReadyUpdate : Type := MkReady {
  ruSnapshot : Snapshot;
  ruNameInfo : NameInfo;
  ruToken : nat;
}.

Record Receiver : Type := MkReceiver {
  rPrefix : bytes;
  rOwn : bytes;
  rNotified : gmap bytes NameInfo;
  rIgnored : gset bytes;
  rReady : gmap bytes ReadyUpdate;
  rLastSeen : gmap bytes NameInfo;
  rDownloaders : gmap bytes Downloader;
  rHasSnapshots : bool;
  rCorrupt : gset bytes;
  rDecompress : Climit.ConcurrencyLimit;
  rDownload : Climit.ConcurrencyLimit;
  (** the updates the syncer took and did not close yet *)
  rTaken : list ReadyUpdate;
}.

Definition NewReceiver (c : Config) (dbname inst : bytes) : Receiver :=
  MkReceiver (dbname ++ str "__") inst ∅ ∅ ∅ ∅ ∅ false ∅
    (Climit.New (MemoryDecompressedSnapshots c)) (Climit.New (MemoryDownloadedSnapshots c)) [].

Definition setReady (x : gmap bytes ReadyUpdate) (r : Receiver) : Receiver :=
  MkReceiver (rPrefix r) (rOwn r) (rNotified r) (rIgnored r) x (rLastSeen r) (rDownloaders r)
    (rHasSnapshots r) (rCorrupt r) (rDecompress r) (rDownload r) (rTaken r).
Definition setTaken (x : list ReadyUpdate) (r : Receiver) : Receiver :=
  MkReceiver (rPrefix r) (rOwn r) (rNotified r) (rIgnored r) (rReady r) (rLastSeen r)
    (rDownloaders r) (rHasSnapshots r) (rCorrupt r) (rDecompress r) (rDownload r) x.
Definition setDownloaders (x : gmap bytes Downloader) (r : Receiver) : Receiver :=
  MkReceiver (rPrefix r) (rOwn r) (rNotified r) (rIgnored r) (rReady r) (rLastSeen r) x
    (rHasSnapshots r) (rCorrupt r) (rDecompress r) (rDownload r) (rTaken r).
Definition setDecompress (x : Climit.ConcurrencyLimit) (r : Receiver) : Receiver :=
  MkReceiver (rPrefix r) (rOwn r) (rNotified r) (rIgnored r) (rReady r) (rLastSeen r)
    (rDownloaders r) (rHasSnapshots r) (rCorrupt r) x (rDownload r) (rTaken r).
Definition setDownload (x : Climit.ConcurrencyLimit) (r : Receiver) : Receiver :=
  MkReceiver (rPrefix r) (rOwn r) (rNotified r) (rIgnored r) (rReady r) (rLastSeen r)
    (rDownloaders r) (rHasSnapshots r) (rCorrupt r) (rDecompress r) x (rTaken r).
Definition setIgnored (x : gset bytes) (r : Receiver) : Receiver :=
  MkReceiver (rPrefix r) (rOwn r) (rNotified r) x (rReady r) (rLastSeen r)
    (rDownloaders r) (rHasSnapshots r) (rCorrupt r) (rDecompress r) (rDownload r) (rTaken r).
Definition setNotified (x : gmap bytes NameInfo) (r : Receiver) : Receiver :=
  MkReceiver (rPrefix r) (rOwn r) x (rIgnored r) (rReady r) (rLastSeen r)
    (rDownloaders r) (rHasSnapshots r) (rCorrupt r) (rDecompress r) (rDownload r) (rTaken r).
Definition setLastSeen (x : gmap bytes NameInfo) (has : bool) (r : Receiver) : Receiver :=
  MkReceiver (rPrefix r) (rOwn r) (rNotified r) (rIgnored r) (rReady r) x
    (rDownloaders r) has (rCorrupt r) (rDecompress r) (rDownload r) (rTaken r).
Definition setCorrupt (x : gset bytes) (r : Receiver) : Receiver :=
  MkReceiver (rPrefix r) (rOwn r) (rNotified r) (rIgnored r) (rReady r) (rLastSeen r)
    (rDownloaders r) (rHasSnapshots r) x (rDecompress r) (rDownload r) (rTaken r).

(** ** Operations of the syncer *)

(** [Next], when the iteration over the map starts at [instance], and
    no hook offers updates; [NextUpdate] of Hooks.v has the other source. *)
Definition Next (r : Receiver) (instance : bytes) : option (Receiver * ReadyUpdate) :=
  match rReady r !! instance with
  | None => None
  | Some u =>
      if bool_decide (instance = []) then None
      else Some (setTaken (u :: rTaken r) (setReady (delete instance (rReady r)) r), u)
  end.

Definition HasSnapshots (r : Receiver) : bool := rHasSnapshots r.
Definition SeenInstances (r : Receiver) : list bytes := (map_to_list (rLastSeen r)).*1.

(** [update.Close()] returns the token. *)
Definition Close (r : Receiver) (u : ReadyUpdate) : Receiver :=
  setDecompress (Climit.Release (rDecompress r) (ruToken u)) r.

Definition MarkCorrupt (r : Receiver) (filename : bytes) : Receiver :=
  setCorrupt ({[filename]} ∪ rCorrupt r) r.

(** ** Listing *)

Section receiver.
Context `{P : CSProto} `{D : CSDecoder} `{G : Gzip} (reg : extensions).

(** The newest snapshot per instance of a listing in lexicographic order. *)
Fixpoint latest (ignored : gset bytes) (names : list bytes) (seen : gmap bytes NameInfo)
    : outcome (gset bytes * gmap bytes NameInfo) :=
  match names with
  | [] => Ok (ignored, seen)
  | name :: names =>
      if bool_decide (name ∈ ignored) then latest ignored names seen
      else match ParseName reg name with
      | Err _ => latest ({[name]} ∪ ignored) names seen
      | Ok ni =>
          if negb (bool_decide (Kind ni = KindSnapshot)) then latest ignored names seen
          else latest ignored names (<[InstanceID ni := ni]> seen)
      | Panic => Panic
      | Hang => Hang
      end
  end.

Definition newDownloader : Downloader := MkDownloader [] false Waiting.

(** [getDownloader]: a downloader is started for a new instance. *)
Definition getDownloader (r : Receiver) (inst : bytes) : Receiver :=
  match rDownloaders r !! inst with
  | Some _ => r
  | None => setDownloaders (<[inst := newDownloader]> (rDownloaders r)) r
  end.

(** The channel has room for one signal. *)
Definition NotifyNewSnapshot (d : Downloader) : Downloader := MkDownloader (dLast d) true (dPc d).

(** The downloader is signalled and the notification noted; the notes are only
    used by this goroutine. *)
Definition notify (r : Receiver) (inst : bytes) (ni : NameInfo) : Receiver :=
  setNotified (<[inst := ni]> (rNotified r))
    (setDownloaders (alter NotifyNewSnapshot inst (rDownloaders r)) r).

(** The full name of the last notified snapshot, empty at first. *)
Definition lastNotified (r : Receiver) (inst : bytes) : bytes :=
  match rNotified r !! inst with Some n => FullName n | None => [] end.

(** Whether an instance of the listing needs no notification. *)
Definition skips (includingOwn : bool) (r : Receiver) (e : bytes * NameInfo) : bool :=
  let '(inst, ni) := e in
  bool_decide (FullName ni = lastNotified r inst) ||
  (negb includingOwn && bool_decide (inst = rOwn r)).

(** One instance of the listing. *)
Definition consider (includingOwn : bool) (r : Receiver) (e : bytes * NameInfo) : Receiver :=
  if skips includingOwn r e then r
  else let '(inst, ni) := e in notify (getDownloader r inst) inst ni.

(** The two sections at the start, each under the mutex. *)
Definition mergeCorrupt (r : Receiver) : Receiver := setIgnored (rCorrupt r ∪ rIgnored r) r.

Definition publishSeen (ignored : gset bytes) (lastSeen : gmap bytes NameInfo) (r : Receiver)
    : Receiver :=
  setLastSeen lastSeen (bool_decide (0 < size lastSeen)%nat) (setIgnored ignored r).

Definition RunOnce (r : Receiver) (includingOwn : bool) (ls : outcome (list bytes))
    : outcome Receiver :=
  names ← wrap_err "list snapshots" ls;
  let r := mergeCorrupt r in
  '(ignored, lastSeen) ← latest (rIgnored r) names ∅;
  let r := publishSeen ignored lastSeen r in
  Ok (foldl (consider includingOwn) r (map_to_list lastSeen)).

(** Where the goroutine that lists the storage is.  There is one: the sync loop
    calls [RunOnce] before it starts [Run]. *)
Inductive lister : Type :=
  | Idle
  | Listed (includingOwn : bool) (names : list bytes)
  | Merged (includingOwn : bool) (names : list bytes)
  | Considering (includingOwn : bool) (todo : list (bytes * NameInfo))
  | Notifying (includingOwn : bool) (inst : bytes) (ni : NameInfo) (todo : list (bytes * NameInfo)).

Definition system : Type := Receiver * lister.

(** One section of [RunOnce]; the new map is visited in any order. *)
Inductive lstep : system → system → Prop :=
  | l_list r own names : lstep (r, Idle) (r, Listed own names)
  | l_merge r own names : lstep (r, Listed own names) (mergeCorrupt r, Merged own names)
  | l_publish r own names ignored seen l :
      latest (rIgnored r) names ∅ = Ok (ignored, seen) → l ≡ₚ map_to_list seen →
      lstep (r, Merged own names) (publishSeen ignored seen r, Considering own l)
  | l_skip r own e l :
      skips own r e = true → lstep (r, Considering own (e :: l)) (r, Considering own l)
  | l_get r own i ni l :
      skips own r (i, ni) = false →
      lstep (r, Considering own ((i, ni) :: l)) (getDownloader r i, Notifying own i ni l)
  | l_notify r own i ni l :
      lstep (r, Notifying own i ni l) (notify r i ni, Considering own l)
  | l_done r own : lstep (r, Considering own []) (r, Idle).

(** ** Downloaders *)

Definition setPc (d : Downloader) (p : pc) : Downloader := MkDownloader (dLast d) (dSignal d) p.
Definition setLast (d : Downloader) (n : bytes) : Downloader := MkDownloader n (dSignal d) (dPc d).

Definition putD (i : bytes) (d : Downloader) (r : Receiver) : Receiver :=
  setDownloaders (<[i := d]> (rDownloaders r)) r.

(** [case <-d.newSnapshotSignal] *)
Definition wake (d : Downloader) : Downloader := MkDownloader (dLast d) false Checking.

(** What to do with the newest snapshot seen. *)
Definition check (r : Receiver) (i : bytes) (d : Downloader) : Downloader :=
  match rLastSeen r !! i with
  | None => setPc d Waiting
  | Some ni => if bool_decide (FullName ni = dLast d) then setPc d Waiting
               else setPc d (GetDownload ni)
  end.

(** [LoadOnce] from the decoding on: a snapshot that cannot be decoded is
    marked as corrupt, any other is made available to the syncer. *)
Definition decoded (r : Receiver) (i : bytes) (d : Downloader) (ni : NameInfo) (data : bytes)
    (dt token : nat) : option Receiver :=
  match LoadData data with
  | Err _ =>
      let r := setDecompress (Climit.Release (rDecompress r) token) r in
      let r := MarkCorrupt r (FullName ni) in
      let r := setDownload (Climit.Release (rDownload r) dt) r in
      Some (putD i (setPc (setLast d (FullName ni)) Retrying) r)
  | Ok msg =>
      let r := setDownload (Climit.Release (rDownload r) dt) r in
      let overwritten := ruToken <$> rReady r !! i in
      let r := setReady (<[i := MkReady msg ni token]> (rReady r)) r in
      Some (putD i (setPc d (Closing ni overwritten)) r)
  | _ => None
  end.

(** One step of the downloader of [i].  [fetched] is what the storage returns
    when it is asked. *)
Definition dstep (r : Receiver) (i : bytes) (d : Downloader) (fetched : option bytes)
    : option Receiver :=
  match dPc d with
  | Waiting => if dSignal d then Some (putD i (wake d) r) else None
  | Checking => Some (putD i (check r i d) r)
  | GetDownload ni =>
      '(cl, dt) ← Climit.Acquire (rDownload r);
      Some (putD i (setPc d (Fetching ni dt)) (setDownload cl r))
  | Fetching ni dt =>
      match fetched with
      | None => Some (putD i (setPc d Retrying) (setDownload (Climit.Release (rDownload r) dt) r))
      | Some data => Some (putD i (setPc d (GetDecompress ni data dt)) r)
      end
  | GetDecompress ni data dt =>
      '(cl, token) ← Climit.Acquire (rDecompress r);
      Some (putD i (setPc d (Decoding ni data dt token)) (setDecompress cl r))
  | Decoding ni data dt token => decoded r i d ni data dt token
  | Closing ni overwritten =>
      let r := match overwritten with
               | Some t => setDecompress (Climit.Release (rDecompress r) t) r
               | None => r
               end in
      Some (putD i (setPc (setLast d (FullName ni)) Waiting) r)
  | Retrying => Some (putD i (setPc d Checking) r)
  end.

(** ** All goroutines *)

Inductive rstep : system → system → Prop :=
  | step_list s s' : lstep s s' → rstep s s'
  | step_download r l i d fetched r' :
      rDownloaders r !! i = Some d → dstep r i d fetched = Some r' → rstep (r, l) (r', l)
  | step_next r l i r' u : Next r i = Some (r', u) → rstep (r, l) (r', l)
  | step_close r l u l1 l2 :
      rTaken r = l1 ++ u :: l2 → rstep (r, l) (setTaken (l1 ++ l2) (Close r u), l).
End receiver.

(** ** Tokens and their owners *)

Section tokens.
Import Climit.

(** The tokens the values of a map own. *)
Definition toks {A} (f : A → option nat) (m : gmap bytes A) : list nat := omap f (map_to_list m).*2.

Definition one (o : option nat) : list nat := match o with Some t => [t] | None => [] end.

Lemma omap_cons {A} (f : A → option nat) x l : omap f (x :: l) = one (f x) ++ omap f l.
Proof. simpl. by destruct (f x). Qed.

Lemma toks_insert {A} (f : A → option nat) m i x :
  m !! i = None → Permutation (toks f (<[i:=x]> m)) (one (f x) ++ toks f m).
Proof.
  intros Hi. unfold toks. rewrite (map_to_list_insert m i x Hi). rewrite fmap_cons, omap_cons. done.
Qed.

Lemma toks_split {A} (f : A → option nat) m i :
  Permutation (toks f m) (one (m !! i ≫= f) ++ toks f (delete i m)) ∧
  ∀ x, Permutation (toks f (<[i:=x]> m)) (one (f x) ++ toks f (delete i m)).
Proof.
  split.
  - destruct (m !! i) as [x|] eqn:E; simpl.
    + rewrite <- (insert_delete_id m i x E) at 1. apply toks_insert, lookup_delete_eq.
    + by rewrite delete_id.
  - intros x. rewrite <- insert_delete_eq. apply toks_insert, lookup_delete_eq.
Qed.

(** Every held token has one owner. *)
Definition owned (cl : ConcurrencyLimit) (l : list nat) : Prop :=
  NoDup l ∧ ∀ t, t ∈ l ↔ t ∈ clHeld cl.

#[global] Instance owned_proper cl : Proper (Permutation ==> iff) (owned cl).
Proof. intros l l' H. unfold owned. by setoid_rewrite H. Qed.

Lemma owned_acquire cl cl' t l : Acquire cl = Some (cl', t) → owned cl l → owned cl' (t :: l).
Proof.
  intros (_ & Ht & Hh)%Acquire_spec [Hn Ho]. split.
  - apply NoDup_cons_2; [|done]. by rewrite Ho.
  - intros t'. rewrite elem_of_cons, Ho, Hh. set_solver.
Qed.

Lemma owned_release cl t l : owned cl (t :: l) → owned (Release cl t) l.
Proof.
  intros [Hn Ho]. destruct (Release_spec cl t) as [_ Hh]. split; [by eapply NoDup_cons_1_2|].
  intros t'. rewrite Hh, elem_of_difference, <- Ho, elem_of_cons, elem_of_singleton.
  pose proof (NoDup_cons_1_1 _ _ Hn). naive_solver.
Qed.

Lemma owned_bound cl l : owned cl l → (length l <= capacity cl)%nat.
Proof.
  intros [Hn Ho]. unfold capacity. assert (length l = size (clHeld cl)) as ->; [|lia].
  rewrite <- (size_list_to_set (C := gset nat)) by done. f_equal. apply set_eq. intros t.
  by rewrite elem_of_list_to_set.
Qed.
End tokens.

(** The token for a decompressed snapshot, and the one for a compressed one. *)
Definition decompressToken (d : Downloader) : option nat :=
  match dPc d with Decoding _ _ _ t => Some t | Closing _ o => o | _ => None end.
Definition downloadToken (d : Downloader) : option nat :=
  match dPc d with
  | Fetching _ t | GetDecompress _ _ t | Decoding _ _ t _ => Some t
  | _ => None
  end.

(** The decompressed snapshots: ready for the syncer, taken by it, or with a
    downloader. *)
Definition decompressed (r : Receiver) : list nat :=
  toks (Some ∘ ruToken) (rReady r) ++ (ruToken <$> rTaken r) ++ toks decompressToken (rDownloaders r).
Definition downloading (r : Receiver) : list nat := toks downloadToken (rDownloaders r).

Record tokens_ok (nDec nDown : nat) (r : Receiver) : Prop := MkTokensOk {
  tk_dec : owned (rDecompress r) (decompressed r);
  tk_down : owned (rDownload r) (downloading r);
  tk_ncdec : Climit.capacity (rDecompress r) = nDec;
  tk_ndown : Climit.capacity (rDownload r) = nDown;
}.

(** A listing moves no tokens. *)
Definition sameTokens (r r' : Receiver) : Prop :=
  rReady r' = rReady r ∧ rTaken r' = rTaken r ∧
  rDecompress r' = rDecompress r ∧ rDownload r' = rDownload r ∧
  Permutation (toks decompressToken (rDownloaders r')) (toks decompressToken (rDownloaders r)) ∧
  Permutation (toks downloadToken (rDownloaders r')) (toks downloadToken (rDownloaders r)).

Ltac same_tokens := unfold sameTokens; split_and!; done.

Lemma sameTokens_trans r1 r2 r3 : sameTokens r1 r2 → sameTokens r2 r3 → sameTokens r1 r3.
Proof.
  intros (A1 & A2 & A3 & A4 & A5 & A6) (B1 & B2 & B3 & B4 & B5 & B6).
  split_and!; congruence || by etrans.
Qed.

Lemma tokens_ok_same nd nw r r' : sameTokens r r' → tokens_ok nd nw r → tokens_ok nd nw r'.
Proof.
  intros (A1 & A2 & A3 & A4 & A5 & A6) [H1 H2 H3 H4].
  constructor; unfold decompressed, downloading in *; rewrite ?A1, ?A2, ?A3, ?A4, ?A5, ?A6; done.
Qed.

Lemma insert_tokens r i d' :
  decompressToken d' = rDownloaders r !! i ≫= decompressToken →
  downloadToken d' = rDownloaders r !! i ≫= downloadToken →
  sameTokens r (setDownloaders (<[i := d']> (rDownloaders r)) r).
Proof.
  intros E1 E2. split_and!; try done; simpl.
  - destruct (toks_split decompressToken (rDownloaders r) i) as [H1 H2]. by rewrite H1, H2, E1.
  - destruct (toks_split downloadToken (rDownloaders r) i) as [H1 H2]. by rewrite H1, H2, E2.
Qed.

Lemma getDownloader_tokens r i : sameTokens r (getDownloader r i).
Proof.
  unfold getDownloader. destruct (rDownloaders r !! i) eqn:E; [same_tokens|].
  apply insert_tokens; by rewrite E.
Qed.

Lemma alter_found {A} (f : A → A) (m : gmap bytes A) i x :
  m !! i = Some x → alter f i m = <[i := f x]> m.
Proof.
  intros H. apply map_eq. intros j. destruct (decide (j = i)) as [->|].
  - by rewrite lookup_alter_eq, lookup_insert_eq, H.
  - by rewrite lookup_alter_ne, lookup_insert_ne.
Qed.

Lemma alter_missing {A} (f : A → A) (m : gmap bytes A) i : m !! i = None → alter f i m = m.
Proof. intros H. apply alter_id. by rewrite H. Qed.

Lemma notify_tokens r i ni : sameTokens r (notify r i ni).
Proof.
  unfold notify. destruct (rDownloaders r !! i) as [d|] eqn:E.
  - rewrite (alter_found _ _ _ d) by done.
    eapply sameTokens_trans; [apply (insert_tokens r i (NotifyNewSnapshot d)); by rewrite E|]. same_tokens.
  - rewrite alter_missing by done. same_tokens.
Qed.

Section invariants.
Context `{P : CSProto} `{D : CSDecoder} `{G : Gzip} (reg : extensions).

Lemma lstep_tokens s s' : lstep reg s s' → sameTokens s.1 s'.1.
Proof.
  intros []; simpl; try same_tokens; [apply getDownloader_tokens|apply notify_tokens].
Qed.

(** The owners of tokens around the downloader of [i]. *)
Lemma decompressed_split r i d :
  rDownloaders r !! i = Some d → ∃ rest,
    Permutation (decompressed r) (one (decompressToken d) ++ rest) ∧
    ∀ r' d', rReady r' = rReady r → rTaken r' = rTaken r →
      rDownloaders r' = <[i:=d']> (rDownloaders r) →
      Permutation (decompressed r') (one (decompressToken d') ++ rest).
Proof.
  intros Hd. destruct (toks_split decompressToken (rDownloaders r) i) as [H1 H2].
  rewrite Hd in H1. simpl in H1.
  exists (toks (Some ∘ ruToken) (rReady r) ++ (ruToken <$> rTaken r) ++
          toks decompressToken (delete i (rDownloaders r))).
  unfold decompressed. rewrite H1. split; [solve_Permutation|]. intros r' d' -> -> ->.
  rewrite H2. solve_Permutation.
Qed.

Lemma downloading_split r i d :
  rDownloaders r !! i = Some d → ∃ rest,
    Permutation (downloading r) (one (downloadToken d) ++ rest) ∧
    ∀ r' d', rDownloaders r' = <[i:=d']> (rDownloaders r) →
      Permutation (downloading r') (one (downloadToken d') ++ rest).
Proof.
  intros Hd. destruct (toks_split downloadToken (rDownloaders r) i) as [H1 H2].
  rewrite Hd in H1. exists (toks downloadToken (delete i (rDownloaders r))).
  split; [exact H1|]. intros r' d' E. unfold downloading. rewrite E. apply H2.
Qed.

(** A decoded snapshot passes its token to the map of ready updates, and gets
    the token of the one it replaces. *)
Lemma publish_tokens r i d u d' ov :
  rDownloaders r !! i = Some d → decompressToken d = Some (ruToken u) →
  ov = ruToken <$> rReady r !! i → decompressToken d' = ov →
  Permutation (decompressed (putD i d' (setReady (<[i:=u]> (rReady r)) r))) (decompressed r).
Proof.
  intros Hd Ht Eov Ht'. unfold decompressed. simpl.
  destruct (toks_split decompressToken (rDownloaders r) i) as [D1 D2].
  destruct (toks_split (Some ∘ ruToken) (rReady r) i) as [R1 R2].
  rewrite D2, D1, R2, R1, Hd, Ht', Eov. simpl. rewrite Ht. simpl.
  destruct (rReady r !! i); simpl; solve_Permutation.
Qed.

Ltac via H := eapply owned_proper; [eapply H; reflexivity|].

Lemma dstep_tokens nd nw r i d f r' :
  rDownloaders r !! i = Some d → dstep r i d f = Some r' → tokens_ok nd nw r → tokens_ok nd nw r'.
Proof.
  intros Hd H [H1 H2 H3 H4].
  destruct (decompressed_split r i d Hd) as (rd & D1 & D2).
  destruct (downloading_split r i d Hd) as (rw & W1 & W2).
  rewrite D1 in H1. rewrite W1 in H2.
  assert (Hput : ∀ d', decompressToken d' = decompressToken d → downloadToken d' = downloadToken d →
    tokens_ok nd nw (putD i d' r)).
  { intros d' E1 E2. constructor; [via D2; by rewrite E1|via W2; by rewrite E2|done..]. }
  unfold dstep in H. unfold decompressToken in H1 at 1. unfold downloadToken in H2 at 1.
  destruct (dPc d) as [| |ni|ni dt|ni data dt|ni data dt t|ni ov|] eqn:Ep.
  - destruct (dSignal d); [|done]. simplify_eq. apply Hput; unfold decompressToken, downloadToken; by rewrite Ep.
  - simplify_eq. unfold check.
    destruct (rLastSeen r !! i) as [n|]; [case_bool_decide|];
      apply Hput; unfold decompressToken, downloadToken; by rewrite Ep.
  - destruct (Climit.Acquire (rDownload r)) as [[cl t]|] eqn:Ea; [|done]. simplify_eq/=.
    destruct (Climit.Acquire_spec _ _ _ Ea) as [Ec _].
    constructor; [by via D2| |done|simpl; congruence].
    via W2. by eapply owned_acquire.
  - destruct f as [data|]; simplify_eq.
    + apply Hput; unfold decompressToken, downloadToken; by rewrite Ep.
    + destruct (Climit.Release_spec (rDownload r) dt) as [Ec _].
      constructor; [by via D2| |done|simpl; congruence]. via W2. by apply owned_release.
  - destruct (Climit.Acquire (rDecompress r)) as [[cl t]|] eqn:Ea; [|done]. simplify_eq/=.
    destruct (Climit.Acquire_spec _ _ _ Ea) as [Ec _].
    constructor; [|by via W2|simpl; congruence|done].
    via D2. by eapply owned_acquire.
  - destruct (Climit.Release_spec (rDecompress r) t) as [Ec _].
    destruct (Climit.Release_spec (rDownload r) dt) as [Ew _].
    unfold decoded in H. destruct (LoadData data) as [msg| | |]; [| |done..]; simplify_eq.
    + constructor; [|via W2; by apply owned_release|done|simpl; congruence].
      rewrite (publish_tokens (setDownload _ r) i d (MkReady msg ni t)); try done;
        [|unfold decompressToken; by rewrite Ep].
      eapply owned_proper; [exact D1|]. unfold decompressToken. by rewrite Ep.
    + constructor; [via D2; by apply owned_release|via W2; by apply owned_release
        |simpl; congruence..].
  - simplify_eq. destruct ov as [t|].
    + destruct (Climit.Release_spec (rDecompress r) t) as [Ec _].
      constructor; [via D2; by apply owned_release|by via W2|simpl; congruence|done].
    + constructor; [by via D2|by via W2|done|done].
  - simplify_eq. apply Hput; unfold decompressToken, downloadToken; by rewrite Ep.
Qed.

Lemma rstep_tokens nd nw s s' : rstep reg s s' → tokens_ok nd nw s.1 → tokens_ok nd nw s'.1.
Proof.
  intros H Ht. destruct H as [s s' H|r l i d f r' Hd H|r l i r' u H|r l u l1 l2 Hl]; simpl in *.
  - eapply tokens_ok_same; [by apply lstep_tokens|done].
  - by eapply dstep_tokens.
  - unfold Next in H. destruct (rReady r !! i) as [u'|] eqn:Eu; [|done].
    case_bool_decide; [done|]. simplify_eq. destruct Ht as [H1 H2 H3 H4]. constructor; try done.
    unfold decompressed in *. simpl.
    destruct (toks_split (Some ∘ ruToken) (rReady r) i) as [R1 _]. rewrite R1, Eu in H1. simpl in H1.
    revert H1. apply owned_proper. solve_Permutation.
  - destruct Ht as [H1 H2 H3 H4]. destruct (Climit.Release_spec (rDecompress r) (ruToken u)) as [Ec _].
    constructor; [|done|simpl; congruence|done]. unfold decompressed in *. simpl.
    apply owned_release. revert H1. apply owned_proper. rewrite Hl, !fmap_app, fmap_cons.
    solve_Permutation.
Qed.

Lemma new_tokens c dbname inst :
  tokens_ok (Z.to_nat (Z.max 1 (MemoryDecompressedSnapshots c)))
    (Z.to_nat (Z.max 1 (MemoryDownloadedSnapshots c))) (NewReceiver c dbname inst).
Proof.
  constructor; try apply Climit.New_capacity; unfold decompressed, downloading; simpl;
    (split; [constructor|]); intros t; unfold Climit.New; simpl; set_solver.
Qed.

(** C11: whatever the goroutines do and in whatever order, the number of
    decompressed snapshots in memory (offered to the syncer, taken by it or
    being decoded or replaced by a downloader) and the number of downloads in
    flight stay within the configured limits. *)
Theorem memory_is_bounded c dbname inst r l :
  rtc (rstep reg) (NewReceiver c dbname inst, Idle) (r, l) →
  (length (decompressed r) <= Z.to_nat (Z.max 1 (MemoryDecompressedSnapshots c)))%nat ∧
  (length (downloading r) <= Z.to_nat (Z.max 1 (MemoryDownloadedSnapshots c)))%nat.
Proof.
  intros H. assert (tokens_ok (Z.to_nat (Z.max 1 (MemoryDecompressedSnapshots c)))
    (Z.to_nat (Z.max 1 (MemoryDownloadedSnapshots c))) (r, l).1) as [H1 H2 <- <-].
  { generalize (new_tokens c dbname inst : tokens_ok _ _ (NewReceiver c dbname inst, Idle).1).
    induction H as [s|s1 s2 s3 Hs _ IH]; [done|]. intros Ht. by eapply IH, rstep_tokens. }
  split; by apply owned_bound.
Qed.

(** ** What a listing leaves *)

Definition insName (m : gmap bytes NameInfo) (ni : NameInfo) : gmap bytes NameInfo :=
  <[InstanceID ni := ni]> m.

Lemma latest_ok names : ∀ ignored seen, ∃ ignored',
  latest reg ignored names seen =
    Ok (ignored', foldl insName seen (omap (snapOf reg ignored) names)).
Proof.
  induction names as [|name names IH]; intros ignored seen; [by exists ignored|].
  assert (Hs : snapOf reg ignored name = snapOf reg ignored name) by done. unfold snapOf at 2 in Hs.
  cbn [latest omap list_omap]. rewrite !Hs. clear Hs.
  case_bool_decide as Hi; [apply IH|].
  destruct (ParseName_total reg name) as [[ni Hp]|[e Hp]]; rewrite Hp.
  - case_bool_decide; cbn [negb]; [|apply IH].
    destruct (IH ignored (insName seen ni)) as [ig' E]. exists ig'. exact E.
  - destruct (IH ({[name]} ∪ ignored) seen) as [ig' ->]. exists ig'.
    by rewrite (list_omap_ext (snapOf reg ({[name]} ∪ ignored)) (snapOf reg ignored) names names)
      by (apply Forall_Forall2_diag, Forall_forall; intros x _; apply snapOf_ignore; by eexists).
Qed.

(** The entry of an instance is the last of the listing. *)
Lemma foldl_insName l : ∀ m i n,
  foldl insName m l !! i = Some n →
  (m !! i = Some n ∧ ∀ x, x ∈ l → InstanceID x ≠ i) ∨
  (∃ l1 l2, l = l1 ++ n :: l2 ∧ InstanceID n = i ∧ ∀ x, x ∈ l2 → InstanceID x ≠ i).
Proof.
  induction l as [|y l IH]; intros m i n H; simpl in H; [left; split; [done|set_solver]|].
  destruct (IH _ _ _ H) as [[E Hn]|(l1 & l2 & -> & Ei & Hn)].
  - unfold insName in E. apply lookup_insert_Some in E as [[<- <-]|[Hne E]].
    + right. by exists [], l.
    + left. split; [done|]. intros x [->|Hx]%elem_of_cons; [done|by apply Hn].
  - right. by exists (y :: l1), l2.
Qed.

Lemma latest_elem names ignored i n :
  foldl insName ∅ (omap (snapOf reg ignored) names) !! i = Some n →
  InstanceID n = i ∧ FullName n ∈ names ∧ FullName n ≠ [] ∧
  snapOf reg ignored (FullName n) = Some n.
Proof.
  intros H. apply foldl_insName in H as [[E _]|(l1 & l2 & E & Ei & _)]; [by rewrite lookup_empty in E|].
  assert (n ∈ omap (snapOf reg ignored) names) as Hn by (rewrite E; set_solver).
  apply snaps_elem in Hn as [H1 H2]. split_and!; [done|done| |done].
  intros E0. rewrite E0 in H2. unfold snapOf in H2. by case_bool_decide.
Qed.

(** ** What [RunOnce] computes *)

Definition seenIn (ignored : gset bytes) (names : list bytes) : gmap bytes NameInfo :=
  foldl insName ∅ (omap (snapOf reg ignored) names).

Definition listed (r : Receiver) (names : list bytes) : gmap bytes NameInfo :=
  seenIn (rCorrupt r ∪ rIgnored r) names.

Lemma getDownloader_frame r i :
  rOwn (getDownloader r i) = rOwn r ∧ rLastSeen (getDownloader r i) = rLastSeen r ∧
  rHasSnapshots (getDownloader r i) = rHasSnapshots r ∧ rNotified (getDownloader r i) = rNotified r.
Proof. unfold getDownloader. by destruct (rDownloaders r !! i). Qed.

Lemma consider_frame own e r :
  rOwn (consider own r e) = rOwn r ∧ rLastSeen (consider own r e) = rLastSeen r ∧
  rHasSnapshots (consider own r e) = rHasSnapshots r.
Proof.
  destruct e as [i n]. unfold consider. destruct (skips own r (i, n)); [done|].
  by destruct (getDownloader_frame r i) as (? & ? & ? & ?).
Qed.

Lemma considers_frame own l : ∀ r,
  rOwn (foldl (consider own) r l) = rOwn r ∧
  rLastSeen (foldl (consider own) r l) = rLastSeen r ∧
  rHasSnapshots (foldl (consider own) r l) = rHasSnapshots r.
Proof.
  induction l as [|e l IH]; intros r; [done|]. cbn [foldl].
  destruct (IH (consider own r e)) as (-> & -> & ->). apply consider_frame.
Qed.

Lemma RunOnce_eq r own names : ∃ ignored,
  latest reg (rIgnored (mergeCorrupt r)) names ∅ = Ok (ignored, listed r names) ∧
  RunOnce reg r own (Ok names) =
    Ok (foldl (consider own) (publishSeen ignored (listed r names) (mergeCorrupt r))
          (map_to_list (listed r names))).
Proof.
  destruct (latest_ok names (rCorrupt r ∪ rIgnored r) ∅) as [ig E].
  exists ig. split; [exact E|]. unfold RunOnce. cbn [wrap_err]. rewrite bind_ok.
  cbn [mergeCorrupt rIgnored setIgnored]. by rewrite E.
Qed.

Lemma RunOnce_ok r own names :
  ∃ r', RunOnce reg r own (Ok names) = Ok r' ∧
    rOwn r' = rOwn r ∧ rLastSeen r' = listed r names ∧
    rHasSnapshots r' = bool_decide (0 < size (listed r names))%nat.
Proof.
  destruct (RunOnce_eq r own names) as (ig & _ & ->). eexists. split; [done|].
  match goal with |- context [foldl _ ?r1 ?l] => by destruct (considers_frame own l r1) as (-> & -> & ->) end.
Qed.

(** [RunOnce] is its sections in a row.  [keeps] is what holds of every step. *)
Lemma considers_steps own (keeps : system → system → Prop) l : ∀ r,
  (∀ r r' a b, rLastSeen r' = rLastSeen r → keeps (r, a) (r', b)) →
  rtc (λ s s', rstep reg s s' ∧ keeps s s') (r, Considering own l)
    (foldl (consider own) r l, Idle).
Proof.
  induction l as [|[i n] l IH]; intros r Hk; cbn [foldl].
  - eapply rtc_l; [|apply rtc_refl]. split; [apply step_list, l_done|by apply Hk].
  - unfold consider at 2. destruct (skips own r (i, n)) eqn:E.
    + eapply rtc_l; [split; [by apply step_list, l_skip|by apply Hk]|by apply IH].
    + destruct (getDownloader_frame r i) as (_ & El & _).
      eapply rtc_l; [split; [by apply step_list, l_get|by apply Hk]|].
      eapply rtc_l; [split; [apply step_list, l_notify|by apply Hk]|]. by apply IH.
Qed.

Lemma RunOnce_keeps (keeps : system → system → Prop) r own names r' :
  RunOnce reg r own (Ok names) = Ok r' →
  (∀ r r' a b, rLastSeen r' = rLastSeen r → keeps (r, a) (r', b)) →
  (∀ r1 a b, rLastSeen r1 = rLastSeen r →
     ∀ r2, rLastSeen r2 = listed r names → keeps (r1, a) (r2, b)) →
  rtc (λ s s', rstep reg s s' ∧ keeps s s') (r, Idle) (r', Idle).
Proof.
  intros H Hk Hp. destruct (RunOnce_eq r own names) as (ig & El & E). rewrite E in H. simplify_eq.
  eapply rtc_l; [split; [apply step_list, (l_list reg r own names)|by apply Hk]|].
  eapply rtc_l; [split; [apply step_list, l_merge|by apply Hk]|].
  eapply rtc_l; [split; [apply step_list; by apply l_publish|by apply Hp]|].
  by apply considers_steps.
Qed.

Lemma RunOnce_steps r own names r' :
  RunOnce reg r own (Ok names) = Ok r' → rtc (rstep reg) (r, Idle) (r', Idle).
Proof.
  intros H. eapply rtc_subrel; [|apply (RunOnce_keeps (λ _ _, True) _ _ _ _ H); done].
  by intros ?? [? _].
Qed.

(** ** No notification is lost *)

(** A downloader that has processed the snapshot [n], or will look at it. *)
Definition current (n : bytes) (d : Downloader) : Prop :=
  dSignal d = true ∨
  match dPc d with
  | Waiting => dLast d = n
  | Checking | Retrying => True
  | GetDownload ni | Fetching ni _ | GetDecompress ni _ _ | Decoding ni _ _ _ | Closing ni _ =>
      FullName ni = n
  end.

(** The instances the running listing has still to notify, or to skip. *)
Definition todo (l : lister) : list (bytes * NameInfo) :=
  match l with
  | Considering _ l => l
  | Notifying _ i ni l => (i, ni) :: l
  | _ => []
  end.

Definition attended (r : Receiver) (i : bytes) (n : NameInfo) : Prop :=
  lastNotified r i = FullName n ∧
  ∃ d, rDownloaders r !! i = Some d ∧ current (FullName n) d.

Record notified_ok (s : system) : Prop := MkNotifiedOk {
  no_seen i n : i ≠ rOwn s.1 → rLastSeen s.1 !! i = Some n →
    attended s.1 i n ∨ ((i, n) ∈ todo s.2 ∧ lastNotified s.1 i ≠ FullName n);
  no_dom i : i ≠ rOwn s.1 → lastNotified s.1 i ≠ [] → is_Some (rLastSeen s.1 !! i);
  no_todo i n : (i, n) ∈ todo s.2 → rLastSeen s.1 !! i = Some n ∧ FullName n ≠ [];
  no_nodup : NoDup (todo s.2).*1;
  no_get : match s.2 with Notifying _ i _ _ => is_Some (rDownloaders s.1 !! i) | _ => True end;
}.

(** No instance disappears from the listing. *)
Definition steady (s s' : system) : Prop :=
  rstep reg s s' ∧ ∀ i, is_Some (rLastSeen s.1 !! i) → is_Some (rLastSeen s'.1 !! i).

(** The newest snapshots are replaced. *)
Lemma publish_notified r own names ignored ignored' l :
  notified_ok (r, Merged own names) →
  (∀ i, is_Some (rLastSeen r !! i) → is_Some (seenIn ignored names !! i)) →
  l ≡ₚ map_to_list (seenIn ignored names) →
  notified_ok (publishSeen ignored' (seenIn ignored names) r, Considering own l).
Proof.
  intros [H1 H2 _ _ _] Hst Hl. simpl in *.
  assert (Hin : ∀ i n, (i, n) ∈ l ↔ seenIn ignored names !! i = Some n).
  { intros i n. rewrite Hl. apply elem_of_map_to_list. }
  constructor; simpl; [|intros; by apply Hst, H2| |by rewrite Hl; apply NoDup_fst_map_to_list|done].
  - intros i n Hi Hn. unfold attended.
    change (lastNotified (publishSeen _ _ _) i) with (lastNotified r i).
    destruct (decide (lastNotified r i = FullName n)) as [E|]; [left|right; by rewrite Hin].
    pose proof (latest_elem _ _ _ _ Hn) as (_ & _ & Hne & _).
    destruct (H2 i Hi) as [m Hm]; [by rewrite E|].
    destruct (H1 i m Hi Hm) as [[E' Hd]|[Hc _]]; [|set_solver].
    split; [done|]. by rewrite <- E, E'.
  - intros i n Hi%Hin. split; [done|]. by apply latest_elem in Hi as (_ & _ & ? & _).
Qed.

Lemma skip_notified r own e l :
  skips own r e = true → notified_ok (r, Considering own (e :: l)) → notified_ok (r, Considering own l).
Proof.
  intros Hs [H1 H2 H3 H4 _]. simpl in *. constructor; simpl; [|done| |by inv H4|done].
  - intros i n Hi Hn. destruct (H1 i n Hi Hn) as [|[[E|Hin]%elem_of_cons Hne]]; [by left| |by right].
    subst e. simpl in Hs. apply orb_true_iff in Hs as [Hs|Hs].
    + by apply bool_decide_eq_true in Hs.
    + apply andb_true_iff in Hs as [_ Hs]. by apply bool_decide_eq_true in Hs.
  - intros i n Hin. apply H3. by right.
Qed.

(** A fetched downloader is as it was, or new. *)
Lemma get_notified r own i ni l :
  notified_ok (r, Considering own ((i, ni) :: l)) →
  notified_ok (getDownloader r i, Notifying own i ni l).
Proof.
  intros [H1 H2 H3 H4 _]. simpl in *. unfold getDownloader.
  destruct (rDownloaders r !! i) as [d|] eqn:E; constructor; simpl; try done.
  - intros j n Hj Hn. destruct (H1 j n Hj Hn) as [(Hl & d & Hd & Hc)|]; [left|by right].
    split; [done|]. exists d. simpl. rewrite lookup_insert_ne; [done|congruence].
  - by rewrite lookup_insert_eq.
Qed.

Lemma notify_notified r own i ni l :
  notified_ok (r, Notifying own i ni l) → notified_ok (notify r i ni, Considering own l).
Proof.
  intros [H1 H2 H3 H4 [d Hd]]. simpl in *. inv H4.
  assert (Hl : ∀ j, j ≠ i → lastNotified (notify r i ni) j = lastNotified r j).
  { intros j Hne. unfold lastNotified. simpl. by rewrite lookup_insert_ne. }
  assert (Hli : lastNotified (notify r i ni) i = FullName ni).
  { unfold lastNotified. simpl. by rewrite lookup_insert_eq. }
  constructor; simpl; try done.
  - intros j n Hj Hn. destruct (decide (j = i)) as [->|Hne].
    + left. destruct (H3 i ni) as [E _]; [by left|]. assert (n = ni) as -> by congruence.
      split; [done|]. exists (NotifyNewSnapshot d). simpl.
      rewrite lookup_alter_eq, Hd. split; [done|by left].
    + destruct (H1 j n Hj Hn) as [(E & d' & Hd' & Hc)|[[?|Hin]%elem_of_cons Hn']]; [|congruence|].
      * left. split; [by rewrite Hl|]. exists d'. simpl. by rewrite lookup_alter_ne.
      * right. by rewrite Hl.
  - intros j Hj Hne. destruct (decide (j = i)) as [->|Hij].
    + destruct (H3 i ni) as [-> _]; [by left|]. by eexists.
    + apply H2; [done|]. by rewrite <- Hl.
  - intros j n Hin. apply H3. by right.
Qed.

Lemma lstep_notified s s' :
  lstep reg s s' → (∀ i, is_Some (rLastSeen s.1 !! i) → is_Some (rLastSeen s'.1 !! i)) →
  notified_ok s → notified_ok s'.
Proof.
  intros [r own names|r own names|r own names ig seen l El Hl|r own e l Hs|r own i ni l _|r own i ni l|r own]
    Hst Hok.
  - by destruct Hok.
  - by destruct Hok.
  - destruct (latest_ok names (rIgnored r) ∅) as [ig' E']. rewrite E' in El. simplify_eq.
    by eapply publish_notified.
  - by eapply skip_notified.
  - by apply get_notified.
  - by apply notify_notified.
  - by destruct Hok.
Qed.

(** A step of a downloader that leaves it current. *)
Lemma putD_notified r r' l i d d' :
  rDownloaders r !! i = Some d → rDownloaders r' = <[i:=d']> (rDownloaders r) →
  rOwn r' = rOwn r → rNotified r' = rNotified r → rLastSeen r' = rLastSeen r →
  (∀ n, rLastSeen r !! i = Some n → current (FullName n) d → current (FullName n) d') →
  notified_ok (r, l) → notified_ok (r', l).
Proof.
  intros Hd Ed Eo En El Hc [H1 H2 H3 H4 H5].
  assert (Hn : ∀ j, lastNotified r' j = lastNotified r j) by (intros j; unfold lastNotified; by rewrite En).
  constructor; simpl in *; rewrite ?Eo, ?El; [| | |done|].
  - intros j n Hj Hs. destruct (H1 j n Hj Hs) as [(E & d0 & Hd0 & Hc0)|]; [left|right; by rewrite Hn].
    split; [by rewrite Hn|]. rewrite Ed. destruct (decide (j = i)) as [->|Hne].
    + exists d'. rewrite lookup_insert_eq. split; [done|]. apply Hc; [done|congruence].
    + exists d0. by rewrite lookup_insert_ne.
  - intros j Hj. rewrite Hn. by apply H2.
  - intros j n. apply H3.
  - destruct l as [| | |?|? j ? ?]; try done. rewrite Ed. destruct (decide (j = i)) as [->|].
    + rewrite lookup_insert_eq. by eexists.
    + by rewrite lookup_insert_ne.
Qed.

Lemma dstep_notified r l i d f r' :
  rDownloaders r !! i = Some d → dstep r i d f = Some r' →
  notified_ok (r, l) → notified_ok (r', l).
Proof.
  intros Hd H Hok. unfold dstep in H.
  destruct (dPc d) as [| |ni|ni dt|ni data dt|ni data dt t|ni ov|] eqn:Ep.
  - destruct (dSignal d); [|done]. simplify_eq. eapply putD_notified; try done. intros n _ _. by right.
  - simplify_eq. eapply putD_notified; try done. intros n Hn Hc. unfold check. rewrite Hn.
    case_bool_decide; right; simpl; congruence.
  - destruct (Climit.Acquire (rDownload r)) as [[cl t]|]; [|done]. simplify_eq/=.
    eapply putD_notified; try done. intros n _ Hc. unfold current in *. by rewrite Ep in Hc.
  - destruct f as [data|]; simplify_eq; (eapply putD_notified; try done); intros n _ Hc;
      unfold current in *; rewrite Ep in Hc; simpl; [done|by right].
  - destruct (Climit.Acquire (rDecompress r)) as [[cl t]|]; [|done]. simplify_eq/=.
    eapply putD_notified; try done. intros n _ Hc. unfold current in *. by rewrite Ep in Hc.
  - unfold decoded in H. destruct (LoadData data); [| |done..]; simplify_eq;
      (eapply putD_notified; try done); intros n _ Hc; unfold current in *; rewrite Ep in Hc; simpl;
      [done|by right].
  - simplify_eq. destruct ov as [tk|]; (eapply putD_notified; try done); intros n _ Hc;
      unfold current in *; rewrite Ep in Hc; simpl; destruct Hc; auto.
  - simplify_eq. eapply putD_notified; try done. intros n _ _. by right.
Qed.

Lemma steady_notified s s' : steady s s' → notified_ok s → notified_ok s'.
Proof.
  intros [Hs Hst] Hok. destruct Hs as [s s' H|r l i d f r' Hd H|r l i r' u H|r l u l1 l2 Hl].
  - by eapply lstep_notified.
  - by eapply dstep_notified.
  - unfold Next in H. destruct (rReady r !! i); [|done]. case_bool_decide; [done|]. simplify_eq.
    by destruct Hok.
  - by destruct Hok.
Qed.

Lemma new_notified c dbname inst : notified_ok (NewReceiver c dbname inst, Idle).
Proof.
  constructor; simpl; [| |set_solver|constructor|done]; intros i; unfold lastNotified; simpl;
    by rewrite lookup_empty.
Qed.

(** C10: as long as no instance disappears from the listing, the newest snapshot
    of every other instance has been processed by its downloader, or the
    downloader is at work or has a signal to look for it, or the listing that
    found it is still running and has yet to notify: no notification is lost,
    however the sections of the goroutines interleave. *)
Theorem no_notification_lost c dbname inst r l i n :
  rtc steady (NewReceiver c dbname inst, Idle) (r, l) → i ≠ rOwn r → rLastSeen r !! i = Some n →
  ((i, n) ∈ todo l ∧ lastNotified r i ≠ FullName n) ∨
  ∃ d, rDownloaders r !! i = Some d ∧
    (dLast d = FullName n ∨ dSignal d = true ∨ dPc d ≠ Waiting).
Proof.
  intros H Hi Hn. assert (notified_ok (r, l)) as [H1 _ _ _ _].
  { generalize (new_notified c dbname inst). clear Hi Hn.
    induction H as [s|s1 s2 s3 Hs _ IH]; [done|]. intros Hok. apply IH. by eapply steady_notified. }
  destruct (H1 i n Hi Hn) as [(_ & d & Hd & Hc)|]; [right|by left].
  exists d. split; [done|]. unfold current in Hc. destruct Hc as [|Hc]; [auto|].
  destruct (dPc d); auto; right; right; done.
Qed.

(** ** The newest snapshot *)

Lemma foldl_insName_some l : ∀ m x,
  x ∈ l → is_Some (foldl insName m l !! InstanceID x).
Proof.
  assert (Hk : ∀ l m i, is_Some (m !! i) → is_Some (foldl insName m l !! i)).
  { induction l0 as [|y l0 IH]; intros m i Hm; [done|]. apply IH. unfold insName.
    destruct (decide (InstanceID y = i)) as [->|]; [rewrite lookup_insert_eq; by eexists|].
    by rewrite lookup_insert_ne. }
  induction l as [|y l IH]; intros m x Hx; [set_solver|]. apply elem_of_cons in Hx as [->|Hx].
  - cbn [foldl]. apply Hk. unfold insName. rewrite lookup_insert_eq. by eexists.
  - by apply IH.
Qed.

Lemma snaps_sorted ignored (names : list bytes) :
  StronglySorted (λ a b, bytes_Compare a b = Lt) names →
  StronglySorted (λ x y, bytes_Compare (FullName x) (FullName y) = Lt)
    (omap (snapOf reg ignored) names).
Proof.
  induction 1 as [|a names Hs IH Hall]; [constructor|]. cbn [omap list_omap].
  destruct (snapOf reg ignored a) as [x|] eqn:E; [|done]. constructor; [done|].
  apply Forall_forall. intros y Hy%list_elem_of_In%snaps_elem. destruct Hy as [Hy _].
  rewrite Forall_forall in Hall. rewrite (snapOf_name _ _ _ _ E). by apply Hall, list_elem_of_In.
Qed.

Lemma sorted_before {A} (R : A → A → Prop) l1 y l2 x :
  StronglySorted R (l1 ++ y :: l2) → x ∈ l1 → R x y.
Proof.
  induction l1 as [|z l1 IH]; simpl; intros Hs Hx; [set_solver|].
  apply StronglySorted_inv in Hs as [Hs Hall]. apply elem_of_cons in Hx as [->|Hx]; [|by apply IH].
  rewrite Forall_forall in Hall. apply Hall, list_elem_of_In. set_solver.
Qed.

(** When the storage lists its names in order, and the snapshots were
    stored by syncers, the receiver finds exactly the instances that have a
    snapshot, each with its newest, and never one that was marked as corrupt. *)
Theorem newest_is_found r own names db :
  StronglySorted (λ a b, bytes_Compare a b = Lt) names →
  (∀ x, FullName x ∈ names → snapOf reg (rCorrupt r ∪ rIgnored r) (FullName x) = Some x →
     int64_time (niTimestamp x) ∧
     ∃ gen, FullName x = Name db (InstanceID x) gen (niTimestamp x)) →
  ∃ r', RunOnce reg r own (Ok names) = Ok r' ∧
    (∀ x, FullName x ∈ names → snapOf reg (rCorrupt r ∪ rIgnored r) (FullName x) = Some x →
       ∃ n, rLastSeen r' !! InstanceID x = Some n ∧ niTimestamp x <= niTimestamp n) ∧
    (∀ i n, rLastSeen r' !! i = Some n →
       InstanceID n = i ∧ FullName n ∈ names ∧ FullName n ∉ rCorrupt r).
Proof.
  intros Hs Hst. destruct (RunOnce_ok r own names) as (r' & E & _ & El & _).
  exists r'. rewrite El. split_and!; [done| |].
  - intros x Hx1 Hx2. assert (x ∈ omap (snapOf reg (rCorrupt r ∪ rIgnored r)) names) as Hx
      by by apply snaps_elem.
    destruct (foldl_insName_some _ ∅ x Hx) as [n Hn]. exists n. split; [exact Hn|].
    pose proof (latest_elem _ _ _ _ Hn) as (Ei & Hn1 & _ & Hn2).
    apply foldl_insName in Hn as [[En _]|(l1 & l2 & Eq & _ & Hl2)]; [by rewrite lookup_empty in En|].
    pose proof (snaps_sorted (rCorrupt r ∪ rIgnored r) names Hs) as Hss. rewrite Eq in Hss, Hx.
    apply elem_of_app in Hx as [Hx|[->|Hx]%elem_of_cons]; [|lia|by destruct (Hl2 x Hx)].
    destruct (Z.le_gt_cases (niTimestamp x) (niTimestamp n)) as [|Hgt]; [done|].
    destruct (Hst x Hx1 Hx2) as [Tx [gx Nx]]. destruct (Hst n Hn1 Hn2) as [Tn [gn Nn]].
    pose proof (sorted_before _ _ _ _ _ Hss Hx) as Hlt. simpl in Hlt.
    rewrite Nx, Nn, Ei, bytes_Compare_antisym in Hlt.
    by rewrite (name_lt db (InstanceID x) gn gx _ _ Tn Tx) in Hlt by lia.
  - intros i n Hn. destruct (latest_elem _ _ _ _ Hn) as (Ei & Hin & _ & Hsn).
    split_and!; [done|done|]. intros Hc. unfold snapOf in Hsn.
    rewrite bool_decide_eq_true_2 in Hsn by set_solver. done.
Qed.

(** ** Progress of a downloader *)

(** C22: a downloader that is notified of a new snapshot offers it to the syncer,
    when both kinds of tokens are available and the storage returns data that
    can be decoded. *)
Theorem notified_snapshot_is_offered r l i d n data msg :
  rDownloaders r !! i = Some d → dPc d = Waiting → dSignal d = true →
  rLastSeen r !! i = Some n → FullName n ≠ dLast d →
  is_Some (Climit.Acquire (rDownload r)) → is_Some (Climit.Acquire (rDecompress r)) →
  LoadData data = Ok msg →
  ∃ r' t, rtc (rstep reg) (r, l) (r', l) ∧ rReady r' !! i = Some (MkReady msg n t) ∧
    rDownloaders r' !! i = Some (MkDownloader (FullName n) false Waiting).
Proof.
  intros Hd Hp Hs Hn Hne [[cl dt] Ha] [[cl2 t] Ha2] El.
  assert (Hstep : ∀ r1 d1 r2, rDownloaders r1 !! i = Some d1 → dstep r1 i d1 (Some data) = Some r2 →
    rstep reg (r1, l) (r2, l)) by (intros; by eapply step_download).
  eexists _, t. split; [|shelve].
  eapply rtc_l; [eapply Hstep; [exact Hd|unfold dstep; by rewrite Hp, Hs]|].
  eapply rtc_l; [eapply Hstep; [simpl; apply lookup_insert_eq|done]|].
  unfold check. simpl. rewrite Hn, bool_decide_eq_false_2 by done.
  eapply rtc_l; [eapply Hstep; [simpl; apply lookup_insert_eq|unfold dstep; simpl; by rewrite Ha]|].
  eapply rtc_l; [eapply Hstep; [simpl; apply lookup_insert_eq|done]|].
  eapply rtc_l; [eapply Hstep; [simpl; apply lookup_insert_eq|unfold dstep; simpl; by rewrite Ha2]|].
  eapply rtc_l; [eapply Hstep; [simpl; apply lookup_insert_eq|]|].
  { unfold dstep, decoded. simpl. by rewrite El. }
  eapply rtc_l; [eapply Hstep; [simpl; apply lookup_insert_eq|done]|]. apply rtc_refl.
Unshelve.
  split; [|simpl; by rewrite lookup_insert_eq].
  destruct (ruToken <$> _); simpl; by rewrite lookup_insert_eq.
Qed.

(** ** A notification that is lost *)

Lemma RunOnce_nil r own :
  RunOnce reg r own (Ok []) = Ok (publishSeen (rIgnored (mergeCorrupt r)) ∅ (mergeCorrupt r)).
Proof. unfold RunOnce. cbn [wrap_err]. rewrite bind_ok. simpl. by rewrite map_to_list_empty. Qed.

Lemma RunOnce_one r own name ni :
  snapOf reg (rCorrupt r ∪ rIgnored r) name = Some ni →
  RunOnce reg r own (Ok [name]) =
    Ok (consider own (publishSeen (rIgnored (mergeCorrupt r)) {[InstanceID ni := ni]} (mergeCorrupt r))
          (InstanceID ni, ni)).
Proof.
  unfold snapOf. intros H. unfold RunOnce. cbn [wrap_err]. rewrite bind_ok. simpl.
  case_bool_decide; [done|]. destruct (ParseName reg name); try done.
  case_bool_decide; [|done]. simplify_eq/=. by rewrite insert_empty, map_to_list_singleton.
Qed.

(** A new snapshot of an instance without a downloader. *)
Lemma RunOnce_new r own name ni :
  rCorrupt r ∪ rIgnored r = ∅ → snapOf reg ∅ name = Some ni → own || bool_decide (InstanceID ni ≠ rOwn r) →
  lastNotified r (InstanceID ni) ≠ name → rDownloaders r !! InstanceID ni = None →
  ∃ r', RunOnce reg r own (Ok [name]) = Ok r' ∧ rLastSeen r' = {[InstanceID ni := ni]} ∧
    rOwn r' = rOwn r ∧ lastNotified r' (InstanceID ni) = name ∧
    rCorrupt r' ∪ rIgnored r' = ∅ ∧
    rDownloaders r' !! InstanceID ni = Some (MkDownloader [] true Waiting) ∧
    rDownload r' = rDownload r ∧ rDecompress r' = rDecompress r.
Proof.
  intros H0 Hn Ho Hne Hd. pose proof (snapOf_name _ _ _ _ Hn) as Hf.
  pose proof (RunOnce_one r own name ni) as E. rewrite H0 in E. specialize (E Hn). rewrite E.
  eexists. split; [done|]. unfold consider, skips.
  change (lastNotified (publishSeen _ _ _) ?i) with (lastNotified r i).
  rewrite (bool_decide_eq_false_2 (FullName ni = _)) by congruence.
  assert (negb own && bool_decide (InstanceID ni = rOwn r) = false) as Hs.
  { destruct own; [done|]. simpl in *. apply bool_decide_eq_false. by apply bool_decide_unpack in Ho. }
  change (rOwn (publishSeen _ _ _)) with (rOwn r). rewrite Hs. cbn [orb].
  unfold getDownloader. change (rDownloaders (publishSeen _ _ _)) with (rDownloaders r).
  rewrite Hd. unfold lastNotified. simpl. rewrite lookup_insert_eq, lookup_alter_eq, lookup_insert_eq.
  split_and!; try done.
  apply empty_union_L in H0 as [-> ->]. by rewrite !(union_empty_l_L ∅).
Qed.

(** A snapshot that was notified before is not notified again. *)
Lemma RunOnce_known r own name ni :
  rCorrupt r ∪ rIgnored r = ∅ → snapOf reg ∅ name = Some ni → lastNotified r (InstanceID ni) = name →
  RunOnce reg r own (Ok [name]) =
    Ok (publishSeen (rIgnored (mergeCorrupt r)) {[InstanceID ni := ni]} (mergeCorrupt r)).
Proof.
  intros H0 Hn He. pose proof (snapOf_name _ _ _ _ Hn) as Hf.
  pose proof (RunOnce_one r own name ni) as E. rewrite H0 in E. rewrite (E Hn).
  unfold consider, skips. change (lastNotified (publishSeen _ _ _) ?i) with (lastNotified r i).
  by rewrite bool_decide_eq_true_2 by congruence.
Qed.

(** a snapshot that is missing from one listing, after its downloader was
    notified and before it looked, is not downloaded when it is listed again:
    the receiver does not notify twice. *)
Theorem reappearing_snapshot_missed c dbname own name ni :
  snapOf reg ∅ name = Some ni → InstanceID ni ≠ own →
  ∃ r, rtc (rstep reg) (NewReceiver c dbname own, Idle) (r, Idle) ∧
    rLastSeen r !! InstanceID ni = Some ni ∧
    rDownloaders r !! InstanceID ni = Some (MkDownloader [] false Waiting) ∧
    RunOnce reg r false (Ok [name]) = Ok r.
Proof.
  intros Hn Ho. set (i := InstanceID ni). set (r0 := NewReceiver c dbname own).
  assert (Hne : name ≠ []) by (intros ->; unfold snapOf in Hn; by case_bool_decide).
  destruct (RunOnce_new r0 false name ni) as (r1 & S1 & El1 & Eo1 & En1 & E1 & D1 & _);
    [apply (union_empty_l_L ∅)|done|by apply bool_decide_pack|unfold lastNotified; simpl; by rewrite lookup_empty|done|].
  pose proof (RunOnce_nil r1 false) as S2.
  match type of S2 with _ = Ok ?x => set (r2 := x) in S2 end.
  set (r3 := putD i (wake (MkDownloader [] true Waiting)) r2).
  set (r4 := putD i (MkDownloader [] false Waiting) r3).
  assert (Hu : rCorrupt r1 = ∅ ∧ rIgnored r1 = ∅) by by apply empty_union_L.
  assert (E4 : rCorrupt r4 ∪ rIgnored r4 = ∅).
  { simpl. destruct Hu as [-> ->]. by rewrite !(union_empty_l_L ∅). }
  pose proof (RunOnce_known r4 false name ni E4 Hn En1) as S5.
  match type of S5 with _ = Ok ?x => set (r5 := x) in S5 end.
  exists r5. split; [|split_and!].
  - etrans; [by eapply RunOnce_steps|].
    etrans; [by eapply RunOnce_steps|].
    eapply rtc_l; [eapply (step_download reg r2 Idle i _ None r3); [exact D1|done]|].
    eapply rtc_l; [eapply (step_download reg r3 Idle i _ None r4); [apply lookup_insert_eq|done]|].
    by eapply RunOnce_steps.
  - simpl. apply lookup_singleton_eq.
  - simpl. apply lookup_insert_eq.
  - assert (E5 : rCorrupt r5 ∪ rIgnored r5 = ∅).
    { simpl. destruct Hu as [-> ->]. by rewrite !(union_empty_l_L ∅). }
    rewrite (RunOnce_known r5 false name ni E5 Hn En1). unfold r5, r4, r3, r2, mergeCorrupt, publishSeen.
    simpl. destruct Hu as [-> ->]. by rewrite !(union_empty_l_L ∅).
Qed.

(** a snapshot whose name has an empty instance is accepted by the receiver
    and its downloader, but never handed to the syncer, so it keeps its token
    for ever. *)
Theorem empty_instance_never_taken s s' u :
  rReady s.1 !! [] = Some u → rstep reg s s' →
  Next s.1 [] = None ∧ ∃ u', rReady s'.1 !! [] = Some u'.
Proof.
  intros Hu H. split; [unfold Next; by rewrite Hu|].
  destruct H as [s s' H|r l i d f r' Hd H|r l i r' u' H|r l u' l1 l2 Hl]; simpl in *.
  - apply lstep_tokens in H as (-> & _). by eexists.
  - assert (∀ j x, rReady r !! j = Some x → is_Some (rReady r' !! j)) as Hr; [|by apply (Hr _ _ Hu)].
    intros j x Hj. unfold dstep in H. destruct (dPc d).
    + destruct (dSignal d); simplify_eq/=; by eexists.
    + simplify_eq/=. by eexists.
    + destruct (Climit.Acquire _) as [[??]|]; simplify_eq/=; by eexists.
    + destruct f; simplify_eq/=; by eexists.
    + destruct (Climit.Acquire _) as [[??]|]; simplify_eq/=; by eexists.
    + unfold decoded in H. destruct (LoadData data); simplify_eq/=; [|by eexists].
      destruct (decide (j = i)) as [->|]; [rewrite lookup_insert_eq; by eexists|].
      rewrite lookup_insert_ne by done. by eexists.
    + simplify_eq. destruct overwritten; by eexists.
    + simplify_eq/=. by eexists.
  - unfold Next in H. destruct (rReady r !! i); [|done]. case_bool_decide; [done|]. simplify_eq/=.
    rewrite lookup_delete_ne by done. by eexists.
  - by eexists.
Qed.
End invariants.

(** ** Witnesses *)

Section examples.
#[local] Existing Instances RefProto RefProto_laws RefDecoder RefDecoder_laws RefGzip RefGzip_laws.

Definition exR : Receiver := NewReceiver Default (str "db_1") (str "me").

Lemma exR_snap : ∃ ni, snapOf registeredExtensions ∅ ex_name = Some ni ∧
  InstanceID ni = str "inst1" ∧ niTimestamp ni = ex_ts ∧ FullName ni = ex_name.
Proof. eexists. split; [vm_compute; reflexivity|]. split; [|split]; vm_compute; reflexivity. Qed.

(** The receiver after one listing. *)
Lemma exR_listed : ∃ r ni, RunOnce registeredExtensions exR true (Ok [ex_name]) = Ok r ∧
  rLastSeen r !! str "inst1" = Some ni ∧ FullName ni = ex_name ∧ rOwn r = str "me" ∧
  rDownloaders r !! str "inst1" = Some (MkDownloader [] true Waiting) ∧
  rDownload r = rDownload exR ∧ rDecompress r = rDecompress exR.
Proof.
  destruct exR_snap as (ni & Hn & Ei & Et & Ef).
  destruct (RunOnce_new registeredExtensions exR true ex_name ni)
    as (r & E & El & Eo & _ & _ & Ed & E1 & E2).
  - apply (union_empty_l_L ∅).
  - exact Hn.
  - done.
  - unfold lastNotified. simpl. rewrite lookup_empty. discriminate.
  - apply lookup_empty.
  - rewrite Ei in El, Ed. exists r, ni. split; [exact E|].
    split; [rewrite El; apply lookup_singleton_eq|]. split; [exact Ef|]. split; [exact Eo|].
    split; [exact Ed|]. split; [exact E1|exact E2].
Qed.

Lemma memory_is_bounded_witness : ∃ r,
  rtc (rstep registeredExtensions) (exR, Idle) (r, Idle) ∧ (length (decompressed r) <= 3)%nat ∧
  (length (downloading r) <= 2)%nat.
Proof.
  destruct exR_listed as (r & ni & H & _). exists r. apply RunOnce_steps in H. split; [exact H|].
  exact (memory_is_bounded registeredExtensions Default (str "db_1") (str "me") r Idle H).
Defined.

Lemma exR_steady r : RunOnce registeredExtensions exR true (Ok [ex_name]) = Ok r →
  rtc (steady registeredExtensions) (exR, Idle) (r, Idle).
Proof.
  intros H. apply (RunOnce_keeps registeredExtensions
    (λ s s', ∀ i, is_Some (rLastSeen s.1 !! i) → is_Some (rLastSeen s'.1 !! i)) _ _ _ _ H); simpl.
  - by intros r1 r2 _ _ ->.
  - intros r1 _ _ E r2 _ i. rewrite E. simpl. rewrite lookup_empty. by intros [??].
Qed.

Lemma no_notification_lost_witness : ∃ r d,
  rtc (steady registeredExtensions) (exR, Idle) (r, Idle) ∧ rDownloaders r !! str "inst1" = Some d ∧
  (dLast d = ex_name ∨ dSignal d = true ∨ dPc d ≠ Waiting).
Proof.
  destruct exR_listed as (r & ni & H & Hl & Ef & Eo & _). exists r. apply exR_steady in H.
  destruct (no_notification_lost registeredExtensions Default (str "db_1") (str "me") r Idle
    (str "inst1") ni H) as [[Ht _]|(d & Hd & Hc)]; [by rewrite Eo|exact Hl| |].
  - by apply elem_of_nil in Ht.
  - exists d. rewrite Ef in Hc. split; [exact H|]. split; [exact Hd|exact Hc].
Defined.

Lemma newest_is_found_witness : ∃ r' n,
  RunOnce registeredExtensions exR false (Ok [ex_name]) = Ok r' ∧
  rLastSeen r' !! str "inst1" = Some n ∧ ex_ts <= niTimestamp n.
Proof.
  destruct exR_snap as (ni & Hn & Ei & Et & Ef).
  assert (Hn' : snapOf registeredExtensions (rCorrupt exR ∪ rIgnored exR) (FullName ni) = Some ni).
  { rewrite Ef. exact Hn. }
  destruct (newest_is_found registeredExtensions exR false [ex_name] (str "db_1"))
    as (r' & E & H1 & _).
  - repeat constructor.
  - intros x [Ex|Ex]%elem_of_cons Hx; [|by apply elem_of_nil in Ex].
    rewrite Ex in Hx. assert (x = ni) as -> by (rewrite Ef in Hn'; congruence).
    rewrite Et, Ei, Ef. split; [split; [discriminate|reflexivity]|].
    exists (str "G1__X123__Y456"). vm_compute. reflexivity.
  - destruct (H1 ni) as (n & Hl & Hle); [rewrite Ef; by left|exact Hn'|].
    exists r', n. rewrite Ei in Hl. rewrite Et in Hle. split; [exact E|]. split; [exact Hl|exact Hle].
Defined.

Lemma notified_snapshot_is_offered_witness : ∃ r r' msg n t,
  rtc (rstep registeredExtensions) (r, Idle) (r', Idle) ∧
  rReady r' !! str "inst1" = Some (MkReady msg n t).
Proof.
  destruct exR_listed as (r & ni & H & Hl & Ef & Eo & Hd & Edn & Edc). exists r.
  assert (∃ z msg, LoadData z = Ok msg) as (z & msg & El).
  { destruct (dump_load ex_snapshot [ex_content] ex_snapshot_ok) as (s' & z & st & _ & El).
    eexists z, _. exact El. }
  destruct (notified_snapshot_is_offered registeredExtensions r Idle (str "inst1") _ ni z msg Hd)
    as (r' & t & Hr & Hready & _); [reflexivity|reflexivity|exact Hl|by rewrite Ef| | |exact El|].
  - rewrite Edn. by eexists.
  - rewrite Edc. by eexists.
  - exists r', msg, ni, t. split; [exact Hr|exact Hready].
Defined.

Lemma reappearing_snapshot_missed_witness : ∃ r ni,
  rtc (rstep registeredExtensions) (exR, Idle) (r, Idle) ∧ rLastSeen r !! str "inst1" = Some ni ∧
  rDownloaders r !! str "inst1" = Some (MkDownloader [] false Waiting).
Proof.
  destruct exR_snap as (ni & Hn & Ei & _).
  destruct (reappearing_snapshot_missed registeredExtensions Default (str "db_1") (str "me")
    ex_name ni Hn) as (r & H1 & H2 & H3 & _); [by rewrite Ei|].
  rewrite Ei in H2, H3. exists r, ni. split; [exact H1|]. split; [exact H2|exact H3].
Defined.

Definition exUpdate : ReadyUpdate := MkReady (MkSnapshot 3 2 emptyMeta []) ex_ni 0.

Lemma empty_instance_never_taken_witness :
  Next (setReady {[ [] := exUpdate ]} exR) [] = None.
Proof.
  refine (proj1 (empty_instance_never_taken registeredExtensions
    (setReady {[ [] := exUpdate ]} exR, Idle) _ exUpdate _ _)).
  - apply lookup_singleton_eq.
  - apply step_list, (l_list _ _ false []).
Defined.
End examples.
