(* ===== verification/NodeSync.v ===== *)
(** * The sync loop of a node

    The operations [syncLoop] calls, from the models of [SendOnce] and
    [LoadOnce] (Syncer.v), of the receiver (Receiver.v) and of the cleaner
    (Cleaner.v), and the proof that they keep the promises of [SyncWorldLaws].
    What other programs and goroutines do between two calls is a parameter. *)

From Stdlib Require Import Sorted.
From S2P Require Import Prelude Header Proto Kv Dbi DupSort Lmdb Strategy Iterators.
From S2P Require Import Config Shadow Name Snapshot Syncer Cleaner Trackers SyncLoop Receiver.

(** ** Transaction IDs of an environment *)

(** There is one writer at a time; an empty transaction is not recorded. *)
Class LMDBEnvIDs {L : LMDB} (E : LMDBEnv L) (env_last : Env → Z) : Prop := {
  env_last_range e : 0 <= env_last e < 2 ^ 63;
  env_Info_last e z : env_Info e = Ok z → z = env_last e;
  env_Begin_write e t : env_Begin e false = Ok t → txn_ID t = env_last e + 1;
  env_Begin_read e t : env_Begin e true = Ok t → txn_ID t = env_last e;
  env_Commit_last e t e' : env_Commit e t = Ok e' → env_last e <= env_last e' <= env_last e + 1;
}.

Section node.
Context `{P : CSProto} `{D : CSDecoder} `{G : Gzip} `{L : LMDB} `{E : !LMDBEnv L}.
Context (n : Node) (sizeHint : Z → Z → bool → Z) (isCanceled : bytes → bool → bool).
Context (later : Z → Z).

(** Commits of the application, and steps of the receiver's goroutines. *)
Context (others : Env → Env) (background : Receiver → Receiver).
(** The storage: its listing, and the results of [Store]. *)
Context (listing : Z → outcome (list bytes)).
Context (attempt : nat → option error) (interrupted : nat → bool).
(** The clock, where an iteration over a map starts, and cancellation. *)
Context (tick : Z → Z) (pick : Receiver → bytes) (canceled : Z → bool) (reg : extensions).
Context (fuel : nat).

Record NodeWorld : Type := MkNodeWorld {
  nwEnv : Env;
  nwReceiver : Receiver;
  nwCleaner : Worker;
  nwLastByInstance : gmap bytes Z;
  nwLastSnapshot : Z;
  nwNow : Z;
  nwStored : list (bytes * bytes);
}.

Definition withEnv (e : Env) (w : NodeWorld) : NodeWorld :=
  MkNodeWorld e (nwReceiver w) (nwCleaner w) (nwLastByInstance w) (nwLastSnapshot w)
    (tick (nwNow w)) (nwStored w).
Definition withReceiver (r : Receiver) (w : NodeWorld) : NodeWorld :=
  MkNodeWorld (nwEnv w) r (nwCleaner w) (nwLastByInstance w) (nwLastSnapshot w)
    (tick (nwNow w)) (nwStored w).

Definition nodeInfo (w : NodeWorld) : outcome (NodeWorld * Z) :=
  let e := others (nwEnv w) in
  z ← env_Info e;
  Ok (withEnv e w, z).

Definition nodeList (w : NodeWorld) : NodeWorld * option error :=
  match RunOnce reg (background (nwReceiver w)) true (listing (nwNow w)) with
  | Ok r => (withReceiver r w, None)
  | Err e => (withReceiver (background (nwReceiver w)) w, Some e)
  | _ => (w, Some (EMsg "panic"))
  end.

(** Before the loop, with a timestamp in the past. *)
Definition nodeShadow (w : NodeWorld) : outcome NodeWorld :=
  '(e, _) ← env_Update (others (nwEnv w)) (λ t,
    t ← mainToShadow (nSyncer n) sizeHint isCanceled fuel t (nwNow w) 1;
    Ok (t, tt));
  Ok (withEnv e w).

Definition nodeSendOnce (w : NodeWorld) : outcome (NodeWorld * Z * bool) :=
  s ← SendOnce n sizeHint isCanceled later others attempt interrupted fuel (others (nwEnv w))
        (nwNow w) (tick (nwNow w)) (nwLastByInstance w);
  Ok (MkNodeWorld (sentEnv s) (nwReceiver w)
        (match sentCommitted s with
         | Some l => SetCommitted (nwCleaner w) l
         | None => nwCleaner w
         end)
        (nwLastByInstance w)
        (default (nwLastSnapshot w) (sentTime s)) (tick (nwNow w))
        (nwStored w ++ match sentObject s with Some o => [o] | None => [] end), sentTxnID s,
      match sentObject s with Some _ => true | None => false end).

Definition nodeStart (w : NodeWorld) : NodeWorld :=
  MkNodeWorld (nwEnv w) (nwReceiver w) (nwCleaner w) (nwLastByInstance w) (nwNow w)
    (tick (nwNow w)) (nwStored w).

Definition nodeNext (w : NodeWorld) : NodeWorld * bytes * option SyncLoop.Update :=
  let r := background (nwReceiver w) in
  match Receiver.Next r (pick r) with
  | Some (r, u) => (withReceiver r w, pick (background (nwReceiver w)),
                    Some (MkUpdate (ruSnapshot u) (ruNameInfo u)))
  | None => (withReceiver r w, [], None)
  end.

(** [LoadOnce] and the [Close] of the update after it. *)
Definition nodeLoadOnce (w : NodeWorld) (instance : bytes) (u : SyncLoop.Update) (lastTxnID : Z)
    : outcome (NodeWorld * Z * bool) :=
  '(e, txnID, changed, lbi) ←
    LoadOnce n sizeHint isCanceled later others fuel (others (nwEnv w)) instance (upSnapshot u)
      (upNameInfo u) lastTxnID (nwNow w) (tick (nwNow w)) (nwLastByInstance w);
  let r := nwReceiver w in
  let r := match rTaken r with u :: l => setTaken l (Close r u) | [] => r end in
  Ok (MkNodeWorld e r (nwCleaner w) lbi (nwLastSnapshot w) (tick (nwNow w)) (nwStored w),
      txnID, changed).

Definition nodeSleep (w : NodeWorld) : outcome NodeWorld :=
  if canceled (nwNow w) then Err Canceled
  else Ok (withReceiver (background (nwReceiver w)) (withEnv (others (nwEnv w)) w)).

Definition NodeSync : SyncWorld := {|
  World := NodeWorld;
  w_Info := nodeInfo;
  w_List := nodeList;
  w_HasSnapshots w := HasSnapshots (nwReceiver w);
  w_SeenInstances w := SeenInstances (nwReceiver w);
  w_Shadow := nodeShadow;
  w_SendOnce := nodeSendOnce;
  w_Start := nodeStart;
  w_Next := nodeNext;
  w_LoadOnce := nodeLoadOnce;
  w_SinceSnapshot w := (w, time_Sub (nwNow w) (nwLastSnapshot w));
  w_Sleep := nodeSleep;
|}.

(** The settings of the loop. *)
Definition nodeConf (once : bool) : LoopConf :=
  MkLoopConf (instanceID n) (schemaTracksChanges n) (nReceiveOnly n)
    (StorageForceSnapshotInterval (nConf n)) once None.

(** ** The promises *)

Section laws.
Context (env_last : Env → Z) `{EI : !LMDBEnvIDs E env_last}.
Hypothesis (Hothers : ∀ e, env_last e <= env_last (others e)).

Lemma adjust_bounds e txnID z :
  adjustTxnID e txnID = Ok z → env_last e + 1 >= txnID → z = Z.min txnID (env_last e).
Proof using EI.
  unfold adjustTxnID. intros H Hle. destruct (env_Info e) as [l| | |] eqn:Ei; [|done..].
  rewrite bind_ok in H. apply env_Info_last in Ei as ->. pose proof (env_last_range e).
  rewrite uint64_small in H by lia. injection H as <-. case_if; lia.
Qed.

Lemma env_Update_last {A} e (op : Txn → outcome (Txn * A)) e' a :
  env_Update e op = Ok (e', a) → env_last e <= env_last e' ∧
  ∃ t t', env_Begin e false = Ok t ∧ txn_ID t = env_last e + 1 ∧ op t = Ok (t', a).
Proof using EI.
  unfold env_Update. intros H. destruct (env_Begin e false) as [t| | |] eqn:Eb; [|done..].
  rewrite bind_ok in H. destruct (op t) as [[t' a']| | |] eqn:Eo; [|done..]. rewrite bind_ok in H.
  destruct (env_Commit e t') as [e1| | |] eqn:Ec; [|done..]. rewrite bind_ok in H. simplify_eq.
  apply env_Commit_last in Ec. split; [lia|]. exists t, t'. split_and!; [done|by apply env_Begin_write|done].
Qed.

Lemma sendTxn_id ts t t' id ds :
  sendTxn n sizeHint isCanceled later fuel ts t = Ok (t', (id, ds)) → id = uint64 (txn_ID t).
Proof using.
  unfold sendTxn. intros H. inv_bind. destruct (nReceiveOnly n); [by simplify_eq|]. inv_bind.
  repeat match goal with x : _ * _ |- _ => destruct x end. by simplify_eq.
Qed.

Lemma nodeSendOnce_ids w w' z stored :
  nodeSendOnce w = Ok (w', z, stored) →
  env_last (nwEnv w) <= z <= env_last (nwEnv w').
Proof using EI Hothers.
  unfold nodeSendOnce, SendOnce. intros H. pose proof (Hothers (nwEnv w)) as H0.
  set (e0 := others (nwEnv w)) in *.
  match type of H with context [if schemaTracksChanges n then ?a else ?b] =>
    destruct (if schemaTracksChanges n then a else b) as [[e1 [id ds]]| | |] eqn:Et end; [|done..].
  rewrite bind_ok in H.
  assert (env_last e0 <= env_last e1 ∧ env_last e0 <= id <= env_last e1 + 1) as [H1 H2].
  { pose proof (env_last_range e0). destruct (schemaTracksChanges n).
    - unfold env_View in Et. destruct (env_Begin e0 true) as [t| | |] eqn:Eb; [|done..].
      rewrite bind_ok in Et. inv_bind.
      repeat match goal with x : _ * _ |- _ => destruct x end. simplify_eq.
      match goal with Hs : sendTxn _ _ _ _ _ _ _ = _ |- _ => apply sendTxn_id in Hs as -> end.
      rewrite (env_Begin_read _ _ Eb), uint64_small by lia. lia.
    - apply env_Update_last in Et as (Hl & t & t' & _ & Ht & Hs). apply sendTxn_id in Hs as ->.
      rewrite Ht, uint64_small by lia. lia. }
  pose proof (Hothers e1) as H3.
  destruct (adjustTxnID (others e1) id) as [z'| | |] eqn:Ea; [|done..]. cbn in H.
  apply adjust_bounds in Ea; [|lia].
  destruct (nReceiveOnly n); inv_bind; simplify_eq/=; [lia|].
  repeat match goal with x : _ * _ |- _ => destruct x end. inv_bind. simplify_eq/=. lia.
Qed.

(** At least one attempt is made. *)
Definition tries : Prop :=
  0 < StorageRetryCount (nConf n) ∨ StorageRetryForever (nConf n) = true.

Lemma storeLoop_tries : tries → ∀ fl r, storeLoop n attempt interrupted fl 0 None = Ok r → is_Some r.
Proof using.
  intros Ht.
  assert (∀ fl i e r, storeLoop n attempt interrupted fl i (Some e) = Ok r → is_Some r) as Hs.
  { induction fl as [|fl IH]; intros i e r H; [done|]. cbn [storeLoop] in H. case_match; [|done].
    destruct (attempt i); [|by simplify_eq]. case_match; [done|]. by eapply IH. }
  intros [|fl] r H; [done|]. cbn [storeLoop] in H.
  assert ((Z.of_nat 0 <? StorageRetryCount (nConf n)) || StorageRetryForever (nConf n) = true) as E0.
  { apply orb_true_iff. destruct Ht; [left; apply Z.ltb_lt; simpl; lia|by right]. }
  rewrite E0 in H. destruct (attempt 0); [|by simplify_eq]. case_match; [done|]. by eapply Hs.
Qed.

Lemma nodeSendOnce_stored w w' z stored :
  tries → nodeSendOnce w = Ok (w', z, stored) → stored = negb (nReceiveOnly n).
Proof using.
  unfold nodeSendOnce, SendOnce. intros Ht H. inv_bind. simplify_eq.
  repeat match goal with x : _ * _ |- _ => destruct x end. inv_bind.
  destruct (nReceiveOnly n); inv_bind; [by simplify_eq|].
  repeat match goal with x : _ * _ |- _ => destruct x end. inv_bind. simplify_eq.
  match goal with Hs : storeLoop _ _ _ _ _ _ = Ok _ |- _ => by apply storeLoop_tries in Hs as [k ->] end.
Qed.

Lemma nodeLoadOnce_ids w i u z w' z' ch :
  nodeLoadOnce w i u z = Ok (w', z', ch) →
  ∃ tid, env_last (nwEnv w) < tid <= env_last (nwEnv w') + 1 ∧
    tid - 1 <= z' <= Z.min tid (env_last (nwEnv w')) ∧ ch = (z <? tid - 1).
Proof using EI Hothers.
  unfold nodeLoadOnce, LoadOnce. intros H. pose proof (Hothers (nwEnv w)) as H0.
  set (e0 := others (nwEnv w)) in *.
  destruct (env_Update e0 _) as [[e1 [id ch']]| | |] eqn:Eu; [|done..]. rewrite bind_ok in H.
  apply env_Update_last in Eu as (Hl & t & t' & _ & Ht & Hs).
  assert (id = uint64 (txn_ID t) ∧ ch' = (z <? uint64 (uint64 (txn_ID t) - 1))) as [-> ->].
  { unfold loadTxn in Hs. inv_bind. by simplify_eq. }
  pose proof (env_last_range e0). rewrite Ht, (uint64_small (env_last e0 + 1)) in H by lia.
  replace (env_last e0 + 1 - 1) with (env_last e0) in H by lia. rewrite uint64_small in H by lia.
  pose proof (Hothers e1) as H3.
  destruct (adjustTxnID (others e1) _) as [z1| | |] eqn:Ea; [|done..]. cbn in H.
  apply adjust_bounds in Ea; [|lia]. simplify_eq/=.
  exists (env_last e0 + 1). replace (env_last e0 + 1 - 1) with (env_last e0) by lia.
  split_and!; [lia..|done].
Qed.

Lemma nodeList_has w w' :
  nodeList w = (w', None) →
  HasSnapshots (nwReceiver w') = true ↔ SeenInstances (nwReceiver w') ≠ [].
Proof using.
  unfold nodeList. intros H. set (r0 := background _) in H.
  destruct (listing (nwNow w)) as [names| | |] eqn:El; [|done..].
  destruct (RunOnce_ok reg r0 true names) as (r & Er & _ & Els & Eh). rewrite Er in H.
  simplify_eq/=. unfold HasSnapshots, SeenInstances. rewrite Eh, Els.
  set (m := listed reg r0 names). rewrite bool_decide_eq_true. split.
  - intros Hs En. apply fmap_nil_inv, map_to_list_empty_iff in En. rewrite En, map_size_empty in Hs. lia.
  - intros Hs. assert (size m ≠ 0%nat); [|lia]. intros Hz%map_size_empty_inv. apply Hs.
    by rewrite Hz, map_to_list_empty.
Qed.

(** C16: the node implements what the sync loop relies on: transaction IDs only
    grow, a send covers everything committed before it, a load tells local
    changes apart from its own transaction and reports no later one, and the
    listing says which instances have snapshots; and when the configuration
    allows an attempt, as [Check] of Config.v demands, a send that succeeds has
    stored a snapshot unless the node only receives. *)
Theorem node_implements_loop :
  SyncWorldLaws NodeSync (λ w, env_last (nwEnv w)) ∧
  (tries → SyncWorldStores NodeSync (nReceiveOnly n)).
Proof using EI Hothers.
  split; [|intros Ht w w' z b; by apply nodeSendOnce_stored]. constructor; simpl.
  - intros w. apply env_last_range.
  - intros w w' z H. unfold nodeInfo in H.
    destruct (env_Info (others (nwEnv w))) as [l| | |] eqn:Ei; [|done..]. cbn in H. simplify_eq/=.
    apply env_Info_last in Ei as ->. pose proof (Hothers (nwEnv w)). lia.
  - intros w. unfold nodeList. destruct (RunOnce _ _ _ _); simpl; lia.
  - intros w w' H. unfold nodeShadow in H.
    destruct (env_Update _ _) as [[e' a]| | |] eqn:Eu; [|done..]. cbn in H. simplify_eq/=.
    apply env_Update_last in Eu as [Hl _]. pose proof (Hothers (nwEnv w)). lia.
  - apply nodeSendOnce_ids.
  - intros w. lia.
  - intros w. unfold nodeNext. destruct (Receiver.Next _ _) as [[??]|]; simpl; lia.
  - apply nodeLoadOnce_ids.
  - intros w. lia.
  - intros w w' H. unfold nodeSleep in H. destruct (canceled _); [done|]. simplify_eq/=. apply Hothers.
  - apply nodeList_has.
Qed.
End laws.
End node.

(** ** A change that is not noticed *)

(** when a load changes nothing, LMDB gives its transaction ID to the next
    writer; a change the application commits under that ID before [env.Info] is
    called is reported as synced, and no local change is reported. *)
Theorem change_after_empty_load_missed `{P : CSProto} `{D : CSDecoder} `{G : Gzip} `{L : LMDB}
    `{E : !LMDBEnv L} n sizeHint isCanceled later others fuel e t e1 instance snap ni t0 ts lbi :
  schemaTracksChanges n = true → Databases snap = [] →
  env_Begin e false = Ok t → env_Commit e t = Ok e1 →
  env_Info (others e1) = Ok (txn_ID t) → 0 < txn_ID t < 2 ^ 63 →
  LoadOnce n sizeHint isCanceled later others fuel e instance snap ni (txn_ID t - 1) t0 ts lbi =
    Ok (others e1, txn_ID t, false, <[instance := niTimestamp ni]> lbi).
Proof.
  intros Hs Hd Hb Hc Hi Ht. unfold LoadOnce, env_Update, loadTxn, loadDBIs. rewrite Hb, bind_ok, Hs, Hd.
  cbn [negb andb forEach]. rewrite !bind_ok, Hc, !bind_ok. unfold adjustTxnID. rewrite Hi, !bind_ok.
  rewrite (uint64_small (txn_ID t)) by lia. rewrite uint64_small by lia.
  by rewrite (Z.ltb_irrefl (txn_ID t)), Z.ltb_irrefl.
Qed.

(** ** A bounded reference environment and witnesses *)

Section examples.
#[local] Existing Instances RefProto RefDecoder RefGzip Ref.RefLMDB.

Definition clampID (z : Z) : Z := Z.max 0 (Z.min (2 ^ 63 - 1) z).
Definition boundedLast (e : Ref.rtxn) : Z := clampID (Ref.rid e).

Definition boundedCommit (e : Ref.rtxn) (t : @Txn Ref.RefLMDB) : outcome Ref.rtxn :=
  if bool_decide (Ref.rdbs e = Ref.rdbs (t : Ref.rtxn)) then Ok e
  else if boundedLast e + 1 <? 2 ^ 63
  then Ok (Ref.MkTxn (boundedLast e + 1) (Ref.rdbs (t : Ref.rtxn)))
  else Err (ELmdb (-30792)).

Definition BoundedEnv : LMDBEnv Ref.RefLMDB :=
  @Build_LMDBEnv Ref.RefLMDB Ref.rtxn (λ e, Ok (boundedLast e))
    (λ e ro, Ok (Ref.MkTxn (if ro : bool then boundedLast e else boundedLast e + 1) (Ref.rdbs e)))
    boundedCommit.

Lemma clampID_range z : 0 <= clampID z < 2 ^ 63.
Proof. unfold clampID. lia. Qed.

Lemma clampID_small z : 0 <= z < 2 ^ 63 → clampID z = z.
Proof. unfold clampID. lia. Qed.

Lemma boundedLast_next e dbs :
  boundedLast e + 1 < 2 ^ 63 → boundedLast (Ref.MkTxn (boundedLast e + 1) dbs) = boundedLast e + 1.
Proof.
  intros H. pose proof (clampID_range (Ref.rid e)). apply clampID_small.
  unfold boundedLast in *. simpl. lia.
Qed.

Lemma BoundedEnv_ids : LMDBEnvIDs BoundedEnv boundedLast.
Proof.
  constructor; simpl.
  - intros e. apply clampID_range.
  - intros e z [= <-]. done.
  - intros e t [= <-]. done.
  - intros e t [= <-]. done.
  - intros e t e'. unfold boundedCommit. case_bool_decide; [intros [= <-]; lia|].
    destruct (Z.ltb_spec (boundedLast e + 1) (2 ^ 63)); [|done]. intros [= <-].
    rewrite boundedLast_next by done. lia.
Qed.

(** The application writes a database when it is not there. *)
Definition exApp (e : Ref.rtxn) : Ref.rtxn :=
  match Ref.rdbs e !! str "app" with
  | Some _ => e
  | None => if boundedLast e + 1 <? 2 ^ 63
            then Ref.MkTxn (boundedLast e + 1) (<[str "app" := Ref.MkDb 0 ∅ []]> (Ref.rdbs e))
            else e
  end.

Lemma exApp_last e : boundedLast e <= boundedLast (exApp e).
Proof.
  unfold exApp. destruct (Ref.rdbs e !! str "app"); [lia|].
  destruct (Z.ltb_spec (boundedLast e + 1) (2 ^ 63)); [|lia].
  rewrite boundedLast_next by done. lia.
Qed.

Lemma node_implements_loop_witness :
  let NS := NodeSync (E := BoundedEnv)
      (exNode (str "a") (str "db")) (λ _ _ _, 0) (λ _ _, false) id exApp id (λ _, Ok [])
      (λ _, None) (λ _, false) Z.succ (λ _, []) (λ _, false) registeredExtensions 9 in
  SyncWorldLaws NS (λ w, boundedLast (nwEnv w)) ∧ SyncWorldStores NS false.
Proof.
  intros NS. destruct (node_implements_loop (E := BoundedEnv) (EI := BoundedEnv_ids) (exNode (str "a") (str "db"))
    (λ _ _ _, 0) (λ _ _, false) id exApp id (λ _, Ok []) (λ _, None) (λ _, false) Z.succ (λ _, [])
    (λ _, false) registeredExtensions 9 boundedLast exApp_last) as [H1 H2].
  split; [exact H1|]. apply H2. left. reflexivity.
Defined.

Definition exEmpty : @Env _ BoundedEnv := Ref.MkTxn 5 ∅.

Lemma change_after_empty_load_missed_witness : ∃ lbi,
  @LoadOnce RefProto Ref.RefLMDB BoundedEnv (exNode (str "a") (str "db")) (λ _ _ _, 0)
    (λ _ _, false) id exApp 9 exEmpty (str "b") (MkSnapshot 3 2 emptyMeta []) ex_ni 5 0 0 ∅ =
    Ok (exApp exEmpty, 6, false, lbi).
Proof.
  exists (<[str "b" := niTimestamp ex_ni]> ∅).
  apply (change_after_empty_load_missed (E := BoundedEnv) (exNode (str "a") (str "db")) (λ _ _ _, 0)
    (λ _ _, false) id exApp 9 exEmpty (Ref.MkTxn 6 ∅ : @Txn Ref.RefLMDB) exEmpty);
    [reflexivity|reflexivity|reflexivity| |reflexivity|split; reflexivity].
  unfold env_Commit, BoundedEnv, boundedCommit. rewrite bool_decide_eq_true_2 by reflexivity. reflexivity.
Defined.
End examples.
