(* ===== verification/LimitScanner.v ===== *)
(** * Scanning a database in limited chunks (lmdbenv/limitscanner/scanner.go)

    The lmdbscan package is not part of the repository: [LMDBScan] is its
    interface and [LMDBScanLaws] the behaviour the scanner relies on, on
    databases without duplicate keys.  A position set with [Set] is the next
    one [Scan] returns. *)

From stdpp Require Import sorting.
From S2P Require Import Prelude Lmdb Strategy Shadow.

(** ** lmdbscan *)

Class LMDBScan (L : LMDB) : Type := {
  Scanner : Type;
  sc_New : Txn → DBIh → Scanner;
  sc_Set : Txn → Scanner → gobytes → gobytes → cursor_op → Scanner;
  sc_Scan : Txn → Scanner → Scanner * bool;
  sc_Key : Scanner → gobytes;
  sc_Val : Scanner → gobytes;
  sc_Err : Scanner → option error;
}.

(** [sc_cur] is the entry the scanner stands on, [sc_at] its key when [Scan]
    returned it, and [sc_todo] what the following calls of [Scan] return. *)
Class LMDBScanView (L : LMDB) (SC : LMDBScan L) : Type := {
  sc_db : Scanner → DBIh;
  sc_cur : Scanner → option (bytes * bytes);
  sc_at : Scanner → option bytes;
  sc_todo : Txn → Scanner → list (bytes * bytes);
}.

(** The entries of a database from a key on. *)
Definition fromKey `{V : LMDBView} (t : Txn) (h : DBIh) (k : bytes) : list (bytes * bytes) :=
  filter (λ e, lmdb_cmp (dflags t h) e.1 k ≠ Lt) (entries t h).

(** The entries behind a key. *)
Definition afterKey `{V : LMDBView} (t : Txn) (h : DBIh) (k : bytes) : list (bytes * bytes) :=
  filter (λ e, lmdb_cmp (dflags t h) k e.1 = Lt) (entries t h).

Class LMDBScanLaws (L : LMDB) (V : LMDBView L) (SC : LMDBScan L) (W : LMDBScanView L SC) : Prop := {
  sc_key_cur sc : sc_Key sc = fst <$> sc_cur sc;
  sc_val_cur sc : sc_Val sc = snd <$> sc_cur sc;
  scan_new t h :
    uniq t h →
    sc_db (sc_New t h) = h ∧ sc_cur (sc_New t h) = None ∧ sc_todo t (sc_New t h) = entries t h;
  scan_end t sc :
    uniq t (sc_db sc) → sc_todo t sc = [] →
    ∃ sc', sc_Scan t sc = (sc', false) ∧ sc_cur sc' = None ∧ sc_Err sc' = None;
  scan_step t sc e r :
    uniq t (sc_db sc) → keys_ok t (sc_db sc) → sc_todo t sc = e :: r →
    ∃ sc', sc_Scan t sc = (sc', true) ∧ sc_db sc' = sc_db sc ∧ sc_cur sc' = Some e ∧
      sc_at sc' = Some e.1 ∧ sc_todo t sc' = r ∧ sc_Err sc' = None;
  (* The cursor follows the writes of its transaction. *)
  scan_at t sc k :
    uniq t (sc_db sc) → keys_ok t (sc_db sc) → sc_at sc = Some k →
    sc_todo t sc = afterKey t (sc_db sc) k;
  scan_set t sc k v :
    uniq t (sc_db sc) → key_ok t (sc_db sc) k →
    let sc' := sc_Set t sc (Some k) v SetRange in
    sc_db sc' = sc_db sc ∧ sc_todo t sc' = fromKey t (sc_db sc) k ∧
    sc_cur sc' = list.head (sc_todo t sc');
  scan_set_next t sc k v :
    uniq t (sc_db sc) → key_ok t (sc_db sc) k →
    let sc' := sc_Set t (sc_Set t sc (Some k) v SetRange) None None Next in
    sc_db sc' = sc_db sc ∧ sc_todo t sc' = tail (fromKey t (sc_db sc) k);
  scan_del t sc k v :
    uniq t (sc_db sc) → keys_ok t (sc_db sc) → sc_at sc = Some k →
    sc_cur sc = Some (k, v) → (k, v) ∈ entries t (sc_db sc) →
    ∃ t', txn_Del t (sc_db sc) k (Some v) = Ok t' ∧ framed t t' (sc_db sc) ∧
      entries t' (sc_db sc) = filter (λ e, e.1 ≠ k) (entries t (sc_db sc)) ∧
      sc_todo t' sc = sc_todo t sc;
}.

(** ** The limit scanner *)

Record LimitCursor : Type := MkLimitCursor { lcKey : gobytes; lcVal : gobytes }.

Definition zeroCursor : LimitCursor := MkLimitCursor None None.

Definition IsZero (c : LimitCursor) : bool :=
  match lcKey c, lcVal c with None, None => true | _, _ => false end.

(** The options besides the transaction and the database. *)
Record Options : Type := MkOptions {
  LimitRecords : Z;
  LimitDuration : Z;
  LimitDurationCheckEvery : Z;
  Last : LimitCursor;
}.

Definition LimitDurationCheckEveryDefault : Z := 1000.

Section scanner.
Context `{L : LMDB} {SC : LMDBScan L}.

Record LimitScanner : Type := MkLimitScanner {
  lsOpt : Options;
  lsSc : Scanner;
  lsCount : Z;
  lsDeadline : Z;
  lsLimitReached : bool;
}.

(** A missing transaction is [None], as is a zero handle; [now] is the clock. *)
Definition NewLimitScanner (txn : option Txn) (dbi : option DBIh) (opt : Options) (now : Z)
    : outcome LimitScanner :=
  match txn, dbi with
  | None, _ => Err (EMsg "limit scanner requires Options.Txn")
  | Some _, None => Err (EMsg "limit scanner requires Options.DBI")
  | Some t, Some h =>
      let opt :=
        if LimitDurationCheckEvery opt <=? 0
        then MkOptions (LimitRecords opt) (LimitDuration opt) LimitDurationCheckEveryDefault (Last opt)
        else opt in
      Ok (MkLimitScanner opt (sc_New t h) 0
            (if 0 <? LimitDuration opt then now + LimitDuration opt else zeroTime) false)
  end.

Definition Key (s : LimitScanner) : gobytes := sc_Key (lsSc s).
Definition Val (s : LimitScanner) : gobytes := sc_Val (lsSc s).
Definition ls_Err (s : LimitScanner) : option error := sc_Err (lsSc s).

Definition withScanner (s : LimitScanner) (sc : Scanner) : LimitScanner :=
  MkLimitScanner (lsOpt s) sc (lsCount s) (lsDeadline s) (lsLimitReached s).

Definition stop (s : LimitScanner) : LimitScanner :=
  MkLimitScanner (lsOpt s) (lsSc s) (lsCount s) (lsDeadline s) true.

(** [bytes.Equal] takes nil for empty. *)
Definition bytes_Equal (a b : gobytes) : bool := bool_decide (gdata a = gdata b).

(** The first call moves behind the last entry of the previous chunk. *)
Definition seek (t : Txn) (s : LimitScanner) : LimitScanner :=
  let c := Last (lsOpt s) in
  if (lsCount s =? 0) && negb (IsZero c) then
    let s := withScanner s (sc_Set t (lsSc s) (lcKey c) (lcVal c) SetRange) in
    if bytes_Equal (Key s) (lcKey c) && bytes_Equal (Val s) (lcVal c)
    then withScanner s (sc_Set t (lsSc s) None None Next)
    else s
  else s.

(** [now] is the clock if it is read. *)
Definition Scan (t : Txn) (now : Z) (s : LimitScanner) : LimitScanner * bool :=
  if lsLimitReached s then (s, false)
  else
    let s := seek t s in
    let opt := lsOpt s in
    if (0 <? LimitRecords opt) && (LimitRecords opt <=? lsCount s) then (stop s, false)
    else
      let checkEvery := LimitDurationCheckEvery opt in
      if (0 <? checkEvery) && (0 <? lsCount s) && (Z.rem (lsCount s) checkEvery =? 0) &&
         negb (lsDeadline s =? zeroTime) && (lsDeadline s <? now)
      then (stop s, false)
      else
        let '(sc, ok) := sc_Scan t (lsSc s) in
        (MkLimitScanner opt sc (lsCount s + 1) (lsDeadline s) (lsLimitReached s), ok).

Definition CursorOf (s : LimitScanner) : LimitCursor * bool :=
  (MkLimitCursor (Key s) (Val s), lsLimitReached s).
End scanner.

(** ** What a chunk covers *)

Section laws.
Context `{V : LMDBView} `{HL : !LMDBLaws L V} {SC : LMDBScan L} {W : LMDBScanView L SC} `{SL : !LMDBScanLaws L V SC W}.
Implicit Types s : LimitScanner (L := L) (SC := SC).

(** The scanner is inside database [h] with [q] before it. *)
Record ready (t : Txn) (h : DBIh) s (q : list (bytes * bytes)) : Prop := MkReady {
  rd_count : 0 <= lsCount s;
  rd_limit : lsLimitReached s = false;
  rd_db : sc_db (lsSc (seek t s)) = h;
  rd_todo : sc_todo t (lsSc (seek t s)) = q;
}.

Lemma seek_fields t s :
  lsOpt (seek t s) = lsOpt s ∧ lsCount (seek t s) = lsCount s ∧
  lsDeadline (seek t s) = lsDeadline s ∧ lsLimitReached (seek t s) = lsLimitReached s.
Proof. unfold seek. by repeat case_if. Qed.

Lemma seek_started t s : 0 < lsCount s → seek t s = s.
Proof. intros H. unfold seek. by rewrite (proj2 (Z.eqb_neq _ _)) by lia. Qed.

(** One call of [Scan]: the limit, the end, or the next entry. *)
Lemma Scan_cases t h now s q :
  uniq t h → keys_ok t h → ready t h s q →
  (0 < lsCount s ∧ Scan t now s = (stop s, false)) ∨
  (q = [] ∧ ∃ s', Scan t now s = (s', false) ∧ lsLimitReached s' = false ∧
     sc_cur (lsSc s') = None ∧ ls_Err s' = None) ∨
  (∃ e q' s', q = e :: q' ∧ Scan t now s = (s', true) ∧ 0 < lsCount s' ∧ ready t h s' q' ∧
     sc_cur (lsSc s') = Some e ∧ sc_db (lsSc s') = h ∧ ls_Err s' = None ∧
     sc_at (lsSc s') = Some e.1).
Proof using SL.
  intros Hu Hks [Hc Hlim Hdb Hq]. unfold Scan. rewrite Hlim. cbv zeta.
  destruct (seek_fields t s) as (E1 & E2 & E3 & E4). rewrite E1, E2, E3, E4.
  assert (Hstop : 0 < lsCount s → stop (seek t s) = stop s) by (intros; by rewrite seek_started).
  case_if; [left; split; [lia|]; by rewrite Hstop by lia|].
  case_if; [left; split; [done|]; by rewrite Hstop|]. right.
  destruct q as [|e q'].
  - left. split; [done|]. destruct (scan_end t (lsSc (seek t s))) as (sc' & -> & Hcur & He);
      [by rewrite Hdb|done|]. eexists. split; [done|]. done.
  - right. destruct (scan_step t (lsSc (seek t s)) e q') as (sc' & -> & Hd' & Hcur & Hat & Ht' & He);
      [by rewrite Hdb|by rewrite Hdb|done|]. eexists e, q', _. split; [done|]. split; [done|]. simpl.
    split_and!; try done; try lia; [|congruence]. split; simpl; [lia|done| |];
      rewrite seek_started by (simpl; lia); simpl; congruence.
Qed.

(** A new scanner covers the database. *)
Lemma NewLimitScanner_ready t h opt now :
  uniq t h → IsZero (Last opt) = true →
  ∃ s, NewLimitScanner (Some t) (Some h) opt now = Ok s ∧ ready t h s (entries t h) ∧ lsCount s = 0.
Proof using SL.
  intros Hu Hz. destruct (scan_new t h Hu) as (E1 & E2 & E3). simpl.
  eexists. split; [done|]. split; [|done].
  assert (Hs : ∀ s, IsZero (Last (lsOpt s)) = true → seek t s = s).
  { intros s Hs. unfold seek. by rewrite Hs, andb_false_r. }
  split; [done|done|..]; rewrite Hs; simpl; try done; by case_if.
Qed.

(** A scanner that continues after [k], [v] covers the rest: the entry itself
    is not repeated. *)
Lemma NewLimitScanner_from t h opt now k v :
  uniq t h → key_ok t h k → Last opt = MkLimitCursor (Some k) (Some v) →
  ∃ s, NewLimitScanner (Some t) (Some h) opt now = Ok s ∧ lsCount s = 0 ∧
    ready t h s (match fromKey t h k with
                 | e :: r => if bool_decide (e = (k, v)) then r else e :: r
                 | [] => [] end).
Proof using SL.
  intros Hu Hk Hl. destruct (scan_new t h Hu) as (E1 & E2 & E3). simpl.
  eexists. split; [done|]. split; [done|].
  assert (Hu' : uniq t (sc_db (sc_New t h))) by by rewrite E1.
  assert (Hk' : key_ok t (sc_db (sc_New t h)) k) by by rewrite E1.
  destruct (scan_set t (sc_New t h) k (Some v) Hu' Hk') as (S1 & S2 & S3).
  destruct (scan_set_next t (sc_New t h) k (Some v) Hu' Hk') as (N1 & N2).
  rewrite E1 in *.
  match goal with |- ready t h ?s _ => set (s0 := s) end.
  assert (Hseek : sc_db (lsSc (seek t s0)) = h ∧ sc_todo t (lsSc (seek t s0)) =
    match fromKey t h k with
    | e :: r => if bool_decide (e = (k, v)) then r else e :: r | [] => [] end).
  { assert (Eo : Last (lsOpt s0) = MkLimitCursor (Some k) (Some v)) by (simpl; by case_if).
    unfold seek. rewrite Eo. change (lsCount s0 =? 0) with true.
    change (lsSc s0) with (sc_New t h). unfold Key, Val, IsZero, bytes_Equal.
    cbn [andb negb lcKey lcVal lsSc withScanner gdata default].
    rewrite sc_key_cur, sc_val_cur, S3, S2. destruct (fromKey t h k) as [|[k' v'] r].
    - cbn. assert (k ≠ []) by (intros ->; destruct Hk as [Hk _]; rewrite zlen_nil in Hk; lia).
      rewrite (bool_decide_eq_false_2 ([] = k)) by congruence. cbn. by rewrite S1, S2.
    - cbn. do 2 case_bool_decide; cbn; subst.
      + rewrite bool_decide_eq_true_2 by done. by rewrite N1, N2.
      + rewrite bool_decide_eq_false_2 by congruence. by rewrite S1, S2.
      + rewrite bool_decide_eq_false_2 by congruence. by rewrite S1, S2.
      + rewrite bool_decide_eq_false_2 by congruence. by rewrite S1, S2. }
  destruct Hseek. by constructor.
Qed.
End laws.

(** ** Rows and keys *)

Section rows.
Context `{V : LMDBView} `{HL : !LMDBLaws L V}.

Lemma entries_keys t h : uniq t h → keys_ok t h → NoDup (entries t h).*1.
Proof using HL. intros Hu Hk. by eapply sorted_nodup_keys, entries_sorted. Qed.

Lemma entries_elem t h e :
  uniq t h → keys_ok t h → e ∈ entries t h ↔ dbm t h !! e.1 = Some e.2.
Proof using HL.
  intros Hu Hk. destruct e. apply elem_of_list_to_map. by apply entries_keys.
Qed.

(** The rows in the order of their keys. *)
Definition ascending (f : Z) (l : list (bytes * bytes)) : Prop :=
  StronglySorted (λ e e', lmdb_cmp f e.1 e'.1 = Lt) l.

Lemma ascending_app f l l' :
  ascending f (l ++ l') → ascending f l ∧ ascending f l' ∧
    ∀ e e', e ∈ l → e' ∈ l' → lmdb_cmp f e.1 e'.1 = Lt.
Proof using. unfold ascending. rewrite StronglySorted_app. naive_solver. Qed.

Lemma ascending_suffix f k l :
  ascending f l → ∃ K, l = K ++ filter (λ e, lmdb_cmp f e.1 k ≠ Lt) l.
Proof using.
  induction l as [|x l IH]; intros Hs; [by exists []|]. apply StronglySorted_cons in Hs as [Hx Hs].
  destruct (decide (lmdb_cmp f x.1 k = Lt)) as [E|E].
  - destruct (IH Hs) as [K EK]. exists (x :: K). rewrite filter_cons_False by tauto.
    simpl. by rewrite <- EK.
  - exists []. rewrite filter_all; [done|]. intros y [->|Hy]%elem_of_cons Hlt; [done|].
    rewrite List.Forall_forall in Hx. apply list_elem_of_In, Hx in Hy.
    apply E. by eapply lmdb_cmp_lt_trans.
Qed.

Lemma ascending_suffix' f k l :
  ascending f l → ∃ K, l = K ++ filter (λ e, lmdb_cmp f k e.1 = Lt) l.
Proof using.
  induction l as [|x l IH]; intros Hs; [by exists []|]. apply StronglySorted_cons in Hs as [Hx Hs].
  destruct (decide (lmdb_cmp f k x.1 = Lt)) as [E|E].
  - exists []. rewrite filter_all; [done|]. intros y [->|Hy]%elem_of_cons; [done|].
    rewrite List.Forall_forall in Hx. apply list_elem_of_In, Hx in Hy. by eapply lmdb_cmp_lt_trans.
  - destruct (IH Hs) as [K EK]. exists (x :: K). rewrite filter_cons_False by tauto.
    simpl. by rewrite <- EK.
Qed.

(** What is behind an entry of the listing. *)
Lemma afterKey_suffix t h K e r :
  uniq t h → keys_ok t h → entries t h = K ++ e :: r → afterKey t h e.1 = r.
Proof using HL.
  intros Hu Hk Ent. pose proof (entries_sorted t h Hu Hk) as Hs. rewrite Ent in Hs.
  destruct (ascending_app _ _ _ Hs) as (_ & Hs' & Hlt). apply StronglySorted_cons in Hs' as [Hx _].
  rewrite List.Forall_forall in Hx. unfold afterKey. rewrite Ent, list.filter_app.
  rewrite filter_none, filter_cons_False, filter_all; [done|..].
  - intros x Hx'. apply Hx. by apply list_elem_of_In.
  - by rewrite lmdb_cmp_refl.
  - intros x Hx' E. specialize (Hlt x e Hx'). rewrite lmdb_cmp_antisym, E in Hlt.
    by discriminate Hlt; left.
Qed.

Lemma filter_after_delete f k (l : list (bytes * bytes)) :
  filter (λ e, lmdb_cmp f k e.1 = Lt) (filter (λ e, e.1 ≠ k) l) =
  filter (λ e, lmdb_cmp f k e.1 = Lt) l.
Proof using.
  apply list_filter_filter_l. intros x Hx E. subst. by rewrite lmdb_cmp_refl in Hx.
Qed.

(** Ordered listings of the same rows are equal. *)
Lemma ascending_ext f l l' : ascending f l → ascending f l' → (∀ e, e ∈ l ↔ e ∈ l') → l = l'.
Proof using.
  intros Hl Hl' He.
  assert (Hnd : ∀ l, ascending f l → NoDup l).
  { clear. induction 1 as [|x l _ IH Hx]; [constructor|]. apply list.NoDup_cons. split; [|done].
    intros Hin%list_elem_of_In. rewrite List.Forall_forall in Hx. apply Hx in Hin.
    by rewrite lmdb_cmp_refl in Hin. }
  apply (StronglySorted_unique_strong (λ e e', lmdb_cmp f e.1 e'.1 = Lt)); [|done|done|].
  - intros x y _ _ Hxy Hyx. rewrite lmdb_cmp_antisym, Hxy in Hyx. done.
  - apply NoDup_Permutation; [by apply Hnd..|done].
Qed.

Lemma ascending_filter f (P : bytes * bytes → Prop) `{∀ x, Decision (P x)} l :
  ascending f l → ascending f (filter P l).
Proof using.
  induction 1 as [|x l Hs IH Hx]; [constructor|]. rewrite filter_cons. case_decide; [|done].
  constructor; [done|]. rewrite List.Forall_forall in *.
  intros y [_ Hy]%list_elem_of_In%list_elem_of_filter. apply Hx. by apply list_elem_of_In.
Qed.

(** Deleting a key takes its row out of the listing. *)
Lemma entries_delete t t' h k :
  uniq t h → keys_ok t h → framed t t' h → dbm t' h = delete k (dbm t h) →
  entries t' h = filter (λ e, e.1 ≠ k) (entries t h).
Proof using HL.
  intros Hu Hk Hf Em. pose proof (framed_uniq h _ _ Hf Hu) as Hu'.
  assert (Hk' : keys_ok t' h).
  { intros k' [v Hv]. rewrite Em in Hv. apply lookup_delete_Some in Hv as [_ Hv].
    eapply framed_key_ok; [done|]. by apply Hk. }
  apply (ascending_ext (dflags t h)).
  - unfold ascending. rewrite <- (framed_flags h _ _ Hf). by apply entries_sorted.
  - by apply ascending_filter, entries_sorted.
  - intros [k' v]. rewrite list_elem_of_filter, !entries_elem, Em by done. simpl.
    rewrite lookup_delete_Some. naive_solver.
Qed.

(** A write to a row does not change what is behind it. *)
Lemma afterKey_ext t t' h k :
  uniq t h → keys_ok t h → uniq t' h → keys_ok t' h → dflags t' h = dflags t h →
  (∀ k', lmdb_cmp (dflags t h) k k' = Lt → dbm t' h !! k' = dbm t h !! k') →
  afterKey t' h k = afterKey t h k.
Proof using HL.
  intros Hu Hk Hu' Hk' Ef Em. unfold afterKey. rewrite Ef. apply (ascending_ext (dflags t h)).
  - apply ascending_filter. unfold ascending. rewrite <- Ef. by apply entries_sorted.
  - by apply ascending_filter, entries_sorted.
  - intros e. rewrite !list_elem_of_filter, !entries_elem by done.
    split; intros [H1 H2]; (split; [done|]); by rewrite <- H2, Em.
Qed.

Lemma keys_ok_put t t' h k v :
  framed t t' h → dbm t' h = <[k:=v]> (dbm t h) → keys_ok t h → key_ok t h k → keys_ok t' h.
Proof using.
  intros Hf Em Hk Hkey k' [w Hw]. eapply framed_key_ok; [done|]. rewrite Em in Hw.
  apply lookup_insert_Some in Hw as [[<- _]|[_ Hw]]; [done|]. by apply Hk.
Qed.
End rows.

(** ** A reference implementation

    A scanner is a position: before the first entry, at or behind a key, one
    entry further, or at the end. *)

Module RefScan.
Inductive rpos : Type :=
  | AtStart
  | AtKey (k : bytes)
  | Behind (k : bytes)
  | OneMore (p : rpos)
  | AtEnd.

Record rscan : Type := MkScan {
  rsDB : option bytes;
  rsCur : option (bytes * bytes);
  rsPos : rpos;
}.

#[local] Existing Instances Ref.RefLMDB Ref.RefView Ref.RefLMDB_laws.

Fixpoint todoAt (t : @Txn Ref.RefLMDB) (h : @DBIh Ref.RefLMDB) (p : rpos) : list (bytes * bytes) :=
  match p with
  | AtStart => entries t h
  | AtKey k => fromKey t h k
  | Behind k => afterKey t h k
  | OneMore p => tail (todoAt t h p)
  | AtEnd => []
  end.

Definition rsSet (t : Ref.rtxn) (s : rscan) (k _ : gobytes) (op : cursor_op) : rscan :=
  let p := match op with
           | First => AtStart
           | SetRange => AtKey (gdata k)
           | Next => OneMore (rsPos s)
           end in
  MkScan (rsDB s) (list.head (todoAt t (rsDB s) p)) p.

Definition rsScan (t : Ref.rtxn) (s : rscan) : rscan * bool :=
  match todoAt t (rsDB s) (rsPos s) with
  | [] => (MkScan (rsDB s) None AtEnd, false)
  | e :: _ => (MkScan (rsDB s) (Some e) (Behind e.1), true)
  end.

Definition RefScanner : LMDBScan Ref.RefLMDB :=
  @Build_LMDBScan Ref.RefLMDB rscan (λ _ h, MkScan h None AtStart) rsSet
    rsScan (λ s, fst <$> rsCur s) (λ s, snd <$> rsCur s) (λ _, None).

Definition RefScanView : LMDBScanView Ref.RefLMDB RefScanner :=
  @Build_LMDBScanView Ref.RefLMDB RefScanner rsDB rsCur
    (λ s, match rsPos s with Behind k => Some k | _ => None end)
    (λ t s, todoAt t (rsDB s) (rsPos s)).

Lemma todoAt_suffix t h p : uniq t h → keys_ok t h → ∃ K, entries t h = K ++ todoAt t h p.
Proof.
  intros Hu Hk. pose proof (entries_sorted t h Hu Hk) as Hs.
  induction p as [|k|k|p [K EK]|]; simpl.
  - by exists [].
  - by apply ascending_suffix.
  - by apply ascending_suffix'.
  - destruct (todoAt t h p) as [|e r]; simpl; [by exists K|]. exists (K ++ [e]).
    by rewrite <- app_assoc.
  - exists (entries t h). by rewrite app_nil_r.
Qed.

Lemma todoAt_next t h p e r :
  uniq t h → keys_ok t h → todoAt t h p = e :: r → afterKey t h e.1 = r.
Proof.
  intros Hu Hk Ep. destruct (todoAt_suffix t h p Hu Hk) as [K EK]. rewrite Ep in EK.
  by eapply afterKey_suffix.
Qed.

Lemma rscan_del (t : @Txn Ref.RefLMDB) (sc : @Scanner _ RefScanner) k v :
  uniq t (rsDB sc : @DBIh Ref.RefLMDB) → keys_ok t (rsDB sc : @DBIh Ref.RefLMDB) →
  (k, v) ∈ entries t (rsDB sc : @DBIh Ref.RefLMDB) →
  ∃ t' : @Txn Ref.RefLMDB, txn_Del t (rsDB sc) k (Some v) = Ok t' ∧
    framed t t' (rsDB sc : @DBIh Ref.RefLMDB) ∧
    entries t' (rsDB sc : @DBIh Ref.RefLMDB) =
      filter (λ e, e.1 ≠ k) (entries t (rsDB sc : @DBIh Ref.RefLMDB)).
Proof.
  intros Hu Hk Hin. pose proof (proj1 (entries_elem _ _ (k, v) Hu Hk) Hin) as Hv.
  destruct (del_entry t _ k v Hu (Hk k (mk_is_Some _ _ Hv)) Hv) as (t' & Hd & Em & Hf).
  exists t'. split; [exact Hd|]. split; [exact Hf|]. by apply entries_delete.
Qed.

Lemma RefScan_laws : LMDBScanLaws Ref.RefLMDB Ref.RefView RefScanner RefScanView.
Proof.
  split; try done.
  - intros t sc _ E. simpl in *. unfold rsScan. rewrite E. by eexists.
  - intros t sc e r Hu Hk E. simpl in *. unfold rsScan. rewrite E. eexists. split; [done|].
    simpl. repeat (split; [done|]). split; [|done]. by eapply todoAt_next.
  - intros t sc k _ _ E. simpl in *. destruct (rsPos sc); try done. by injection E as ->.
  - intros t sc k v Hu Hk Ha Hc Hin. destruct (rscan_del t sc k v Hu Hk Hin) as (t' & E1 & E2 & E3).
    exists t'. split; [exact E1|]. split; [exact E2|]. split; [exact E3|].
    change (todoAt t' (rsDB sc) (rsPos sc) = todoAt t (rsDB sc) (rsPos sc)). simpl in Ha.
    destruct (rsPos sc) as [|k'|k'| |]; try done. simpl todoAt. injection Ha as ->.
    unfold afterKey. rewrite E3, (framed_flags (rsDB sc : @DBIh Ref.RefLMDB) _ _ E2).
    by apply filter_after_delete.
Qed.
End RefScan.
