(* ===== verification/Sweeper.v ===== *)
(** * Removing stale deletion markers (syncer/sweeper)

    [sweep] visits every database with headers in transactions of limited
    duration and deletes the entries that were marked as deleted before the
    retention period.  Clocks, cancellation and the other users of the
    environment between two transactions are parameters; logging and metrics
    are left out. *)

From stdpp Require Import sorting.
From S2P Require Import Prelude Header Lmdb Strategy Iterators Config Shadow Syncer Transfer.
From S2P Require Import LimitScanner.

(** ** Data *)

(** [timeTaken] is left out of the counters. *)
Record stats : Type := MkStats {
  nEntries : Z;
  nDeleted : Z;
  nCleaned : Z;
  nTxn : Z;
}.

Definition zeroStats : stats := MkStats 0 0 0 0.

Definition addStats (a b : stats) : stats :=
  MkStats (nEntries a + nEntries b) (nDeleted a + nDeleted b) (nCleaned a + nCleaned b)
    (nTxn a + nTxn b).

(** The sweeper: its configuration and whether the databases of the
    application have headers. *)
Record TombSweeper : Type := MkTombSweeper {
  tsConf : Sweeper;
  tsSchemaTracksChanges : bool;
}.

Definition NewSweeper (conf : Sweeper) (schemaTracksChanges : bool) : TombSweeper :=
  MkTombSweeper conf schemaTracksChanges.

Section sweeper.
Context `{L : LMDB} {SC : LMDBScan L} {EN : LMDBEnv L}.
Context (sw : TombSweeper).

(** Transaction [i] reads the clock [clock i c] after [c] entries; between it
    and the next one [others i] happens, and the context may end. *)
Context (clock : nat → Z → Z) (others : nat → Env → Env) (interrupted : nat → bool).

(** ** One transaction *)

(** The loop over the entries of a chunk.  The counters are variables of
    [sweep] and keep their values when the transaction fails. *)
Fixpoint cleanLoop (fuel i : nat) (cutoffTS : Z) (dbi : DBIh) (t : Txn)
    (ls : LimitScanner) (st : stats) : stats * outcome (Txn * LimitScanner) :=
  match fuel with
  | O => (st, Hang)
  | S fuel =>
      match Scan t (clock i (lsCount ls)) ls with
      | (ls, false) => (st, Ok (t, ls))
      | (ls, true) =>
          match Parse (gdata (Val ls)) with
          | Err e => (st, Err (EWrap "failed to parse header" e))
          | Panic => (st, Panic)
          | Hang => (st, Hang)
          | Ok (h, _) =>
              if negb (IsDeleted (hFlags h)) then
                cleanLoop fuel i cutoffTS dbi t ls (addStats st (MkStats 1 0 0 0))
              else if cutoffTS <=? hTimestamp h then
                cleanLoop fuel i cutoffTS dbi t ls (addStats st (MkStats 1 1 0 0))
              else
                let st := addStats st (MkStats 0 0 1 0) in
                match txn_Del t dbi (gdata (Key ls)) (Val ls) with
                | Ok t => cleanLoop fuel i cutoffTS dbi t ls st
                | Err e => (st, Err (EWrap "failed to delete key" e))
                | Panic => (st, Panic)
                | Hang => (st, Hang)
                end
          end
      end
  end.

(** The variables of the loop over the transactions of one database. *)
Record vars : Type := MkVars {
  vStats : stats;
  vLast : LimitCursor;
  vLimitReached : bool;
}.

(** The function passed to [env.Update]. *)
Definition sweepTxn (fuel i : nat) (cutoffTS : Z) (dbiName : bytes) (v : vars) (t : Txn)
    : vars * outcome Txn :=
  let st := addStats (vStats v) (MkStats 0 0 0 1) in
  let failed := MkVars st (vLast v) (vLimitReached v) in
  match txn_OpenDBI t dbiName 0 with
  | Err e => (failed, Err e)
  | Panic => (failed, Panic)
  | Hang => (failed, Hang)
  | Ok (t, dbi) =>
      match NewLimitScanner (Some t) (Some dbi)
              (MkOptions 0 (swLockDuration (tsConf sw)) LimitDurationCheckEveryDefault (vLast v))
              (clock i 0) with
      | Err e => (failed, Err e)
      | Panic => (failed, Panic)
      | Hang => (failed, Hang)
      | Ok ls =>
          let '(st, r) := cleanLoop fuel i cutoffTS dbi t ls st in
          match r with
          | Ok (t, ls) =>
              let '(last, limitReached) := CursorOf ls in
              (MkVars st last limitReached, match ls_Err ls with Some e => Err e | None => Ok t end)
          | Err e => (MkVars st (vLast v) (vLimitReached v), Err e)
          | Panic => (MkVars st (vLast v) (vLimitReached v), Panic)
          | Hang => (MkVars st (vLast v) (vLimitReached v), Hang)
          end
      end
  end.

(** [env.Update]: the variables survive a transaction that is aborted. *)
Definition updateVars (e : Env) (op : Txn → vars * outcome Txn) (v : vars) : vars * outcome Env :=
  match env_Begin e false with
  | Ok t => let '(v, r) := op t in (v, t ← r; env_Commit e t)
  | Err x => (v, Err x)
  | Panic => (v, Panic)
  | Hang => (v, Hang)
  end.

(** ** One database *)

(** The environment, the number of the next transaction and the counters after
    the transactions of one database.  An error is only looked at when the
    limit was not reached. *)
Fixpoint sweepDBI (fuel i : nat) (cutoffTS : Z) (dbiName : bytes) (e : Env) (v : vars)
    : Env * nat * stats * outcome unit :=
  match fuel with
  | O => (e, i, vStats v, Hang)
  | S fuel' =>
      let '(v, r) := updateVars e (sweepTxn fuel i cutoffTS dbiName v) v in
      match r with
      | Panic => (e, i, vStats v, Panic)
      | Hang => (e, i, vStats v, Hang)
      | Ok _ | Err _ =>
          let e := others i (match r with Ok e' => e' | _ => e end) in
          if vLimitReached v then
            if interrupted i then (e, S i, vStats v, Err Canceled)
            else sweepDBI fuel' (S i) cutoffTS dbiName e v
          else match r with
          | Err x => (e, S i, vStats v, Err (EWrap "failed to sweep dbi" x))
          | _ => (e, S i, vStats v, Ok ())
          end
      end
  end.

(** ** A sweep *)

(** Databases of the application without headers are skipped. *)
Definition skipped (dbiName : bytes) : bool :=
  negb (tsSchemaTracksChanges sw) && negb (HasPrefix dbiName SyncDBIPrefix).

Fixpoint sweepDBIs (fuel i : nat) (cutoffTS : Z) (names : list bytes) (e : Env) (st : stats)
    : Env * nat * stats * outcome unit :=
  match names with
  | [] => (e, i, st, Ok ())
  | dbiName :: names =>
      if skipped dbiName then sweepDBIs fuel i cutoffTS names e st
      else
        match sweepDBI fuel i cutoffTS dbiName e (MkVars st zeroCursor false) with
        | (e, i, st, Ok _) => sweepDBIs fuel i cutoffTS names e st
        | r => r
        end
  end.

(** [now] is the time the cutoff is computed from, [i] the number of its first
    transaction.  The counters of a finished sweep are its [lastStats]. *)
Definition sweep (fuel i : nat) (now : Z) (e : Env) : Env * nat * stats * outcome unit :=
  let cutoffTS := TimestampFromTime (now - RetentionDuration (tsConf sw)) in
  match env_View e (λ t, names ← ReadDBINames fuel t; Ok (t, names)) with
  | Ok (e, dbiNames) => sweepDBIs fuel i cutoffTS dbiNames e zeroStats
  | Err x => (e, i, zeroStats, Err x)
  | Panic => (e, i, zeroStats, Panic)
  | Hang => (e, i, zeroStats, Hang)
  end.

(** ** The schedule *)

(** [sleep j wait] tells whether the context ends while waiting for sweep [j],
    which starts at [start j].  Only a cancellation ends the loop. *)
Context (sleep : nat → Z → bool) (start : nat → Z).

Fixpoint runLoop (fuel j i : nat) (wait : Z) (e : Env) : Env * outcome unit :=
  match fuel with
  | O => (e, Hang)
  | S fuel' =>
      if sleep j wait then (e, Err Canceled)
      else
        match sweep fuel i (start j) e with
        | (e, _, _, Panic) => (e, Panic)
        | (e, _, _, Hang) => (e, Hang)
        | (e, i, _, Err x) =>
            if errors_Is x Canceled then (e, Err x)
            else runLoop fuel' (S j) i (swInterval (tsConf sw)) e
        | (e, i, _, Ok _) => runLoop fuel' (S j) i (swInterval (tsConf sw)) e
        end
  end.

Definition Run (fuel : nat) (e : Env) : Env * outcome unit :=
  runLoop fuel 0 0 (swFirstInterval (tsConf sw)) e.
End sweeper.

(** ** What is stale *)

(** A deletion marker from before the cutoff. *)
Definition staleRow (cutoffTS : Z) (v : bytes) : bool :=
  match Parse v with
  | Ok (h, _) => IsDeleted (hFlags h) && (hTimestamp h <? cutoffTS)
  | _ => false
  end.

Definition deletedRow (v : bytes) : bool :=
  match Parse v with Ok (h, _) => IsDeleted (hFlags h) | _ => false end.

(** What a sweep leaves of the entries of a database. *)
Definition keep (cutoffTS : Z) (l : list (bytes * bytes)) : list (bytes * bytes) :=
  filter (λ e, staleRow cutoffTS e.2 = false) l.

(** What it counts. *)
Definition tally (cutoffTS : Z) (l : list (bytes * bytes)) : stats :=
  MkStats (zlen (keep cutoffTS l)) (zlen (filter (λ e, deletedRow e.2 = true) (keep cutoffTS l)))
    (zlen l - zlen (keep cutoffTS l)) 0.

(** The counters without the number of transactions. *)
Definition noTxn (s : stats) : stats := MkStats (nEntries s) (nDeleted s) (nCleaned s) 0.

Definition parses (e : bytes * bytes) : Prop := is_ok (Parse e.2).

Lemma keep_app c l l' : keep c (l ++ l') = keep c l ++ keep c l'.
Proof. apply list.filter_app. Qed.

Lemma addStats_assoc a b c : addStats a (addStats b c) = addStats (addStats a b) c.
Proof. unfold addStats. simpl. f_equal; lia. Qed.

Lemma addStats_zero a : addStats a zeroStats = a.
Proof. destruct a. unfold addStats. simpl. f_equal; lia. Qed.

Lemma tally_nil c : tally c [] = zeroStats.
Proof. done. Qed.

Lemma tally_app c l l' : tally c (l ++ l') = addStats (tally c l) (tally c l').
Proof.
  unfold tally, addStats. rewrite keep_app, list.filter_app. simpl. rewrite !zlen_app. f_equal; lia.
Qed.

Lemma noTxn_add a b : noTxn (addStats a b) = addStats (noTxn a) (noTxn b).
Proof. done. Qed.

(** The three kinds of rows. *)
Lemma row_live c e h app :
  Parse e.2 = Ok (h, app) → IsDeleted (hFlags h) = false →
  keep c [e] = [e] ∧ tally c [e] = MkStats 1 0 0 0.
Proof.
  intros Hp Hd. assert (Ek : keep c [e] = [e]).
  { unfold keep. rewrite filter_cons_True; [done|]. unfold staleRow. by rewrite Hp, Hd. }
  split; [done|]. unfold tally. rewrite Ek, filter_cons_False; [done|].
  unfold deletedRow. by rewrite Hp, Hd.
Qed.

Lemma row_recent c e h app :
  Parse e.2 = Ok (h, app) → IsDeleted (hFlags h) = true → c <= hTimestamp h →
  keep c [e] = [e] ∧ tally c [e] = MkStats 1 1 0 0.
Proof.
  intros Hp Hd Hc. assert (Ek : keep c [e] = [e]).
  { unfold keep. rewrite filter_cons_True; [done|]. unfold staleRow. rewrite Hp, Hd.
    apply Z.ltb_ge. lia. }
  split; [done|]. unfold tally. rewrite Ek, filter_cons_True; [done|].
  unfold deletedRow. by rewrite Hp, Hd.
Qed.

Lemma row_stale c e h app :
  Parse e.2 = Ok (h, app) → IsDeleted (hFlags h) = true → hTimestamp h < c →
  keep c [e] = [] ∧ tally c [e] = MkStats 0 0 1 0.
Proof.
  intros Hp Hd Hc. assert (Ek : keep c [e] = []).
  { unfold keep. rewrite filter_cons_False; [done|]. unfold staleRow. rewrite Hp, Hd.
    rewrite (proj2 (Z.ltb_lt _ _)); [done|lia]. }
  split; [done|]. unfold tally. by rewrite Ek.
Qed.

(** ** A transaction *)

Section laws.
Context `{V : LMDBView} `{HL : !LMDBLaws L V} {SC : LMDBScan L} {W : LMDBScanView L SC}.
Context `{SL : !LMDBScanLaws L V SC W} `{EN : !LMDBEnv L} `{EL : !LMDBEnvLaws}.
Context (sw : TombSweeper) (clock : nat → Z → Z).

Lemma filter_key_mid (k : bytes) (v : bytes) (K q : list (bytes * bytes)) :
  NoDup (K ++ (k, v) :: q).*1 → filter (λ e, e.1 ≠ k) (K ++ (k, v) :: q) = K ++ q.
Proof using.
  rewrite fmap_app, fmap_cons. intros (H1 & H2 & H3)%list.NoDup_app.
  apply list.NoDup_cons in H3 as [H3 H4]. rewrite list.filter_app, filter_cons_False by (simpl; tauto).
  f_equal; apply filter_all; intros [k' v'] Hin E; simpl in *; subst k'.
  - apply (H2 k); [|by left]. apply list_elem_of_fmap. by exists (k, v').
  - apply H3, list_elem_of_fmap. by exists (k, v').
Qed.

(** A part of the rows has keys of the same form. *)
Lemma keys_ok_sub t t' h :
  dflags t' h = dflags t h → (∀ x, x ∈ entries t' h → x ∈ entries t h) →
  keys_ok t h → keys_ok t' h.
Proof using.
  intros Ef Hsub Hk k [w Hw]. unfold key_ok. rewrite Ef. apply Hk.
  apply elem_of_list_to_map_2, Hsub in Hw.
  destruct (dbm t h !! k) eqn:E; [by eauto|]. apply not_elem_of_list_to_map in E.
  destruct E. apply list_elem_of_fmap. by exists (k, w).
Qed.

(** Where the loop over a chunk stops. *)
Definition stopped (ls ls' : LimitScanner) (q1 q2 : list (bytes * bytes)) : Prop :=
  (lsLimitReached ls' = false ∧ q2 = [] ∧ sc_cur (lsSc ls') = None ∧ ls_Err ls' = None) ∨
  (ls' = stop ls ∧ q1 = [] ∧ 0 < lsCount ls) ∨
  (lsLimitReached ls' = true ∧ ls_Err ls' = None ∧
   ∃ q e, q1 = q ++ [e] ∧ sc_cur (lsSc ls') = Some e).

Definition chunk (c : Z) (h : DBIh) (fuel : nat) (t : Txn) (ls : LimitScanner)
    (K q : list (bytes * bytes)) (st : stats) (r : stats * outcome (Txn * LimitScanner)) : Prop :=
  match r with
  | (st', Ok (t', ls')) => ∃ q1 q2,
      q = q1 ++ q2 ∧ framed t t' h ∧ entries t' h = K ++ keep c q1 ++ q2 ∧
      st' = addStats st (tally c q1) ∧ stopped ls ls' q1 q2
  | (_, Hang) => ¬ Forall parses q ∨ (fuel <= length q)%nat
  | (_, _) => ¬ Forall parses q
  end.

(** A chunk that goes on after its first entry. *)
Lemma chunk_step c h fuel t t1 ls ls1 K e q st r :
  framed t t1 h → 0 < lsCount ls1 → ls_Err ls1 = None → sc_cur (lsSc ls1) = Some e →
  chunk c h fuel t1 ls1 (K ++ keep c [e]) q (addStats st (tally c [e])) r →
  chunk c h (S fuel) t ls K (e :: q) st r.
Proof using.
  intros Hf Hcnt He Hcur. destruct r as [st' [[t' ls']|x| |]]; simpl.
  - intros (q1 & q2 & -> & Hf' & Ent & -> & Hs). exists (e :: q1), q2.
    split_and!; [done|by eapply framed_trans| | |].
    + rewrite Ent. change (e :: q1) with ([e] ++ q1). by rewrite keep_app, <- !app_assoc.
    + change (e :: q1) with ([e] ++ q1). by rewrite tally_app, addStats_assoc.
    + destruct Hs as [Hs|[(-> & -> & _)|(Hl & He' & q & e' & -> & Hc)]]; [by left| |].
      * right; right. split_and!; [done|done|]. by exists [], e.
      * right; right. split_and!; [done|done|]. by exists (e :: q), e'.
  - intros H Hall. by apply Forall_cons_1 in Hall as [_ Hall].
  - intros H Hall. by apply Forall_cons_1 in Hall as [_ Hall].
  - intros [H|H]; [left|right; lia]. intros Hall. by apply Forall_cons_1 in Hall as [_ Hall].
Qed.

Lemma chunk_unparsed c h fuel t ls K e q st st' r :
  ¬ parses e → match r with Ok _ => False | _ => True end →
  chunk c h fuel t ls K (e :: q) st (st', r).
Proof using.
  intros He Hr. destruct r as [| | |]; simpl; try done; [..|left];
    intros Hall; by apply Forall_cons_1 in Hall as [? _].
Qed.

Lemma cleanLoop_chunk fuel i c h t ls K q st :
  uniq t h → keys_ok t h → ready t h ls q → entries t h = K ++ q → NoDup (K ++ q).*1 →
  chunk c h fuel t ls K q st (cleanLoop clock fuel i c h t ls st).
Proof using SL.
  revert t ls K q st. induction fuel as [|fuel IH]; intros t ls K q st Hu Hk Hr Ent Hn.
  { right. lia. }
  cbn [cleanLoop].
  destruct (Scan_cases t h (clock i (lsCount ls)) ls q Hu Hk Hr)
    as [[Hc ->]|[(-> & s' & -> & H1 & H2 & H3)|(e & q' & s' & -> & -> & Hc & Hr' & Hcur & Hdb & He & Hat)]].
  - exists [], q. rewrite tally_nil, addStats_zero. repeat (split; [done|]). right. by left.
  - exists [], []. rewrite tally_nil, addStats_zero. repeat (split; [done|]). by left.
  - assert (Ev : gdata (Val s') = e.2) by (unfold Val; by rewrite sc_val_cur, Hcur).
    assert (Ek : gdata (Key s') = e.1) by (unfold Key; by rewrite sc_key_cur, Hcur).
    assert (Ev' : Val s' = Some e.2) by (unfold Val; by rewrite sc_val_cur, Hcur).
    rewrite Ev, Ek, Ev'. destruct (Parse e.2) as [[hd app]|x| |] eqn:Ep;
      [|apply chunk_unparsed; [unfold parses; rewrite Ep; by intros [? ?]|done]..].
    assert (Hstay : keep c [e] = [e] → K ++ e :: q' = (K ++ keep c [e]) ++ q')
      by (intros ->; by rewrite <- app_assoc).
    case_if; [|case_if].
    + destruct (row_live c e hd app Ep) as [E1 E2]; [done|]. rewrite <- E2.
      apply (chunk_step c h fuel t t ls s'); try done.
      apply IH; try done; by rewrite <- Hstay.
    + destruct (row_recent c e hd app Ep) as [E1 E2]; [done|done|]. rewrite <- E2.
      apply (chunk_step c h fuel t t ls s'); try done.
      apply IH; try done; by rewrite <- Hstay.
    + destruct (row_stale c e hd app Ep) as [E1 E2]; [done|done|]. rewrite <- E2.
      destruct e as [k v]. destruct (scan_del t (lsSc s') k v) as (t1 & Hd & Hf & Ent1 & Ht1);
        [by rewrite Hdb|by rewrite Hdb|done|done|rewrite Hdb, Ent; apply elem_of_app; right; by left|].
      rewrite Hdb in *. cbn [fst snd]. rewrite Hd. rewrite Ent, filter_key_mid in Ent1 by done.
      apply (chunk_step c h fuel t t1 ls s'); try done. rewrite E1, app_nil_r.
      apply IH; [by eapply framed_uniq| | |done|].
      * eapply keys_ok_sub; [by apply framed_flags| |done].
        intros x. rewrite Ent, Ent1, !elem_of_app, elem_of_cons. tauto.
      * destruct Hr' as [R1 R2 R3 R4]. rewrite seek_started in R3, R4 by done.
        split; [done|done|by rewrite seek_started|]. rewrite seek_started by done. by rewrite Ht1.
      * rewrite fmap_app in *. rewrite fmap_cons in Hn. eapply sublist_NoDup; [exact Hn|].
        apply sublist_app; [done|]. by apply sublist_cons.
Qed.

(** *** Resuming behind the previous chunk *)

(** The cursor stands behind the entries [P]. *)
Definition resumes (c : LimitCursor) (P : list (bytes * bytes)) : Prop :=
  (P = [] ∧ c = zeroCursor) ∨
  ∃ P' e, P = P' ++ [e] ∧ c = MkLimitCursor (Some e.1) (Some e.2).

Lemma ascending_keys t h l : ascending (dflags t h) l → NoDup l.*1.
Proof using. apply sorted_nodup_keys. Qed.

Lemma keep_elem c l e : e ∈ keep c l ↔ e ∈ l ∧ staleRow c e.2 = false.
Proof using. unfold keep. rewrite list_elem_of_filter. tauto. Qed.

(** What is left of a partly swept database still has distinct keys. *)
Lemma keep_keys t h c P Q : ascending (dflags t h) (P ++ Q) → NoDup (keep c P ++ Q).*1.
Proof using.
  intros H%ascending_keys. eapply sublist_NoDup; [exact H|]. apply fmap_sublist.
  apply sublist_app; [|done]. apply sublist_filter.
Qed.

Lemma fromKey_swept c t h P Q k v :
  entries t h = keep c (P ++ [(k, v)]) ++ Q → ascending (dflags t h) ((P ++ [(k, v)]) ++ Q) →
  fromKey t h k = keep c [(k, v)] ++ Q.
Proof using.
  intros Ent Hs. destruct (ascending_app _ _ _ Hs) as (Hs1 & _ & Hlt).
  destruct (ascending_app _ _ _ Hs1) as (_ & _ & Hlt').
  unfold fromKey. rewrite Ent, keep_app, !list.filter_app.
  rewrite (filter_none _ (keep c P)), (filter_all _ Q), (filter_all _ (keep c [_])); [done|..].
  - intros e [He _]%keep_elem. apply list_elem_of_singleton in He as ->. simpl.
    by rewrite lmdb_cmp_refl.
  - intros e He. assert (H : lmdb_cmp (dflags t h) k e.1 = Lt).
    { apply (Hlt (k, v) e); [|done]. apply elem_of_app. right. by left. }
    by rewrite (lmdb_cmp_antisym _ k e.1), H.
  - intros e [He _]%keep_elem Hne. apply Hne, (Hlt' e (k, v)); [done|by left].
Qed.

Lemma start_swept c t h P Q opt now :
  uniq t h → entries t h = keep c P ++ Q → ascending (dflags t h) (P ++ Q) →
  (∀ e, e ∈ P → key_ok t h e.1) → resumes (Last opt) P →
  ∃ ls, NewLimitScanner (Some t) (Some h) opt now = Ok ls ∧ lsCount ls = 0 ∧ ready t h ls Q.
Proof using SL.
  intros Hu Ent Hs Hk [[-> Hc]|(P' & [k v] & -> & Hc)].
  - destruct (NewLimitScanner_ready t h opt now Hu) as (ls & E & Hr & E0); [by rewrite Hc|].
    exists ls. rewrite Ent in Hr. done.
  - destruct (NewLimitScanner_from t h opt now k v Hu) as (ls & E & E0 & Hr); [|done|].
    { apply (Hk (k, v)), elem_of_app. right. by left. }
    exists ls. split_and!; [done|done|]. rewrite (fromKey_swept c t h P' Q k v) in Hr by done.
    assert (Hne : match Q with e :: _ => e ≠ (k, v) | [] => True end).
    { destruct Q as [|e Q]; [done|]. intros ->. destruct (ascending_app _ _ _ Hs) as (_ & _ & Hlt).
      specialize (Hlt (k, v) (k, v)). simpl in Hlt. rewrite lmdb_cmp_refl in Hlt.
      discriminate Hlt; [apply elem_of_app; right|]; by left. }
    assert (Hkeep : keep c [(k, v)] = [(k, v)] ∨ keep c [(k, v)] = []).
    { unfold keep. rewrite filter_cons. case_decide; [by left|by right]. }
    destruct Hkeep as [E1|E1]; rewrite E1 in Hr; simpl in Hr.
    + by rewrite bool_decide_eq_true_2 in Hr.
    + destruct Q as [|e Q]; [done|]. by rewrite bool_decide_eq_false_2 in Hr.
Qed.

(** The transaction sweeps a non-empty part of what is left, or all of it. *)
Lemma sweepTxn_ok fuel i c n h v t P Q :
  dbi_of t n = Some h → uniq t h → keys_ok t h → entries t h = keep c P ++ Q →
  ascending (dflags t h) (P ++ Q) → (∀ e, e ∈ P → key_ok t h e.1) → resumes (vLast v) P →
  Forall parses Q → (length Q < fuel)%nat →
  ∃ v' t' Q1 Q2, sweepTxn sw clock fuel i c n v t = (v', Ok t') ∧ Q = Q1 ++ Q2 ∧
    framed t t' h ∧ entries t' h = keep c (P ++ Q1) ++ Q2 ∧
    noTxn (vStats v') = noTxn (addStats (vStats v) (tally c Q1)) ∧
    ((vLimitReached v' = false ∧ Q2 = []) ∨
     (vLimitReached v' = true ∧ Q1 ≠ [] ∧ resumes (vLast v') (P ++ Q1))).
Proof using HL SL.
  intros Hn Hu Hks Ent Hs Hk Hres Hp Hl. unfold sweepTxn. rewrite (open_existing t n 0 h Hn).
  set (opt := MkOptions _ _ _ _).
  destruct (start_swept c t h P Q opt (clock i 0)) as (ls & -> & H0 & Hr); try done.
  pose proof (cleanLoop_chunk fuel i c h t ls (keep c P) Q
    (addStats (vStats v) (MkStats 0 0 0 1)) Hu Hks Hr Ent) as Hc.
  specialize (Hc (keep_keys _ _ c P Q Hs)).
  destruct (cleanLoop _ _ _ _ _ _ _ _) as [st' [[t' ls']|x| |]]; simpl in Hc;
    [|contradiction|contradiction|destruct Hc; [contradiction|lia]].
  destruct Hc as (Q1 & Q2 & -> & Hf & Ent' & -> & Hstop). rewrite app_assoc, <- keep_app in Ent'.
  assert (Hst : noTxn (addStats (addStats (vStats v) (MkStats 0 0 0 1)) (tally c Q1)) =
                noTxn (addStats (vStats v) (tally c Q1))).
  { unfold noTxn, addStats. simpl. f_equal; lia. }
  destruct Hstop as [(E1 & -> & E2 & E3)|[(-> & -> & Hpos)|(E1 & E3 & q & e & -> & E2)]]; [|lia|].
  - eexists _, t', Q1, []. simpl. rewrite E3. repeat (split; [done|]). by left.
  - eexists _, t', _, Q2. simpl. rewrite E3. repeat (split; [done|]). right. split; [done|].
    split; [by destruct q|]. right. exists (P ++ q), e. split; [by rewrite app_assoc|].
    unfold Key, Val. by rewrite sc_key_cur, sc_val_cur, E2.
Qed.

(** ** A database *)

(** Nothing fails below the sweeper. *)
Definition env_total : Prop :=
  (∀ e ro, is_ok (env_Begin e ro)) ∧ (∀ e t, is_ok (env_Commit e t)).

(** A database with headers and without duplicate keys. *)
Record sweepable (t : Txn) (n : bytes) (h : DBIh) : Prop := MkSweepable {
  sb_handle : dbi_of t n = Some h;
  sb_uniq : has_flag (dflags t h) lmdb_DupSort = false;
  sb_keys : keys_ok t h;
  sb_rows : Forall parses (entries t h);
}.

(** [t] is [t0] with the rows [l] in the database [n]. *)
Record swept (t0 t : Txn) (n : bytes) (h : DBIh) (l : list (bytes * bytes)) : Prop := MkSwept {
  sp_handle : dbi_of t n = Some h;
  sp_flags : dflags t h = dflags t0 h;
  sp_rows : entries t h = l;
  sp_rest : ∀ n', n' ≠ n → same t0 t n';
}.

Definition shows (e : Env) (P : Txn → Prop) : Prop := ∀ ro t, env_Begin e ro = Ok t → P t.

Lemma sweepable_uniq t n h : sweepable t n h → uniq t h.
Proof using. intros H. split; [exists n|]; apply H. Qed.

Lemma sweepable_ascending t n h : sweepable t n h → ascending (dflags t h) (entries t h).
Proof using HL. intros H. apply entries_sorted; [by eapply sweepable_uniq|apply H]. Qed.

Lemma sweepable_key t n h e : sweepable t n h → e ∈ entries t h → key_ok t h e.1.
Proof using HL.
  intros H He. apply (sb_keys _ _ _ H). exists e.2. apply elem_of_list_to_map_1; [|by destruct e].
  by eapply ascending_keys, sweepable_ascending.
Qed.

Lemma swept_uniq t0 t n h l : sweepable t0 n h → swept t0 t n h l → uniq t h.
Proof using.
  intros H0 H. split; [exists n; apply H|]. rewrite (sp_flags _ _ _ _ _ H). apply H0.
Qed.

Lemma swept_framed t0 t t1 n h l :
  swept t0 t n h l → framed t t1 h → swept t0 t1 n h (entries t1 h).
Proof using HL.
  intros [H1 H2 H3 H4] Hf. split; [|by rewrite (framed_flags h _ _ Hf)|done|].
  - destruct Hf as (_ & _ & Hd & _). by rewrite Hd.
  - intros n' Hne. eapply same_trans; [by apply H4|]. by eapply framed_same.
Qed.

Lemma swept_commit t0 t n h l e e' :
  swept t0 t n h l → env_Commit e t = Ok e' → shows e' (λ t', swept t0 t' n h l).
Proof using EL.
  intros [H1 H2 H3 H4] Hc ro t' Hb. pose proof (env_commit_same _ _ _ _ _ Hc Hb) as Hs.
  destruct (Hs n) as [E1 E2]. destruct (E2 h H1) as [E3 E4]. split; [congruence..|].
  intros n' Hne. eapply same_trans; [by apply H4|done].
Qed.

(** No one else writes and the context does not end. *)
Definition quiet (_ : nat) (e : Env) : Env := e.
Definition running (_ : nat) : bool := false.

Lemma sweepDBI_ok fuel i c n h t0 P Q e v :
  env_total → sweepable t0 n h → entries t0 h = P ++ Q →
  shows e (λ t, swept t0 t n h (keep c P ++ Q)) → resumes (vLast v) P → (length Q < fuel)%nat →
  ∃ e' i' st, sweepDBI sw clock quiet running fuel i c n e v = (e', i', st, Ok ()) ∧
    shows e' (λ t, swept t0 t n h (keep c (P ++ Q))) ∧
    noTxn st = noTxn (addStats (vStats v) (tally c Q)).
Proof using HL SL EL.
  intros [Hb Hc] H0. revert i P Q e v. induction fuel as [|fuel IH]; intros i P Q e v E0 He Hres Hl;
    [lia|]. cbn [sweepDBI]. unfold updateVars. destruct (Hb e false) as [t Ht]. rewrite Ht.
  pose proof (He _ _ Ht) as Hsw. pose proof (sp_flags _ _ _ _ _ Hsw) as Ef.
  pose proof (sweepable_ascending _ _ _ H0) as Hs. pose proof (sb_rows _ _ _ H0) as Hrows.
  rewrite E0 in Hs, Hrows. apply Forall_app in Hrows as [_ Hrows].
  destruct (sweepTxn_ok (S fuel) i c n h v t P Q) as
    (v' & t1 & Q1 & Q2 & -> & -> & Hf & Ent & Est & Hend);
    [apply Hsw|exact (swept_uniq _ _ _ _ _ H0 Hsw)| |apply Hsw|by rewrite Ef| |done|done|done|].
  { eapply keys_ok_sub; [exact Ef| |apply H0]. intros x.
    rewrite E0, (sp_rows _ _ _ _ _ Hsw), !elem_of_app, keep_elem. tauto. }
  { intros x Hx. unfold key_ok. rewrite Ef. eapply sweepable_key; [done|].
    rewrite E0. apply elem_of_app. by left. }
  pose proof (swept_framed _ _ _ _ _ _ Hsw Hf) as Hsw1. rewrite Ent in Hsw1.
  rewrite bind_ok. destruct (Hc e t1) as [e1 He1]. rewrite He1.
  pose proof (swept_commit _ _ _ _ _ _ _ Hsw1 He1) as Hshow.
  destruct Hend as [[-> ->]|(-> & Hne & Hres')].
  - exists e1, (S i), (vStats v'). rewrite app_nil_r in *. done.
  - change (running i) with false. cbv iota. change (quiet i e1) with e1.
    destruct (IH (S i) (P ++ Q1) Q2 e1 v') as (e' & i' & st & -> & Hsh & Est'); try done.
    { by rewrite E0, app_assoc. }
    { rewrite length_app in Hl. destruct Q1; [done|]. simpl in Hl. lia. }
    exists e', i', st. split; [done|]. rewrite <- app_assoc in Hsh. split; [done|].
    rewrite Est', !noTxn_add, Est, noTxn_add, tally_app, noTxn_add. by rewrite addStats_assoc.
Qed.

(** ** The sweep *)

(** The rows of the databases a sweep visits. *)
Definition visitedRows (t : Txn) (names : list bytes) : list (bytes * bytes) :=
  names ≫= λ n, if skipped sw n then []
                else match dbi_of t n with Some h => entries t h | None => [] end.

(** A database after the sweep. *)
Definition cleaned (c : Z) (t0 t : Txn) (n : bytes) : Prop :=
  dbi_of t n = dbi_of t0 n ∧
  ∀ h, dbi_of t0 n = Some h → dflags t h = dflags t0 h ∧
    entries t h = if skipped sw n then entries t0 h else keep c (entries t0 h).

Lemma same_cleaned c t0 t n :
  (skipped sw n = true ∨ dbi_of t0 n = None) → same t0 t n → cleaned c t0 t n.
Proof using.
  intros Hn [E1 E2]. split; [done|]. intros h Hh. destruct (E2 h Hh) as [E3 E4].
  split; [done|]. destruct Hn as [->|Hn]; [done|congruence].
Qed.

Lemma cleaned_same c t0 t t' n : cleaned c t0 t n → same t t' n → cleaned c t0 t' n.
Proof using.
  intros [E1 E2] [E3 E4]. split; [congruence|]. intros h Hh. destruct (E2 h Hh) as [E5 E6].
  destruct (E4 h) as [E7 E8]; [congruence|]. split; congruence.
Qed.

Lemma same_sweepable t t' n h : same t t' n → sweepable t n h → sweepable t' n h.
Proof using.
  intros [E1 E2] [H1 H2 H3 H4]. destruct (E2 h H1) as [E3 E4].
  split; [congruence|by rewrite E4| |by rewrite E3].
  intros k. unfold dbm, key_ok. rewrite E3, E4. apply H3.
Qed.

(** The visited databases can be swept. *)
Definition all_sweepable (fuel : nat) (t : Txn) : Prop :=
  ∀ n h, dbi_of t n = Some h → skipped sw n = false →
    sweepable t n h ∧ (length (entries t h) < fuel)%nat.

Lemma sweep_one fuel i c n h t0 e st :
  env_total → sweepable t0 n h → (length (entries t0 h) < fuel)%nat → skipped sw n = false →
  shows e (λ t, same t0 t n) →
  ∃ e' i' st', sweepDBI sw clock quiet running fuel i c n e (MkVars st zeroCursor false) =
      (e', i', st', Ok ()) ∧
    (∀ ro t ro' t', env_Begin e ro = Ok t → env_Begin e' ro' = Ok t' →
       cleaned c t0 t' n ∧ ∀ n', n' ≠ n → same t t' n') ∧
    noTxn st' = noTxn (addStats st (tally c (entries t0 h))).
Proof using HL SL EL.
  intros Het H0 Hl Hsk He. destruct (proj1 Het e true) as [t1 Ht1].
  pose proof (He _ _ Ht1) as S1. pose proof (same_sweepable _ _ _ _ S1 H0) as H1.
  destruct S1 as [E1 E2]. destruct (E2 h (sb_handle _ _ _ H0)) as [E3 E4].
  destruct (sweepDBI_ok fuel i c n h t1 [] (entries t1 h) e (MkVars st zeroCursor false))
    as (e' & i' & st' & -> & Hsh & Hst); [done|done|done| |by left|by rewrite E3|].
  { intros ro t Ht. pose proof (env_begin_same _ _ _ _ _ Ht1 Ht) as Hs.
    destruct (Hs n) as [F1 F2]. destruct (F2 h (sb_handle _ _ _ H1)) as [F3 F4].
    pose proof (sb_handle _ _ _ H1). split; [congruence|done|done|done]. }
  exists e', i', st'. split; [done|]. rewrite E3 in Hst. split; [|done].
  intros ro t ro' t' Ht Ht'. destruct (Hsh _ _ Ht') as [G1 G2 G3 G4].
  pose proof (sb_handle _ _ _ H0) as Hh. split.
  - split; [congruence|]. intros h' Hh'. assert (h' = h) as -> by congruence.
    split; [congruence|]. rewrite Hsk. simpl in G3. congruence.
  - intros n' Hne. eapply same_trans; [|by apply G4]. by eapply env_begin_same.
Qed.

Lemma sweepDBIs_ok fuel i c names t0 e st :
  env_total → all_sweepable fuel t0 → NoDup names → (∀ n, n ∈ names → is_Some (dbi_of t0 n)) →
  shows e (λ t, ∀ n, if bool_decide (n ∈ names) then same t0 t n else cleaned c t0 t n) →
  ∃ e' i' st', sweepDBIs sw clock quiet running fuel i c names e st = (e', i', st', Ok ()) ∧
    shows e' (λ t, ∀ n, cleaned c t0 t n) ∧
    noTxn st' = noTxn (addStats st (tally c (visitedRows t0 names))).
Proof using HL SL EL.
  intros Het Hall. revert i e st. induction names as [|n names IH]; intros i e st Hnd Hex He.
  { exists e, i, st. rewrite tally_nil, addStats_zero. done. }
  apply list.NoDup_cons in Hnd as [Hn Hnd]. cbn [sweepDBIs].
  assert (Hex' : ∀ n, n ∈ names → is_Some (dbi_of t0 n)) by (intros; apply Hex; by right).
  assert (Hhead : shows e (λ t, same t0 t n)).
  { intros ro t Ht. specialize (He _ _ Ht n). rewrite bool_decide_eq_true_2 in He; [done|by left]. }
  assert (Hother : ∀ ro t n', env_Begin e ro = Ok t → n' ≠ n →
    if bool_decide (n' ∈ names) then same t0 t n' else cleaned c t0 t n').
  { intros ro t n' Ht Hne. specialize (He _ _ Ht n').
    rewrite (bool_decide_ext _ (n' ∈ names)) in He; [done|]. rewrite elem_of_cons. naive_solver. }
  destruct (Hex n) as [h Hh]; [by left|].
  assert (Hrows : visitedRows t0 (n :: names) =
    (if skipped sw n then [] else entries t0 h) ++ visitedRows t0 names).
  { unfold visitedRows. rewrite bind_cons, Hh. by case_if. }
  rewrite Hrows. destruct (skipped sw n) eqn:Hsk.
  - destruct (IH i e st) as (e' & i' & st' & -> & Hsh & Hst); [done|done| |by eauto 6].
    intros ro t Ht n'. destruct (decide (n' = n)) as [->|Hne]; [|by eapply Hother].
    rewrite bool_decide_eq_false_2 by done. apply same_cleaned; [by left|by eapply Hhead].
  - destruct (Hall n h Hh Hsk) as [H0 Hl].
    destruct (sweep_one fuel i c n h t0 e st) as (e1 & i1 & st1 & -> & Hone & Hst1); try done.
    destruct (IH i1 e1 st1) as (e' & i' & st' & -> & Hsh & Hst); [done|done| |].
    { intros ro t Ht n'. destruct (proj1 Het e true) as [t1 Ht1].
      destruct (Hone _ _ _ _ Ht1 Ht) as [Hcl Hrest]. destruct (decide (n' = n)) as [->|Hne].
      - by rewrite bool_decide_eq_false_2.
      - specialize (Hother _ _ _ Ht1 Hne). specialize (Hrest _ Hne).
        case_bool_decide; [by eapply same_trans|by eapply cleaned_same]. }
    exists e', i', st'. split; [done|]. split; [done|].
    rewrite Hst, !noTxn_add, Hst1, noTxn_add, tally_app, noTxn_add. by rewrite addStats_assoc.
Qed.

(** C12: a sweep that is not disturbed removes exactly the deletion markers that
    are older than the retention, from every database with headers and from no
    other, whatever the clock does to the size of its transactions; it ends,
    and it counts what it keeps, keeps as deleted and removes. *)
Theorem sweep_removes_stale fuel i now e t0 :
  env_total → env_Begin e true = Ok t0 → (length (dbnames t0) < fuel)%nat → all_sweepable fuel t0 →
  let c := TimestampFromTime (now - RetentionDuration (tsConf sw)) in
  ∃ e' i' st, sweep sw clock (λ _ e, e) (λ _, false) fuel i now e = (e', i', st, Ok ()) ∧
    shows e' (λ t, ∀ n, cleaned c t0 t n) ∧ noTxn st = tally c (visitedRows t0 (dbnames t0)).
Proof using HL SL EL.
  intros Het Ht0 Hl Hall c. unfold sweep, env_View. rewrite Ht0, bind_ok, ReadDBINames_ok by done.
  simpl. destruct (sweepDBIs_ok fuel i c (dbnames t0) t0 e zeroStats) as
    (e' & i' & st & E & Hsh & Hst); [done|done|apply dbnames_nodup| | |].
  - intros n Hn. by apply dbi_of_names.
  - intros ro t Ht n. pose proof (env_begin_same _ _ _ _ _ Ht0 Ht n) as Hs.
    case_bool_decide as Hn; [done|]. apply same_cleaned; [right|done].
    destruct (dbi_of t0 n) eqn:En; [|done]. destruct Hn. apply dbi_of_names. by rewrite En.
  - exists e', i', st. split; [exact E|]. split; [done|]. rewrite Hst.
    unfold noTxn, addStats. simpl. f_equal; lia.
Qed.

(** ** Other writers *)

(** A cursor a new transaction can seek. *)
Definition cursor_ok (t : Txn) (h : DBIh) (c : LimitCursor) : Prop :=
  c = zeroCursor ∨ ∃ k v, c = MkLimitCursor (Some k) (Some v) ∧ key_ok t h k.

(** Wherever the cursor points, the scanner covers a final part of the rows. *)
Lemma start_any t h opt now :
  uniq t h → keys_ok t h → cursor_ok t h (Last opt) →
  ∃ ls K q, NewLimitScanner (Some t) (Some h) opt now = Ok ls ∧ lsCount ls = 0 ∧
    ready t h ls q ∧ entries t h = K ++ q.
Proof using HL SL.
  intros Hu Hk [Hc|(k & v & Hc & Hkey)].
  - destruct (NewLimitScanner_ready t h opt now Hu) as (ls & E & Hr & E0); [by rewrite Hc|].
    by exists ls, [], (entries t h).
  - destruct (NewLimitScanner_from t h opt now k v Hu Hkey Hc) as (ls & E & E0 & Hr).
    destruct (ascending_suffix (dflags t h) k (entries t h)) as [K EK]; [by apply entries_sorted|].
    change (filter _ (entries t h)) with (fromKey t h k) in EK.
    destruct (fromKey t h k) as [|x r]; [by exists ls, K, []|]. case_bool_decide.
    + exists ls, (K ++ [x]), r. by rewrite <- app_assoc.
    + by exists ls, K, (x :: r).
Qed.

(** The transaction keeps every row that is not stale and adds none. *)
Record pruned (c : Z) (t t' : Txn) (h : DBIh) : Prop := MkPruned {
  pr_frame : framed t t' h;
  pr_keeps : ∀ x, x ∈ entries t h → staleRow c x.2 = false → x ∈ entries t' h;
  pr_adds : ∀ x, x ∈ entries t' h → x ∈ entries t h;
}.

Lemma sweepTxn_safe fuel i c n h v t :
  dbi_of t n = Some h → uniq t h → keys_ok t h → cursor_ok t h (vLast v) →
  ∃ v' r, sweepTxn sw clock fuel i c n v t = (v', r) ∧ cursor_ok t h (vLast v') ∧
    match r with Ok t' => pruned c t t' h | _ => True end.
Proof using HL SL.
  intros Hn Hu Hk Hc. unfold sweepTxn. rewrite (open_existing t n 0 h Hn). set (opt := MkOptions _ _ _ _).
  destruct (start_any t h opt (clock i 0) Hu Hk Hc) as (ls & K & q & -> & H0 & Hr & Ent).
  pose proof (entries_sorted t h Hu Hk) as Hs. rewrite Ent in Hs.
  pose proof (cleanLoop_chunk fuel i c h t ls K q (addStats (vStats v) (MkStats 0 0 0 1)) Hu Hk Hr Ent
    (ascending_keys t h _ Hs)) as Hch.
  destruct (cleanLoop _ _ _ _ _ _ _ _) as [st' [[t' ls']|x| |]]; [|by eexists _, _..].
  destruct Hch as (q1 & q2 & -> & Hf & Ent' & _ & Hstop). do 2 eexists. split; [done|].
  assert (Hp : pruned c t t' h).
  { split; [done|intros x|intros x]; rewrite Ent, Ent', !elem_of_app, keep_elem; tauto. }
  simpl. unfold Key, Val. rewrite sc_key_cur, sc_val_cur.
  destruct Hstop as [(_ & -> & -> & ->)|[(-> & -> & Hpos)|(_ & -> & q & x & -> & ->)]]; [|lia|].
  - split; [by left|done].
  - split; [|done]. right. exists x.1, x.2. split; [done|]. apply Hk. exists x.2.
    apply elem_of_list_to_map_1; [rewrite Ent; by eapply ascending_keys|].
    destruct x. rewrite Ent, !elem_of_app. right. left. right. by left.
Qed.

Section writers.
Context (others : nat → Env → Env) (interrupted : nat → bool).
Context (n0 k0 v0 : bytes) (c : Z) (Hfresh : staleRow c v0 = false).

(** Databases without duplicate keys, one of which has the row. *)
Definition holding (t : Txn) : Prop :=
  (∀ n h, dbi_of t n = Some h →
     has_flag (dflags t h) lmdb_DupSort = false ∧ keys_ok t h) ∧
  ∃ h, dbi_of t n0 = Some h ∧ (k0, v0) ∈ entries t h.

(** Other writers leave the row alone and drop no database. *)
Definition considerate : Prop :=
  ∀ i e, shows e holding → shows (others i e) holding ∧
    ∀ ro t ro' t' n h, env_Begin e ro = Ok t → env_Begin (others i e) ro' = Ok t' →
      dbi_of t n = Some h → dbi_of t' n = Some h ∧ dflags t' h = dflags t h.

Context (Htotal : env_total) (Hothers : considerate).

Definition cursorAt (t : Txn) (n : bytes) (cur : LimitCursor) : Prop :=
  ∃ h, dbi_of t n = Some h ∧ cursor_ok t h cur.

Definition cursorIn (e : Env) (n : bytes) (cur : LimitCursor) : Prop :=
  cur = zeroCursor ∨ shows e (λ t, cursorAt t n cur).

Lemma pruned_holding t t' n h :
  holding t → dbi_of t n = Some h → pruned c t t' h → holding t'.
Proof using HL Hfresh.
  intros [H1 (h0 & Hh0 & Hin)] Hn [(F1 & F2 & F3 & F4 & F5) Hkeep Hadd]. split.
  - intros m hm Hm. rewrite F3 in Hm. destruct (H1 m hm Hm) as [Hd Hk].
    rewrite F2. split; [done|]. eapply keys_ok_sub; [apply F2| |done].
    destruct (decide (m = n)) as [->|Hne]; [by assert (hm = h) as -> by congruence|].
    rewrite F1; [done|..]; intros ->; [by eapply Hne, dbi_of_inj|by eapply dbi_of_root].
  - exists h0. rewrite F3. split; [done|]. destruct (decide (n0 = n)) as [<-|Hne].
    + assert (h0 = h) as -> by congruence. by apply Hkeep.
    + rewrite F1; [done|..]; intros ->; [by eapply Hne, dbi_of_inj|by eapply dbi_of_root].
Qed.

Lemma same_holding t t' : (∀ n, same t t' n) → holding t → holding t'.
Proof using.
  intros Hs [H1 (h0 & Hh0 & Hin)]. split.
  - intros n h Hn. destruct (Hs n) as [E1 E2]. rewrite E1 in Hn. destruct (E2 h Hn) as [E3 E4].
    unfold keys_ok, key_ok, dbm. rewrite E3, E4. by apply (H1 n).
  - destruct (Hs n0) as [E1 E2]. destruct (E2 h0 Hh0) as [E3 E4]. exists h0. by rewrite E1, E3.
Qed.

Lemma cursor_ok_flags t t' h cur :
  dflags t' h = dflags t h → cursor_ok t h cur → cursor_ok t' h cur.
Proof using. intros E. unfold cursor_ok, key_ok. by rewrite E. Qed.

Lemma cursorIn_same t e n cur :
  cursorAt t n cur → shows e (λ t', same t t' n) → cursorIn e n cur.
Proof using.
  intros (h & Hh & Hc) Hs. right. intros ro t' Ht. destruct (Hs _ _ Ht) as [E1 E2].
  exists h. split; [congruence|]. eapply cursor_ok_flags; [by apply E2|done].
Qed.

(** One transaction, committed or not. *)
Lemma updateVars_safe fuel i n e v :
  shows e holding → cursorIn e n (vLast v) →
  ∃ v' r, updateVars e (sweepTxn sw clock fuel i c n v) v = (v', r) ∧
    let e1 := match r with Ok e' => e' | _ => e end in
    shows e1 holding ∧ cursorIn e1 n (vLast v').
Proof using HL SL EL Hfresh Htotal.
  intros He Hcur. unfold updateVars. destruct (proj1 Htotal e false) as [t Ht]. rewrite Ht.
  pose proof (He _ _ Ht) as Ht0.
  destruct (dbi_of t n) as [h|] eqn:Hn.
  - destruct (proj1 Ht0 n h Hn) as [Hd Hk].
    assert (Hu : uniq t h) by (split; [by exists n|done]).
    assert (Hc : cursor_ok t h (vLast v)).
    { destruct Hcur as [Hz|Hcur]; [by left|]. destruct (Hcur _ _ Ht) as (h' & Hh' & Hc).
      by assert (h' = h) as -> by congruence. }
    destruct (sweepTxn_safe fuel i c n h v t Hn Hu Hk Hc) as (v' & r & -> & Hc' & Hr).
    eexists _, _. split; [done|].
    assert (Hkept : shows e holding ∧ cursorIn e n (vLast v')).
    { split; [done|]. apply (cursorIn_same t); [by exists h|].
      intros ro t' Ht'. by apply (env_begin_same _ _ _ _ _ Ht Ht'). }
    destruct r as [t'| | |]; try done. rewrite bind_ok.
    destruct (proj2 Htotal e t') as [e' He']. rewrite He'.
    pose proof (pruned_holding _ _ _ _ Ht0 Hn Hr) as Hh'. destruct Hr as [(F1 & F2 & F3 & F4 & F5) _ _].
    split.
    + intros ro t2 Ht2. eapply same_holding; [|done]. by eapply env_commit_same.
    + apply (cursorIn_same t').
      * exists h. rewrite F3. split; [done|]. eapply cursor_ok_flags; [apply F2|done].
      * intros ro t2 Ht2. by apply (env_commit_same _ _ _ _ _ He' Ht2).
  - unfold sweepTxn. rewrite open_missing by done. eexists _, _. split; [done|]. done.
Qed.

Lemma considerate_cursor i e n cur :
  shows e holding → cursorIn e n cur →
  shows (others i e) holding ∧ cursorIn (others i e) n cur.
Proof using Htotal Hothers.
  intros He Hc. destruct (Hothers i e He) as [Hh Hs]. split; [done|].
  destruct Hc as [Hz|Hc]; [by left|right]. intros ro t' Ht'.
  destruct (proj1 Htotal e true) as [t Ht]. destruct (Hc _ _ Ht) as (h & Hn & Hok).
  destruct (Hs _ _ _ _ _ _ Ht Ht' Hn) as [E1 E2]. exists h. split; [done|].
  by eapply cursor_ok_flags.
Qed.

Lemma sweepDBI_safe fuel i n e v :
  shows e holding → cursorIn e n (vLast v) →
  shows (sweepDBI sw clock others interrupted fuel i c n e v).1.1.1 holding.
Proof using HL SL EL Hfresh Htotal Hothers.
  revert i e v. induction fuel as [|fuel IH]; intros i e v He Hcur; [done|]. cbn [sweepDBI].
  destruct (updateVars_safe (S fuel) i n e v He Hcur) as (v' & r & -> & He1 & Hcur1).
  destruct (considerate_cursor i _ n (vLast v') He1 Hcur1) as [He2 Hcur2].
  destruct r as [e'|x| |]; try done; (destruct (vLimitReached v'); [|done]);
    (destruct (interrupted i); [done|]); by apply IH.
Qed.

Lemma sweepDBIs_safe fuel i names e st :
  shows e holding → shows (sweepDBIs sw clock others interrupted fuel i c names e st).1.1.1 holding.
Proof using HL SL EL Hfresh Htotal Hothers.
  revert i e st. induction names as [|n names IH]; intros i e st He; [done|]. cbn [sweepDBIs].
  case_if; [by apply IH|].
  assert (H1 : cursorIn e n (vLast (MkVars st zeroCursor false))) by by left.
  pose proof (sweepDBI_safe fuel i n e _ He H1) as Hs.
  destruct (sweepDBI _ _ _ _ _ _ _ _ _ _) as [[[e1 i1] st1] r]. simpl in Hs.
  destruct r; try done. by apply IH.
Qed.
End writers.

(** C13: a row that is not a stale deletion marker survives a sweep, whatever
    happens: any clock, any split into transactions, failing or cancelled
    transactions, and other writers that commit between the transactions and
    leave the row alone. *)
Theorem sweep_keeps_live others interrupted n0 k0 v0 fuel i now e :
  let c := TimestampFromTime (now - RetentionDuration (tsConf sw)) in
  staleRow c v0 = false → env_total → considerate others n0 k0 v0 → shows e (holding n0 k0 v0) →
  shows (sweep sw clock others interrupted fuel i now e).1.1.1 (holding n0 k0 v0).
Proof using HL SL EL.
  intros c Hf Htot Ho He. unfold sweep, env_View. destruct (proj1 Htot e true) as [t Ht].
  rewrite Ht, bind_ok. destruct (ReadDBINames fuel t); try done.
  by apply sweepDBIs_safe.
Qed.

(** After a transaction that reached its limit, a row without a valid header
    at the start of the next one is neither reported nor passed: the sweep
    repeats the transaction for ever. *)
Theorem sweep_error_retried fuel i c n h t0 P x Q e v err :
  env_total → uniq t0 h → dbi_of t0 n = Some h → ascending (dflags t0 h) (P ++ x :: Q) →
  (∀ y, y ∈ P → key_ok t0 h y.1) → keys_ok t0 h →
  env_Begin e false = Ok t0 → entries t0 h = keep c P ++ x :: Q → Parse x.2 = Err err →
  vLimitReached v = true → resumes (vLast v) P →
  ∃ i' st, sweepDBI sw clock quiet running fuel i c n e v = (e, i', st, Hang).
Proof using HL SL.
  intros Het Hu Hn Hs Hk Hks Hb Ent Hx. revert i v. induction fuel as [|fuel IH]; intros i v Hlim Hres.
  { by exists i, (vStats v). }
  assert (Htxn : ∃ st x', sweepTxn sw clock (S fuel) i c n v t0 =
    (MkVars st (vLast v) true, Err x')).
  { unfold sweepTxn. rewrite (open_existing t0 n 0 h Hn), Hlim. set (opt := MkOptions _ _ _ _).
    destruct (start_swept c t0 h P (x :: Q) opt (clock i 0)) as (ls & -> & H0 & Hr); try done.
    cbn [cleanLoop]. destruct (Scan_cases t0 h (clock i (lsCount ls)) ls (x :: Q) Hu Hks Hr)
      as [[Hc _]|[(Hnil & _)|(y & q' & s' & [= <- <-] & -> & _ & _ & Hcur & _)]]; [lia|done|].
    unfold Val. rewrite sc_val_cur, Hcur. simpl. rewrite Hx. by eexists _, _. }
  destruct Htxn as (st & x' & Et). cbn [sweepDBI]. unfold updateVars. rewrite Hb, Et. simpl.
  by apply IH.
Qed.
End laws.

(** ** Witnesses on the reference environment *)

Section examples.
#[local] Existing Instances Ref.RefLMDB Ref.RefView Ref.RefLMDB_laws RefEnv RefEnv_laws
  RefScan.RefScanner RefScan.RefScanView RefScan.RefScan_laws.

Definition exSweeper : TombSweeper := NewSweeper (MkSweeper true (2, 0) 0 0 0 0 0) true.
Definition exNow : Z := RetentionDuration (tsConf exSweeper) + 1000.

(** A stale deletion marker, a live row and a recent deletion marker. *)
Definition exTombs : list (bytes * bytes) :=
  [(str "a", ex_value 100 1 []); (str "b", ex_value 100 0 (str "y")); (str "c", ex_value 2000 1 [])].

Lemma RefEnv_total : env_total.
Proof. split; intros; by eexists. Qed.

Lemma exTombs_elem k v :
  (list_to_map exTombs : gmap bytes bytes) !! k = Some v →
  (k, v) ∈ exTombs.
Proof. apply elem_of_list_to_map_2. Qed.

Lemma exTombs_rows i : entries (exState i exTombs) (Some exRecords : @DBIh Ref.RefLMDB) = exTombs.
Proof. by vm_compute. Qed.

Lemma exTombs_sweepable i : sweepable (exState i exTombs) exRecords (Some exRecords).
Proof.
  split; [done|done| |].
  - intros k [v Hv]. rewrite exState_map in Hv. apply exTombs_elem in Hv. split; [|done].
    repeat (apply elem_of_cons in Hv as [[= -> ->]|Hv]; [by vm_compute|]). by apply elem_of_nil in Hv.
  - rewrite exTombs_rows. repeat constructor; by eexists.
Qed.

Lemma exTombs_all i : all_sweepable exSweeper 9 (exState i exTombs).
Proof.
  intros n h Hn _. destruct (exState_db _ _ _ _ Hn) as [-> ->].
  split; [apply exTombs_sweepable|]. rewrite exTombs_rows. simpl. lia.
Qed.

Lemma exTombs_keep : keep 1000 exTombs = drop 1 exTombs.
Proof. by vm_compute. Qed.

Lemma exTombs_tally :
  tally 1000 (visitedRows exSweeper (exState 5 exTombs) [exRecords]) = MkStats 2 1 1 0.
Proof. by vm_compute. Qed.

Lemma exCutoff : TimestampFromTime (exNow - RetentionDuration (tsConf exSweeper)) = 1000.
Proof. by vm_compute. Qed.

(** The stale marker is removed, the other two rows stay. *)
Lemma sweep_removes_stale_witness : ∃ e' i' st,
  sweep (EN := RefEnv) exSweeper (λ _ c, c) (λ _ e, e) (λ _, false) 9 0 exNow (exState 5 exTombs) =
    (e', i', st, Ok ()) ∧
  entries (e' : @Txn Ref.RefLMDB) (Some exRecords : @DBIh Ref.RefLMDB) = drop 1 exTombs ∧
  noTxn st = MkStats 2 1 1 0.
Proof.
  destruct (sweep_removes_stale (EN := RefEnv) exSweeper (λ _ c, c) 9 0 exNow (exState 5 exTombs)
    (exState 5 exTombs) RefEnv_total eq_refl) as (e' & i' & st & E & Hc & Hst);
    [rewrite exState_names; simpl; lia|apply exTombs_all|].
  rewrite exCutoff in Hc, Hst. exists e', i', st. split; [exact E|]. split.
  - destruct (Hc true (Ref.MkTxn (Ref.rid e') (Ref.rdbs e')) eq_refl exRecords) as [_ Hr].
    destruct (Hr (Some exRecords) eq_refl) as [_ Hent]. rewrite <- exTombs_keep, <- (exTombs_rows 5).
    exact Hent.
  - rewrite Hst. exact exTombs_tally.
Defined.

(** Another process that adds a database between the transactions. *)
Definition exOther (_ : nat) (e : Ref.rtxn) : Ref.rtxn :=
  match Ref.rdbs e !! str "other" with
  | Some _ => e
  | None => Ref.MkTxn (Ref.rid e + 1) (<[str "other" := Ref.MkDb 0 ∅ []]> (Ref.rdbs e))
  end.

Lemma exOther_considerate n0 k0 v0 : considerate (EN := RefEnv) exOther n0 k0 v0.
Proof.
  intros i e He. unfold exOther. destruct (Ref.rdbs e !! str "other") as [d|] eqn:Eo.
  { split; [done|]. intros ro t ro' t' n h [= <-] [= <-]. done. }
  destruct (He true _ eq_refl) as [H1 (h0 & Hh0 & Hin)].
  assert (Hold : ∀ j n d, Ref.rdbs e !! n = Some d →
    (<[str "other" := Ref.MkDb 0 ∅ []]> (Ref.rdbs e)) !! n = Some d ∧
    Ref.rflagsof (Ref.MkTxn j (<[str "other" := Ref.MkDb 0 ∅ []]> (Ref.rdbs e))) (Some n) = Ref.rflags d).
  { intros j n d Hd. unfold Ref.rflagsof. simpl. rewrite lookup_insert_ne by congruence. by rewrite Hd. }
  split.
  - intros ro t [= <-]. split.
    + intros n h Hn. simpl in Hn. destruct (decide (n = str "other")) as [->|Hne].
      * rewrite lookup_insert_eq in Hn. injection Hn as <-. split.
        -- simpl. unfold Ref.rflagsof. simpl. by rewrite lookup_insert_eq.
        -- intros k [v Hv]. unfold dbm in Hv. simpl in Hv. by rewrite lookup_insert_eq in Hv.
      * rewrite lookup_insert_ne in Hn by done.
        destruct (Ref.rdbs e !! n) as [d|] eqn:En; [|done]. injection Hn as <-.
        destruct (H1 n (Some n)) as [Hd Hk]; [simpl; by rewrite En|].
        unfold keys_ok, key_ok, dbm in *. simpl in *. unfold Ref.rflagsof in *. simpl in *.
        rewrite lookup_insert_ne by done. done.
    + exists h0. simpl in *. destruct (Ref.rdbs e !! n0) as [d|] eqn:En; [|done].
      injection Hh0 as <-. destruct (Hold 0 n0 d En) as [E1 _]. simpl in *. rewrite E1, En in *. done.
  - intros ro t ro' t' n h [= <-] [= <-] Hn. simpl in *.
    destruct (Ref.rdbs e !! n) as [d|] eqn:En; [|done]. injection Hn as <-.
    destruct (Hold (if ro' then Ref.rid e + 1 else Ref.rid e + 1 + 1) n d En) as [E1 E2].
    rewrite E1. split; [done|]. rewrite E2. unfold Ref.rflagsof. simpl. by rewrite En.
Qed.

Lemma exTombs_holding :
  shows (EN := RefEnv) (exState 5 exTombs) (holding exRecords (str "b") (ex_value 100 0 (str "y"))).
Proof.
  intros ro t [= <-]. change (Ref.MkTxn _ _) with (exState (if ro then 5 else 5 + 1) exTombs). split.
  - intros n h Hn. destruct (exState_db _ _ _ _ Hn) as [-> ->].
    split; [done|]. apply exTombs_sweepable.
  - exists (Some exRecords). split; [done|]. rewrite exTombs_rows. right. by left.
Qed.

Lemma exLive_fresh :
  staleRow (TimestampFromTime (exNow - RetentionDuration (tsConf exSweeper)))
    (ex_value 100 0 (str "y")) = false.
Proof. by vm_compute. Qed.

Lemma sweep_keeps_live_witness :
  shows (sweep (EN := RefEnv) exSweeper (λ _ c, c) exOther (λ _, true) 9 0 exNow (exState 5 exTombs)).1.1.1
    (holding exRecords (str "b") (ex_value 100 0 (str "y"))).
Proof.
  exact (sweep_keeps_live (EN := RefEnv) exSweeper (λ _ c, c) exOther (λ _, true) exRecords (str "b")
    (ex_value 100 0 (str "y")) 9 0 exNow (exState 5 exTombs) exLive_fresh RefEnv_total
    (exOther_considerate _ _ _) exTombs_holding).
Defined.
End examples.
