(* ===== verification/DBIFlags.v ===== *)
(** * The text form of database flags (lmdbenv/dbiflags/flags.go)

    Persistent flags of a database are written in configuration files as names
    separated by bars.  [String] and [FriendlyString] print them,
    [UnmarshalText] reads them.  Go's string functions are modelled on ASCII
    text; what they do to other text is a parameter. *)

From S2P Require Import Prelude Shadow.

Definition ReverseKey : Z := 0x02.
Definition DupSort : Z := 0x04.
Definition IntegerKey : Z := 0x08.
Definition DupFixed : Z := 0x10.
Definition IntegerDup : Z := 0x20.
Definition ReverseDup : Z := 0x40.

(** ** The tables *)

Definition nameToFlag : list (bytes * Z) :=
  [(str "MDB_REVERSEKEY", ReverseKey); (str "MDB_DUPSORT", DupSort);
   (str "MDB_INTEGERKEY", IntegerKey); (str "MDB_DUPFIXED", DupFixed);
   (str "MDB_INTEGERDUP", IntegerDup); (str "MDB_REVERSEDUP", ReverseDup)].

Definition nameToFriendlyName : list (bytes * bytes) :=
  [(str "MDB_REVERSEKEY", str "ReverseKey"); (str "MDB_DUPSORT", str "DupSort");
   (str "MDB_INTEGERKEY", str "IntegerKey"); (str "MDB_DUPFIXED", str "DupFixed");
   (str "MDB_INTEGERDUP", str "IntegerDup"); (str "MDB_REVERSEDUP", str "ReverseDup")].

(** A lookup in a map literal; a missing key gives the zero value. *)
Definition assoc {K V} `{EqDecision K} (l : list (K * V)) (k : K) : option V :=
  snd <$> List.find (λ e, bool_decide (e.1 = k)) l.

(** [init] inverts the table and collects the flags. *)
Definition flagToName : list (Z * bytes) := (λ e, (e.2, e.1)) <$> nameToFlag.
Definition flagToFriendlyName : list (Z * bytes) :=
  (λ e, (e.2, default [] (assoc nameToFriendlyName e.1))) <$> nameToFlag.
Definition allValid : Z := foldr (λ e acc, Z.lor e.2 acc) 0 nameToFlag.

(** ** Printing *)

(** [strconv.FormatUint(v, 16)] *)

Fixpoint hexLoop (fuel : nat) (v : Z) (acc : bytes) : bytes :=
  match fuel with
  | O => acc
  | S fuel =>
      let acc := hexDigit (v mod 16) :: acc in
      if v / 16 =? 0 then acc else hexLoop fuel (v / 16) acc
  end.

(** A 64-bit number has at most 16 digits. *)
Definition FormatUint16 (v : Z) : bytes := hexLoop 16 v [].

(** The loop over the bits [b = 0x02 ... 0x40]: the flags left and the text. *)
Fixpoint buildLoop (bits : list Z) (sep : bytes) (friendly : bool) (f : Z) (sb : bytes)
    : Z * bytes :=
  match bits with
  | [] => (f, sb)
  | b :: bits =>
      if Z.land f b =? 0 then buildLoop bits sep friendly f sb
      else
        let f := Z.lxor f b in
        let sb := if 0 <? zlen sb then sb ++ sep else sb in
        buildLoop bits sep friendly f
          (sb ++ default [] (assoc (if friendly then flagToFriendlyName else flagToName) b))
  end.

Definition buildString (f : Z) (sep : bytes) (friendly : bool) : bytes :=
  let '(f, sb) := buildLoop [0x02; 0x04; 0x08; 0x10; 0x20; 0x40] sep friendly f [] in
  if negb (f =? 0) then
    let sb := if 0 <? zlen sb then sb ++ sep else sb in
    sb ++ str "UNKNOWN:0x" ++ FormatUint16 f
  else sb.

Definition String (f : Z) : bytes := buildString f (str "|") false.
Definition FriendlyString (f : Z) : bytes := buildString f (str " ") true.
Definition MarshalText (f : Z) : outcome bytes := Ok (String f).

(** ** Strings *)

Section text.
Context (unicodeTrim unicodeUpper : bytes → bytes).

Definition isASCII (s : bytes) : bool := forallb (λ b, bz b <? 128) s.

(** [strings.TrimSpace] *)
Definition asciiSpace (b : byte) : bool := (9 <=? bz b) && (bz b <=? 13) || (bz b =? 32).

Fixpoint trimLeft (s : bytes) : bytes :=
  match s with
  | b :: r => if asciiSpace b then trimLeft r else s
  | [] => []
  end.

Definition TrimSpace (s : bytes) : bytes :=
  if isASCII s then rev (trimLeft (rev (trimLeft s))) else unicodeTrim s.

(** [strings.ToUpper] *)
Definition upperByte (b : byte) : byte :=
  if (97 <=? bz b) && (bz b <=? 122) then zb (bz b - 32) else b.

Definition ToUpper (s : bytes) : bytes :=
  if isASCII s then upperByte <$> s else unicodeUpper s.

(** [strings.ReplaceAll] of one byte by another *)
Definition ReplaceAll (s : bytes) (a b : byte) : bytes :=
  (λ c, if bool_decide (c = a) then b else c) <$> s.

(** [strings.SplitSeq] at a byte *)
Fixpoint splitAt (sep : byte) (s : bytes) : list bytes :=
  match s with
  | [] => [[]]
  | b :: r =>
      let l := splitAt sep r in
      if bool_decide (b = sep) then [] :: l
      else match l with p :: ps => (b :: p) :: ps | [] => [[b]] end
  end.

(** [strconv.ParseUint(s, base, 16)] for the bases 10 and 16: no sign, no
    prefix, no underscores. *)
Definition digitVal (b : byte) : option Z :=
  let c := bz b in
  if (48 <=? c) && (c <=? 57) then Some (c - 48)
  else if (97 <=? c) && (c <=? 122) then Some (c - 97 + 10)
  else if (65 <=? c) && (c <=? 90) then Some (c - 65 + 10)
  else None.

Fixpoint parseDigits (base : Z) (s : bytes) (n : Z) : option Z :=
  match s with
  | [] => Some n
  | b :: r =>
      match digitVal b with
      | Some d => if d <? base then parseDigits base r (n * base + d) else None
      | None => None
      end
  end.

Definition ParseUint (s : bytes) (base : Z) : option Z :=
  match s with
  | [] => None
  | _ => match parseDigits base s 0 with
         | Some n => if n <? 2 ^ 16 then Some n else None
         | None => None
         end
  end.

(** ** Reading *)

Definition errInvalidFlag : error := EMsg "invalid persistent DBI flag".

(** A number of the given base, when it has only persistent flags. *)
Definition parseNumber (p : bytes) (base : Z) : outcome Z :=
  match ParseUint p base with
  | None => Err errInvalidFlag
  | Some vf => if negb (Z.land vf allValid =? vf) then Err errInvalidFlag else Ok vf
  end.

(** The flags a trimmed part in upper case stands for. *)
Definition parsePart (p : bytes) : outcome Z :=
  if zlen p =? 0 then Ok 0
  else match assoc nameToFlag p with
  | Some flag => Ok flag
  | None =>
      match assoc nameToFlag (str "MDB_" ++ p) with
      | Some flag => Ok flag
      | None =>
          if HasPrefix p (str "0X") then parseNumber (drop 2 p) 16
          else parseNumber p 10
      end
  end.

(** The flags read before an error stay in the receiver. *)
Fixpoint parseParts (parts : list bytes) (f : Z) : Z * outcome unit :=
  match parts with
  | [] => (f, Ok ())
  | p :: parts =>
      match parsePart (ToUpper (TrimSpace p)) with
      | Ok flag => parseParts parts (Z.lor f flag)
      | Err e => (f, Err e)
      | Panic => (f, Panic)
      | Hang => (f, Hang)
      end
  end.

Definition UnmarshalText (text : bytes) : Z * outcome unit :=
  let bar := Byte.x7c in
  let s := ReplaceAll text Byte.x2c bar in
  let s := ReplaceAll s Byte.x2b bar in
  let s := ReplaceAll s Byte.x20 bar in
  parseParts (splitAt bar s) 0.

(** ** Only persistent flags *)

Definition persistent (f : Z) : Prop := Z.land f allValid = f.

Lemma persistent_lor f g : persistent f → persistent g → persistent (Z.lor f g).
Proof. unfold persistent. intros Hf Hg. by rewrite Z.land_lor_distr_l, Hf, Hg. Qed.

Lemma assoc_elem {K V} `{EqDecision K} (l : list (K * V)) k v : assoc l k = Some v → (k, v) ∈ l.
Proof.
  unfold assoc. destruct (List.find _ l) as [[k' v']|] eqn:E; [|done]. intros [= <-].
  apply List.find_some in E as [Hin Hk]. apply bool_decide_eq_true in Hk. simpl in Hk. subst.
  by apply list_elem_of_In.
Qed.

Lemma nameToFlag_persistent n f : assoc nameToFlag n = Some f → persistent f.
Proof.
  intros H%assoc_elem. unfold nameToFlag in H.
  repeat (apply elem_of_cons in H as [[= -> ->]|H]; [by vm_compute|]). by apply elem_of_nil in H.
Qed.

Lemma parseNumber_persistent p base f : parseNumber p base = Ok f → persistent f.
Proof.
  unfold parseNumber. destruct (ParseUint p base) as [v|]; [|done]. case_if; [done|].
  by intros [= <-].
Qed.

Lemma parsePart_persistent p f : parsePart p = Ok f → persistent f.
Proof.
  unfold parsePart. case_if; [intros [= <-]; by vm_compute|].
  destruct (assoc nameToFlag p) eqn:E1; [intros [= <-]; by eapply nameToFlag_persistent|].
  destruct (assoc nameToFlag (str "MDB_" ++ p)) eqn:E2;
    [intros [= <-]; by eapply nameToFlag_persistent|].
  case_if; apply parseNumber_persistent.
Qed.

Lemma parseParts_persistent ps f : persistent f → persistent (parseParts ps f).1.
Proof.
  revert f. induction ps as [|p ps IH]; intros f Hf; [done|]. simpl.
  destruct (parsePart _) eqn:E; try done. apply IH, persistent_lor; [done|].
  by eapply parsePart_persistent.
Qed.

(** ** Round trips *)

Definition roundtrips (f : Z) : bool :=
  bool_decide (UnmarshalText (String f) = (f, Ok ())) &&
  bool_decide (UnmarshalText (FriendlyString f) = (f, Ok ())).

Lemma roundtrips_all :
  forallb (λ f, negb (Z.land f allValid =? f) || roundtrips f) (seqZ 0 128) = true.
Proof. by vm_compute. Qed.

Lemma persistent_range f : persistent f → 0 <= f < 128.
Proof.
  unfold persistent. intros <-. change allValid with (Z.land 126 (Z.ones 7)).
  rewrite Z.land_assoc, Z.land_ones by lia. apply Z.mod_pos_bound. lia.
Qed.

(** C40: Reading accepts exactly the printed persistent flags: they are read back
    from both printed forms, and whatever the text, only persistent flags are
    set, also on an error. *)
Theorem flags_text_roundtrip :
  (∀ f, persistent f ↔ UnmarshalText (String f) = (f, Ok ())) ∧
  (∀ f, persistent f ↔ UnmarshalText (FriendlyString f) = (f, Ok ())) ∧
  (∀ text, persistent (UnmarshalText text).1).
Proof.
  pose proof roundtrips_all as Hall. rewrite forallb_forall in Hall.
  assert (Hrt : ∀ f, persistent f → roundtrips f = true).
  { intros f Hf. specialize (Hall f). rewrite (proj2 (Z.eqb_eq _ _)) in Hall by done. apply Hall.
    apply list_elem_of_In, elem_of_seqZ. pose proof (persistent_range f Hf). lia. }
  assert (Hpers : ∀ text, persistent (UnmarshalText text).1)
    by (intros text; apply parseParts_persistent; by vm_compute).
  split_and!; [intros f..|done]; (split; [intros Hf|intros E]).
  - apply Hrt, andb_true_iff in Hf as [Hf _]. by apply bool_decide_eq_true in Hf.
  - specialize (Hpers (String f)). by rewrite E in Hpers.
  - apply Hrt, andb_true_iff in Hf as [_ Hf]. by apply bool_decide_eq_true in Hf.
  - specialize (Hpers (FriendlyString f)). by rewrite E in Hpers.
Qed.
End text.

(** Tests of flags_test.go. *)
Example unmarshal_relaxed :
  UnmarshalText id id (str " MDB_INTEGERKEY, iNtEgErdUp + 0x04") = (0x2c, Ok ()) ∧
  UnmarshalText id id (str "MDB_CREATE") = (0, Err errInvalidFlag) ∧
  UnmarshalText id id (str "0x40000") = (0, Err errInvalidFlag).
Proof. by vm_compute. Qed.
