(* ===== verification/Storage.v ===== *)
(** * The global storage handle (snapshot/storage/storage.go)

    [SetGlobal] publishes the storage backend; [GetGlobal] returns it, or waits
    for it.  The locked sections are atomic: a call of [GetGlobal] is a small
    machine whose moves interleave with calls of [SetGlobal].  Other callers of
    [GetGlobal] and [IsReady] only read. *)

From S2P Require Import Prelude.

Section storage.
Context {St : Type}.

(** [gReady] tells whether the channel is closed. *)
Record globals : Type := MkGlobals { gStorage : option St; gReady : bool }.

Definition initial : globals := MkGlobals None false.

(** Setting nil panics, as does closing the channel twice. *)
Definition SetGlobal (st : option St) (g : globals) : outcome globals :=
  match st, gStorage g with
  | None, _ => Panic
  | Some s, None => if gReady g then Panic else Ok (MkGlobals (Some s) true)
  | Some s, Some _ => Ok (MkGlobals (Some s) (gReady g))
  end.

Definition IsReady (g : globals) : bool :=
  match gStorage g with Some _ => true | None => false end.

(** A call of [GetGlobal]: before its first look, in [wait], after it, and
    finished. *)
Inductive getter : Type :=
  | GLook
  | GWait
  | GAgain
  | GDone (r : outcome (option St)).

(** [wait] returns when the channel is closed. *)
Definition wait (g : globals) : option getter := if gReady g then Some GAgain else None.

(** The next move of a call, [None] while it blocks. *)
Definition GetGlobal (g : globals) (c : getter) : option getter :=
  match c with
  | GLook =>
      match gStorage g with
      | Some st => Some (GDone (Ok (Some st)))
      | None => Some GWait
      end
  | GWait => wait g
  | GAgain =>
      match gStorage g with
      | Some _ => Some (GDone Panic)
      | None => Some (GDone (Ok None))
      end
  | GDone _ => None
  end.

(** One call among calls of [SetGlobal]. *)
Inductive gstep : globals * getter → globals * getter → Prop :=
  | step_set st g g' c : SetGlobal st g = Ok g' → gstep (g, c) (g', c)
  | step_get g c c' : GetGlobal g c = Some c' → gstep (g, c) (g, c').

Notation gsteps := (rtc gstep).

(** The channel is closed exactly when there is a storage. *)
Definition consistent (g : globals) : Prop := gReady g = IsReady g.

Lemma SetGlobal_ok g st :
  consistent g → ∃ g', SetGlobal (Some st) g = Ok g' ∧ consistent g' ∧ gStorage g' = Some st.
Proof.
  unfold consistent, IsReady, SetGlobal. intros Hc. destruct (gStorage g); rewrite Hc; by eexists.
Qed.

Lemma gstep_consistent s s' : gstep s s' → consistent s.1 → consistent s'.1.
Proof.
  destruct 1 as [st g g' c Hs|g c c' Hg]; [|done]. simpl. intros Hc. destruct st as [st|]; [|done].
  destruct (SetGlobal_ok g st Hc) as (g'' & E & Hc' & _). congruence.
Qed.

Lemma reachable_consistent s : gsteps (initial, GLook) s → consistent s.1.
Proof.
  remember (initial, GLook) as s0 eqn:E. assert (consistent s0.1) by by subst. clear E.
  induction 1 as [|a b c Hab _ IH]; [done|]. by apply IH, (gstep_consistent a).
Qed.

(** [SetGlobal] with a backend never fails, and a call of [GetGlobal] that
    starts afterwards returns that backend. *)
Theorem set_then_get s st :
  gsteps (initial, GLook) s →
  ∃ g', SetGlobal (Some st) s.1 = Ok g' ∧ GetGlobal g' GLook = Some (GDone (Ok (Some st))).
Proof.
  intros Hr%reachable_consistent. destruct (SetGlobal_ok s.1 st Hr) as (g' & E & _ & Es).
  exists g'. split; [done|]. simpl. by rewrite Es.
Qed.

(** What a call that waited can still do. *)
Definition stuck (c : getter) : Prop := c = GWait ∨ c = GAgain ∨ c = GDone Panic.

Lemma stuck_step s s' :
  gstep s s' → consistent s.1 → stuck s.2 → (s.2 = GAgain → gReady s.1 = true) →
  stuck s'.2 ∧ (s'.2 = GAgain → gReady s'.1 = true).
Proof.
  destruct 1 as [st g g' c Hs|g c c' Hg]; simpl; intros Hc Hst Hr.
  - split; [done|]. intros E. specialize (Hr E). unfold SetGlobal in Hs.
    destruct st as [st|]; [|done]. destruct (gStorage g); [by injection Hs as <-|].
    by rewrite Hr in Hs.
  - destruct Hst as [->|[->| ->]]; simpl in Hg; [| |done].
    + unfold wait in Hg. destruct (gReady g) eqn:E; [|done]. injection Hg as <-.
      split; [right; by left|done].
    + unfold consistent, IsReady in Hc. rewrite (Hr eq_refl) in Hc.
      destruct (gStorage g); [|done]. injection Hg as <-. split; [by right; right|done].
Qed.

(** A call of [GetGlobal] that has to wait never returns: it stays blocked or
    panics, although its comment says that it blocks until a storage is
    available. *)
Theorem GetGlobal_never_returns s s' :
  gsteps (initial, GLook) s → s.2 = GWait → gsteps s s' → ∀ r, s'.2 = GDone r → r = Panic.
Proof.
  intros H0%reachable_consistent Hw Hs. rename H0 into Hc.
  assert (Hst : stuck s.2) by by left.
  assert (Hr : s.2 = GAgain → gReady s.1 = true) by congruence. clear Hw.
  induction Hs as [s|a b c Hab _ IH].
  - intros r Hd. destruct Hst as [?|[?|?]]; congruence.
  - destruct (stuck_step a b Hab Hc Hst Hr) as [Hst' Hr']. apply IH; [|done|done].
    by eapply gstep_consistent.
Qed.
End storage.

(** The panic is reached. *)
Example GetGlobal_panics : rtc gstep (initial, GLook) (MkGlobals (Some 7) true, GDone Panic).
Proof.
  eapply rtc_l; [by apply (step_get initial GLook)|].
  eapply rtc_l; [by apply (step_set (Some 7) initial)|].
  eapply rtc_l; [by apply step_get|]. eapply rtc_l; [by apply step_get|]. done.
Qed.
