(* ===== verification/Topics.v ===== *)
(** * Topics and subscriptions (utils/topics)

    A topic hands every published value to every subscriber over a channel.
    Calls of [Publish] hold the mutex of the topic until all subscribers have
    taken the value; the other operations on the topic are atomic while the
    mutex is free.  [None] means that a call blocks.  The order in which
    [Publish] serves the subscribers is that of a Go map, which is arbitrary.
    Subscription IDs are not bounded here. *)

From S2P Require Import Prelude.

Section topics.
Context {T : Type}.

(** A channel: whether it has a buffer of one, what is in it, and whether it
    is closed. *)
Record chan : Type := MkChan { chBuffered : bool; chBuf : list T; chClosed : bool }.

(** [tPub] is the value of the running [Publish] and the subscribers that have
    not taken it; the mutex is held while there is one.  Closed channels stay,
    for the readers that still have them. *)
Record Topic : Type := MkTopic {
  tChans : gmap nat chan;
  tLastID : nat;
  tLast : option T;
  tPub : option (T * gset nat);
}.

Definition New : Topic := MkTopic ∅ 0 None None.
Definition NewWithInitial (v : T) : Topic := MkTopic ∅ 0 (Some v) None.

(** The subscribers are the open channels. *)
Definition subscribers (t : Topic) : gset nat :=
  dom (filter (λ x, chClosed x.2 = false) (tChans t)).

Definition setChan (t : Topic) (id : nat) (c : chan) : Topic :=
  MkTopic (<[id:=c]> (tChans t)) (tLastID t) (tLast t) (tPub t).

(** [Publish] up to the loop, a send to a channel with room in its buffer, and
    the end. *)
Definition Publish (v : T) (t : Topic) : option Topic :=
  match tPub t with
  | Some _ => None
  | None => Some (MkTopic (tChans t) (tLastID t) (Some v) (Some (v, subscribers t)))
  end.

Definition sendBuffered (id : nat) (t : Topic) : option Topic :=
  match tPub t, tChans t !! id with
  | Some (v, ids), Some (MkChan true [] cl) =>
      if bool_decide (id ∈ ids)
      then Some (MkTopic (<[id := MkChan true [v] cl]> (tChans t)) (tLastID t) (tLast t)
                   (Some (v, ids ∖ {[id]})))
      else None
  | _, _ => None
  end.

Definition publishReturn (t : Topic) : option Topic :=
  match tPub t with
  | Some (_, ids) =>
      if bool_decide (ids = ∅)
      then Some (MkTopic (tChans t) (tLastID t) (tLast t) None) else None
  | None => None
  end.

Definition Last (t : Topic) : option (option T) :=
  match tPub t with Some _ => None | None => Some (tLast t) end.

Definition Subscribe (sendLast : bool) (t : Topic) : option (Topic * nat) :=
  match tPub t with
  | Some _ => None
  | None =>
      let id := S (tLastID t) in
      let buf := if sendLast then option_list (tLast t) else [] in
      Some (MkTopic (<[id := MkChan sendLast buf false]> (tChans t)) id (tLast t) None, id)
  end.

(** Receiving from a channel: a buffered value, the value of a running
    [Publish], or the end of a closed channel. *)
Definition Next (id : nat) (t : Topic) : option (option T * Topic) :=
  match tChans t !! id with
  | Some (MkChan b (v :: buf) cl) => Some (Some v, setChan t id (MkChan b buf cl))
  | Some (MkChan b [] true) => Some (None, t)
  | Some (MkChan false [] false) =>
      match tPub t with
      | Some (v, ids) =>
          if bool_decide (id ∈ ids)
          then Some (Some v, MkTopic (tChans t) (tLastID t) (tLast t) (Some (v, ids ∖ {[id]})))
          else None
      | None => None
      end
  | _ => None
  end.

(** [Subscription.Close] through [unsubscribeID]; a second call does nothing. *)
Definition unsubscribeID (id : nat) (t : Topic) : option Topic :=
  match tPub t with
  | Some _ => None
  | None =>
      match tChans t !! id with
      | Some (MkChan b buf false) => Some (setChan t id (MkChan b buf true))
      | _ => Some t
      end
  end.

(** ** Runs *)

Inductive event : Type :=
  | EPublish (v : T) (ids : gset nat)
  | ESend (id : nat)
  | EReturn
  | ESubscribe (id : nat) (buf : list T)
  | ENext (id : nat) (r : option T)
  | EClose (id : nat).

Inductive tstep : Topic → event → Topic → Prop :=
  | st_publish v t t' : Publish v t = Some t' → tstep t (EPublish v (subscribers t)) t'
  | st_send id t t' : sendBuffered id t = Some t' → tstep t (ESend id) t'
  | st_return t t' : publishReturn t = Some t' → tstep t EReturn t'
  | st_subscribe b t t' id : Subscribe b t = Some (t', id) →
      tstep t (ESubscribe id (if b then option_list (tLast t) else [])) t'
  | st_next id r t t' : Next id t = Some (r, t') → tstep t (ENext id r) t'
  | st_close id t t' : unsubscribeID id t = Some t' → tstep t (EClose id) t'.

(** A run, its last event first. *)
Inductive run (t0 : Topic) : list event → Topic → Prop :=
  | run_nil : run t0 [] t0
  | run_cons tr t e t' : run t0 tr t → tstep t e t' → run t0 (e :: tr) t'.

(** What a subscriber should get, and what it got. *)
Fixpoint published (id : nat) (tr : list event) : list T :=
  match tr with
  | [] => []
  | ESubscribe id' buf :: tr => if bool_decide (id' = id) then buf else published id tr
  | EPublish v ids :: tr => published id tr ++ (if bool_decide (id ∈ ids) then [v] else [])
  | _ :: tr => published id tr
  end.

Fixpoint received (id : nat) (tr : list event) : list T :=
  match tr with
  | [] => []
  | ENext id' (Some v) :: tr =>
      received id tr ++ (if bool_decide (id' = id) then [v] else [])
  | _ :: tr => received id tr
  end.

(** What is on its way to a subscriber. *)
Definition inFlight (id : nat) (t : Topic) : list T :=
  match tPub t with Some (v, ids) => if bool_decide (id ∈ ids) then [v] else [] | None => [] end.

Definition buffered (id : nat) (t : Topic) : list T :=
  match tChans t !! id with Some c => chBuf c | None => [] end.

(** ** Delivery *)

Record delivered (tr : list event) (t : Topic) : Prop := MkDelivered {
  dl_values id : published id tr = received id tr ++ buffered id t ++ inFlight id t;
  dl_fresh id : (tLastID t < id)%nat → tChans t !! id = None ∧ published id tr = [] ∧ received id tr = [];
  dl_pending v ids id : tPub t = Some (v, ids) → id ∈ ids →
    ∃ c, tChans t !! id = Some c ∧ chClosed c = false;
}.

Lemma elem_subscribers t id :
  id ∈ subscribers t ↔ ∃ c, tChans t !! id = Some c ∧ chClosed c = false.
Proof.
  unfold subscribers. rewrite elem_of_dom. unfold is_Some. setoid_rewrite map_lookup_filter_Some.
  done.
Qed.

Lemma delivered_publish tr t v t' :
  delivered tr t → Publish v t = Some t' → delivered (EPublish v (subscribers t) :: tr) t'.
Proof.
  intros [H1 H2 H3]. unfold Publish. destruct (tPub t) eqn:Ep; [done|]. intros [= <-]. split; simpl.
  - intros id. rewrite (H1 id). unfold inFlight, buffered. rewrite Ep. simpl.
    by rewrite app_nil_r, <- app_assoc.
  - intros id Hid. destruct (H2 id Hid) as (E1 & E2 & E3). split_and!; [done| |done].
    rewrite E2, bool_decide_eq_false_2; [done|]. rewrite elem_subscribers. naive_solver.
  - intros v' ids id [= <- <-]. apply elem_subscribers.
Qed.

Lemma delivered_send tr t id t' :
  delivered tr t → sendBuffered id t = Some t' → delivered (ESend id :: tr) t'.
Proof.
  intros [H1 H2 H3]. unfold sendBuffered. destruct (tPub t) as [[v ids]|] eqn:Ep; [|done].
  destruct (tChans t !! id) as [[[] [|] cl]|] eqn:Ec; try done.
  case_bool_decide as Hin; [|done]. intros [= <-]. split; simpl.
  - intros id'. rewrite (H1 id'). unfold inFlight, buffered. rewrite Ep. simpl.
    destruct (decide (id' = id)) as [->|Hne].
    + rewrite lookup_insert_eq, Ec, bool_decide_eq_true_2, bool_decide_eq_false_2 by set_solver. done.
    + rewrite lookup_insert_ne by done. do 3 f_equal.
      rewrite (bool_decide_ext (id' ∈ ids) (id' ∈ ids ∖ {[id]})); [done|set_solver].
  - intros id' Hid. destruct (H2 id' Hid) as (E1 & E2 & E3). split_and!; [|done|done].
    rewrite lookup_insert_ne; [done|]. congruence.
  - intros v' ids' id' [= <- <-] Hin'. destruct (H3 v ids id' eq_refl) as (c & Hc & Ho); [set_solver|].
    destruct (decide (id' = id)) as [->|Hne]; [set_solver|].
    exists c. by rewrite lookup_insert_ne.
Qed.

Lemma delivered_return tr t t' :
  delivered tr t → publishReturn t = Some t' → delivered (EReturn :: tr) t'.
Proof.
  intros [H1 H2 H3]. unfold publishReturn. destruct (tPub t) as [[v ids]|] eqn:Ep; [|done].
  case_bool_decide as He; [|done]. intros [= <-]. split; [|done|done].
  intros id. simpl. rewrite (H1 id). unfold inFlight, buffered. rewrite Ep. simpl.
  rewrite bool_decide_eq_false_2; [done|]. set_solver.
Qed.

Lemma delivered_subscribe tr t b t' id :
  delivered tr t → Subscribe b t = Some (t', id) →
  delivered (ESubscribe id (if b then option_list (tLast t) else []) :: tr) t'.
Proof.
  intros [H1 H2 H3]. unfold Subscribe. destruct (tPub t) eqn:Ep; [done|]. intros [= <- <-].
  split; cbn [published received tChans tLastID tPub]; [| |done].
  - intros id. unfold inFlight, buffered. cbn [tChans tPub].
    case_bool_decide as Hid; [subst id|].
    + rewrite lookup_insert_eq. destruct (H2 (S (tLastID t))) as (_ & _ & ->); [lia|].
      simpl. by rewrite app_nil_r.
    + rewrite lookup_insert_ne by done. rewrite (H1 id). unfold inFlight, buffered. by rewrite Ep.
  - intros id Hid. rewrite lookup_insert_ne, bool_decide_eq_false_2 by lia. apply H2. lia.
Qed.

(** A subscriber that takes the next value on its way. *)
Lemma delivered_take tr t id v t' :
  delivered tr t → buffered id t ++ inFlight id t = v :: buffered id t' ++ inFlight id t' →
  (∀ id', id' ≠ id → buffered id' t' = buffered id' t ∧ inFlight id' t' = inFlight id' t) →
  tLastID t' = tLastID t →
  (∀ id', tChans t !! id' = None → tChans t' !! id' = None) → is_Some (tChans t !! id) →
  (∀ w ids id', tPub t' = Some (w, ids) → id' ∈ ids →
     ∃ c, tChans t' !! id' = Some c ∧ chClosed c = false) →
  delivered (ENext id (Some v) :: tr) t'.
Proof.
  intros [H1 H2 H3] Hv Ho Hl Hn [c Hc] Hp. split; [| |done]; cbn [published received].
  - intros id'. rewrite (H1 id'). case_bool_decide as Hid; [subst id'|].
    + by rewrite Hv, <- app_assoc.
    + destruct (Ho id') as [-> ->]; [congruence|]. by rewrite app_nil_r.
  - intros id' Hid. rewrite Hl in Hid. destruct (H2 id' Hid) as (E1 & E2 & E3).
    split_and!; [by apply Hn|done|]. rewrite E3, bool_decide_eq_false_2; [done|]. congruence.
Qed.

Lemma delivered_next tr t id r t' :
  delivered tr t → Next id t = Some (r, t') → delivered (ENext id r :: tr) t'.
Proof.
  intros Hd. unfold Next. destruct (tChans t !! id) as [[b [|v buf] cl]|] eqn:Ec; [| |done].
  - assert (Hcl : b = false → cl = false → match tPub t with
      | Some (v, ids) => if bool_decide (id ∈ ids)
          then Some (Some v, MkTopic (tChans t) (tLastID t) (tLast t) (Some (v, ids ∖ {[id]})))
          else None
      | None => None end = Some (r, t') → delivered (ENext id r :: tr) t').
    { intros -> ->. destruct (tPub t) as [[v ids]|] eqn:Ep; [|done].
      case_bool_decide as Hin; [|done]. intros [= <- <-]. apply (delivered_take tr t); try done.
      - unfold buffered, inFlight. simpl. rewrite Ec, Ep. simpl.
        by rewrite bool_decide_eq_true_2, bool_decide_eq_false_2 by set_solver.
      - intros id' Hne. split; [done|]. unfold inFlight. rewrite Ep. simpl.
        rewrite (bool_decide_ext (id' ∈ ids ∖ {[id]}) (id' ∈ ids)); [done|set_solver].
      - intros w ids' id' [= <- <-] Hin'. eapply (dl_pending _ _ Hd); [done|]. set_solver. }
    destruct b, cl; try done; [| |by apply Hcl];
      (intros [= <- <-]; destruct Hd as [H1 H2 H3]; by split).
  - intros E. assert (r = Some v ∧ t' = setChan t id (MkChan b buf cl)) as [-> ->] by (by destruct b, cl; simplify_eq).
    apply (delivered_take tr t); try done.
    + unfold buffered, inFlight, setChan. simpl. by rewrite Ec, lookup_insert_eq.
    + intros id' Hne. unfold buffered, inFlight, setChan. simpl. by rewrite lookup_insert_ne.
    + intros id' Hn. simpl. rewrite lookup_insert_ne; [done|]. congruence.
    + intros w ids id' Hp Hin. destruct (dl_pending _ _ Hd w ids id' Hp Hin) as (c & Hc & Ho).
      simpl. destruct (decide (id' = id)) as [->|Hne]; [|exists c; by rewrite lookup_insert_ne].
      rewrite lookup_insert_eq. eexists. split; [done|]. rewrite Ec in Hc. by injection Hc as <-.
Qed.

Lemma delivered_close tr t id t' :
  delivered tr t → unsubscribeID id t = Some t' → delivered (EClose id :: tr) t'.
Proof.
  intros [H1 H2 H3]. unfold unsubscribeID. destruct (tPub t) eqn:Ep; [done|].
  destruct (tChans t !! id) as [[b buf []]|] eqn:Ec; intros [= <-]; split; try done;
    unfold setChan; cbn [published received tChans tLastID tPub]; try congruence.
  - intros id'. rewrite (H1 id'). unfold buffered, inFlight. simpl. rewrite Ep.
    destruct (decide (id' = id)) as [->|Hne]; [by rewrite lookup_insert_eq, Ec|].
    by rewrite lookup_insert_ne.
  - intros id' Hid. destruct (H2 id' Hid) as (E1 & E2 & E3). split_and!; [|done|done].
    rewrite lookup_insert_ne; [done|]. congruence.
Qed.

Lemma run_delivered t0 tr t :
  tChans t0 = ∅ → tPub t0 = None → run t0 tr t → delivered tr t.
Proof.
  intros H0 Hp. induction 1 as [|tr t e t' _ IH Hs].
  - split; unfold buffered, inFlight; simpl; [|by rewrite H0|congruence]. intros id. by rewrite H0, Hp.
  - inversion Hs; subst; eauto using delivered_publish, delivered_send, delivered_return,
      delivered_subscribe, delivered_next, delivered_close.
Qed.

(** C35: Every subscriber receives every value that is published while it is
    subscribed, once and in order; what it has not received is in its buffer or
    on its way. *)
Theorem topic_delivers t0 tr t id :
  t0 = New ∨ (∃ v, t0 = NewWithInitial v) → run t0 tr t →
  published id tr = received id tr ++ buffered id t ++ inFlight id t.
Proof.
  intros H0 Hr. apply dl_values. eapply run_delivered; [..|done]; by destruct H0 as [->|[v ->]].
Qed.

(** ** Closing a subscription *)

(** A running [Publish] waits for an unbuffered subscriber. *)
Definition awaits (id : nat) (t : Topic) : Prop :=
  tChans t !! id = Some (MkChan false [] false) ∧ ∃ v ids, tPub t = Some (v, ids) ∧ id ∈ ids.

Lemma awaits_step t e t' id :
  awaits id t → tstep t e t' → (∀ r, e ≠ ENext id r) → awaits id t'.
Proof.
  intros [Hc (v & ids & Hp & Hin)] Hs He. inversion Hs as [? ? ? E|id' ? ? E|? ? E|? ? ? ? E|id' r ? ? E|? ? ? E];
    subst.
  - unfold Publish in E. by rewrite Hp in E.
  - unfold sendBuffered in E. rewrite Hp in E. destruct (decide (id' = id)) as [->|Hne].
    { by rewrite Hc in E. }
    destruct (tChans t !! id') as [[[] [] cl]|]; try done. case_bool_decide; [|done].
    injection E as <-. split; simpl; [by rewrite lookup_insert_ne|].
    eexists _, _. split; [done|]. set_solver.
  - unfold publishReturn in E. rewrite Hp in E. case_bool_decide; [|done]. set_solver.
  - unfold Subscribe in E. by rewrite Hp in E.
  - assert (Hne : id' ≠ id) by (intros ->; by apply (He r)).
    unfold Next in E. destruct (tChans t !! id') as [[b [|w buf] cl]|] eqn:Ec; [| |done].
    + destruct b, cl; try done; [by injection E as <- <-; split; eauto|
        by injection E as <- <-; split; eauto|].
      rewrite Hp in E. case_bool_decide; [|done]. injection E as <- <-. split; [done|].
      eexists _, _. split; [done|]. set_solver.
    + assert (t' = setChan t id' (MkChan b buf cl)) as -> by (by destruct b, cl; simplify_eq).
      split; simpl; [by rewrite lookup_insert_ne|]. eauto.
  - unfold unsubscribeID in E. by rewrite Hp in E.
Qed.

(** A subscriber that stops receiving and closes its subscription while a value
    is on its way to it blocks for ever, together with the publisher and every
    later call on the topic: [Close] needs the mutex [Publish] holds. *)
Theorem close_deadlocks t tr t' id :
  awaits id t → run t tr t' → (∀ r, ENext id r ∉ tr) →
  unsubscribeID id t' = None ∧ publishReturn t' = None ∧ (∀ v, Publish v t' = None).
Proof.
  intros Ha Hr He. assert (Ha' : awaits id t').
  { induction Hr as [|tr t1 e t2 _ IH Hs]; [done|]. eapply awaits_step; [apply IH|done|].
    - intros r Hin. apply (He r). by right.
    - intros r ->. apply (He r). by left. }
  destruct Ha' as [_ (v & ids & Hp & Hin)]. unfold unsubscribeID, publishReturn, Publish.
  rewrite Hp. split_and!; [done| |done]. rewrite bool_decide_eq_false_2; [done|]. set_solver.
Qed.
End topics.

(** ** Examples *)

(** One subscriber, a value on its way. *)
Definition exTopic : Topic (T := Z) :=
  MkTopic {[ 1%nat := MkChan false [] false ]} 1 (Some 7) (Some (7, {[ 1%nat ]})).

Definition exSubscribed : Topic (T := Z) :=
  MkTopic {[ 1%nat := MkChan false [] false ]} 1 None None.

Lemma exSubscribed_ids : subscribers exSubscribed = {[ 1%nat ]}.
Proof. by vm_compute. Qed.

Lemma exTopic_run : run New [EPublish 7 {[ 1%nat ]}; ESubscribe 1 []] exTopic.
Proof.
  apply run_cons with exSubscribed.
  - apply run_cons with New; [apply run_nil|]. by apply (st_subscribe false).
  - rewrite <- exSubscribed_ids. apply st_publish. unfold Publish. simpl tPub. cbv iota.
    by rewrite exSubscribed_ids.
Qed.

Example exTopic_awaits : awaits 1 exTopic.
Proof. split; [done|]. eexists _, _. split; [done|]. set_solver. Qed.

Lemma topic_delivers_witness :
  run New [EPublish 7 {[ 1%nat ]}; ESubscribe 1 []] exTopic ∧
  published 1 [EPublish 7 {[ 1%nat ]}; ESubscribe 1 []] =
    received 1 [EPublish 7 {[ 1%nat ]}; ESubscribe 1 []] ++ buffered 1 exTopic ++ inFlight 1 exTopic.
Proof.
  split; [exact exTopic_run|].
  exact (topic_delivers New _ exTopic 1 (or_introl eq_refl) exTopic_run).
Defined.
