(* ===== verification/Subscription.v ===== *)
(** * Subscriptions (utils/topics/subscription.go and [Handle] of topic.go)

    The handle a subscriber has on a topic, and the loop that calls a function
    for every value.  The loop runs next to other goroutines, which take any
    steps on the topic but do not have its subscription. *)

From S2P Require Import Prelude Topics.

Section subscription.
Context {T : Type}.
Notation Topic := (Topics.Topic (T := T)).

(** [topic] and [ch] are set and cleared together: [sOpen].  The mutex of the
    subscription is held for the time of a call, by [Close] also while it waits
    for the mutex of the topic. *)
Record Subscription : Type := MkSub { sID : nat; sOpen : bool }.

(** [None] is a nil channel, from which a receive blocks for ever. *)
Definition Channel (s : Subscription) : option nat := if sOpen s then Some (sID s) else None.

(** The select of [Next] on the channel that was read at its start.  [done] is
    whether the context is cancelled; with both cases ready, [pick] is the one Go
    takes. *)
Definition receive (done pick : bool) (ch : option nat) (t : Topic) : option (outcome T * Topic) :=
  match ch ≫= λ id, Topics.Next id t with
  | None => if done then Some (Err Canceled, t) else None
  | Some (v, t') =>
      if done && pick then Some (Err Canceled, t)
      else Some (match v with
                 | Some v => Ok v
                 | None => Err (EMsg "io: read/write on closed pipe")
                 end, t')
  end.

Definition SubNext (done pick : bool) (s : Subscription) (t : Topic) : option (outcome T * Topic) :=
  receive done pick (Channel s) t.

Definition SubClose (s : Subscription) (t : Topic) : option (Subscription * Topic) :=
  if sOpen s then (λ t, (MkSub (sID s) false, t)) <$> unsubscribeID (sID s) t
  else Some (s, t).

(** ** Handle *)

(** Where the loop is: in [Next], in the function, in the deferred [Close], or
    done.  [hGot] are the values the function was called with. *)
Inductive hpc : Type :=
  | HNext
  | HCall (v : T)
  | HClose (r : outcome unit)
  | HReturned (r : outcome unit).

Record handler : Type := MkHandler { hSub : Subscription; hGot : list T; hPc : hpc }.

Definition handleStart (t : Topic) : option (handler * Topic) :=
  (λ r, (MkHandler (MkSub r.2 true) [] HNext, r.1)) <$> Subscribe false t.

(** [cb] is the result of the next call of the function.  The events are those of
    the topic. *)
Definition Handle (done pick : bool) (cb : list T → outcome unit) (h : handler) (t : Topic)
    : option (handler * Topic * list (event (T := T))) :=
  let id := sID (hSub h) in
  match hPc h with
  | HNext =>
      (λ r : outcome T * Topic,
         match r.1 with
         | Ok v => (MkHandler (hSub h) (hGot h ++ [v]) (HCall v), r.2, [ENext id (Some v)])
         | Err e => (MkHandler (hSub h) (hGot h) (HClose (Err e)), r.2, [])
         | Panic => (MkHandler (hSub h) (hGot h) (HClose Panic), r.2, [])
         | Hang => (h, r.2, [])
         end) <$> SubNext done pick (hSub h) t
  | HCall v =>
      match cb (hGot h) with
      | Ok _ => Some (MkHandler (hSub h) (hGot h) HNext, t, [])
      | Hang => None
      | r => Some (MkHandler (hSub h) (hGot h) (HClose r), t, [])
      end
  | HClose r =>
      (λ p : Subscription * Topic, (MkHandler p.1 (hGot h) (HReturned r), p.2, [EClose id])) <$>
        SubClose (hSub h) t
  | HReturned _ => None
  end.

(** A step of another goroutine, which does not have the subscription [id]. *)
Definition foreign (id : nat) (e : event (T := T)) : Prop :=
  match e with ENext id' _ | EClose id' => id' ≠ id | _ => True end.

(** Runs of a call of [Handle] on a topic, the last event first. *)
Inductive hrun (cb : list T → outcome unit) (t0 : Topic)
    : list (event (T := T)) → handler → Topic → Prop :=
  | hr_start tr t h t' :
      run t0 tr t → handleStart t = Some (h, t') →
      hrun cb t0 (ESubscribe (sID (hSub h)) [] :: tr) h t'
  | hr_other tr h t e t' :
      hrun cb t0 tr h t → tstep t e t' → foreign (sID (hSub h)) e → hrun cb t0 (e :: tr) h t'
  | hr_handle tr h t done pick h' t' es :
      hrun cb t0 tr h t → Handle done pick cb h t = Some (h', t', es) → hrun cb t0 (es ++ tr) h' t'.

(** ** The channel of the loop *)

Definition waiting (id : nat) (t : Topic) : Prop :=
  (id <= tLastID t)%nat ∧ tChans t !! id = Some (MkChan false [] false).

Lemma waiting_other id t e t' : waiting id t → tstep t e t' → foreign id e → waiting id t'.
Proof.
  intros [Hl Hc] Hs He.
  inversion Hs as [? ? ? E|id' ? ? E|? ? E|? ? ? ? E|id' r ? ? E|id' ? ? E]; subst; simpl in He.
  - unfold Publish in E. destruct (tPub t); simplify_eq. done.
  - unfold sendBuffered in E. destruct (tPub t) as [[v ids]|]; [|done].
    destruct (tChans t !! id') as [[[] [] cl]|] eqn:Ec; try done. case_bool_decide; simplify_eq.
    split; [done|]. simpl. rewrite lookup_insert_ne; [done|]. intros ->. by rewrite Hc in Ec.
  - unfold publishReturn in E. destruct (tPub t) as [[v ids]|]; [|done]. by case_bool_decide; simplify_eq.
  - unfold Subscribe in E. destruct (tPub t); simplify_eq. split; simpl; [lia|].
    rewrite lookup_insert_ne; [done|lia].
  - unfold Next in E. destruct (tChans t !! id') as [[[] [|w buf] []]|] eqn:Ec; simplify_eq; try done;
      try (split; simpl; [done|by rewrite lookup_insert_ne]).
    destruct (tPub t) as [[v ids]|]; [|done]. by case_bool_decide; simplify_eq.
  - unfold unsubscribeID in E. destruct (tPub t); [done|].
    destruct (tChans t !! id') as [[b buf []]|]; simplify_eq; try done.
    split; simpl; [done|by rewrite lookup_insert_ne].
Qed.

Lemma waiting_next id v t t' : waiting id t → Topics.Next id t = Some (v, t') → waiting id t' ∧ is_Some v.
Proof.
  intros [Hl Hc]. unfold Topics.Next. rewrite Hc. destruct (tPub t) as [[w ids]|]; [|done].
  case_bool_decide; [|done]. intros [= <- <-]. done.
Qed.

(** ** What a run keeps *)

Definition outcomes_of (cb : list T → outcome unit) (h : handler) (r : outcome unit) : Prop :=
  r = Err Canceled ∨ (hGot h ≠ [] ∧ r = cb (hGot h) ∧ r ≠ Ok tt ∧ r ≠ Hang).

Record handling (cb : list T → outcome unit) (tr : list (event (T := T))) (h : handler) (t : Topic)
    : Prop := MkHandling {
  hd_got : received (sID (hSub h)) tr = hGot h;
  hd_open : match hPc h with HReturned _ => sOpen (hSub h) = false ∧ (sID (hSub h) <= tLastID t)%nat ∧
                sID (hSub h) ∉ subscribers t
            | _ => sOpen (hSub h) = true ∧ waiting (sID (hSub h)) t end;
  hd_call v : hPc h = HCall v → list.last (hGot h) = Some v;
  hd_result r : hPc h = HClose r ∨ hPc h = HReturned r → outcomes_of cb h r;
}.

Lemma received_foreign id e tr : foreign id e → received id (e :: tr) = received id tr.
Proof.
  destruct e as [| | | |id' [v|]|]; try done. simpl. intros H.
  by rewrite bool_decide_eq_false_2, app_nil_r.
Qed.

(** A closed channel stays closed: IDs are not used again. *)
Lemma closed_other id (t : Topic) e t' :
  (id <= tLastID t)%nat → id ∉ subscribers t → tstep t e t' →
  (id <= tLastID t')%nat ∧ id ∉ subscribers t'.
Proof.
  rewrite !elem_subscribers. intros Hl Hn Hs.
  assert (Hk : ∀ b buf cl id', tChans t !! id' = Some (MkChan b buf cl) → ∀ b' buf' c,
      <[id' := MkChan b' buf' cl]> (tChans t) !! id = Some c → chClosed c = false → False).
  { intros b buf cl id' E b' buf' c. rewrite lookup_insert_Some.
    intros [[<- <-]|[_ Ho]] Hc; apply Hn; eauto. }
  inversion Hs as [? ? ? E|id' ? ? E|? ? E|? ? ? ? E|id' r ? ? E|id' ? ? E]; subst.
  - unfold Publish in E. by destruct (tPub t); simplify_eq.
  - unfold sendBuffered in E. destruct (tPub t) as [[v ids]|]; [|done].
    destruct (tChans t !! id') as [[[] [] cl]|] eqn:Ec; try done. case_bool_decide; simplify_eq.
    split; [done|]. simpl. intros (c & Hc & Ho). by eapply Hk.
  - unfold publishReturn in E. destruct (tPub t) as [[v ids]|]; [|done]. by case_bool_decide; simplify_eq.
  - unfold Subscribe in E. destruct (tPub t); simplify_eq. split; simpl; [lia|].
    rewrite lookup_insert_ne by lia. done.
  - unfold Next in E. destruct (tChans t !! id') as [[b [|w buf] cl]|] eqn:Ec; [| |done].
    + destruct b, cl; simplify_eq; try done.
      destruct (tPub t) as [[v ids]|]; [|done]. by case_bool_decide; simplify_eq.
    + assert (t' = setChan t id' (MkChan b buf cl)) as -> by (by destruct b, cl; simplify_eq).
      split; [done|]. simpl. intros (c & Hc & Ho). by eapply Hk.
  - unfold unsubscribeID in E. destruct (tPub t); [done|].
    destruct (tChans t !! id') as [[b buf []]|]; simplify_eq; try done.
    split; [done|]. simpl. intros (c & Hc & Ho). apply lookup_insert_Some in Hc as [[<- <-]|[_ Hc]]; [done|eauto].
Qed.

Lemma handling_start cb tr (t : Topic) h t' :
  delivered tr t → handleStart t = Some (h, t') →
  handling cb (ESubscribe (sID (hSub h)) [] :: tr) h t' ∧ tstep t (ESubscribe (sID (hSub h)) []) t'.
Proof.
  intros Hd. unfold handleStart. destruct (Subscribe false t) as [[t1 id]|] eqn:E; [|done].
  intros [= <- <-]. split; [|by apply (st_subscribe false)]. unfold Subscribe in E.
  destruct (tPub t); simplify_eq. split; simpl; [|split; [done|split; simpl; [done|]]|done|].
  - by destruct (dl_fresh _ _ Hd (S (tLastID t))) as (_ & _ & ->); [lia|].
  - by rewrite lookup_insert_eq.
  - by intros r [|].
Qed.

Lemma handling_other cb tr h t e t' :
  handling cb tr h t → tstep t e t' → foreign (sID (hSub h)) e → handling cb (e :: tr) h t'.
Proof.
  intros [H1 H2 H3 H4] Hs He. split; [by rewrite received_foreign| |done|done].
  destruct (hPc h); [destruct H2; by eauto using waiting_other..|].
  destruct H2 as (Ho & Hl & Hn). split; [done|]. by eapply closed_other.
Qed.

Lemma Handle_step done pick cb h (t : Topic) h' t' es :
  Handle done pick cb h t = Some (h', t', es) →
  es = [] ∧ t' = t ∨ (∃ e, es = [e] ∧ tstep t e t') ∨ sOpen (hSub h) = false.
Proof.
  unfold Handle. destruct (hPc h) as [|v|r|r]; [| | |done].
  - unfold SubNext, receive, Channel. destruct (sOpen (hSub h)); [|by eauto]. simpl.
    destruct (Topics.Next (sID (hSub h)) t) as [[[v|] t1]|] eqn:E; simpl.
    + destruct (done && pick); intros [= <- <- <-]; [by left|]. right. left. eexists. split; [done|].
      by apply st_next.
    + destruct (done && pick); intros [= <- <- <-]; left; [done|]. split; [done|].
      unfold Topics.Next in E. destruct (tChans t !! _) as [[[] [|] []]|]; simplify_eq; try done.
      destruct (tPub t) as [[v ids]|]; [|done]. by case_bool_decide.
    + destruct done; [|done]. intros [= <- <- <-]. by left.
  - destruct (cb (hGot h)); intros [= <- <- <-]; by left.
  - unfold SubClose. destruct (sOpen (hSub h)); [|by eauto].
    destruct (unsubscribeID (sID (hSub h)) t) as [t1|] eqn:E; [|done]. simpl. intros [= <- <- <-].
    right. left. eexists. split; [done|]. by apply st_close.
Qed.

Lemma handling_next cb tr h done pick (t : Topic) h' t' es :
  hPc h = HNext → handling cb tr h t → Handle done pick cb h t = Some (h', t', es) →
  handling cb (es ++ tr) h' t'.
Proof.
  intros Ep [H1 H2 H3 H4]. unfold Handle. rewrite Ep in H2 |- *. destruct H2 as [Ho Hw].
  assert (Hc : handling cb tr (MkHandler (hSub h) (hGot h) (HClose (Err Canceled))) t).
  { split; [done|done|done|]. intros r [[= <-]|[=]]. by left. }
  unfold SubNext, receive, Channel. rewrite Ho. simpl.
  destruct (Topics.Next (sID (hSub h)) t) as [[v t1]|] eqn:E; simpl.
  - destruct (done && pick); [by intros [= <- <- <-]|].
    destruct (waiting_next _ _ _ _ Hw E) as [Hw' [w ->]]. intros [= <- <- <-].
    split; simpl; [|done| |by intros r [|]].
    + by rewrite H1, bool_decide_eq_true_2.
    + intros v [= <-]. by rewrite list.last_snoc.
  - destruct done; [|done]. by intros [= <- <- <-].
Qed.

Lemma handling_call cb tr h done pick (t : Topic) h' t' es v :
  hPc h = HCall v → handling cb tr h t → Handle done pick cb h t = Some (h', t', es) →
  handling cb (es ++ tr) h' t'.
Proof.
  intros Ep [H1 H2 H3 H4]. unfold Handle. rewrite Ep in H2 |- *.
  assert (Hg : hGot h ≠ []) by (intros E; specialize (H3 v Ep); by rewrite E in H3).
  destruct (cb (hGot h)) as [[]|e| |] eqn:Ec; intros [= <- <- <-]; split; try done; simpl;
    [by intros r [|]|..]; intros r [[= <-]|[=]]; right; simpl; by rewrite Ec.
Qed.

Lemma handling_close cb tr h done pick (t : Topic) h' t' es r :
  hPc h = HClose r → handling cb tr h t → Handle done pick cb h t = Some (h', t', es) →
  handling cb (es ++ tr) h' t'.
Proof.
  intros Ep [H1 H2 H3 H4]. unfold Handle. rewrite Ep in H2 |- *. destruct H2 as [Ho [Hl Hc]].
  unfold SubClose, unsubscribeID. rewrite Ho, Hc. destruct (tPub t); [done|]. simpl.
  intros [= <- <- <-]. split; simpl; [done| |done|].
  - split_and!; [done|done|]. rewrite elem_subscribers. simpl. rewrite lookup_insert_eq.
    by intros (c & [= <-] & ?).
  - intros r' [[=]|[= <-]]. destruct (H4 r) as [->|Hr]; [by left|by left|by right].
Qed.

Lemma hrun_handling cb t0 tr h (t : Topic) :
  t0 = New ∨ (∃ v, t0 = NewWithInitial v) → hrun cb t0 tr h t → handling cb tr h t ∧ run t0 tr t.
Proof.
  intros H0. induction 1 as [tr t h t' Hr E|tr h t e t' _ [Hh Hr] Hs He|tr h t dn pick h' t' es _ [Hh Hr] E].
  - destruct (handling_start cb tr t h t') as [Hh Hs]; [|done|by split; [|eapply run_cons]].
    eapply run_delivered; [..|done]; by destruct H0 as [->|[v ->]].
  - split; [by eapply handling_other|by eapply run_cons].
  - split.
    + destruct (hPc h) eqn:Ep; eauto using handling_next, handling_call, handling_close.
      unfold Handle in E. by rewrite Ep in E.
    + destruct (Handle_step _ _ _ _ _ _ _ _ E) as [[-> ->]|[(e & -> & Hs)|Ho]];
        [done|by eapply run_cons|].
      pose proof (hd_open _ _ _ _ Hh) as Ho'. unfold Handle in E.
      destruct (hPc h) eqn:Ep; [destruct Ho'; congruence..|done].
Qed.

(** ** Handling a topic *)

(** The function of [Handle] is called with the values that are published while
    the call subscribes to the topic, once and in order: it misses at most the
    value that is on its way. *)
Theorem handle_gets_published cb t0 tr h (t : Topic) :
  t0 = New ∨ (∃ v, t0 = NewWithInitial v) → hrun cb t0 tr h t →
  published (sID (hSub h)) tr = hGot h ++ buffered (sID (hSub h)) t ++ inFlight (sID (hSub h)) t.
Proof.
  intros H0 Hr. destruct (hrun_handling _ _ _ _ _ H0 Hr) as [Hh Hr'].
  rewrite <- (hd_got _ _ _ _ Hh). apply dl_values.
  eapply run_delivered; [..|done]; by destruct H0 as [->|[v ->]].
Qed.

(** [Handle] returns only because the context is cancelled or because the
    function failed on the last value, and has left the topic then. *)
Theorem handle_returns cb t0 tr h (t : Topic) r :
  t0 = New ∨ (∃ v, t0 = NewWithInitial v) → hrun cb t0 tr h t → hPc h = HReturned r →
  outcomes_of cb h r ∧ sID (hSub h) ∉ subscribers t.
Proof.
  intros H0 Hr Ep. destruct (hrun_handling _ _ _ _ _ H0 Hr) as [[H1 H2 H3 H4] _].
  rewrite Ep in H2. split; [by apply H4; right|]. by destruct H2 as (_ & _ & ?).
Qed.

(** [Close] can be called again, and closing twice is closing once. *)
Theorem close_again s s' (t t' : Topic) : SubClose s t = Some (s', t') → SubClose s' t' = Some (s', t').
Proof.
  unfold SubClose. destruct (sOpen s) eqn:Eo.
  - destruct (unsubscribeID (sID s) t); [|done]. by intros [= <- <-].
  - intros [= <- <-]. by rewrite Eo.
Qed.

(** [Next] after [Close] waits for a channel that is nil: it does not report
    the closed channel but blocks until the context is cancelled. *)
Theorem next_after_close_blocks s s' (t t' t'' : Topic) pick :
  SubClose s t = Some (s', t') →
  SubNext false pick s' t'' = None ∧ SubNext true pick s' t'' = Some (Err Canceled, t'').
Proof.
  intros E. assert (Ho : sOpen s' = false).
  { unfold SubClose in E. destruct (sOpen s) eqn:Eo; [|by injection E as <- <-].
    destruct (unsubscribeID (sID s) t); [|done]. by injection E as <- <-. }
  unfold SubNext, receive, Channel. by rewrite Ho.
Qed.

(** A function that fails while the next value is on its way leaves [Handle] in
    its deferred [Close], with the publisher waiting for it. *)
Theorem failing_handler_blocks h (t : Topic) r done pick cb :
  hPc h = HClose r → sOpen (hSub h) = true → awaits (sID (hSub h)) t →
  Handle done pick cb h t = None ∧ publishReturn t = None.
Proof.
  intros Ep Ho Ha. destruct (close_deadlocks t [] t (sID (hSub h)) Ha) as (E1 & E2 & _).
  { apply run_nil. }
  { intros ?. apply not_elem_of_nil. }
  split; [|done]. unfold Handle, SubClose. by rewrite Ep, Ho, E1.
Qed.
End subscription.

(** ** Example *)

(** A call that gets one value, fails on it and closes. *)
Definition exCb (got : list Z) : outcome unit := Err (EMsg "no").

Definition exRun : option (handler (T := Z) * Topics.Topic) :=
  '(h, t) ← handleStart New;
  t ← Publish 7 t;
  '(h, t, _) ← Handle false false exCb h t;
  t ← publishReturn t;
  '(h, t, _) ← Handle false false exCb h t;
  '(h, t, _) ← Handle false false exCb h t;
  Some (h, t).

Example exRun_returned :
  (λ r, (hPc r.1, hGot r.1, subscribers r.2)) <$> exRun =
    Some (HReturned (Err (EMsg "no")), [7], ∅).
Proof. by vm_compute. Qed.
