(* ===== verification/Migrate.v ===== *)
(** * Migrating timestamps (cmd/lightningstream/commands/experimental.go)

    The command [experimental migrate-timestamps] copies the timestamps of the
    rows of one database to the rows with the same keys in another one, in one
    transaction, and can add deletion markers for rows that are deleted in the
    source and missing in the destination. *)

From stdpp Require Import sorting.
From S2P Require Import Prelude Header Lmdb Strategy Iterators Config Shadow Syncer Transfer.
From S2P Require Import LimitScanner.

(** The flags of the command. *)
Record migrateFlags : Type := MkMigrateFlags {
  mfDatabase : bytes;
  mfSrcDBI : bytes;
  mfDstDBI : bytes;
  mfAddDeleted : bool;
  mfIgnoreNotPresent : bool;
}.

(** The counters of the report. *)
Record migrated : Type := MkMigrated { nUpdated : Z; nAddedDeletes : Z }.

Section migrate.
Context `{L : LMDB} {SC : LMDBScan L}.

(** [copy(dstVal, srcVal[:8])] and the transaction ID behind it. *)
Definition withTimestamp (dstVal srcVal : bytes) (txnID : Z) : outcome bytes :=
  ts ← gslice srcVal 0 8;
  '(dstVal, _) ← copy_at dstVal 0 ts;
  splice dstVal 8 (be_put 8 txnID).

(** The first loop: the rows of the destination. *)
Fixpoint updateLoop (fuel : nat) (txnID : Z) (srcDBI dstDBI : DBIh) (t : Txn) (dstScan : Scanner)
    (st : migrated) : outcome (Txn * migrated) :=
  match fuel with
  | O => Hang
  | S fuel =>
      match sc_Scan t dstScan with
      | (dstScan, false) => match sc_Err dstScan with Some e => Err e | None => Ok (t, st) end
      | (dstScan, true) =>
          let key := gdata (sc_Key dstScan) in
          let dstVal := gdata (sc_Val dstScan) in
          if zlen dstVal <? MinHeaderSize then Err (EMsg "dst: value too short for header")
          else
            dstTS ← wrap_err "dst: value too short" (ParseTimestamp dstVal);
            match txn_Get t srcDBI key with
            | Err e =>
                if IsNotFound e then updateLoop fuel txnID srcDBI dstDBI t dstScan st else Err e
            | Panic => Panic
            | Hang => Hang
            | Ok srcVal =>
                srcTS ← wrap_err "src: value too short" (ParseTimestamp srcVal);
                if srcTS <=? dstTS then updateLoop fuel txnID srcDBI dstDBI t dstScan st
                else
                  let st := MkMigrated (nUpdated st + 1) (nAddedDeletes st) in
                  dstVal ← withTimestamp dstVal srcVal txnID;
                  t ← txn_Put t dstDBI key dstVal 0;
                  updateLoop fuel txnID srcDBI dstDBI t dstScan st
            end
      end
  end.

(** Whether a row of the source is a deletion: a bare timestamp in a database
    of version 0.2.0, or the flag. *)
Definition srcIsDeleted (srcVal : bytes) : outcome bool :=
  if zlen srcVal =? 8 then Ok true
  else
    '(h, appVal) ← wrap_err "src: invalid header" (Parse srcVal);
    let deleted := IsDeleted (hFlags h) in
    if deleted && (0 <? zlen appVal) then Err (EMsg "src: deleted but non-empty app value")
    else Ok deleted.

(** The second loop: the rows of the source. *)
Fixpoint deleteLoop (fuel : nat) (txnID : Z) (dstDBI : DBIh) (t : Txn) (srcScan : Scanner)
    (st : migrated) : outcome (Txn * migrated) :=
  match fuel with
  | O => Hang
  | S fuel =>
      match sc_Scan t srcScan with
      | (srcScan, false) => match sc_Err srcScan with Some e => Err e | None => Ok (t, st) end
      | (srcScan, true) =>
          let key := gdata (sc_Key srcScan) in
          let srcVal := gdata (sc_Val srcScan) in
          srcTS ← wrap_err "src: value too short" (ParseTimestamp srcVal);
          deleted ← srcIsDeleted srcVal;
          if negb deleted then deleteLoop fuel txnID dstDBI t srcScan st
          else
            match txn_Get t dstDBI key with
            | Ok _ => deleteLoop fuel txnID dstDBI t srcScan st
            | Panic => Panic
            | Hang => Hang
            | Err e =>
                if negb (IsNotFound e) then Err e
                else
                  let st := MkMigrated (nUpdated st) (nAddedDeletes st + 1) in
                  delVal ← PutBasic (replicate (Z.to_nat MinHeaderSize) Byte.x00) srcTS txnID FlagDeleted;
                  t ← txn_Put t dstDBI key delVal 0;
                  deleteLoop fuel txnID dstDBI t srcScan st
            end
      end
  end.

(** The transaction. *)
Definition migrateTxn (fuel : nat) (f : migrateFlags) (t : Txn) : outcome (Txn * migrated) :=
  let txnID := uint64 (txn_ID t) in
  match txn_OpenDBI t (mfSrcDBI f) 0 with
  | Err e => if IsNotFound e && mfIgnoreNotPresent f then Ok (t, MkMigrated 0 0) else Err e
  | Panic => Panic
  | Hang => Hang
  | Ok (t, srcDBI) =>
      '(t, dstDBI) ← txn_OpenDBI t (mfDstDBI f) 0;
      '(t, st) ← updateLoop fuel txnID srcDBI dstDBI t (sc_New t dstDBI) (MkMigrated 0 0);
      if negb (mfAddDeleted f) then Ok (t, st)
      else deleteLoop fuel txnID dstDBI t (sc_New t srcDBI) st
  end.

(** The command; [open] opens the environment of a configured database. *)
Definition migrateTimestamps {EN : LMDBEnv L} (conf : Config) (open : LMDBConf → outcome Env)
    (fuel : nat) (f : migrateFlags) : outcome (Env * migrated) :=
  match snd <$> List.find (λ e, bool_decide (e.1 = mfDatabase f)) (LMDBs conf) with
  | None => Err (EMsg "no LMDB with this name configured")
  | Some dbConf =>
      if bool_decide (mfSrcDBI f = mfDstDBI f)
      then Err (EMsg "source and destination DBI cannot be the same")
      else
        e ← open dbConf;
        env_Update e (migrateTxn fuel f)
  end.
End migrate.

(** ** What a migration means *)

(** The timestamp of a value with a header of either kind. *)
Definition tsOf (v : bytes) : Z := be_get (take 8 v).

Definition updatedValue (txnID : Z) (d s : bytes) : bytes :=
  if tsOf d <? tsOf s then take 8 s ++ be_put 8 txnID ++ drop 16 d else d.

Definition marker (txnID : Z) (s : bytes) : bytes :=
  layout (tsOf s) txnID 0 FlagDeleted (replicate 4 Byte.x00) 0 [].

(** A deleted row: a bare timestamp, or the lowest bit of the flags at offset 17. *)
Definition isDeleted (s : bytes) : bool :=
  (zlen s =? 8) || match s !! 17%nat with Some b => Z.testbit (bz b) 0 | None => false end.

(** A row of a source: a bare timestamp, or a header in front of a value that is
    empty when the row is deleted. *)
Inductive source_row : bytes → Prop :=
  | bare_row s : zlen s = 8 → source_row s
  | header_row ts txn fl res n extra app :
      0 <= ts < 2 ^ 64 → 0 <= txn < 2 ^ 64 → 0 <= fl < 256 → 0 <= n < 65536 →
      zlen res = 4 → zlen extra = n * 8 → (Z.testbit fl 0 = true → app = []) →
      source_row (layout ts txn 0 fl res n extra ++ app).

(** The row of the destination after a migration, from the rows before. *)
Definition migratedRow (addDeleted : bool) (txnID : Z) (src dst : option bytes) : option bytes :=
  match dst, src with
  | Some d, Some s => Some (updatedValue txnID d s)
  | Some d, None => Some d
  | None, Some s => if addDeleted && isDeleted s then Some (marker txnID s) else None
  | None, None => None
  end.

Lemma IsDeleted_testbit f : IsDeleted f = Z.testbit f 0.
Proof.
  unfold IsDeleted, FlagDeleted. change 1 with (Z.ones 1). rewrite Z.land_ones by done.
  rewrite Z.bit0_eqb. change (2 ^ 1) with 2. pose proof (Z.mod_pos_bound f 2).
  destruct (Z.ltb_spec 0 (f mod 2)), (Z.eqb_spec (f mod 2) 1); lia || done.
Qed.

Lemma layout_flags ts txn ver fl res n extra app :
  0 <= fl < 256 → (layout ts txn ver fl res n extra ++ app) !! 17%nat = Some (zb fl) ∧ bz (zb fl) = fl.
Proof. intros Hf. split; [reflexivity|]. rewrite bz_zb. by apply Z.mod_small. Qed.

(** The command recognises the deleted rows. *)
Lemma srcIsDeleted_ok s : source_row s → srcIsDeleted s = Ok (isDeleted s).
Proof.
  intros [s' Hs|ts txn fl res n extra app Hts Htxn Hfl Hn Hr He Ha]; unfold srcIsDeleted, isDeleted.
  - by rewrite (proj2 (Z.eqb_eq _ _) Hs).
  - pose proof (zlen_nonneg extra). pose proof (zlen_nonneg app).
    assert (zlen (layout ts txn 0 fl res n extra ++ app) =? 8 = false) as ->.
    { apply Z.eqb_neq. rewrite zlen_app, zlen_layout by done. lia. }
    destruct (layout_flags ts txn 0 fl res n extra app Hfl) as [-> ->].
    rewrite parse_layout by done. cbn [wrap_err]. rewrite bind_ok. cbn [hFlags orb].
    rewrite IsDeleted_testbit. destruct (Z.testbit fl 0); [|done]. by rewrite Ha.
Qed.

Lemma ParseTimestamp_ok v : 8 <= zlen v → ParseTimestamp v = Ok (tsOf v).
Proof.
  intros H. unfold ParseTimestamp. rewrite (proj2 (Z.ltb_ge _ _)) by lia.
  rewrite gslice_ok by lia. done.
Qed.

Lemma withTimestamp_ok txnID d s :
  24 <= zlen d → 8 <= zlen s →
  withTimestamp d s txnID = Ok (take 8 s ++ be_put 8 txnID ++ drop 16 d).
Proof.
  intros Hd Hs. unfold withTimestamp. rewrite gslice_ok by lia. rewrite bind_ok, Z.sub_0_r.
  change (Z.to_nat 0) with 0%nat. change (Z.to_nat 8) with 8%nat. rewrite drop_0.
  unfold copy_at. change (0 <=? 0) with true. rewrite (proj2 (Z.leb_le _ _)) by lia. cbn [andb].
  assert (El : length (take 8 s) = 8%nat) by (rewrite length_take; unfold zlen in Hs; lia).
  assert (Ez : zlen (take 8 s) = 8) by (unfold zlen; lia).
  rewrite Ez, Z.sub_0_r, Z.min_l, bind_ok by lia. change (Z.to_nat 0) with 0%nat.
  change (Z.to_nat 8) with 8%nat. cbn [take app Nat.add]. rewrite (take_ge (take 8 s)) by lia.
  rewrite take_0, app_nil_l. unfold splice. rewrite zlen_app, zlen_be_put, Ez.
  assert (Ed : zlen (drop 8 d) = zlen d - 8) by (unfold zlen in *; rewrite length_drop; lia).
  rewrite Ed, (proj2 (Z.leb_le _ _)), andb_true_l, (proj2 (Z.leb_le _ _)) by lia.
  f_equal. change (Z.to_nat 8) with 8%nat. rewrite length_be_put.
  rewrite take_app_le, (take_ge (take 8 s)) by lia. f_equal. f_equal.
  rewrite drop_app_ge by lia. rewrite El, drop_drop. f_equal.
Qed.

(** An update keeps everything but the timestamp and the transaction. *)
Lemma updatedValue_spec txnID d s :
  24 <= zlen d → 8 <= zlen s →
  tsOf (updatedValue txnID d s) = Z.max (tsOf d) (tsOf s) ∧
  drop 16 (updatedValue txnID d s) = drop 16 d ∧ zlen (updatedValue txnID d s) = zlen d.
Proof.
  intros Hd Hs. unfold updatedValue. case_if; [|split_and!; [lia|done..]].
  assert (El : length (take 8 s) = 8%nat) by (rewrite length_take; unfold zlen in Hs; lia).
  split_and!.
  - unfold tsOf at 1. rewrite take_app_le, (take_ge (take 8 s)) by lia. fold (tsOf s). lia.
  - rewrite !drop_app_ge by (rewrite ?length_be_put; lia). rewrite El, length_be_put. done.
  - unfold zlen in *. rewrite !length_app, length_be_put, El, length_drop. lia.
Qed.

(** ** The loops *)

Section laws.
Context `{V : LMDBView} `{HL : !LMDBLaws L V} {SC : LMDBScan L} {W : LMDBScanView L SC}.
Context `{SL : !LMDBScanLaws L V SC W}.

(** A database without special flags. *)
Record plain (t : Txn) (h : DBIh) : Prop := MkPlain {
  pl_uniq : uniq t h;
  pl_keys : keys_ok t h;
  pl_bytes : has_flag (dflags t h) LMDBIntegerKeyFlag = false;
}.

Lemma plain_key t h g k : plain t g → key_ok t h k → key_ok t g k.
Proof using. intros Hp [Hl _]. split; [done|]. by rewrite (pl_bytes _ _ Hp). Qed.

Lemma plain_live t h : plain t h → h ≠ root.
Proof using HL. intros [[[n Hn] _] _ _] ->. by eapply dbi_of_root. Qed.

Lemma framed_plain t t' h g : framed t t' h → g ≠ h → plain t g → plain t' g ∧ entries t' g = entries t g.
Proof using HL.
  intros (F1 & F2 & F3 & _) Hne Hp. pose proof (plain_live _ _ Hp) as Hr. destruct Hp as [[[n Hn] Hd] Hk Hb].
  rewrite (F1 g) by done. split; [|done]. split; [split; [exists n; by rewrite F3|by rewrite F2]| |by rewrite F2].
  unfold keys_ok, key_ok, dbm. rewrite F1, F2 by done. done.
Qed.

(** Writing a value to an acceptable key. *)
Lemma put_plain t h k v :
  plain t h → key_ok t h k →
  ∃ t', txn_Put t h k v 0 = Ok t' ∧ dbm t' h = <[k:=v]> (dbm t h) ∧ framed t t' h ∧ plain t' h.
Proof using HL.
  intros [Hu Hk Hb] Hkey. destruct (put_entry t h k v Hu Hkey) as (t' & Hp & Em & Hf & _).
  exists t'. split; [done|]. split; [done|]. split; [done|].
  split; [by eapply framed_uniq|by eapply keys_ok_put|]. by rewrite (framed_flags h _ _ Hf).
Qed.

(** A scanner in [h] with the rows [q] before it. *)
Record scanning (t : Txn) (h : DBIh) (sc : Scanner) (q : list (bytes * bytes)) : Prop := MkScanning {
  sg_db : sc_db sc = h;
  sg_todo : sc_todo t sc = q;
  sg_rows : ∀ e, e ∈ q → dbm t h !! e.1 = Some e.2;
  sg_keys : NoDup q.*1;
}.

Lemma scanning_new t h : plain t h → scanning t h (sc_New t h) (entries t h).
Proof using HL SL.
  intros [Hu Hk _]. destruct (scan_new t h Hu) as (E1 & _ & E3). split; [done|done| |].
  - intros e He. by apply entries_elem.
  - by apply entries_keys.
Qed.

Lemma scanning_end t h sc :
  plain t h → scanning t h sc [] → ∃ sc', sc_Scan t sc = (sc', false) ∧ sc_Err sc' = None.
Proof using SL.
  intros [Hu Hk _] [<- E _ _]. destruct (scan_end t sc Hu E) as (sc' & -> & _ & He). by exists sc'.
Qed.

(** The next row, and where the scanner is in any later state of the
    transaction in which the rows behind it are the same. *)
Lemma scanning_step t h sc k v q :
  plain t h → scanning t h sc ((k, v) :: q) →
  ∃ sc', sc_Scan t sc = (sc', true) ∧ gdata (sc_Key sc') = k ∧ gdata (sc_Val sc') = v ∧
    ∀ t', plain t' h → dflags t' h = dflags t h →
      (∀ k', k' ≠ k → dbm t' h !! k' = dbm t h !! k') → scanning t' h sc' q.
Proof using HL SL.
  intros [Hu Hk Hb] [<- E Hr Hn]. destruct (scan_step t sc (k, v) q Hu Hk E)
    as (sc' & -> & Hd & Hcur & Hat & Ht & _).
  exists sc'. split; [done|]. rewrite sc_key_cur, sc_val_cur, Hcur. split_and!; [done..|].
  intros t' [Hu' Hk' Hb'] Ef Em. rewrite fmap_cons in Hn. apply list.NoDup_cons in Hn as [Hk0 Hn].
  assert (Hafter : ∀ t, plain t (sc_db sc) → sc_todo t sc' = afterKey t (sc_db sc) k).
  { intros t1 [Hu1 Hk1 _]. rewrite <- Hd in *. by apply scan_at. }
  split; [done| | |done].
  - rewrite Hafter by done. rewrite <- Ht, Hafter by done. apply afterKey_ext; try done.
    intros k' Hlt. apply Em. intros ->. by rewrite lmdb_cmp_refl in Hlt.
  - intros e He. rewrite Em; [apply Hr; by right|]. intros E'. apply Hk0. simpl. rewrite <- E'.
    apply list_elem_of_fmap. by exists e.
Qed.

Section run.
Context (txnID : Z) (g h : DBIh) (Hgh : g ≠ h).

(** The rows of the destination after the first loop went over the keys of [q]. *)
Definition updatedRow (q : list (bytes * bytes)) (src dst : option bytes) (k : bytes) : option bytes :=
  if bool_decide (k ∈ q.*1) then migratedRow false txnID src dst else dst.

(** The rows after the second loop went over the keys of [q]. *)
Definition addedRow (q : list (bytes * bytes)) (src dst : option bytes) (k : bytes) : option bytes :=
  match dst with
  | Some d => Some d
  | None => if bool_decide (k ∈ q.*1) then migratedRow true txnID src None else None
  end.

Lemma key_cons (q : list (bytes * bytes)) k v k' :
  bool_decide (k' ∈ ((k, v) :: q).*1) = bool_decide (k' = k) || bool_decide (k' ∈ q.*1).
Proof using.
  rewrite fmap_cons. destruct (decide (k' = k)) as [->|Hne].
  - rewrite (bool_decide_eq_true_2 (k = k)) by done. apply bool_decide_eq_true_2. simpl. by left.
  - rewrite (bool_decide_eq_false_2 (k' = k)) by done. apply bool_decide_ext.
    rewrite elem_of_cons. naive_solver.
Qed.

Definition src_ok (t : Txn) : Prop := ∀ k s, dbm t g !! k = Some s → 8 <= zlen s.

Lemma framed_src t t' : plain t g → framed t t' h → plain t' g ∧ dbm t' g = dbm t g ∧ dflags t' g = dflags t g.
Proof using HL Hgh.
  intros Hp Hf. destruct (framed_plain t t' h g Hf Hgh Hp) as [H1 H2].
  split_and!; [done|unfold dbm; by rewrite H2|]. by destruct Hf as (_ & F2 & _).
Qed.

(** A scanned row in front of the others, which do not have its key. *)
Lemma updatedRow_cons (q : list (bytes * bytes)) k v src dst k' :
  k ∉ q.*1 →
  updatedRow ((k, v) :: q) src dst k' =
    if decide (k' = k) then migratedRow false txnID src dst else updatedRow q src dst k'.
Proof using.
  intros Hn. unfold updatedRow. rewrite key_cons. destruct (decide (k' = k)) as [->|Hne].
  - by rewrite bool_decide_eq_true_2.
  - by rewrite (bool_decide_eq_false_2 (k' = k)).
Qed.

Lemma updatedRow_other (q : list (bytes * bytes)) src dst k :
  k ∉ q.*1 → updatedRow q src dst k = dst.
Proof using. intros Hn. unfold updatedRow. by rewrite bool_decide_eq_false_2. Qed.

Lemma updateLoop_ok fuel t sc q st :
  plain t h → plain t g → scanning t h sc q → src_ok t →
  Forall (λ e, 24 <= zlen e.2) q → (length q < fuel)%nat →
  ∃ t' st', updateLoop fuel txnID g h t sc st = Ok (t', st') ∧ framed t t' h ∧ plain t' h ∧
    ∀ k, dbm t' h !! k = updatedRow q (dbm t g !! k) (dbm t h !! k) k.
Proof using HL SL Hgh.
  revert t sc q st. induction fuel as [|fuel IH]; intros t sc q st Hh Hg Hs Hsrc Hq Hl; [lia|].
  cbn [updateLoop]. destruct q as [|[k v] q].
  { destruct (scanning_end t h sc Hh Hs) as (sc' & -> & ->). exists t, st.
    split_and!; [done|apply framed_refl|done|done]. }
  pose proof (sg_rows _ _ _ _ Hs (k, v) ltac:(left)) as Hkv. simpl in Hkv.
  pose proof (sg_keys _ _ _ _ Hs) as Hnd. rewrite fmap_cons in Hnd.
  apply list.NoDup_cons in Hnd as [Hnk _]. simpl in Hnk.
  destruct (scanning_step t h sc k v q Hh Hs) as (sc' & -> & -> & -> & Hnext).
  apply Forall_cons_1 in Hq as [Hv Hq]. simpl in Hv, Hl.
  rewrite (proj2 (Z.ltb_ge _ _)) by (unfold MinHeaderSize; lia).
  rewrite ParseTimestamp_ok by lia. cbn [wrap_err]. rewrite bind_ok.
  pose proof (pl_keys _ _ Hh k (mk_is_Some _ _ Hkv)) as Hkey.
  (* going on in the same state *)
  assert (Hskip : migratedRow false txnID (dbm t g !! k) (Some v) = Some v → ∀ st,
    ∃ t' st', updateLoop fuel txnID g h t sc' st = Ok (t', st') ∧ framed t t' h ∧ plain t' h ∧
      ∀ k', dbm t' h !! k' = updatedRow ((k, v) :: q) (dbm t g !! k') (dbm t h !! k') k').
  { intros Hrow st1. destruct (IH t sc' q st1) as (t' & st' & -> & Hf & Hp & Hm); try done; [|lia|].
    { by apply Hnext. }
    exists t', st'. split_and!; [done..|]. intros k'. rewrite Hm, updatedRow_cons by done.
    case_decide as Hk; [|done]. by rewrite Hk, updatedRow_other, Hkv, Hrow by done. }
  assert (Hget : txn_Get t g k = match dbm t g !! k with
    | Some s => Ok s | None => Err (ELmdb lmdb_NotFound) end).
  { apply get_entry; [apply Hg|by eapply plain_key]. }
  rewrite Hget. destruct (dbm t g !! k) as [s|] eqn:Es; [|by apply Hskip].
  pose proof (Hsrc k s Es) as Hs8. rewrite ParseTimestamp_ok by done. cbn [wrap_err]. rewrite bind_ok.
  case_if.
  { apply Hskip. simpl. unfold updatedValue. by rewrite (proj2 (Z.ltb_ge _ _)) by lia. }
  rewrite withTimestamp_ok by lia. rewrite bind_ok.
  destruct (put_plain t h k (take 8 s ++ be_put 8 txnID ++ drop 16 v) Hh Hkey)
    as (t1 & -> & Em & Hf1 & Hh1). rewrite bind_ok.
  destruct (framed_src t t1 Hg Hf1) as (Hg1 & Eg & _).
  destruct (IH t1 sc' q (MkMigrated (nUpdated st + 1) (nAddedDeletes st)))
    as (t' & st' & -> & Hf & Hp & Hm); try done; [| |lia|].
  { apply Hnext; [done|by apply framed_flags|]. intros k' Hne. by rewrite Em, lookup_insert_ne. }
  { intros k' s'. rewrite Eg. apply Hsrc. }
  exists t', st'. split; [done|]. split; [by eapply framed_trans|]. split; [done|].
  intros k'. rewrite Hm, Eg, Em, updatedRow_cons by done.
  case_decide as Hk; [|by rewrite lookup_insert_ne].
  rewrite Hk, updatedRow_other, lookup_insert_eq, Hkv, Es by done. simpl. unfold updatedValue.
  by rewrite (proj2 (Z.ltb_lt _ _)) by lia.
Qed.

(** A row of the source the second loop can read. *)
Definition readable_src (e : bytes * bytes) : Prop := 8 <= zlen e.2 ∧ source_row e.2.

Lemma deleteLoop_ok fuel t sc q st :
  plain t h → plain t g → scanning t g sc q → Forall readable_src q → (length q < fuel)%nat →
  ∃ t' st', deleteLoop fuel txnID h t sc st = Ok (t', st') ∧ framed t t' h ∧
    ∀ k, dbm t' h !! k = addedRow q (dbm t g !! k) (dbm t h !! k) k.
Proof using HL SL Hgh.
  revert t sc q st. induction fuel as [|fuel IH]; intros t sc q st Hh Hg Hs Hq Hl; [lia|].
  cbn [deleteLoop]. destruct q as [|[k v] q].
  { destruct (scanning_end t g sc Hg Hs) as (sc' & -> & ->). exists t, st.
    split_and!; [done|apply framed_refl|]. intros k. unfold addedRow. by destruct (dbm t h !! k). }
  pose proof (sg_rows _ _ _ _ Hs (k, v) ltac:(left)) as Hkv. simpl in Hkv.
  pose proof (sg_keys _ _ _ _ Hs) as Hnd. rewrite fmap_cons in Hnd.
  apply list.NoDup_cons in Hnd as [Hnk _]. simpl in Hnk.
  destruct (scanning_step t g sc k v q Hg Hs) as (sc' & -> & -> & -> & Hnext).
  apply Forall_cons_1 in Hq as [[Hv Hdel] Hq]. simpl in Hv, Hdel, Hl.
  rewrite ParseTimestamp_ok by lia. cbn [wrap_err]. rewrite bind_ok, srcIsDeleted_ok, bind_ok by done.
  remember (isDeleted v) as del eqn:Ed. symmetry in Ed.
  pose proof (plain_key t g h k Hh (pl_keys _ _ Hg k (mk_is_Some _ _ Hkv))) as Hkey.
  assert (Hskip : (dbm t h !! k = None → del = false) → ∀ st, ∃ t' st', deleteLoop fuel txnID h t sc' st = Ok (t', st') ∧ framed t t' h ∧
      ∀ k', dbm t' h !! k' = addedRow ((k, v) :: q) (dbm t g !! k') (dbm t h !! k') k').
  { intros Hrow st1. destruct (IH t sc' q st1) as (t' & st' & -> & Hf & Hm); try done; [|lia|].
    { by apply Hnext. }
    exists t', st'. split_and!; [done..|]. intros k'. rewrite Hm. unfold addedRow.
    destruct (dbm t h !! k') as [d|] eqn:Ed'; [done|]. rewrite key_cons.
    destruct (decide (k' = k)) as [->|Hne]; [|by rewrite (bool_decide_eq_false_2 (k' = k))].
    rewrite (bool_decide_eq_false_2 (k ∈ q.*1)), bool_decide_eq_true_2 by done. rewrite Hkv. cbn [orb].
    simpl. by rewrite Ed, (Hrow Ed'). }
  destruct del; cbn [negb]; [|by apply Hskip].
  rewrite get_entry by (done || apply Hh). destruct (dbm t h !! k) as [d|] eqn:E.
  { by apply Hskip. }
  change (negb (IsNotFound (ELmdb lmdb_NotFound))) with false. cbv iota.
  rewrite PutBasic_layout, bind_ok by done. rewrite drop_ge, app_nil_r by done.
  destruct (put_plain t h k (marker txnID v) Hh Hkey) as (t1 & Hput & Em & Hf1 & Hh1).
  unfold marker in Hput at 1. rewrite Hput, bind_ok.
  destruct (framed_src t t1 Hg Hf1) as (Hg1 & Eg & Ef).
  destruct (IH t1 sc' q (MkMigrated (nUpdated st) (nAddedDeletes st + 1)))
    as (t' & st' & -> & Hf & Hm); try done; [|lia|].
  { apply Hnext; [done|done|]. intros k' _. by rewrite Eg. }
  exists t', st'. split; [done|]. split; [by eapply framed_trans|].
  intros k'. rewrite Hm, Eg, Em. unfold addedRow. rewrite key_cons.
  destruct (decide (k' = k)) as [->|Hne].
  - rewrite lookup_insert_eq, E, (bool_decide_eq_true_2 (k = k)), Hkv by done. simpl. by rewrite Ed.
  - by rewrite lookup_insert_ne, (bool_decide_eq_false_2 (k' = k)).
Qed.
End run.

(** ** The command *)

(** What the manual asks of the two databases. *)
Record migratable (fuel : nat) (f : migrateFlags) (t : Txn) (g h : DBIh) : Prop := MkMigratable {
  mg_src : dbi_of t (mfSrcDBI f) = Some g;
  mg_dst : dbi_of t (mfDstDBI f) = Some h;
  mg_names : mfSrcDBI f ≠ mfDstDBI f;
  mg_plain_src : plain t g;
  mg_plain_dst : plain t h;
  mg_dst_rows : Forall (λ e, 24 <= zlen e.2) (entries t h);
  mg_src_rows : Forall (λ e, 8 <= zlen e.2) (entries t g);
  mg_fuel : (length (entries t h) < fuel)%nat ∧ (length (entries t g) < fuel)%nat;
}.

Lemma keys_elem t h k : plain t h → k ∈ (entries t h).*1 ↔ is_Some (dbm t h !! k).
Proof using HL.
  intros [Hu Hk _]. rewrite list_elem_of_fmap. split.
  - intros (e & -> & He). exists e.2. by apply entries_elem.
  - intros [v Hv]. exists (k, v). split; [done|]. by apply entries_elem.
Qed.

Lemma migrate_updates fuel f t g h :
  migratable fuel f t g h →
  ∃ t1 st1, updateLoop fuel (uint64 (txn_ID t)) g h t (sc_New t h) (MkMigrated 0 0) = Ok (t1, st1) ∧
    framed t t1 h ∧ plain t1 h ∧ g ≠ h ∧
    ∀ k, dbm t1 h !! k = migratedRow false (uint64 (txn_ID t)) (dbm t g !! k) (dbm t h !! k).
Proof using HL SL.
  intros [Hg Hh Hne Hpg Hph Hdr Hsr [Hl _]].
  assert (Hgh : g ≠ h) by (intros ->; by eapply Hne, dbi_of_inj).
  destruct (updateLoop_ok (uint64 (txn_ID t)) g h Hgh fuel t (sc_New t h) (entries t h) (MkMigrated 0 0))
    as (t1 & st1 & -> & Hf & Hp & Hm); try done; [by apply scanning_new| |].
  { intros k s Hs. rewrite Forall_forall in Hsr. apply (Hsr (k, s)), list_elem_of_In.
    by apply entries_elem; [apply Hpg..|]. }
  exists t1, st1. split_and!; try done. intros k. rewrite Hm. unfold updatedRow.
  rewrite (bool_decide_ext _ (is_Some (dbm t h !! k))) by by apply keys_elem.
  case_bool_decide as Hk; [done|]. destruct (dbm t h !! k); [by destruct Hk; eexists|].
  simpl. by destruct (dbm t g !! k).
Qed.

(** C15: a migration touches only the destination.  A row that is in both
    databases keeps its content and gets the higher of the two timestamps; a
    row that is only in the destination stays; with [--add-delete-entries] a
    row that is only in the source and deleted there, a bare timestamp or a
    header with the deletion bit, becomes a deletion marker with the timestamp
    of the source; nothing else is added. *)
Theorem migrate_timestamps fuel f t g h :
  migratable fuel f t g h →
  (mfAddDeleted f = true → Forall (λ e, source_row e.2) (entries t g)) →
  ∃ t' st, migrateTxn fuel f t = Ok (t', st) ∧ framed t t' h ∧
    (∀ k, dbm t' h !! k =
       migratedRow (mfAddDeleted f) (uint64 (txn_ID t)) (dbm t g !! k) (dbm t h !! k)) ∧
    (∀ k s d d', dbm t g !! k = Some s → dbm t h !! k = Some d → dbm t' h !! k = Some d' →
       tsOf d' = Z.max (tsOf d) (tsOf s) ∧ drop 16 d' = drop 16 d).
Proof using HL SL.
  intros Hmg Hdel. destruct (migrate_updates fuel f t g h Hmg) as (t1 & st1 & E1 & Hf1 & Hp1 & Hgh & Hm1).
  assert (Hts : ∀ (t' : Txn), (∀ k, dbm t' h !! k =
      migratedRow (mfAddDeleted f) (uint64 (txn_ID t)) (dbm t g !! k) (dbm t h !! k)) →
    ∀ k s d d', dbm t g !! k = Some s → dbm t h !! k = Some d → dbm t' h !! k = Some d' →
       tsOf d' = Z.max (tsOf d) (tsOf s) ∧ drop 16 d' = drop 16 d).
  { intros t' Hm k s d d' Es Ed Ed'. rewrite Hm, Es, Ed in Ed'. injection Ed' as <-.
    destruct Hmg as [_ _ _ Hpg Hph Hdr Hsr _]. rewrite Forall_forall in Hdr, Hsr.
    destruct (updatedValue_spec (uint64 (txn_ID t)) d s) as (H1 & H2 & _); [| |done].
    - apply (Hdr (k, d)), list_elem_of_In, entries_elem; [apply Hph..|done].
    - apply (Hsr (k, s)), list_elem_of_In, entries_elem; [apply Hpg..|done]. }
  unfold migrateTxn. rewrite (open_existing _ _ _ _ (mg_src _ _ _ _ _ Hmg)).
  rewrite (open_existing _ _ _ _ (mg_dst _ _ _ _ _ Hmg)), bind_ok, E1, bind_ok.
  destruct (mfAddDeleted f) eqn:Ea; cbn [negb]; [|by exists t1, st1; eauto].
  destruct (framed_src g h Hgh t t1 (mg_plain_src _ _ _ _ _ Hmg) Hf1) as (Hpg1 & Eg & _).
  destruct (framed_plain t t1 h g Hf1 Hgh (mg_plain_src _ _ _ _ _ Hmg)) as [_ Eent].
  destruct (deleteLoop_ok (uint64 (txn_ID t)) g h Hgh fuel t1 (sc_New t1 g) (entries t g) st1)
    as (t' & st' & -> & Hf & Hm); [done|done| | |apply Hmg|].
  { rewrite <- Eent. by apply scanning_new. }
  { specialize (Hdel eq_refl). pose proof (mg_src_rows _ _ _ _ _ Hmg) as Hsr.
    rewrite Forall_forall in *. intros e He. split; auto. }
  assert (Hall : ∀ k, dbm t' h !! k =
    migratedRow true (uint64 (txn_ID t)) (dbm t g !! k) (dbm t h !! k)).
  { intros k. rewrite Hm, Hm1, Eg. unfold addedRow. pose proof (keys_elem t g k (mg_plain_src _ _ _ _ _ Hmg)).
    destruct (dbm t h !! k), (dbm t g !! k) eqn:Es; simpl; try done.
    - rewrite bool_decide_eq_true_2; [done|]. by apply H.
    - by case_bool_decide. }
  exists t', st'. split; [done|]. split; [by eapply framed_trans|]. split; [done|]. by apply Hts.
Qed.

(** The manual accepts source databases of version 0.2.0, whose rows are a
    timestamp of eight bytes in front of the value.  With
    [--add-delete-entries] a live row of such a database with a value of less
    than sixteen bytes aborts the migration: it is parsed with the new header. *)
Theorem old_style_row_aborts fuel f t g h k s q :
  migratable fuel f t g h → mfAddDeleted f = true → entries t g = (k, s) :: q → 8 < zlen s < 24 →
  migrateTxn fuel f t = Err (EWrap "src: invalid header" ErrTooShort).
Proof using HL SL.
  intros Hmg Ha Es Hlen. destruct (migrate_updates fuel f t g h Hmg) as (t1 & st1 & E1 & Hf1 & _ & Hgh & _).
  unfold migrateTxn. rewrite (open_existing _ _ _ _ (mg_src _ _ _ _ _ Hmg)).
  rewrite (open_existing _ _ _ _ (mg_dst _ _ _ _ _ Hmg)), bind_ok, E1, bind_ok, Ha. cbn [negb].
  destruct (framed_src g h Hgh t t1 (mg_plain_src _ _ _ _ _ Hmg) Hf1) as (Hpg1 & _ & _).
  destruct (framed_plain t t1 h g Hf1 Hgh (mg_plain_src _ _ _ _ _ Hmg)) as [_ Eent].
  pose proof (scanning_new t1 g Hpg1) as Hs. rewrite Eent, Es in Hs.
  destruct fuel as [|fuel]; [destruct (mg_fuel _ _ _ _ _ Hmg); lia|]. cbn [deleteLoop].
  destruct (scanning_step t1 g _ k s q Hpg1 Hs) as (sc' & -> & -> & -> & _).
  rewrite ParseTimestamp_ok by lia. cbn [wrap_err]. rewrite bind_ok.
  assert (Ep : srcIsDeleted s = Err (EWrap "src: invalid header" ErrTooShort)).
  { unfold srcIsDeleted. rewrite (proj2 (Z.eqb_neq _ _)) by lia. unfold Parse.
    by rewrite (proj2 (Z.ltb_lt (zlen s) MinHeaderSize)) by (unfold MinHeaderSize; lia). }
  by rewrite Ep.
Qed.
End laws.

(** ** Witnesses on the reference environment *)

Section examples.
#[local] Existing Instances Ref.RefLMDB Ref.RefView Ref.RefLMDB_laws
  RefScan.RefScanner RefScan.RefScanView RefScan.RefScan_laws.

(** A database of the reference implementation without flags. *)
Lemma ref_plain (t : @Txn Ref.RefLMDB) n l :
  Ref.rdbs t !! n = Some (Ref.MkDb 0 (list_to_map l) []) →
  Forall (λ e, 1 <= zlen e.1 <= 511) l →
  plain t (Some n : @DBIh Ref.RefLMDB) ∧ dbm t (Some n : @DBIh Ref.RefLMDB) = list_to_map l.
Proof.
  intros E Hl. assert (Em : dbm t (Some n : @DBIh Ref.RefLMDB) = list_to_map l).
  { unfold dbm. simpl. rewrite E. exact (Ref.sorted_map (Ref.MkDb 0 (list_to_map l) [])). }
  assert (Ef : dflags t (Some n : @DBIh Ref.RefLMDB) = 0) by (simpl; unfold Ref.rflagsof; simpl; by rewrite E).
  split; [|done]. split; [split; [exists n; simpl; by rewrite E|by rewrite Ef]| |by rewrite Ef].
  intros k [v Hv]. rewrite Em in Hv. apply elem_of_list_to_map_2, list_elem_of_In in Hv.
  rewrite Forall_forall in Hl. split; [apply (Hl _ Hv)|]. by rewrite Ef.
Qed.

Definition exSrc : list (bytes * bytes) :=
  [(str "a", ex_value 200 0 (str "old")); (str "b", ex_value 50 0 (str "old"));
   (str "d", ex_value 300 1 []); (str "e", ex_value 300 0 (str "live"));
   (str "f", be_put 8 400)].
Definition exDst : list (bytes * bytes) :=
  [(str "a", ex_value 100 0 (str "x")); (str "b", ex_value 100 0 (str "y"));
   (str "c", ex_value 100 0 (str "z"))].

Definition exPair (src dst : list (bytes * bytes)) : @Txn Ref.RefLMDB :=
  Ref.MkTxn 9 (<[str "src" := Ref.MkDb 0 (list_to_map src) []]>
                {[ str "dst" := Ref.MkDb 0 (list_to_map dst) [] ]}).

Definition exFlags : migrateFlags := MkMigrateFlags (str "main") (str "src") (str "dst") true false.

Lemma exPair_rows :
  entries (exPair exSrc exDst) (Some (str "src") : @DBIh Ref.RefLMDB) = exSrc ∧
  entries (exPair exSrc exDst) (Some (str "dst") : @DBIh Ref.RefLMDB) = exDst.
Proof. by vm_compute. Qed.

Lemma exPair_src :
  plain (exPair exSrc exDst) (Some (str "src")) ∧
  dbm (exPair exSrc exDst) (Some (str "src")) = list_to_map exSrc.
Proof. apply ref_plain; [done|]. apply (bool_decide_unpack _). by vm_compute. Qed.

Lemma exPair_dst :
  plain (exPair exSrc exDst) (Some (str "dst")) ∧
  dbm (exPair exSrc exDst) (Some (str "dst")) = list_to_map exDst.
Proof. apply ref_plain; [done|]. apply (bool_decide_unpack _). by vm_compute. Qed.

Lemma exPair_migratable : migratable 9 exFlags (exPair exSrc exDst) (Some (str "src")) (Some (str "dst")).
Proof.
  destruct exPair_rows as [Es Ed].
  split; [by vm_compute|by vm_compute|by vm_compute|apply exPair_src|apply exPair_dst|rewrite Ed
         |rewrite Es|rewrite Es, Ed; simpl; lia]; apply (bool_decide_unpack _); by vm_compute.
Qed.

Lemma exSrc_readable :
  Forall (λ e, source_row e.2)
    (entries (exPair exSrc exDst) (Some (str "src") : @DBIh Ref.RefLMDB)).
Proof.
  assert (Hrow : ∀ ts fl app, 0 <= ts < 2 ^ 64 → 0 <= fl < 256 → (Z.testbit fl 0 = true → app = []) →
    source_row (ex_value ts fl app)).
  { intros ts fl app Hts Hfl Ha. by apply header_row. }
  rewrite (proj1 exPair_rows). repeat apply Forall_cons_2; [..|by apply bare_row|constructor];
    by apply Hrow.
Qed.

Lemma exMigrated :
  migratedRow true 9 ((list_to_map exSrc : gmap bytes bytes) !! str "a")
    ((list_to_map exDst : gmap bytes bytes) !! str "a") =
    Some (layout 200 9 0 0 (replicate 4 Byte.x00) 0 [] ++ str "x") ∧
  migratedRow true 9 ((list_to_map exSrc : gmap bytes bytes) !! str "d")
    ((list_to_map exDst : gmap bytes bytes) !! str "d") =
    Some (layout 300 9 0 1 (replicate 4 Byte.x00) 0 []) ∧
  migratedRow true 9 ((list_to_map exSrc : gmap bytes bytes) !! str "e")
    ((list_to_map exDst : gmap bytes bytes) !! str "e") = None ∧
  migratedRow true 9 ((list_to_map exSrc : gmap bytes bytes) !! str "f")
    ((list_to_map exDst : gmap bytes bytes) !! str "f") =
    Some (layout 400 9 0 1 (replicate 4 Byte.x00) 0 []).
Proof. by vm_compute. Qed.

(** Row a gets the newer timestamp, the deleted rows d and f are added, e is not. *)
Lemma migrate_timestamps_witness : ∃ t' st,
  migrateTxn 9 exFlags (exPair exSrc exDst) = Ok (t', st) ∧
  dbm t' (Some (str "dst") : @DBIh Ref.RefLMDB) !! str "a" =
    Some (layout 200 9 0 0 (replicate 4 Byte.x00) 0 [] ++ str "x") ∧
  dbm t' (Some (str "dst") : @DBIh Ref.RefLMDB) !! str "d" =
    Some (layout 300 9 0 1 (replicate 4 Byte.x00) 0 []) ∧
  dbm t' (Some (str "dst") : @DBIh Ref.RefLMDB) !! str "e" = None ∧
  dbm t' (Some (str "dst") : @DBIh Ref.RefLMDB) !! str "f" =
    Some (layout 400 9 0 1 (replicate 4 Byte.x00) 0 []).
Proof.
  destruct (migrate_timestamps 9 exFlags (exPair exSrc exDst) (Some (str "src")) (Some (str "dst"))
    exPair_migratable (λ _, exSrc_readable)) as (t' & st & E & _ & Hm & _).
  exists t', st. split; [exact E|]. destruct exMigrated as (E1 & E2 & E3 & E4).
  rewrite !Hm, (proj2 exPair_src), (proj2 exPair_dst). split; [exact E1|]. split; [exact E2|].
  split; [exact E3|exact E4].
Defined.
End examples.
