(* ===== verification/PdnsFix.v ===== *)
(** * Duplicate domains (cmd/lightningstream/commands/experimental-pdns.go)

    The command [experimental pdns-v5-fix-duplicate-domains] scans the domains
    of a PowerDNS database for rows with the same domain and different numbers.
    It can rename all but the oldest, by writing a deletion marker over the row
    and a new row ahead of the scan, which then meets the row it added. *)

From stdpp Require Import sorting.
From S2P Require Import Prelude Header Lmdb Strategy Iterators Shadow Config Syncer Transfer.
From S2P Require Import LimitScanner DBIFlags Migrate.

(** ** Text *)

(** [strings.HasSuffix] and [strings.Contains] *)
Definition HasSuffix (s p : bytes) : bool := HasPrefix (rev s) (rev p).

Fixpoint strings_Contains (s sub : bytes) : bool :=
  HasPrefix s sub || match s with [] => false | _ :: s => strings_Contains s sub end.

(** [strings.Join] *)
Fixpoint Join (l : list bytes) (sep : bytes) : bytes :=
  match l with
  | [] => []
  | [s] => s
  | s :: l => s ++ sep ++ Join l sep
  end.

(** A stored domain is its labels in reverse, separated by zero bytes. *)
Definition displayDomain (domain : bytes) : bytes :=
  Join (filter (λ l, l ≠ []) (rev (splitAt Byte.x00 domain))) (str ".").

(** [fmt.Appendf(nil, "invalid\x00dup-%d\x00%s", newest, string(domain))] *)
Definition dupDomain (newest : Z) (domain : bytes) : bytes :=
  str "invalid" ++ [Byte.x00] ++ str "dup-" ++ itoa newest ++ [Byte.x00] ++ domain.

(** ** The scan *)

(** What the scan remembers: the entry it keeps of the last domain, the zones
    to report and how often the clock was read. *)
Record fixVars : Type := MkFixVars {
  prevDomain : bytes;
  prevHeader : Header;
  prevID : Z;
  domainsToDelete : list bytes;
  clockReads : nat;
}.

Definition fixStart : fixVars := MkFixVars [] (MkHeader 0 0 0 0 0 []) 0 [] 0.

Section fix_duplicates.
Context `{L : LMDB} {SC : LMDBScan L} (now : nat → Z) (doRename : bool).

(** The closure [patchDomain]; the time is the clock when it is called. *)
Definition patchDomain (dbi : DBIh) (t : Txn) (time : Z) (domain : bytes) (id : Z) (flags : Flags)
    : outcome Txn :=
  let key := replicate (2 + length domain + 4) Byte.x00 in
  key ← splice key 0 (be_put 2 (uint16 (zlen domain)));
  let off := 2 + zlen domain in
  '(key, _) ← copy_at key 2 domain;
  key ← splice key off (be_put 4 id);
  let val := replicate (Z.to_nat MinHeaderSize) Byte.x00 in
  let ts := TimestampFromTime time in
  val ← PutBasic val ts (uint64 (txn_ID t)) flags;
  txn_Put t dbi key val 0.

(** A row of a domain: the length of the name, the name and the number. *)
Definition parseKey (key : bytes) : outcome (bytes * Z) :=
  if zlen key <? 6 then Err (EMsg "too short key")
  else
    k0 ← gindex key 0;
    k1 ← gindex key 1;
    let n := Z.shiftl (bz k0) 8 + bz k1 in
    let expectedLen := 2 + n + 4 in
    if negb (zlen key =? expectedLen) then Err (EMsg "unexpected key length")
    else
      domain ← gslice key 2 (2 + n);
      idBytes ← gfrom key (2 + n);
      Ok (domain, be_get idBytes).

(** One row of the scan. *)
Definition fixRow (dbi : DBIh) (t : Txn) (key hdrVal : bytes) (st : fixVars) : outcome (Txn * fixVars) :=
  '(hdr, _) ← wrap_err "invalid header" (Parse hdrVal);
  if IsDeleted (hFlags hdr) then Ok (t, st)
  else
    '(domain, id) ← parseKey key;
    let domainDisplay := displayDomain domain in
    let toDelete :=
      if HasSuffix domainDisplay (str ".invalid") && strings_Contains domainDisplay (str ".dup-")
      then domainsToDelete st ++ [domainDisplay] else domainsToDelete st in
    if bool_decide (prevDomain st = domain) then
      let swapPrev := negb (hTimestamp hdr <? hTimestamp (prevHeader st)) in
      let newest := if swapPrev then id else prevID st in
      '(t, toDelete, n) ←
        (if doRename then
           t ← patchDomain dbi t (now (clockReads st)) domain newest FlagDeleted;
           let newDomain := dupDomain newest domain in
           t ← patchDomain dbi t (now (S (clockReads st))) newDomain newest NoFlags;
           Ok (t, toDelete ++ [displayDomain newDomain], S (S (clockReads st)))
         else Ok (t, toDelete, clockReads st));
      if swapPrev
      then Ok (t, MkFixVars (prevDomain st) (prevHeader st) (prevID st) toDelete n)
      else Ok (t, MkFixVars domain hdr id toDelete n)
    else Ok (t, MkFixVars domain hdr id toDelete (clockReads st)).

Fixpoint fixLoop (fuel : nat) (dbi : DBIh) (t : Txn) (scan : Scanner) (st : fixVars)
    : outcome (Txn * fixVars) :=
  match fuel with
  | O => Hang
  | S fuel =>
      match sc_Scan t scan with
      | (scan, false) => match sc_Err scan with Some e => Err e | None => Ok (t, st) end
      | (scan, true) =>
          '(t, st) ← fixRow dbi t (gdata (sc_Key scan)) (gdata (sc_Val scan)) st;
          fixLoop fuel dbi t scan st
      end
  end.

(** The transaction: only schema version 5 is accepted. *)
Definition fixTxn (fuel : nat) (t : Txn) : outcome (Txn * fixVars) :=
  '(t, dbi) ← match txn_OpenDBI t (str "pdns") 0 with
              | Err e => if IsNotFound e then Err (EMsg "'pdns' DBI not found") else Err e
              | r => r
              end;
  val ← match txn_Get t dbi (str "schemaversion") with
        | Err _ => Err (EMsg "cannot check schemaversion")
        | r => r
        end;
  v ← match Skip val with Err _ => Err (EMsg "schemaversion") | r => r end;
  if negb (zlen v =? 4) then Err (EMsg "schemaversion wrong length")
  else if negb (be_get v =? 5) then Err (EMsg "schemaversion incorrect")
  else
    '(t, dbi) ← match txn_OpenDBI t (str "domains_v5_0") 0 with
                | Err e => if IsNotFound e then Err (EMsg "'domains_v5_0' DBI not found") else Err e
                | r => r
                end;
    fixLoop fuel dbi t (sc_New t dbi) fixStart.

(** The command returns the zones it prints. *)
Definition pdnsV5FixDuplicateDomains {EN : LMDBEnv L} (conf : Config)
    (open : LMDBConf → outcome Env) (fuel : nat) (dbName : bytes) : outcome (Env * list bytes) :=
  match snd <$> List.find (λ e, bool_decide (e.1 = dbName)) (LMDBs conf) with
  | None => Err (EMsg "no LMDB with this name configured")
  | Some dbConf =>
      e ← open dbConf;
      '(e, st) ← env_Update e (fixTxn fuel);
      Ok (e, domainsToDelete st)
  end.
End fix_duplicates.

(** ** Keys and their order *)

Definition rowKey (d : bytes) (id : Z) : bytes := be_put 2 (zlen d) ++ d ++ be_put 4 id.

Definition wfRow (d : bytes) (id : Z) : Prop := zlen d < 65536 ∧ 0 <= id < 2 ^ 32.

Lemma row_parts a b d i :
  gslice ([a; b] ++ d ++ i) 2 (2 + zlen d) = Ok d ∧ gfrom ([a; b] ++ d ++ i) (2 + zlen d) = Ok i.
Proof.
  split; [exact (gslice_mid [a; b] d i)|].
  rewrite app_assoc, <- (gfrom_app ([a; b] ++ d) i). f_equal. autorewrite with golen. lia.
Qed.

Lemma parseKey_row d id : wfRow d id → parseKey (rowKey d id) = Ok (d, id).
Proof.
  intros [Hd Hid]. pose proof (zlen_nonneg d) as Hd0. unfold parseKey, rowKey.
  assert (Hlen : zlen (be_put 2 (zlen d) ++ d ++ be_put 4 id) = 6 + zlen d)
    by (autorewrite with golen; lia).
  rewrite Hlen, (proj2 (Z.ltb_ge _ _)) by lia.
  assert (Hn : ∃ a b, be_put 2 (zlen d) = [a; b] ∧ Z.shiftl (bz a) 8 + bz b = zlen d).
  { exists (zb (zlen d / 256)), (zb (zlen d)). split; [done|].
    rewrite !bz_zb, Z.shiftl_mul_pow2 by lia. change (2 ^ 8) with 256.
    rewrite (Z.mod_small (zlen d / 256)); [|split; [apply Z.div_pos; lia|apply Z.div_lt_upper_bound; lia]].
    pose proof (Z.div_mod (zlen d) 256 ltac:(lia)). lia. }
  destruct Hn as (a & b & Eab & En). rewrite Eab.
  change (gindex ([a; b] ++ d ++ be_put 4 id) 0) with (@Ok byte a).
  change (gindex ([a; b] ++ d ++ be_put 4 id) 1) with (@Ok byte b). rewrite !bind_ok, En.
  rewrite (proj2 (Z.eqb_eq _ _)) by lia. cbn [negb].
  destruct (row_parts a b d (be_put 4 id)) as [-> ->].
  rewrite !bind_ok, be_get_put_small by (simpl; lia). done.
Qed.

Lemma parseKey_inv k d id : parseKey k = Ok (d, id) → k = rowKey d id ∧ wfRow d id.
Proof.
  unfold parseKey. case_if; [done|]. destruct k as [|a [|b k]]; try by (autorewrite with golen in *; lia).
  change (gindex (a :: b :: k) 0) with (@Ok byte a). change (gindex (a :: b :: k) 1) with (@Ok byte b).
  rewrite !bind_ok, Z.shiftl_mul_pow2 by lia. change (2 ^ 8) with 256.
  pose proof (bz_range a) as Ha. pose proof (bz_range b) as Hb.
  set (n := bz a * 256 + bz b). case_if; [done|]. autorewrite with golen in *.
  assert (Hk : k = take (Z.to_nat n) k ++ drop (Z.to_nat n) k) by by rewrite take_drop.
  assert (Hlt : zlen (take (Z.to_nat n) k) = n) by (unfold zlen in *; rewrite length_take; lia).
  assert (Hld : length (drop (Z.to_nat n) k) = 4%nat) by (unfold zlen in *; rewrite length_drop; lia).
  set (d0 := take (Z.to_nat n) k) in *. set (i := drop (Z.to_nat n) k) in *. clearbody d0 i. subst k.
  change (a :: b :: d0 ++ i) with ([a; b] ++ d0 ++ i).
  rewrite <- Hlt. destruct (row_parts a b d0 i) as [-> ->]. rewrite !bind_ok. intros [= <- <-].
  pose proof (be_get_range i) as Hi. rewrite Hld in Hi. split; [|split; [lia|simpl in Hi; lia]].
  unfold rowKey. rewrite (be_put_get 4 i Hld), Hlt. f_equal.
  replace n with (be_get [a; b]) by (unfold n, be_get; cbn [rev app le_get]; lia). by rewrite be_put_get.
Qed.

Lemma rowKey_inj d id d' id' : wfRow d id → wfRow d' id' → rowKey d id = rowKey d' id' → d = d' ∧ id = id'.
Proof.
  intros H H' E. pose proof (parseKey_row d id H) as E1. rewrite E, parseKey_row in E1 by done.
  by injection E1 as -> ->.
Qed.

(** Domains are ordered by length, then as bytes. *)
Definition domCmp (d d' : bytes) : comparison :=
  match zlen d ?= zlen d' with Eq => bytes_Compare d d' | c => c end.

Lemma rowKey_cmp d id d' id' :
  wfRow d id → wfRow d' id' →
  bytes_Compare (rowKey d id) (rowKey d' id') =
    match domCmp d d' with Eq => id ?= id' | c => c end.
Proof.
  intros [Hd Hid] [Hd' Hid']. pose proof (zlen_nonneg d). pose proof (zlen_nonneg d').
  unfold rowKey, domCmp. rewrite bytes_Compare_app by by rewrite !length_be_put.
  rewrite bytes_Compare_be by (simpl; lia). destruct (Z.compare_spec (zlen d) (zlen d')) as [E|E|E]; [|done..].
  rewrite bytes_Compare_app by (unfold zlen in E; lia). destruct (bytes_Compare d d'); [|done..].
  apply bytes_Compare_be; simpl; lia.
Qed.

Lemma domCmp_eq d d' : domCmp d d' = Eq ↔ d = d'.
Proof.
  unfold domCmp. split.
  - destruct (zlen d ?= zlen d'); try done. apply bytes_Compare_eq.
  - intros ->. by rewrite Z.compare_refl, bytes_Compare_refl.
Qed.

Lemma domCmp_antisym d d' : domCmp d' d = CompOpp (domCmp d d').
Proof.
  unfold domCmp. rewrite (Z.compare_antisym (zlen d)). destruct (zlen d ?= zlen d'); simpl; try done.
  apply bytes_Compare_antisym.
Qed.

Lemma domCmp_lt_trans a b c : domCmp a b = Lt → domCmp b c = Lt → domCmp a c = Lt.
Proof.
  unfold domCmp. destruct (Z.compare_spec (zlen a) (zlen b)), (Z.compare_spec (zlen b) (zlen c)),
    (Z.compare_spec (zlen a) (zlen c)); try done; try lia. apply bytes_Compare_lt_trans.
Qed.

Lemma zlen_dupDomain n d : 0 <= n → zlen d + 14 <= zlen (dupDomain n d) <= zlen d + 33.
Proof.
  intros Hn. unfold dupDomain. autorewrite with golen.
  change (zlen (str "invalid")) with 7. change (zlen (str "dup-")) with 4.
  pose proof (itoa_length 20 n []) as Hl. fold (itoa n) in Hl.
  assert (itoa n ≠ []).
  { assert (Ha : ∀ f v acc, acc ≠ [] → itoaLoop f v acc ≠ []).
    { induction f as [|f IH]; intros v acc Hacc; simpl; [done|]. case_if; [done|]. by apply IH. }
    assert (Hs : ∀ f v acc, itoaLoop (S f) v acc ≠ []).
    { intros f v acc. simpl. case_if; [done|]. by apply Ha. }
    exact (Hs 19%nat n []). }
  assert (1 <= zlen (itoa n) <= 20) by (unfold zlen; destruct (itoa n); [done|]; simpl in *; lia). lia.
Qed.

Lemma digits_end a b s s' :
  Forall (λ x, 48 <= bz x <= 57) a → Forall (λ x, 48 <= bz x <= 57) b →
  a ++ Byte.x00 :: s = b ++ Byte.x00 :: s' → a = b ∧ s = s'.
Proof.
  revert b. induction a as [|x a IH]; intros [|y b] Ha Hb E; simpl in E.
  - by injection E.
  - injection E as <- _. apply Forall_cons_1 in Hb as [Hb _]. by vm_compute in Hb; destruct Hb.
  - injection E as -> _. apply Forall_cons_1 in Ha as [Ha _]. by vm_compute in Ha; destruct Ha.
  - injection E as -> E. apply Forall_cons_1 in Ha as [_ Ha], Hb as [_ Hb].
    by destruct (IH b Ha Hb E) as [-> ->].
Qed.

Lemma dupDomain_inj i d i' d' :
  0 <= i < 2 ^ 32 → 0 <= i' < 2 ^ 32 → dupDomain i d = dupDomain i' d' → i = i' ∧ d = d'.
Proof.
  intros Hi Hi' E. unfold dupDomain in E. apply app_inv_head in E. injection E as E.
  apply digits_end in E as [E ->]; [|apply itoa_digits; lia..]. split; [|done].
  apply (f_equal undecimal) in E. by rewrite !undecimal_itoa in E by lia.
Qed.

Lemma dup_later n d : 0 <= n → domCmp d (dupDomain n d) = Lt.
Proof.
  intros Hn. unfold domCmp. pose proof (zlen_dupDomain n d Hn).
  by destruct (Z.compare_spec (zlen d) (zlen (dupDomain n d))); [lia| |lia].
Qed.

(** ** What a run means

    The rows of the database as a map.  A row is live when its header is not
    marked as deleted. *)

Definition liveTs (v : bytes) : option Z :=
  match Parse v with
  | Ok (h, _) => if IsDeleted (hFlags h) then None else Some (hTimestamp h)
  | _ => None
  end.

Implicit Types m : gmap bytes bytes.

(** The live row of a domain with a number, by its timestamp. *)
Definition row m (d : bytes) (id : Z) : option Z := m !! rowKey d id ≫= liveTs.

(** A database of domains: every header can be read, and the key of a live row
    is a name, which is not empty, with a number. *)
Record domains m : Prop := MkDomains {
  dm_header k v : m !! k = Some v → is_ok (Parse v);
  dm_key k v : m !! k = Some v → is_Some (liveTs v) → ∃ d id, d ≠ [] ∧ parseKey k = Ok (d, id);
  dm_size k : is_Some (m !! k) → 1 <= zlen k <= 511;
}.

(** A name after any number of renamings of the zone [id]. *)
Inductive renames (id : Z) : bytes → bytes → Prop :=
  | renames_refl d : renames id d d
  | renames_step d d' : renames id d d' → renames id d (dupDomain id d').

(** Names that a renaming does not produce. *)
Definition original (d : bytes) : Prop := ∀ id d', 0 <= id < 2 ^ 32 → d ≠ dupDomain id d'.

(** The older row; of rows of the same age, the one with the lower number. *)
Definition older (r r' : Z * Z) : Prop := r.1 < r'.1 ∨ (r.1 = r'.1 ∧ r.2 <= r'.2).

(** What [m] has become of [m0]. *)
Record fixed m0 m : Prop := MkFixed {
  fx_unique d id id' : is_Some (row m d id) → is_Some (row m d id') →
    wfRow d id → wfRow d id' → id = id';
  fx_kept d id : wfRow d id → is_Some (row m0 d id) → ∃ d', renames id d d' ∧ is_Some (row m d' id);
  fx_known d id : wfRow d id → is_Some (row m d id) → ∃ d', renames id d' d ∧ is_Some (row m0 d' id);
  fx_oldest d id ts : original d → wfRow d id → row m0 d id = Some ts →
    ∃ id' ts', wfRow d id' ∧ older (ts', id') (ts, id) ∧ m !! rowKey d id' = m0 !! rowKey d id' ∧
      row m d id' = Some ts';
}.

(** ** The invariant of the scan

    [p] is the key the scan has reached. *)

Definition scanned (p : option bytes) (k : bytes) : Prop :=
  match p with None => False | Some p => bytes_Compare k p ≠ Gt end.

Record inv m0 m (p : option bytes) (st : fixVars) : Prop := MkInv {
  iv_domains : domains m;
  iv_unique d id id' :
    scanned p (rowKey d id) → scanned p (rowKey d id') → wfRow d id → wfRow d id' →
    is_Some (row m d id) → is_Some (row m d id') → id = id';
  iv_prev :
    (prevDomain st = [] ∧ ∀ d id, wfRow d id → scanned p (rowKey d id) → row m d id = None) ∨
    (prevDomain st ≠ [] ∧ wfRow (prevDomain st) (prevID st) ∧
     scanned p (rowKey (prevDomain st) (prevID st)) ∧
     row m (prevDomain st) (prevID st) = Some (hTimestamp (prevHeader st)) ∧
     ∀ d id, wfRow d id → scanned p (rowKey d id) → is_Some (row m d id) →
       domCmp d (prevDomain st) ≠ Gt);
  iv_kept d id : wfRow d id → is_Some (row m0 d id) → ∃ d', renames id d d' ∧ is_Some (row m d' id);
  iv_known d id : wfRow d id → is_Some (row m d id) → ∃ d', renames id d' d ∧ is_Some (row m0 d' id);
  iv_same d id : original d → wfRow d id →
    ¬ scanned p (rowKey d id) ∨ is_Some (row m d id) → m !! rowKey d id = m0 !! rowKey d id;
  iv_oldest d id ts : original d → wfRow d id → scanned p (rowKey d id) → row m0 d id = Some ts →
    ∃ id' ts', wfRow d id' ∧ scanned p (rowKey d id') ∧ older (ts', id') (ts, id) ∧
      row m d id' = Some ts';
}.

#[export] Instance scanned_dec p k : Decision (scanned p k).
Proof. destruct p; simpl; apply _. Defined.

(** The row the scan meets next. *)
Record next m (p : option bytes) (k : bytes) : Prop := MkNext {
  nx_ahead : ¬ scanned p k;
  nx_first k' : is_Some (m !! k') → ¬ scanned p k' → bytes_Compare k k' ≠ Gt;
}.

Lemma scanned_next p k k' : ¬ scanned p k → scanned p k' → scanned (Some k) k'.
Proof.
  destruct p as [q|]; simpl; [|done]. intros Hk Hk'. apply bytes_not_le in Hk.
  eapply bytes_le_trans; [done|]. by rewrite Hk.
Qed.

Lemma scanned_self k : scanned (Some k) k.
Proof. unfold scanned. by rewrite bytes_Compare_refl. Qed.

Lemma scanned_new m p k k' : next m p k → is_Some (m !! k') → scanned (Some k) k' → k' = k ∨ scanned p k'.
Proof.
  intros [_ Hf] Hs Hk. destruct (decide (scanned p k')) as [|Hn]; [by right|left].
  specialize (Hf k' Hs Hn). simpl in Hk. apply bytes_Compare_eq.
  rewrite (bytes_Compare_antisym k' k) in Hf. by destruct (bytes_Compare k' k).
Qed.

Section rows.
Context (m0 : gmap bytes bytes).

Lemma row_wf m d id : domains m → 0 <= id < 2 ^ 32 → is_Some (row m d id) → wfRow d id.
Proof.
  intros Hd Hid [ts Hr]. unfold row in Hr. destruct (m !! rowKey d id) as [v|] eqn:E; [|done].
  pose proof (dm_size _ Hd _ (mk_is_Some _ _ E)) as Hs. split; [|done].
  unfold rowKey in Hs. autorewrite with golen in Hs. lia.
Qed.

Lemma row_key m d id : is_Some (row m d id) → is_Some (m !! rowKey d id).
Proof. unfold row. destruct (m !! rowKey d id); [by eexists|]. intros [? ?]. done. Qed.

(** The row the scan is at, or one it has met before. *)
Lemma row_new m p d id d' id' :
  next m p (rowKey d id) → wfRow d id → wfRow d' id' → scanned (Some (rowKey d id)) (rowKey d' id') →
  is_Some (row m d' id') → (d' = d ∧ id' = id) ∨ scanned p (rowKey d' id').
Proof.
  intros Hn Hw Hw' Hs Hr. destruct (scanned_new m p _ _ Hn (row_key _ _ _ Hr) Hs) as [E|]; [|by right].
  left. by apply rowKey_inj.
Qed.

Lemma inv_start : domains m0 → inv m0 m0 None fixStart.
Proof.
  intros Hd. split; try done; [by left|..].
  - intros d id _ Hr. exists d. split; [constructor|done].
  - intros d id _ Hr. exists d. split; [constructor|done].
Qed.

(** A row of the start that the scan has not met is the same now. *)
Lemma same_row m p st d id :
  inv m0 m p st → original d → wfRow d id → ¬ scanned p (rowKey d id) → row m d id = row m0 d id.
Proof. intros Hi Ho Hw Hs. unfold row. by rewrite (iv_same _ _ _ _ Hi d id Ho Hw (or_introl Hs)). Qed.

(** Meeting a row that is deleted. *)
Lemma inv_skip m p st k v :
  inv m0 m p st → next m p k → m !! k = Some v → liveTs v = None → inv m0 m (Some k) st.
Proof.
  intros Hi Hn Hk Hv.
  assert (Hold : ∀ d id, scanned (Some k) (rowKey d id) → is_Some (row m d id) → scanned p (rowKey d id)).
  { intros d id Hs [ts Hr]. destruct (scanned_new m p k _ Hn (row_key m d id ltac:(by eexists)) Hs)
      as [E|]; [|done]. unfold row in Hr. rewrite E, Hk in Hr. simpl in Hr. congruence. }
  pose proof (λ k', scanned_next p k k' (nx_ahead _ _ _ Hn)) as Hmore.
  destruct Hi as [Hd Hu Hp Hkept Hknown Hsame Hold']. split; try done.
  - intros d id id' Hs Hs' ???? . apply (Hu d id id'); auto.
  - destruct Hp as [[E Hp]|(E & Hw & Hs & Hr & Hp)]; [left|right].
    + split; [done|]. intros d id Hw Hs. destruct (row m d id) as [ts|] eqn:Er; [|done].
      rewrite <- Er. apply Hp; [done|]. apply Hold; [done|]. by rewrite Er.
    + split_and!; auto. intros d id Hw' Hs' Hr'. apply (Hp d id); auto.
  - intros d id Ho Hw [Hs|Hr]; apply Hsame; auto.
  - intros d id ts Ho Hw Hs Hr. destruct (decide (scanned p (rowKey d id))) as [Hs0|Hs0].
    + destruct (Hold' d id ts Ho Hw Hs0 Hr) as (id' & ts' & ? & ? & ? & ?). exists id', ts'. auto.
    + exfalso. apply Hs0, Hold; [done|]. unfold row in *. rewrite Hsame by auto. by rewrite Hr.
Qed.

(** Meeting the first live row of a domain. *)
Lemma inv_first m p st d id ts st' :
  inv m0 m p st → next m p (rowKey d id) → wfRow d id → row m d id = Some ts → d ≠ [] →
  prevDomain st ≠ d → prevDomain st' = d → prevID st' = id → hTimestamp (prevHeader st') = ts →
  inv m0 m (Some (rowKey d id)) st'.
Proof.
  intros Hi Hn Hw Hr Hne Hprev E1 E2 E3. pose proof (λ k', scanned_next p _ k' (nx_ahead _ _ _ Hn)) as Hmore.
  pose proof (λ d' id', row_new m p d id d' id' Hn Hw) as Hnew.
  assert (Hself : scanned (Some (rowKey d id)) (rowKey d id)) by apply scanned_self.
  (* the domains met before are smaller *)
  assert (Hlt : ∀ d' id', wfRow d' id' → scanned p (rowKey d' id') → is_Some (row m d' id') → domCmp d' d = Lt).
  { intros d' id' Hw' Hs' Hr'. destruct (iv_prev _ _ _ _ Hi) as [[_ Hp]|(_ & Hwp & Hsp & _ & Hp)].
    { rewrite (Hp d' id' Hw' Hs') in Hr'. by destruct Hr'. }
    specialize (Hp d' id' Hw' Hs' Hr').
    pose proof (nx_ahead _ _ _ Hn) as Ha. destruct p as [q|]; [|done]. unfold scanned in Hsp, Ha.
    apply bytes_not_le in Ha. assert (Hlt : domCmp (prevDomain st) d ≠ Gt).
    { intros E. assert (Hc : bytes_Compare (rowKey (prevDomain st) (prevID st)) (rowKey d id) ≠ Gt).
      { eapply bytes_le_trans; [done|]. by rewrite Ha. }
      rewrite rowKey_cmp, E in Hc by done. done. }
    destruct (domCmp (prevDomain st) d) eqn:E; [by apply domCmp_eq in E| |done].
    destruct (domCmp d' (prevDomain st)) eqn:E'; [apply domCmp_eq in E' as ->; done| |done].
    by eapply domCmp_lt_trans. }
  assert (Hirr : domCmp d d ≠ Lt) by by rewrite (proj2 (domCmp_eq d d) eq_refl).
  split; try apply Hi.
  - intros d1 i1 i2 Hs1 Hs2 W1 W2 R1 R2.
    destruct (Hnew d1 i1 W1 Hs1 R1) as [[? ?]|S1], (Hnew d1 i2 W2 Hs2 R2) as [[? ?]|S2]; subst; try done.
    + destruct Hirr. exact (Hlt _ _ W2 S2 R2).
    + destruct Hirr. exact (Hlt _ _ W1 S1 R1).
    + by eapply (iv_unique _ _ _ _ Hi).
  - right. rewrite E1, E2, E3. split_and!; try done. intros d' id' W' S' R'.
    destruct (Hnew d' id' W' S' R') as [[-> ->]|S1]; [by rewrite (proj2 (domCmp_eq d d) eq_refl)|].
    by rewrite (Hlt d' id').
  - intros d1 i1 Ho W1 [Hs|R1]; apply (iv_same _ _ _ _ Hi); auto.
  - intros d1 i1 ts1 Ho W1 S1 R1. destruct (decide (scanned p (rowKey d1 i1))) as [S|S].
    + destruct (iv_oldest _ _ _ _ Hi d1 i1 ts1 Ho W1 S R1) as (i' & ts' & ? & ? & ? & ?).
      exists i', ts'. auto.
    + pose proof (same_row _ _ _ d1 i1 Hi Ho W1 S) as Es. exists i1, ts1. split_and!; try done; [|congruence].
      right. done.
Qed.

(** Two live rows of the domain [d], of which [w] is kept. *)
Record rivals m (p' : bytes) (d : bytes) (w l tw tl : Z) : Prop := MkRivals {
  rv_wf : wfRow d w ∧ wfRow d l;
  rv_met : scanned (Some p') (rowKey d w) ∧ scanned (Some p') (rowKey d l);
  rv_rows : row m d w = Some tw ∧ row m d l = Some tl;
  rv_older : older (tw, w) (tl, l) ∧ w ≠ l;
  rv_only i : wfRow d i → scanned (Some p') (rowKey d i) → is_Some (row m d i) → i = w ∨ i = l;
}.

Lemma inv_rivals m p st d id ts :
  inv m0 m p st → next m p (rowKey d id) → wfRow d id → row m d id = Some ts → d ≠ [] →
  prevDomain st = d →
  let tp := hTimestamp (prevHeader st) in
  if ts <? tp then rivals m (rowKey d id) d id (prevID st) ts tp
  else rivals m (rowKey d id) d (prevID st) id tp ts.
Proof.
  intros Hi Hn Hw Hr Hne Hp tp.
  destruct (iv_prev _ _ _ _ Hi) as [[E _]|(_ & Wp & Sp & Rp & _)]; [congruence|]. rewrite Hp in *. fold tp in Rp.
  assert (Hlt : prevID st < id).
  { pose proof (nx_ahead _ _ _ Hn) as Ha. destruct p as [q|]; [|done]. unfold scanned in Sp, Ha.
    apply bytes_not_le in Ha. assert (Hc : bytes_Compare (rowKey d (prevID st)) (rowKey d id) = Lt).
    { destruct (bytes_Compare (rowKey d (prevID st)) q) eqn:E; [|by eapply bytes_Compare_lt_trans|done].
      by apply bytes_Compare_eq in E as ->. }
    rewrite rowKey_cmp, (proj2 (domCmp_eq d d) eq_refl) in Hc by done. by apply Z.compare_lt_iff. }
  assert (Hself := scanned_self (rowKey d id)).
  assert (Hsp : scanned (Some (rowKey d id)) (rowKey d (prevID st)))
    by (eapply scanned_next; [apply Hn|done]).
  assert (Honly : ∀ i, wfRow d i → scanned (Some (rowKey d id)) (rowKey d i) →
    is_Some (row m d i) → i = id ∨ i = prevID st).
  { intros i Wi Si Ri. destruct (row_new m p d id d i Hn Hw Wi Si Ri) as [[_ ->]|S]; [by left|right].
    eapply (iv_unique _ _ _ _ Hi d); try done. }
  case_if; split; try done; unfold older; simpl; try lia.
  intros i Wi Si Ri. destruct (Honly i Wi Si Ri); auto.
Qed.

Section rename.
Context (m : gmap bytes bytes) (k d : bytes) (w l tw tl : Z) (vdel vlive : bytes).
Context (Hd : domains m) (Hne : d ≠ []) (R : rivals m k d w l tw tl).
Context (Hdel : is_ok (Parse vdel) ∧ liveTs vdel = None).
Context (Hlive : is_ok (Parse vlive) ∧ is_Some (liveTs vlive)).
Context (Hsize : zlen (rowKey (dupDomain l d) l) <= 511).

Definition renamed : gmap bytes bytes :=
  <[rowKey (dupDomain l d) l := vlive]> (<[rowKey d l := vdel]> m).

Lemma dup_wf : wfRow (dupDomain l d) l.
Proof using R Hsize.
  split; [|apply (proj2 (rv_wf _ _ _ _ _ _ _ R))]. unfold rowKey in Hsize. autorewrite with golen in Hsize. lia.
Qed.

Lemma dup_distinct i i' d' : dupDomain l d = d' → rowKey d i ≠ rowKey d' i'.
Proof using R Hsize.
  intros <- E. pose proof (zlen_dupDomain l d) as Hl. destruct (rv_wf _ _ _ _ _ _ _ R) as [_ [_ Hl']].
  apply (f_equal zlen) in E. unfold rowKey in E. autorewrite with golen in E. lia.
Qed.

Lemma row_renamed d' i :
  wfRow d' i →
  row renamed d' i =
    if bool_decide (d' = dupDomain l d ∧ i = l) then liveTs vlive
    else if bool_decide (d' = d ∧ i = l) then None else row m d' i.
Proof using R Hsize Hdel.
  intros W. unfold row, renamed. pose proof dup_wf as Wd. destruct (rv_wf _ _ _ _ _ _ _ R) as [_ Wl].
  case_bool_decide as E1; [destruct E1 as [-> ->]; by rewrite lookup_insert_eq|].
  rewrite lookup_insert_ne by (intros E; apply rowKey_inj in E as [? ?]; [destruct E1|..]; done).
  case_bool_decide as E2; [destruct E2 as [-> ->]; by rewrite lookup_insert_eq; apply Hdel|].
  by rewrite lookup_insert_ne by (intros E; apply rowKey_inj in E as [? ?]; [destruct E2|..]; done).
Qed.

(** Rows that are live afterwards were live before, or are the new one. *)
Lemma row_renamed_live d' i :
  wfRow d' i → is_Some (row renamed d' i) →
  (d' = dupDomain l d ∧ i = l) ∨ (row renamed d' i = row m d' i ∧ ¬ (d' = d ∧ i = l)).
Proof using R Hsize Hdel.
  intros W. rewrite row_renamed by done. case_bool_decide as E1; [by left|].
  case_bool_decide as E2; [intros H; by apply is_Some_None in H|]. by right.
Qed.

Lemma row_renamed_other d' i :
  wfRow d' i → is_Some (row m d' i) → ¬ (d' = d ∧ i = l) → is_Some (row renamed d' i).
Proof using R Hsize Hdel Hlive.
  intros W Hr Hn. rewrite row_renamed by done. case_bool_decide; [apply Hlive|].
  by rewrite bool_decide_eq_false_2.
Qed.

Lemma renamed_ahead i : wfRow d i → ¬ scanned (Some (rowKey d i)) (rowKey (dupDomain l d) l).
Proof using R Hsize.
  intros Wi. destruct (rv_wf _ _ _ _ _ _ _ R) as [_ Wl]. unfold scanned. rewrite rowKey_cmp by (done || apply dup_wf).
  rewrite domCmp_antisym, dup_later by apply Wl. simpl. intros H. by apply H.
Qed.

Lemma renamed_domains : domains renamed.
Proof using Hd R Hdel Hlive Hsize Hne.
  pose proof dup_wf as Wd. destruct (rv_wf _ _ _ _ _ _ _ R) as [_ Wl]. unfold renamed. split.
  - intros q v [[_ <-]|[_ [[_ <-]|[_ E]]%lookup_insert_Some]]%lookup_insert_Some;
      [apply Hlive|apply Hdel|by eapply dm_header].
  - intros q v [[<- <-]|[_ [[_ <-]|[_ E]]%lookup_insert_Some]]%lookup_insert_Some Hv.
    + exists (dupDomain l d), l. split; [done|]. by apply parseKey_row.
    + rewrite (proj2 Hdel) in Hv. by apply is_Some_None in Hv.
    + by eapply dm_key.
  - intros q [v [[<- _]|[_ [[<- _]|[_ E]]%lookup_insert_Some]]%lookup_insert_Some].
    + split; [|done]. unfold rowKey. autorewrite with golen. pose proof (zlen_nonneg (dupDomain l d)). lia.
    + apply (dm_size _ Hd), row_key. rewrite (proj2 (rv_rows _ _ _ _ _ _ _ R)). by eexists.
    + apply (dm_size _ Hd). by eexists.
Qed.
End rename.

Lemma older_row_trans r r' r'' : older r r' → older r' r'' → older r r''.
Proof. unfold older. lia. Qed.

(** Meeting another live row of the domain. *)
Section another.
Context (m : gmap bytes bytes) (p : option bytes) (st : fixVars) (d : bytes) (id : Z).
Context (w l tw tl : Z) (vdel vlive : bytes).
Context (Hi : inv m0 m p st) (Hn : next m p (rowKey d id)) (Hw : wfRow d id) (Hne : d ≠ []).
Context (R : rivals m (rowKey d id) d w l tw tl).
Context (Hdel : is_ok (Parse vdel) ∧ liveTs vdel = None).
Context (Hlive : is_ok (Parse vlive) ∧ is_Some (liveTs vlive)).
Context (Hsize : zlen (rowKey (dupDomain l d) l) <= 511).

Definition after : gmap bytes bytes := renamed m d l vdel vlive.

Lemma met_before k : scanned p k → scanned (Some (rowKey d id)) k.
Proof using Hn. apply scanned_next, Hn. Qed.

(** The rows met that are still live were live. *)
Lemma met_live d' i :
  wfRow d' i → scanned (Some (rowKey d id)) (rowKey d' i) → is_Some (row after d' i) →
  is_Some (row m d' i) ∧ ¬ (d' = d ∧ i = l).
Proof using R Hdel Hsize Hw.
  intros W S Rr. destruct (row_renamed_live m _ d w l tw tl vdel vlive R Hdel Hsize d' i W Rr) as [[-> ->]|[E ?]].
  - by destruct (renamed_ahead m _ d w l tw tl R Hsize id Hw).
  - by rewrite <- E.
Qed.

Lemma original_dup d' : original d' → d' ≠ dupDomain l d.
Proof using R. intros Ho. apply Ho, (proj2 (rv_wf _ _ _ _ _ _ _ R)). Qed.

Lemma after_unique d' i i' :
  scanned (Some (rowKey d id)) (rowKey d' i) → scanned (Some (rowKey d id)) (rowKey d' i') →
  wfRow d' i → wfRow d' i' → is_Some (row after d' i) → is_Some (row after d' i') → i = i'.
Proof using Hi Hn Hw R Hdel Hsize.
  intros S1 S2 W1 W2 R1 R2. destruct (met_live d' i W1 S1 R1) as [R1' N1], (met_live d' i' W2 S2 R2) as [R2' N2].
  destruct (decide (d' = d)) as [->|Hd].
  - destruct (rv_only _ _ _ _ _ _ _ R i W1 S1 R1'), (rv_only _ _ _ _ _ _ _ R i' W2 S2 R2'); subst;
      [done|by destruct N2|by destruct N1|done].
  - destruct (row_new m p d id d' i Hn Hw W1 S1 R1') as [[? _]|]; [done|].
    destruct (row_new m p d id d' i' Hn Hw W2 S2 R2') as [[? _]|]; [done|].
    by eapply (iv_unique _ _ _ _ Hi).
Qed.

Lemma after_kept d' i :
  wfRow d' i → is_Some (row m0 d' i) → ∃ d2, renames i d' d2 ∧ is_Some (row after d2 i).
Proof using Hi R Hdel Hlive Hsize.
  intros W1 R1. destruct (iv_kept _ _ _ _ Hi d' i W1 R1) as (d2 & Hren & R').
  destruct (decide (d2 = d ∧ i = l)) as [[-> ->]|Hn'].
  - exists (dupDomain l d). split; [by constructor|]. unfold row, after, renamed.
    rewrite lookup_insert_eq. apply Hlive.
  - exists d2. split; [done|].
    apply (row_renamed_other m _ d w l tw tl vdel vlive R Hdel Hlive Hsize); [|done..].
    eapply row_wf; [apply Hi|apply W1|done].
Qed.

Lemma after_known d' i :
  wfRow d' i → is_Some (row after d' i) → ∃ d2, renames i d2 d' ∧ is_Some (row m0 d2 i).
Proof using Hi R Hdel Hsize.
  intros W1 R1. destruct (row_renamed_live m _ d w l tw tl vdel vlive R Hdel Hsize d' i W1 R1) as [[-> ->]|[E _]].
  - destruct (iv_known _ _ _ _ Hi d l (proj2 (rv_wf _ _ _ _ _ _ _ R))) as (d2 & Hren & R').
    { rewrite (proj2 (rv_rows _ _ _ _ _ _ _ R)). by eexists. }
    exists d2. split; [by constructor|done].
  - unfold after in R1. rewrite E in R1. by apply (iv_known _ _ _ _ Hi).
Qed.

Lemma after_same d' i :
  original d' → wfRow d' i → ¬ scanned (Some (rowKey d id)) (rowKey d' i) ∨ is_Some (row after d' i) →
  after !! rowKey d' i = m0 !! rowKey d' i.
Proof using Hi Hn Hw R Hdel Hsize.
  intros Hor W1 Hc. destruct (rv_wf _ _ _ _ _ _ _ R) as [_ Wl]. unfold after, renamed. rewrite lookup_insert_ne.
  2:{ intros E. apply rowKey_inj in E as [E _]; [|by eapply dup_wf|done]. by apply (original_dup d'). }
  assert (Hn1 : ¬ (d' = d ∧ i = l)).
  { intros [-> ->]. destruct Hc as [Hc|Hc]; [by apply Hc, (rv_met _ _ _ _ _ _ _ R)|].
    by apply (met_live d l W1 (proj2 (rv_met _ _ _ _ _ _ _ R)) Hc). }
  rewrite lookup_insert_ne by (intros E; apply rowKey_inj in E as [<- <-]; [by apply Hn1|done..]).
  apply (iv_same _ _ _ _ Hi); try done. destruct Hc as [Hs|Hr]; [left; intros Hp; by apply Hs, met_before|right].
  destruct (row_renamed_live m _ d w l tw tl vdel vlive R Hdel Hsize d' i W1 Hr) as [[E _]|[E _]].
  - by destruct (original_dup d').
  - by rewrite <- E.
Qed.

(** A row of another name, or the kept one, has not changed. *)
Lemma after_row d' i :
  original d' → wfRow d' i → ¬ (d' = d ∧ i = l) → row after d' i = row m d' i.
Proof using R Hdel Hsize.
  intros Hor W1 Hn1. unfold after. rewrite (row_renamed m _ d w l tw tl vdel vlive R Hdel Hsize d' i W1).
  rewrite (bool_decide_eq_false_2 (d' = d ∧ i = l)) by done. rewrite bool_decide_eq_false_2; [done|].
  intros [E _]. by destruct (original_dup d').
Qed.

Lemma after_oldest d' i ts :
  original d' → wfRow d' i → scanned (Some (rowKey d id)) (rowKey d' i) → row m0 d' i = Some ts →
  ∃ i' ts', wfRow d' i' ∧ scanned (Some (rowKey d id)) (rowKey d' i') ∧ older (ts', i') (ts, i) ∧
    row after d' i' = Some ts'.
Proof using Hi Hn R Hdel Hsize.
  intros Hor W1 S1 R1.
  assert (Hold : ∃ i' ts', wfRow d' i' ∧ scanned (Some (rowKey d id)) (rowKey d' i') ∧
    older (ts', i') (ts, i) ∧ row m d' i' = Some ts').
  { destruct (decide (scanned p (rowKey d' i))) as [S|S].
    - destruct (iv_oldest _ _ _ _ Hi d' i ts Hor W1 S R1) as (i' & ts' & ? & ? & ? & ?). exists i', ts'.
      split_and!; try done. by apply met_before.
    - pose proof (same_row _ _ _ d' i Hi Hor W1 S) as Es. exists i, ts.
      split_and!; try done; [by right|congruence]. }
  destruct Hold as (i' & ts' & Wi & Si & Oi & Ri).
  destruct (decide (d' = d ∧ i' = l)) as [[-> ->]|Nl].
  - destruct (rv_older _ _ _ _ _ _ _ R) as [Ho Hwl]. destruct (rv_rows _ _ _ _ _ _ _ R) as [Rw Rl].
    exists w, tw. rewrite after_row; [|done|apply R|by intros [_ ?]]. split_and!; [apply R..| |done].
    assert (ts' = tl) as -> by congruence. by eapply older_row_trans.
  - exists i', ts'. by rewrite after_row.
Qed.

Lemma inv_rename st' :
  prevDomain st = d → prevDomain st' = d → prevID st' = w → hTimestamp (prevHeader st') = tw →
  inv m0 after (Some (rowKey d id)) st'.
Proof using Hi Hn Hw Hne R Hdel Hlive Hsize.
  intros Hp E1 E2 E3. split; [eapply renamed_domains; try done; apply Hi|exact after_unique| |
    exact after_kept|exact after_known|exact after_same|exact after_oldest].
  destruct (rv_wf _ _ _ _ _ _ _ R) as [Ww Wl]. destruct (rv_rows _ _ _ _ _ _ _ R) as [Rw _].
  destruct (rv_older _ _ _ _ _ _ _ R) as [_ Hwl].
  right. rewrite E1, E2, E3. split_and!; try done; [apply R| |].
  - unfold after. rewrite (row_renamed m _ d w l tw tl vdel vlive R Hdel Hsize d w Ww).
    rewrite (bool_decide_eq_false_2 (d = d ∧ w = l)) by tauto. rewrite bool_decide_eq_false_2; [done|].
    by intros [_ ?].
  - intros d1 i1 W1 S1 R1. destruct (met_live d1 i1 W1 S1 R1) as [R1' N1].
    destruct (row_new m p d id d1 i1 Hn Hw W1 S1 R1') as [[-> _]|S]; [by rewrite (proj2 (domCmp_eq d d) eq_refl)|].
    destruct (iv_prev _ _ _ _ Hi) as [[E _]|(_ & _ & _ & _ & Hle)]; [congruence|].
    rewrite <- Hp. by eapply Hle.
Qed.
End another.
End rows.

(** When everything has been met, the database is fixed. *)
Lemma inv_end m0 m p st :
  inv m0 m p st → (∀ k, is_Some (m !! k) → scanned p k) → fixed m0 m.
Proof.
  intros Hi Hall. assert (Hs : ∀ d id, is_Some (row m d id) → scanned p (rowKey d id)).
  { intros d id Hr. by apply Hall, row_key. }
  split; [|apply Hi|apply Hi|].
  - intros d i i' R1 R2 W1 W2. eapply (iv_unique _ _ _ _ Hi d); eauto.
  - intros d i ts Ho W R. destruct (decide (scanned p (rowKey d i))) as [S|S].
    + destruct (iv_oldest _ _ _ _ Hi d i ts Ho W S R) as (i' & ts' & W' & S' & O' & R').
      exists i', ts'. split_and!; try done. apply (iv_same _ _ _ _ Hi); [done..|right]. by eexists.
    + pose proof (same_row _ _ _ _ _ _ Hi Ho W S) as E. rewrite R in E.
      destruct S. apply Hs. by eexists.
Qed.

(** ** Termination

    A renaming makes a key at least fourteen bytes longer, so a row can cause
    only as many visits as fit into the size of a key. *)

Definition visits (k : bytes) : nat := Z.to_nat ((525 - zlen k) / 14).
Definition weight (q : list (bytes * bytes)) : nat := sum_list (visits <$> q.*1).

Lemma visits_pos k : zlen k <= 511 → (1 <= visits k)%nat.
Proof. intros H. unfold visits. assert (1 <= (525 - zlen k) / 14) by (apply Z.div_le_lower_bound; lia). lia. Qed.

Lemma visits_longer k k' : zlen k + 14 <= zlen k' → zlen k' <= 511 → (S (visits k') <= visits k)%nat.
Proof.
  intros H H'. unfold visits. assert (0 <= (525 - zlen k') / 14) by (apply Z.div_pos; lia).
  assert ((525 - zlen k') / 14 + 1 <= (525 - zlen k) / 14); [|lia].
  rewrite <- Z.div_add by lia. apply Z.div_le_mono; lia.
Qed.

Lemma weight_subset (q q' : list (bytes * bytes)) k :
  NoDup q'.*1 → (∀ e, e ∈ q' → e.1 = k ∨ e.1 ∈ q.*1) → (weight q' <= visits k + weight q)%nat.
Proof.
  intros Hnd Hs. assert (Hsub : q'.*1 ⊆+ k :: q.*1).
  { apply NoDup_submseteq; [done|]. intros x (e & -> & He)%list_elem_of_fmap. apply elem_of_cons. auto. }
  unfold weight. apply (fmap_submseteq visits) in Hsub. rewrite fmap_cons in Hsub.
  change (visits k + sum_list (visits <$> q.*1))%nat with (sum_list (visits k :: (visits <$> q.*1))).
  induction Hsub; simpl in *; lia.
Qed.

Lemma domain_keys_unique f (q : list (bytes * bytes)) : ascending f q → NoDup q.*1.
Proof.
  induction 1 as [|x q _ IH Hx]; [constructor|]. rewrite fmap_cons. apply list.NoDup_cons. split; [|done].
  intros (e & E & He%list_elem_of_In)%list_elem_of_fmap. rewrite List.Forall_forall in Hx.
  apply Hx in He. by rewrite E, lmdb_cmp_refl in He.
Qed.

Section laws.
Context `{V : LMDBView} `{HL : !LMDBLaws L V} {SC : LMDBScan L} {W : LMDBScanView L SC}.
Context `{SL : !LMDBScanLaws L V SC W} (now : nat → Z) (h : DBIh).

(** A database without any flags. *)
Definition flagless (t : Txn) : Prop := plain t h ∧ dflags t h = 0.

Lemma flagless_framed t t' : flagless t → framed t t' h → plain t' h → flagless t'.
Proof using. intros [_ E] Hf Hp. split; [done|]. by rewrite (framed_flags h _ _ Hf). Qed.

(** The rows the scan has not met. *)
Definition ahead (t : Txn) (p : option bytes) : list (bytes * bytes) :=
  match p with None => entries t h | Some k => afterKey t h k end.

Lemma ahead_elem t p e : flagless t → e ∈ ahead t p ↔ dbm t h !! e.1 = Some e.2 ∧ ¬ scanned p e.1.
Proof using HL.
  intros [[Hu Hk _] Ef]. destruct p as [k|]; unfold ahead, scanned.
  - unfold afterKey. rewrite list_elem_of_filter, entries_elem, Ef by done.
    rewrite bytes_not_le. unfold lmdb_cmp. simpl. tauto.
  - rewrite entries_elem by done. tauto.
Qed.

Lemma ahead_sorted t p : flagless t → ascending 0 (ahead t p).
Proof using HL.
  intros [[Hu Hk _] Ef]. assert (ascending 0 (entries t h)) as Hs.
  { unfold ascending. rewrite <- Ef. by apply entries_sorted. }
  destruct p; [|done]. by apply ascending_filter.
Qed.

Lemma ahead_next t p k v q :
  flagless t → ahead t p = (k, v) :: q → next (dbm t h) p k ∧ dbm t h !! k = Some v ∧ ahead t (Some k) = q.
Proof using HL.
  intros Hf E. pose proof (ahead_sorted t p Hf) as Hs. rewrite E in Hs.
  apply StronglySorted_cons in Hs as [Hlt Hq]. rewrite List.Forall_forall in Hlt.
  destruct (proj1 (ahead_elem t p (k, v) Hf)) as [Hkv Hn]; [rewrite E; left|].
  assert (Hfirst : ∀ e, dbm t h !! e.1 = Some e.2 → ¬ scanned p e.1 → e = (k, v) ∨ e ∈ q).
  { intros e He Hs. assert (Hin : e ∈ ahead t p) by by apply ahead_elem. rewrite E in Hin. by apply elem_of_cons. }
  split; [split; [done|]|split; [done|]].
  - intros k' [v' Hv'] Hs. destruct (Hfirst (k', v') Hv' Hs) as [[= -> ->]|Hin]; [by rewrite bytes_Compare_refl|].
    apply list_elem_of_In, Hlt in Hin. unfold lmdb_cmp in Hin. simpl in Hin. by rewrite Hin.
  - apply (ascending_ext 0); [by apply ahead_sorted|done|]. intros e. rewrite ahead_elem by done. split.
    + intros [He Hs]. destruct (Hfirst e He) as [->|]; [|by destruct Hs; apply scanned_self|done].
      intros Hp. by apply Hs, (scanned_next p).
    + intros He. assert (Hin : e ∈ ahead t p) by (rewrite E; by right).
      apply ahead_elem in Hin as [He' _]; [|done]. split; [done|]. apply list_elem_of_In, Hlt in He.
      unfold scanned. by apply bytes_not_le.
Qed.

(** ** The scan *)

Definition patchValue (t : Txn) (time : Z) (flags : Flags) : bytes :=
  layout (TimestampFromTime time) (uint64 (txn_ID t)) 0 flags (replicate 4 Byte.x00) 0 [].

Lemma patchDomain_put t time d id flags :
  zlen d < 65536 →
  patchDomain h t time d id flags = txn_Put t h (rowKey d id) (patchValue t time flags) 0.
Proof using.
  intros Hd. pose proof (zlen_nonneg d) as Hd0. unfold patchDomain.
  assert (Eu : uint16 (zlen d) = zlen d) by (apply Z.mod_small; lia). rewrite Eu.
  assert (S1 := splice_tail [] (be_put 2 (zlen d)) Byte.x00 (2 + length d + 4)).
  rewrite !length_be_put in S1. rewrite zlen_nil, !app_nil_l in S1. rewrite S1, bind_ok by lia.
  replace (2 + length d + 4 - 2)%nat with (length d + 4)%nat by lia.
  assert (S2 := copy_at_tail (be_put 2 (zlen d)) d Byte.x00 (length d + 4)).
  rewrite zlen_be_put in S2. change (Z.of_nat 2) with 2 in S2. rewrite S2, bind_ok by lia.
  replace (length d + 4 - length d)%nat with 4%nat by lia.
  assert (S3 := splice_tail (be_put 2 (zlen d) ++ d) (be_put 4 id) Byte.x00 4).
  rewrite !length_be_put in S3. autorewrite with golen in S3. change (Z.of_nat 2) with 2 in S3.
  rewrite S3, bind_ok by lia. rewrite Nat.sub_diag, app_nil_r.
  rewrite PutBasic_layout, bind_ok by done. rewrite drop_ge, app_nil_r by done.
  unfold rowKey. by rewrite <- app_assoc.
Qed.

Lemma patchValue_live t time :
  is_ok (Parse (patchValue t time NoFlags)) ∧ is_Some (liveTs (patchValue t time NoFlags)).
Proof using.
  pose proof (parse_layout (TimestampFromTime time) (uint64 (txn_ID t)) NoFlags 0 (replicate 4 Byte.x00) [] []) as E.
  rewrite app_nil_r in E. unfold liveTs, patchValue. rewrite E; try done; try (apply Z.mod_pos_bound; lia).
  split; by eexists.
Qed.

Lemma patchValue_deleted t time :
  is_ok (Parse (patchValue t time FlagDeleted)) ∧ liveTs (patchValue t time FlagDeleted) = None.
Proof using.
  pose proof (parse_layout (TimestampFromTime time) (uint64 (txn_ID t)) FlagDeleted 0 (replicate 4 Byte.x00) [] []) as E.
  rewrite app_nil_r in E. unfold liveTs, patchValue. rewrite E; try done; try (apply Z.mod_pos_bound; lia).
  split; by eexists.
Qed.

(** A renaming writes both rows, or fails on a key that is too long. *)
Lemma rename_rows t d id t1 t2 :
  flagless t → wfRow d id → is_Some (dbm t h !! rowKey d id) →
  (∃ t', (t ← patchDomain h t t1 d id FlagDeleted;
          patchDomain h t t2 (dupDomain id d) id NoFlags) = Ok t' ∧
     framed t t' h ∧ flagless t' ∧ zlen (rowKey (dupDomain id d) id) <= 511 ∧
     dbm t' h = renamed (dbm t h) d id (patchValue t t1 FlagDeleted) (patchValue t t2 NoFlags)) ∨
  ((t ← patchDomain h t t1 d id FlagDeleted;
    patchDomain h t t2 (dupDomain id d) id NoFlags) = Err (ELmdb lmdb_BadValSize) ∧
   511 < zlen (rowKey (dupDomain id d) id)).
Proof using HL.
  intros Hf [Wd Wi] Hk. pose proof (pl_keys _ _ (proj1 Hf) _ Hk) as Hkey.
  rewrite patchDomain_put by lia.
  destruct (put_plain t h (rowKey d id) (patchValue t t1 FlagDeleted) (proj1 Hf) Hkey)
    as (ta & -> & Em & Hfr & Hp). rewrite bind_ok.
  pose proof (flagless_framed t ta Hf Hfr Hp) as Hfa.
  assert (Hlen : zlen (dupDomain id d) < 65536).
  { pose proof (zlen_dupDomain id d ltac:(lia)). destruct Hkey as [Hkey _]. unfold rowKey in Hkey.
    autorewrite with golen in Hkey. lia. }
  rewrite patchDomain_put by lia.
  assert (Hid : txn_ID ta = txn_ID t) by (by destruct Hfr as (_ & _ & _ & _ & ?)).
  destruct (Z.le_gt_cases (zlen (rowKey (dupDomain id d) id)) 511) as [Hle|Hgt]; [left|right].
  - assert (Hkey' : key_ok ta h (rowKey (dupDomain id d) id)).
    { split; [|by rewrite (proj2 Hfa)]. split; [|done]. unfold rowKey. autorewrite with golen.
      pose proof (zlen_nonneg (dupDomain id d)). lia. }
    destruct (put_plain ta h _ (patchValue ta t2 NoFlags) Hp Hkey') as (tb & -> & Em' & Hfr' & Hp').
    exists tb. split; [done|]. split; [by eapply framed_trans|].
    split; [by eapply (flagless_framed ta)|]. split; [done|].
    rewrite Em', Em. unfold patchValue. by rewrite Hid.
  - split; [|lia]. apply put_badkey. lia.
Qed.

(** Two zones that come to have the same name, of which one has no room for a
    further name in a key. *)
Definition tooLong (m0 : gmap bytes bytes) : Prop :=
  ∃ d i j di dj, i ≠ j ∧ wfRow d i ∧ wfRow d j ∧ renames i di d ∧ is_Some (row m0 di i) ∧
    renames j dj d ∧ is_Some (row m0 dj j) ∧ 511 < zlen (rowKey (dupDomain i d) i).

Section run.
Context (m0 : gmap bytes bytes).

(** The rows ahead of a renaming are those before and the new one. *)
Lemma weight_renamed t t' k d l vdel vlive :
  flagless t → flagless t' → zlen k = zlen (rowKey d l) → zlen (rowKey (dupDomain l d) l) <= 511 →
  0 <= l → scanned (Some k) (rowKey d l) →
  dbm t' h = renamed (dbm t h) d l vdel vlive →
  (weight (ahead t' (Some k)) < visits k + weight (ahead t (Some k)))%nat.
Proof using HL.
  intros Hf Hf' Hk Hs Hl Hsc Em.
  assert (Hv : (S (visits (rowKey (dupDomain l d) l)) <= visits k)%nat).
  { apply visits_longer; [|done]. pose proof (zlen_dupDomain l d Hl). rewrite Hk. unfold rowKey.
    autorewrite with golen. lia. }
  assert (Hw : (weight (ahead t' (Some k)) <= visits (rowKey (dupDomain l d) l) + weight (ahead t (Some k)))%nat);
    [|lia].
  apply weight_subset; [eapply domain_keys_unique, ahead_sorted; done|].
  intros e [He Hn]%ahead_elem; [|done]. rewrite Em in He. unfold renamed in He.
  apply lookup_insert_Some in He as [[? _]|[_ He]]; [by left|].
  apply lookup_insert_Some in He as [[E _]|[_ He]]; [by rewrite <- E in Hn|].
  right. apply list_elem_of_fmap. exists e. split; [done|]. by apply ahead_elem.
Qed.

Lemma fixRow_step t p k v st :
  flagless t → inv m0 (dbm t h) p st → next (dbm t h) p k → dbm t h !! k = Some v →
  (∃ t' st', fixRow now true h t k v st = Ok (t', st') ∧ framed t t' h ∧ flagless t' ∧
     inv m0 (dbm t' h) (Some k) st' ∧
     (weight (ahead t' (Some k)) < visits k + weight (ahead t (Some k)))%nat) ∨
  (fixRow now true h t k v st = Err (ELmdb lmdb_BadValSize) ∧ tooLong m0).
Proof using HL.
  intros Hf Hi Hn Hkv. pose proof (iv_domains _ _ _ _ Hi) as Hd.
  pose proof (visits_pos k (proj2 (dm_size _ Hd k (mk_is_Some _ _ Hkv)))) as Hvis.
  destruct (dm_header _ Hd k v Hkv) as [[hdr app] Hpar]. unfold fixRow. rewrite Hpar. cbn [wrap_err].
  rewrite bind_ok. destruct (IsDeleted (hFlags hdr)) eqn:Hdel.
  { left. exists t, st. split; [done|]. split; [apply framed_refl|]. split; [done|]. split; [|lia].
    eapply inv_skip; try done. unfold liveTs. by rewrite Hpar, Hdel. }
  assert (Hl : liveTs v = Some (hTimestamp hdr)) by (unfold liveTs; by rewrite Hpar, Hdel).
  destruct (dm_key _ Hd k v Hkv ltac:(by rewrite Hl)) as (d & id & Hne & Hk). rewrite Hk, bind_ok.
  apply parseKey_inv in Hk as [-> Hw].
  assert (Hrow : row (dbm t h) d id = Some (hTimestamp hdr)) by (unfold row; by rewrite Hkv).
  set (del := if HasSuffix _ _ && _ then domainsToDelete st ++ _ else _). clearbody del. case_bool_decide as Hp.
  2:{ left. eexists t, _. split; [done|]. split; [apply framed_refl|]. split; [done|]. split; [|lia].
      by eapply inv_first. }
  pose proof (inv_rivals m0 _ p st d id _ Hi Hn Hw Hrow Hne Hp) as Hriv. cbv zeta in Hriv.
  set (tp := hTimestamp (prevHeader st)) in *. set (idn := if negb _ then id else prevID st).
  assert (Hr : ∃ wi tw tl, rivals (dbm t h) (rowKey d id) d wi idn tw tl ∧
    wi = (if hTimestamp hdr <? tp then id else prevID st) ∧
    tw = (if hTimestamp hdr <? tp then hTimestamp hdr else tp)).
  { unfold idn. destruct (hTimestamp hdr <? tp); cbn [negb]; by do 3 eexists. }
  destruct Hr as (wi & tw & tl & R & Ewi & Etw). destruct (rv_wf _ _ _ _ _ _ _ R) as [Ww Wl].
  destruct (rv_rows _ _ _ _ _ _ _ R) as [_ Rl]. destruct (rv_met _ _ _ _ _ _ _ R) as [_ Sl].
  destruct (rename_rows t d idn (now (clockReads st)) (now (S (clockReads st))) Hf Wl
    (row_key _ _ _ ltac:(by eexists))) as [(t' & E & Hfr & Hf' & Hs & Em)|[E Hbig]].
  - left. destruct (patchDomain h t (now (clockReads st)) d idn FlagDeleted); try discriminate E.
    rewrite bind_ok in E. rewrite bind_ok, E, !bind_ok.
    assert (Hinv : ∀ st', prevDomain st' = d → prevID st' = wi → hTimestamp (prevHeader st') = tw →
      inv m0 (dbm t' h) (Some (rowKey d id)) st').
    { intros st' ???. rewrite Em. eapply inv_rename; try done; [apply patchValue_deleted|apply patchValue_live]. }
    assert (Hwt : (weight (ahead t' (Some (rowKey d id))) <
      visits (rowKey d id) + weight (ahead t (Some (rowKey d id))))%nat).
    { refine (weight_renamed t t' _ d idn _ _ Hf Hf' _ Hs _ Sl Em); [|apply Wl].
      unfold rowKey. by autorewrite with golen. }
    destruct (hTimestamp hdr <? tp) eqn:Elt; cbn [negb]; eexists t', _;
      (split; [done|]; split; [done|]; split; [done|]; split; [|done]);
      apply Hinv; rewrite ?Ewi, ?Etw; done.
  - right. split.
    + destruct (patchDomain h t (now (clockReads st)) d idn FlagDeleted) eqn:Ep; try discriminate E.
      * rewrite bind_ok in E. by rewrite bind_ok, E.
      * injection E as ->. done.
    + destruct (rv_rows _ _ _ _ _ _ _ R) as [Rw _]. destruct (rv_older _ _ _ _ _ _ _ R) as [_ Hne'].
      destruct (iv_known _ _ _ _ Hi d idn Wl) as (di & Hi1 & Hi2); [by eexists|].
      destruct (iv_known _ _ _ _ Hi d wi Ww) as (dj & Hj1 & Hj2); [by eexists|].
      exists d, idn, wi, di, dj. done.
Qed.

(** The whole scan ends, with a fixed database or at a key that is too long. *)
Lemma fixLoop_ok fuel t sc p st :
  flagless t → sc_db sc = h → sc_todo t sc = ahead t p → inv m0 (dbm t h) p st →
  (weight (ahead t p) < fuel)%nat →
  (∃ t' st', fixLoop now true fuel h t sc st = Ok (t', st') ∧ framed t t' h ∧ fixed m0 (dbm t' h)) ∨
  (fixLoop now true fuel h t sc st = Err (ELmdb lmdb_BadValSize) ∧ tooLong m0).
Proof using HL SL.
  revert t sc p st. induction fuel as [|fuel IH]; intros t sc p st Hf Hdb Htodo Hi Hw; [lia|].
  cbn [fixLoop]. destruct (ahead t p) as [|[k v] q] eqn:Ea.
  { destruct (scan_end t sc) as (sc' & -> & _ & ->); [rewrite Hdb; apply Hf|done|].
    left. exists t, st. split; [done|]. split; [apply framed_refl|]. eapply inv_end; [done|].
    intros k [v Hv]. destruct (decide (scanned p k)) as [|Hn]; [done|].
    assert (Hin : (k, v) ∈ ahead t p) by by apply ahead_elem. rewrite Ea in Hin. by apply not_elem_of_nil in Hin. }
  destruct (ahead_next t p k v q Hf Ea) as (Hn & Hkv & Hq).
  destruct (scan_step t sc (k, v) q) as (sc' & -> & Hdb' & Hcur & Hat & _ & _);
    [rewrite Hdb; apply Hf|rewrite Hdb; apply Hf|done|].
  rewrite sc_key_cur, sc_val_cur, Hcur. cbn [fmap option_fmap option_map fst snd gdata default].
  change (weight ((k, v) :: q)) with (visits k + weight q)%nat in Hw. rewrite <- Hq in Hw.
  destruct (fixRow_step t p k v st Hf Hi Hn Hkv) as [(t' & st' & E & Hfr & Hf' & Hi' & Hwt)|[E Hbig]].
  2:{ right. split; [|done]. simpl. by rewrite E. }
  simpl. rewrite E, bind_ok.
  assert (Htodo' : sc_todo t' sc' = ahead t' (Some k)).
  { rewrite (scan_at t' sc' k); [|rewrite Hdb', Hdb; apply Hf'..|done]. by rewrite Hdb', Hdb. }
  destruct (IH t' sc' (Some k) st' Hf' ltac:(congruence) Htodo' Hi' ltac:(lia))
    as [(t2 & st2 & E2 & Hfr2 & Hfix)|]; [left|by right].
  exists t2, st2. split; [done|]. split; [by eapply framed_trans|done].
Qed.
End run.

(** Names that end in the number of another zone are not made by this command,
    and names of zones are short: a DNS name has at most 255 bytes. *)
Record named (m : gmap bytes bytes) : Prop := MkNamed {
  nm_own d id i d' :
    wfRow d id → is_Some (row m d id) → 0 <= i < 2 ^ 32 → d = dupDomain i d' → i = id;
  nm_short d id : wfRow d id → is_Some (row m d id) → zlen d <= 472;
}.

(** Under these conditions only names of the start are shared. *)
Lemma named_short m : named m → ¬ tooLong m.
Proof using.
  intros [Hown Hsh] (d & i & j & di & dj & Hij & Wi & Wj & Ri & Li & Rj & Lj & Hbig).
  pose proof (zlen_dupDomain i d ltac:(apply Wi)) as Hdup.
  assert (Hbig' : 472 < zlen d) by (unfold rowKey in Hbig; autorewrite with golen in Hbig; lia).
  destruct Ri as [|di d1]; [by pose proof (Hsh _ _ Wi Li); lia|].
  remember (dupDomain i d1) as x eqn:E. destruct Rj as [x|dj d2].
  - apply Hij. eapply (Hown _ j i d1); [done|done|apply Wi|done].
  - apply dupDomain_inj in E as [? _]; [congruence|apply Wj|apply Wi].
Qed.
End laws.

Section command.
Context `{V : LMDBView} `{HL : !LMDBLaws L V} {SC : LMDBScan L} {W : LMDBScanView L SC}.
Context `{SL : !LMDBScanLaws L V SC W} (now : nat → Z).

(** The main database of a PowerDNS server with schema version 5. *)
Record pdnsMain (t : Txn) (hp h : DBIh) : Prop := MkPdnsMain {
  pm_pdns : dbi_of t (str "pdns") = Some hp;
  pm_plain : plain t hp;
  pm_version : ∃ val, dbm t hp !! str "schemaversion" = Some val ∧ Skip val = Ok (be_put 4 5);
  pm_domains : dbi_of t (str "domains_v5_0") = Some h;
  pm_flags : flagless h t;
  pm_rows : domains (dbm t h);
}.

Lemma fixTxn_loop fuel doRename t hp h :
  pdnsMain t hp h → fixTxn now doRename fuel t = fixLoop now doRename fuel h t (sc_New t h) fixStart.
Proof using HL.
  intros [E1 Hp (val & Ev & Es) E2 Hf _]. unfold fixTxn. rewrite (open_existing _ _ _ _ E1), bind_ok.
  rewrite get_entry, Ev, bind_ok; [|apply Hp|].
  2:{ split; [done|]. by rewrite (pl_bytes _ _ Hp). }
  rewrite Es, bind_ok. change (zlen (be_put 4 5) =? 4) with true. cbn [negb].
  change (be_get (be_put 4 5) =? 5) with true. cbn [negb].
  by rewrite (open_existing _ _ _ _ E2), bind_ok.
Qed.

Lemma weight_bound (q : list (bytes * bytes)) : (weight q <= 37 * length q)%nat.
Proof using.
  induction q as [|[k v] q IH]; [done|].
  change (weight ((k, v) :: q)) with (visits k + weight q)%nat. change (length ((k, v) :: q)) with (S (length q)).
  assert (visits k <= 37)%nat; [|lia]. unfold visits. pose proof (zlen_nonneg k).
  assert ((525 - zlen k) / 14 <= 525 / 14) by (apply Z.div_le_mono; lia).
  change (525 / 14) with 37 in *. lia.
Qed.

(** C14: with renaming the command ends and leaves no two live rows with the
    same name.  Of the zones that share a name the oldest keeps it, and of
    zones of the same age the first; its row is untouched.  Every zone of the
    start still has a live row with its number, under its name or a renamed
    one, and no other zone appears. *)
Theorem duplicates_fixed fuel t hp h :
  pdnsMain t hp h → named (dbm t h) → (37 * length (entries t h) < fuel)%nat →
  ∃ t' st, fixTxn now true fuel t = Ok (t', st) ∧ framed t t' h ∧ fixed (dbm t h) (dbm t' h).
Proof using HL SL.
  intros Hm Hn Hfuel. rewrite (fixTxn_loop _ _ _ _ _ Hm). pose proof (pm_flags _ _ _ Hm) as Hf.
  destruct (scan_new t h (pl_uniq _ _ (proj1 Hf))) as (E1 & _ & E3).
  pose proof (weight_bound (entries t h)) as Hw.
  destruct (fixLoop_ok now h (dbm t h) fuel t (sc_New t h) None fixStart Hf E1 E3
    (inv_start _ (pm_rows _ _ _ Hm))) as [?|[_ Hbig]]; [simpl; lia|done|].
  by destruct (named_short _ Hn Hbig).
Qed.

(** Without renaming nothing is written. *)
Theorem dry_run_writes_nothing fuel t t' st :
  fixTxn now false fuel t = Ok (t', st) → (∀ n h, dbi_of t n = Some h → txn_OpenDBI t n 0 = Ok (t, h)) →
  is_Some (dbi_of t (str "pdns")) → is_Some (dbi_of t (str "domains_v5_0")) → t' = t.
Proof using.
  intros E Ho [hp Hp] [h Hh]. unfold fixTxn in E. rewrite (Ho _ _ Hp), bind_ok in E.
  destruct (txn_Get t hp _) as [val| | |]; try discriminate E. rewrite bind_ok in E.
  destruct (Skip val) as [v| | |]; try discriminate E. rewrite bind_ok in E.
  do 2 (case_if_in E; [discriminate E|]). rewrite (Ho _ _ Hh), bind_ok in E.
  assert (Hrow : ∀ k v st t1 st1, fixRow now false h t k v st = Ok (t1, st1) → t1 = t).
  { clear. intros k v st t1 st1 E. unfold fixRow in E.
    destruct (Parse v) as [[hdr ?]| | |]; try discriminate E. cbn [wrap_err] in E. rewrite bind_ok in E.
    case_if_in E; [by injection E|]. destruct (parseKey k) as [[d id]| | |]; try discriminate E.
    rewrite bind_ok in E. case_if_in E; [|by injection E]. rewrite bind_ok in E.
    case_if_in E; by injection E. }
  revert E. generalize (sc_New t h). generalize fixStart. induction fuel as [|fuel IH]; intros s sc E; [done|].
  cbn [fixLoop] in E. destruct (sc_Scan t sc) as [sc' []].
  - destruct (fixRow now false h t _ _ s) as [[t1 s1]| | |] eqn:Er; try discriminate E.
    apply Hrow in Er as ->. rewrite bind_ok in E. by eapply IH.
  - destruct (sc_Err sc'); [done|]. by injection E.
Qed.
End command.

(** ** Examples on the reference environment *)

Section examples.
#[local] Existing Instances Ref.RefLMDB Ref.RefView Ref.RefLMDB_laws
  RefScan.RefScanner RefScan.RefScanView RefScan.RefScan_laws.

Lemma rows_of_list (l : list (bytes * bytes)) (P : bytes → Z → Prop) :
  Forall (λ e, match parseKey e.1 with Ok (d, id) => P d id | _ => True end) l →
  ∀ d id, wfRow d id → is_Some (row (list_to_map l) d id) → P d id.
Proof.
  intros Hl d id Hw [ts Hr]. unfold row in Hr.
  destruct ((list_to_map l : gmap bytes bytes) !! rowKey d id) as [v|] eqn:E; [|done].
  apply elem_of_list_to_map_2, list_elem_of_In in E. rewrite Forall_forall in Hl. specialize (Hl _ E).
  simpl in Hl. by rewrite (parseKey_row d id Hw) in Hl.
Qed.

Definition exVersion : list (bytes * bytes) := [(str "schemaversion", ex_value 1 0 (be_put 4 5))].
Definition exName : bytes := str "com" ++ [Byte.x00] ++ str "example".
Definition exRows : list (bytes * bytes) :=
  [(rowKey (str "org") 3, ex_value 50 0 []);
   (rowKey exName 1, ex_value 200 0 []); (rowKey exName 2, ex_value 100 0 [])].

Definition exMain (rows : list (bytes * bytes)) : @Txn Ref.RefLMDB :=
  Ref.MkTxn 9 (<[str "pdns" := Ref.MkDb 0 (list_to_map exVersion) []]>
                {[ str "domains_v5_0" := Ref.MkDb 0 (list_to_map rows) [] ]}).

Definition exNow (n : nat) : Z := 1000 + Z.of_nat n.

Lemma exMain_pdns rows :
  plain (exMain rows) (Some (str "pdns")) ∧ dbm (exMain rows) (Some (str "pdns")) = list_to_map exVersion.
Proof. apply ref_plain; [done|]. apply (bool_decide_unpack _). by vm_compute. Qed.

Lemma exMain_rows :
  plain (exMain exRows) (Some (str "domains_v5_0")) ∧
  dbm (exMain exRows) (Some (str "domains_v5_0")) = list_to_map exRows.
Proof. apply ref_plain; [done|]. apply (bool_decide_unpack _). by vm_compute. Qed.

Lemma domains_of_list (l : list (bytes * bytes)) :
  Forall (λ e, is_ok (Parse e.2)) l →
  Forall (λ e, match parseKey e.1 with Ok (d, _) => d ≠ [] | _ => False end) l →
  Forall (λ e, 1 <= zlen e.1 <= 511) l → domains (list_to_map l).
Proof.
  intros H1 H2 H3. rewrite !Forall_forall in *.
  assert (Hin : ∀ k v, (list_to_map l : gmap bytes bytes) !! k = Some v → In (k, v) l).
  { intros k v E. by apply elem_of_list_to_map_2, list_elem_of_In in E. }
  split.
  - intros k v E%Hin. by apply (H1 _ E).
  - intros k v E%Hin _. specialize (H2 _ E). simpl in H2.
    destruct (parseKey k) as [[d id]| | |]; try done. by exists d, id.
  - intros k [v E%Hin]. by apply (H3 _ E).
Qed.

Lemma exRows_domains : domains (list_to_map exRows).
Proof.
  apply domains_of_list; [repeat constructor; by eexists|repeat constructor; by vm_compute|].
  apply (bool_decide_unpack _). by vm_compute.
Qed.

Lemma exRows_named : named (list_to_map exRows).
Proof.
  split.
  - intros d id i d' Hw Hr Hi E. exfalso. revert Hw Hr.
    assert (Ht : take 7 d = str "invalid") by by rewrite E. intros Hw Hr. revert Ht.
    apply (rows_of_list exRows (λ d _, take 7 d ≠ str "invalid")) with (id := id); [|done..].
    repeat constructor; by vm_compute.
  - apply rows_of_list. repeat constructor; by vm_compute.
Qed.

Lemma exMain_main : pdnsMain (exMain exRows) (Some (str "pdns")) (Some (str "domains_v5_0")).
Proof.
  split; [by vm_compute|apply exMain_pdns| |by vm_compute| |].
  - rewrite (proj2 (exMain_pdns exRows)). exists (ex_value 1 0 (be_put 4 5)). split; by vm_compute.
  - split; [apply exMain_rows|by vm_compute].
  - rewrite (proj2 exMain_rows). apply exRows_domains.
Qed.

Lemma exMain_entries :
  entries (exMain exRows) (Some (str "domains_v5_0") : @DBIh Ref.RefLMDB) = exRows.
Proof. by vm_compute. Qed.

(** The zone with number 1 is newer than the zone with number 2. *)
Lemma duplicates_fixed_witness : ∃ t' st,
  fixTxn exNow true 200 (exMain exRows) = Ok (t', st) ∧
  ∀ id id', wfRow exName id → wfRow exName id' →
    is_Some (row (dbm t' (Some (str "domains_v5_0") : @DBIh Ref.RefLMDB)) exName id) →
    is_Some (row (dbm t' (Some (str "domains_v5_0") : @DBIh Ref.RefLMDB)) exName id') → id = id'.
Proof.
  destruct (duplicates_fixed exNow 200 (exMain exRows) (Some (str "pdns")) (Some (str "domains_v5_0"))
    exMain_main) as (t' & st & E & _ & Hfix).
  - rewrite (proj2 exMain_rows). apply exRows_named.
  - rewrite exMain_entries. simpl. lia.
  - exists t', st. split; [exact E|]. intros id id' W1 W2 R1 R2.
    exact (fx_unique _ _ Hfix exName id id' R1 R2 W1 W2).
Defined.

(** What the example prints: the renamed zone is met again and listed twice. *)
Theorem renamed_zone_listed_twice :
  (domainsToDelete ∘ snd) <$> fixTxn exNow true 200 (exMain exRows) =
    Ok [str "example.com.dup-1.invalid"; str "example.com.dup-1.invalid"].
Proof. by vm_compute. Qed.

(** The root zone has the empty name, which is also what the scan starts with:
    it is taken for a duplicate and renamed although it is the only one. *)
Theorem root_zone_renamed :
  (λ r, let m := dbm r.1 (Some (str "domains_v5_0") : @DBIh Ref.RefLMDB) in
        (row m [] 7, row m (dupDomain 7 []) 7)) <$>
    fixTxn exNow true 200 (exMain [(rowKey [] 7, ex_value 50 0 [])]) = Ok (None, Some 1001).
Proof. by vm_compute. Qed.
End examples.
