(* ===== verification/Commands.v ===== *)
(** * Commands on databases (cmd/lightningstream/commands)

    The commands [drop-shadow] (dropshadow.go) and [dump] (dump.go), which open
    the configured environments one after the other.  Printed lines are part of
    the result, also when a command fails half way. *)

From stdpp Require Import sorting.
From S2P Require Import Prelude Lmdb Strategy Config Shadow Utils Syncer Transfer.

(** [sort.Strings] *)
Definition bytes_le (a b : bytes) : Prop := bytes_Compare a b ≠ Gt.

#[export] Instance bytes_le_dec a b : Decision (bytes_le a b).
Proof. unfold bytes_le. apply _. Defined.

Definition sortStrings (l : list bytes) : list bytes := merge_sort bytes_le l.

(** [conf.LMDBs[name]] of a name that is configured. *)
Definition confOf (conf : Config) (name : bytes) : option LMDBConf :=
  snd <$> List.find (λ e, bool_decide (e.1 = name)) (LMDBs conf).

Section commands.
Context `{L : LMDB} {EN : LMDBEnv L} (open : LMDBConf → outcome Env).

(** ** drop-shadow *)

Fixpoint dropLoop (t : Txn) (names : list bytes) : outcome Txn :=
  match names with
  | [] => Ok t
  | dbiName :: names =>
      if negb (HasPrefix dbiName SyncDBIPrefix) then dropLoop t names
      else
        '(t, dbi) ← wrap_err "dbi" (txn_OpenDBI t dbiName 0);
        t ← wrap_err "dbi drop" (txn_Drop t dbi true);
        dropLoop t names
  end.

Definition dropTxn (fuel : nat) (t : Txn) : outcome (Txn * unit) :=
  names ← ReadDBINames fuel t;
  t ← dropLoop t names;
  Ok (t, tt).

Definition dropshadowForLMDB (fuel : nat) (lc : LMDBConf) : outcome Env :=
  e ← open lc;
  '(e, _) ← env_Update e (dropTxn fuel);
  Ok e.

(** Every configured environment in the order of the names; an error is logged
    and does not keep the command from the next one. *)
Definition dropshadowCmd (fuel : nat) (conf : Config) : list (bytes * outcome Env) :=
  omap (λ name, (λ lc, (name, dropshadowForLMDB fuel lc)) <$> confOf conf name)
    (sortStrings (LMDBs conf).*1).

(** ** dump *)

Definition newline : bytes := [Byte.x0a].

Definition dumpItem (now : Z) (item : bytes * bytes) : bytes :=
  DisplayASCII now item.1 ++ str "  =  " ++ DisplayASCII now item.2 ++ newline.

Definition dumpTitle (name dbiName : bytes) : bytes :=
  newline ++ str "### " ++ name ++ str " :: " ++ dbiName ++ newline ++ newline.

Fixpoint dumpLoop (fuel : nat) (now : Z) (dumpHide : bool) (name : bytes) (t : Txn) (names : list bytes)
    : list bytes * outcome unit :=
  match names with
  | [] => ([], Ok tt)
  | dbiName :: names =>
      if dumpHide && HasPrefix dbiName SyncDBIPrefix then dumpLoop fuel now dumpHide name t names
      else
        let title := dumpTitle name dbiName in
        match wrap_err "dbi" (txn_OpenDBI t dbiName 0) with
        | Ok (t, dbi) =>
            match wrap_err "read dbi" (ReadDBI fuel t dbi) with
            | Ok items =>
                let '(out, r) := dumpLoop fuel now dumpHide name t names in
                (title :: (dumpItem now <$> items) ++ out, r)
            | Err e => ([title], Err e)
            | Panic => ([title], Panic)
            | Hang => ([title], Hang)
            end
        | Err e => ([title], Err e)
        | Panic => ([title], Panic)
        | Hang => ([title], Hang)
        end
  end.

Definition dumpTxn (fuel : nat) (now : Z) (dumpHide : bool) (name : bytes) (t : Txn)
    : list bytes * outcome unit :=
  match ReadDBINames fuel t with
  | Ok names => dumpLoop fuel now dumpHide name t names
  | Err e => ([], Err e)
  | Panic => ([], Panic)
  | Hang => ([], Hang)
  end.

Definition dumpLMDB (fuel : nat) (now : Z) (dumpHide : bool) (name : bytes) (lc : LMDBConf)
    : list bytes * outcome unit :=
  match open lc with
  | Ok e =>
      match env_Begin e true with
      | Ok t => dumpTxn fuel now dumpHide name t
      | Err e => ([], Err e)
      | Panic => ([], Panic)
      | Hang => ([], Hang)
      end
  | Err e => ([], Err e)
  | Panic => ([], Panic)
  | Hang => ([], Hang)
  end.

Definition dumpCmd (fuel : nat) (now : Z) (dumpHide : bool) (dumpName : bytes) (conf : Config)
    : list (list bytes * outcome unit) :=
  let names := filter (λ name, dumpName = [] ∨ dumpName = name) (LMDBs conf).*1 in
  omap (λ name, (λ lc, dumpLMDB fuel now dumpHide name lc) <$> confOf conf name) (sortStrings names).
End commands.

Section laws.
Context `{V : LMDBView} `{HL : !LMDBLaws L V}.

(** A database and its content are the same in both transactions. *)
Definition untouched (t t' : Txn) (n : bytes) : Prop :=
  dbi_of t' n = dbi_of t n ∧
  ∀ h, dbi_of t n = Some h → entries t' h = entries t h ∧ dflags t' h = dflags t h.

Lemma untouched_trans t t' t'' n : untouched t t' n → untouched t' t'' n → untouched t t'' n.
Proof using.
  intros [E1 H1] [E2 H2]. split; [congruence|]. intros h Hh. destruct (H1 h Hh) as [<- <-].
  apply H2. congruence.
Qed.

Lemma dropLoop_ok t names :
  NoDup names → (∀ n, n ∈ names → is_Some (dbi_of t n)) →
  ∃ t', dropLoop t names = Ok t' ∧ txn_ID t' = txn_ID t ∧
    ∀ n, if bool_decide (n ∈ names) && HasPrefix n SyncDBIPrefix then dbi_of t' n = None
         else untouched t t' n.
Proof using HL.
  revert t. induction names as [|n names IH]; intros t Hnd Hall; [by exists t|].
  apply list.NoDup_cons in Hnd as [Hn Hnd]. cbn [dropLoop]. destruct (HasPrefix n SyncDBIPrefix) eqn:Ep; cbn [negb].
  - destruct (Hall n ltac:(left)) as [h Hh]. rewrite (open_existing _ _ _ _ Hh). cbn [wrap_err]. rewrite bind_ok.
    destruct (drop_delete t n h Hh) as (t1 & -> & Hgone & Hof & Hsame & Hid). cbn [wrap_err]. rewrite bind_ok.
    destruct (IH t1 Hnd) as (t' & -> & Hid' & Hafter).
    { intros n' Hn'. rewrite Hof by (intros ->; done). apply Hall. by right. }
    exists t'. split; [done|]. split; [congruence|]. intros n'. specialize (Hafter n').
    destruct (decide (n' = n)) as [->|Hne].
    + rewrite (bool_decide_eq_false_2 (n ∈ names)) in Hafter by done. cbn [andb] in Hafter.
      rewrite Ep, bool_decide_eq_true_2 by left. cbn [andb]. destruct Hafter as [-> _]. done.
    + rewrite (bool_decide_ext _ (n' ∈ names)) by (rewrite elem_of_cons; tauto).
      destruct (bool_decide _ && _); [done|]. eapply untouched_trans; [|done].
      split; [by apply Hof|]. intros h' Hh'. by eapply Hsame.
  - destruct (IH t Hnd) as (t' & -> & Hid' & Hafter); [intros n' ?; apply Hall; by right|].
    exists t'. split; [done|]. split; [done|]. intros n'. specialize (Hafter n').
    destruct (decide (n' = n)) as [->|Hne].
    + rewrite Ep, andb_false_r in *. done.
    + by rewrite (bool_decide_ext _ (n' ∈ names)) by (rewrite elem_of_cons; tauto).
Qed.

(** C20: [drop-shadow] removes exactly the databases with the prefix of Lightning
    Stream; the databases of the application keep their handles, flags and
    rows. *)
Theorem drop_removes_shadows fuel t :
  (length (dbnames t) < fuel)%nat →
  ∃ t', dropTxn fuel t = Ok (t', tt) ∧ txn_ID t' = txn_ID t ∧
    ∀ n, if HasPrefix n SyncDBIPrefix then dbi_of t' n = None else untouched t t' n.
Proof using HL.
  intros Hl. unfold dropTxn. rewrite ReadDBINames_ok, bind_ok by done.
  destruct (dropLoop_ok t (dbnames t)) as (t' & -> & Hid & Hall); [apply dbnames_nodup|by intros n; apply dbi_of_names|].
  rewrite bind_ok. exists t'. split; [done|]. split; [done|]. intros n. specialize (Hall n).
  case_bool_decide as Hn; [by destruct (HasPrefix _ _)|]. cbn [andb] in Hall.
  destruct (HasPrefix n SyncDBIPrefix); [|done]. destruct Hall as [-> _].
  destruct (dbi_of t n) as [h|] eqn:E; [|done]. destruct Hn. apply dbi_of_names. by eexists.
Qed.

(** The lines of one database. *)
Definition dumped (now : Z) (name : bytes) (t : Txn) (n : bytes) : list bytes :=
  dumpTitle name n ::
    (dumpItem now <$> match dbi_of t n with Some h => entries t h | None => [] end).

(** A dump prints every database that is not hidden, in the order of their
    names, with every row. *)
Theorem dump_prints_all fuel now hide name t :
  (length (dbnames t) < fuel)%nat →
  (∀ n h, dbi_of t n = Some h → (length (entries t h) < fuel)%nat) →
  dumpTxn fuel now hide name t =
    (concat (dumped now name t <$> filter (λ n, negb (hide && HasPrefix n SyncDBIPrefix)) (dbnames t)), Ok tt).
Proof using HL.
  intros Hl Hrows. unfold dumpTxn. rewrite ReadDBINames_ok by done.
  assert (Hall : ∀ n, n ∈ dbnames t → is_Some (dbi_of t n)) by (intros n; apply dbi_of_names).
  induction (dbnames t) as [|n names IH]; [done|]. cbn [dumpLoop].
  assert (IH' := IH ltac:(simpl in Hl; lia) ltac:(intros; apply Hall; by right)). clear IH.
  rewrite filter_cons. destruct (hide && HasPrefix n SyncDBIPrefix) eqn:E.
  - case_decide as Hd; [by destruct Hd|done].
  - case_decide as Hd; [|by destruct Hd]. rewrite fmap_cons. cbn [concat].
    destruct (Hall n ltac:(left)) as [h Hh]. rewrite (open_existing _ _ _ _ Hh). cbn [wrap_err].
    rewrite ReadDBI_ok; [|by right; exists n|by eapply Hrows]. cbn [wrap_err]. rewrite IH'.
    unfold dumped at 2. by rewrite Hh.
Qed.
End laws.

(** ** An example on the reference environment *)

Section examples.
#[local] Existing Instances Ref.RefLMDB Ref.RefView Ref.RefLMDB_laws.

Definition exShadowed : @Txn Ref.RefLMDB :=
  Ref.MkTxn 5 (<[shadowName (str "db") := Ref.MkDb 0 {[ str "k" := str "v" ]} []]>
                {[ str "db" := Ref.MkDb 0 {[ str "k" := str "w" ]} [] ]}).

Lemma drop_removes_shadows_witness : ∃ t',
  dropTxn 9 exShadowed = Ok (t', tt) ∧ dbi_of t' (shadowName (str "db")) = None ∧
  untouched exShadowed t' (str "db").
Proof.
  destruct (drop_removes_shadows 9 exShadowed) as (t' & E & _ & Hall).
  - assert (El : length (dbnames exShadowed) = 2%nat) by by vm_compute. rewrite El. lia.
  - exists t'. split; [exact E|]. split; [exact (Hall (shadowName (str "db")))|exact (Hall (str "db"))].
Defined.

(** The dump of the same environment, with and without the private databases. *)
Example dump_hidden :
  dumpTxn 9 0 true (str "main") exShadowed =
    ([dumpTitle (str "main") (str "db"); str "k [6b]  =  w [77]" ++ newline], Ok tt).
Proof. by vm_compute. Qed.
End examples.
