(* ===== verification/SnapshotCmds.v ===== *)
(** * Commands on snapshots (cmd/lightningstream/commands/snapshots.go)

    Listing, removing, downloading, uploading and dumping snapshots.  The
    storage backend (simpleblob) and [slices.SortFunc] are classes with their
    documented behaviour; the local file system is a pair of functions. *)

From stdpp Require Import sorting.
From S2P Require Import Prelude Header Proto Kv Dbi Config Shadow Name Utils Snapshot DBIFlags Commands.

(** ** The storage backend *)

Record Blob : Type := MkBlob { bName : bytes; bSize : Z }.

Class BlobStore : Type := {
  St : Type;
  st_List : St → bytes → outcome (list Blob);
  st_Load : St → bytes → outcome bytes;
  st_Store : St → bytes → bytes → outcome St;
  st_Delete : St → bytes → outcome St;
}.

(** The blobs of a storage by name.  Every call can fail. *)
Class BlobView (B : BlobStore) : Type := blobs : St → gmap bytes bytes.

Class BlobLaws (B : BlobStore) (BV : BlobView B) : Prop := {
  list_blobs st prefix l :
    st_List st prefix = Ok l →
    StronglySorted (λ a b, bytes_Compare (bName a) (bName b) = Lt) l ∧
    ∀ n z, MkBlob n z ∈ l ↔ ∃ d, blobs st !! n = Some d ∧ z = zlen d ∧ HasPrefix n prefix = true;
  load_blob st n d : st_Load st n = Ok d → blobs st !! n = Some d;
  store_blob st n d st' : st_Store st n d = Ok st' → blobs st' = <[n:=d]> (blobs st);
  delete_blob st n st' : st_Delete st n = Ok st' → blobs st' = delete n (blobs st);
}.

(** ** Sorting by time *)

(** [slices.SortFunc] sorts with a comparison that is a strict weak order. *)
Record weakOrder {A} (cmp : A → A → comparison) : Prop := MkWeakOrder {
  wo_antisym a b : cmp b a = CompOpp (cmp a b);
  wo_trans a b c : cmp a b ≠ Gt → cmp b c ≠ Gt → cmp a c ≠ Gt;
}.

Class SortFuncG : Type := sortFuncG : ∀ A, (A → A → comparison) → list A → list A.
Class SortFuncGLaws (F : SortFuncG) : Prop := {
  sortg_perm A (cmp : A → A → comparison) l : Permutation (sortFuncG A cmp l) l;
  sortg_sorted A (cmp : A → A → comparison) l :
    weakOrder cmp → StronglySorted (λ a b, cmp a b ≠ Gt) (sortFuncG A cmp l);
}.

Definition timeCmp (reg : extensions) (a b : Blob) : comparison :=
  match ParseName reg (bName a), ParseName reg (bName b) with
  | Ok na, Ok nb =>
      if niTimestamp na <? niTimestamp nb then Lt
      else if niTimestamp nb <? niTimestamp na then Gt
      else Eq
  | Ok _, _ => Gt
  | _, Ok _ => Lt
  | _, _ =>
      match bytes_Compare (bName a) (bName b) with
      | Lt => Lt
      | Gt => Gt
      | Eq => Eq
      end
  end.

Definition sortByTime `{F : SortFuncG} (reg : extensions) (l : list Blob) : list Blob :=
  sortFuncG Blob (timeCmp reg) l.

(** ** The commands *)

(** [fmt]'s [%12d] *)
Definition pad12 (s : bytes) : bytes := replicate (12 - length s) Byte.x20 ++ s.

(** [filepath.Base] *)
Fixpoint stripSlashes (rpath : bytes) : bytes :=
  match rpath with
  | b :: r => if bool_decide (b = Byte.x2f) then stripSlashes r else rpath
  | [] => []
  end.

Fixpoint untilSlash (rpath : bytes) : bytes :=
  match rpath with
  | b :: r => if bool_decide (b = Byte.x2f) then [] else b :: untilSlash r
  | [] => []
  end.

Definition filepath_Base (path : bytes) : bytes :=
  if bool_decide (path = []) then str "."
  else
    match rev (untilSlash (stripSlashes (rev path))) with
    | [] => str "/"
    | s => s
    end.

Section commands.
Context `{B : BlobStore} `{F : SortFuncG} (reg : extensions).
Context (FS : Type) (os_ReadFile : FS → bytes → outcome bytes).
Context (os_WriteFile : FS → bytes → bytes → Z → outcome FS).

Definition snapshotsList (backend : outcome St) (prefix : bytes) (long byTime : bool)
    : outcome (list bytes) :=
  st ← backend;
  l ← st_List st prefix;
  let l := if byTime then sortByTime reg l else l in
  Ok ((λ b, if long then pad12 (itoa (bSize b)) ++ [Byte.x09] ++ bName b ++ newline
            else bName b ++ newline) <$> l).

Definition snapshotsRemove (backend : outcome St) (name : bytes) : outcome St :=
  st ← backend;
  st_Delete st name.

Definition snapshotsGet (backend : outcome St) (fs : FS) (name output : bytes) : outcome FS :=
  let outName := if bool_decide (output = []) then name else output in
  st ← backend;
  data ← st_Load st name;
  os_WriteFile fs outName data 438.

Definition snapshotsPut (backend : outcome St) (fs : FS) (path name : bytes) (force : bool) : outcome St :=
  let name := if bool_decide (name = []) then filepath_Base path else name in
  _ ← match ParseName reg name with
      | Err _ => if force then Ok tt else Err (EMsg "invalid snapshot name")
      | Ok _ => Ok tt
      | Panic => Panic
      | Hang => Hang
      end;
  st ← backend;
  data ← os_ReadFile fs path;
  st_Store st name data.

(** ** Dumping a snapshot *)

Context `{P : CSProto} `{D : CSDecoder} `{G : Gzip}.
(** [json.MarshalIndent], [fmt]'s [%q], and the text of times and durations. *)
Context (jsonSnapshot : Snapshot → outcome bytes) (quote : bytes → bytes).
Context (timeString durationString : Z → bytes).

(** [%02x] of the flags *)
Fixpoint hexLoop (fuel : nat) (v : Z) (acc : bytes) : bytes :=
  match fuel with
  | O => acc
  | S fuel =>
      let acc := hexDigit (v mod 16) :: acc in
      if v / 16 =? 0 then acc else hexLoop fuel (v / 16) acc
  end.

Definition hex02 (v : Z) : bytes :=
  let s := hexLoop 16 v [] in
  if zlen s <? 2 then Byte.x30 :: s else s.

Definition dumpEntry (now : Z) (e : KV) : bytes :=
  let t := int64 (kvTimestampNano e) in
  DisplayASCII now (kvKey e) ++ str "  =  " ++ DisplayASCII now (kvValue e) ++ str "  (" ++
  timeString t ++ str ", " ++ durationString (Round (time_Sub now t) Second) ++
  str " ago; flags=" ++ hex02 (kvFlags e) ++ str ")" ++ newline.

(** The output is flushed also when an entry cannot be read. *)
Fixpoint dumpEntries (fuel : nat) (now : Z) (d : DBI) : list bytes * outcome unit :=
  match fuel with
  | O => ([], Hang)
  | S fuel =>
      match Next d with
      | (_, Err e) => ([], if bool_decide (e = EOF) then Ok tt else Err e)
      | (d, Ok e) => let '(out, r) := dumpEntries fuel now d in (dumpEntry now e :: out, r)
      | (_, Panic) => ([], Panic)
      | (_, Hang) => ([], Hang)
      end
  end.

Definition dbiTitle (d : DBI) : bytes :=
  newline ++ str "### " ++ dName d ++ str " (transform=" ++ quote (dTransform d) ++ str ", flags=" ++
  quote (String (dFlags d)) ++ str ")" ++ newline ++ newline.

Fixpoint dumpDatabases (now : Z) (ds : list DBI) : list bytes * outcome unit :=
  match ds with
  | [] => ([], Ok tt)
  | d :: ds =>
      match dumpEntries (S (length (dData d))) now (ResetCursor d) with
      | (out, Ok _) => let '(out', r) := dumpDatabases now ds in (dbiTitle d :: out ++ out', r)
      | (out, r) => (dbiTitle d :: out, r)
      end
  end.

Definition snapshotsDump (backend : outcome St) (fs : FS) (now : Z) (name format dbiName : bytes)
    (local : bool) : list bytes * outcome unit :=
  if negb (bool_decide (format = str "debug")) && negb (bool_decide (format = str "text"))
  then ([], Err (EMsg "output format not supported"))
  else
    match
      data ← (if local then os_ReadFile fs name else st ← backend; st_Load st name);
      snap ← LoadData data;
      let ds := if bool_decide (dbiName = []) then Databases snap
                else filter (λ d, dName d = dbiName) (Databases snap) in
      j ← jsonSnapshot (MkSnapshot (snFormatVersion snap) (snCompatVersion snap) (snMeta snap) []);
      Ok (ds, j)
    with
    | Ok (ds, j) => let '(out, r) := dumpDatabases now ds in ((j ++ newline) :: out, r)
    | Err e => ([], Err e)
    | Panic => ([], Panic)
    | Hang => ([], Hang)
    end.
End commands.

(** ** The order by time *)

Section order.
Context (reg : extensions).

(** The key a blob is sorted by: names that cannot be parsed come first. *)
Definition sortKey (b : Blob) : bytes + Z :=
  match ParseName reg (bName b) with Ok ni => inr (niTimestamp ni) | _ => inl (bName b) end.

Definition keyCmp (x y : bytes + Z) : comparison :=
  match x, y with
  | inl a, inl b => bytes_Compare a b
  | inl _, inr _ => Lt
  | inr _, inl _ => Gt
  | inr a, inr b => a ?= b
  end.

Lemma timeCmp_key a b : timeCmp reg a b = keyCmp (sortKey a) (sortKey b).
Proof.
  unfold timeCmp, sortKey.
  destruct (ParseName reg (bName a)) as [na| | |], (ParseName reg (bName b)) as [nb| | |]; simpl; try done;
    try (by destruct (bytes_Compare (bName a) (bName b))).
  destruct (Z.compare_spec (niTimestamp na) (niTimestamp nb)); repeat case_if; done || lia.
Qed.

Lemma timeCmp_weak : weakOrder (timeCmp reg).
Proof.
  split.
  - intros a b. rewrite !timeCmp_key. unfold keyCmp. destruct (sortKey a), (sortKey b); try done.
    + apply bytes_Compare_antisym.
    + apply Z.compare_antisym.
  - intros a b c. rewrite !timeCmp_key. unfold keyCmp. destruct (sortKey a), (sortKey b), (sortKey c); try done.
    + apply bytes_le_trans.
    + rewrite !Z.compare_le_iff. lia.
Qed.

(** Sorting by time puts the names that are not of snapshots first, in the
    order of their names, and the snapshots behind them, oldest first. *)
Theorem sort_by_time_order `{F : SortFuncG} `{FL : !SortFuncGLaws F} l :
  ∃ bad good, sortByTime reg l = bad ++ good ∧ Permutation (bad ++ good) l ∧
    Forall (λ b, ¬ is_ok (ParseName reg (bName b))) bad ∧
    StronglySorted (λ a b, bytes_Compare (bName a) (bName b) ≠ Gt) bad ∧
    Forall (λ b, is_ok (ParseName reg (bName b))) good ∧
    StronglySorted (λ a b, ∃ na nb, ParseName reg (bName a) = Ok na ∧ ParseName reg (bName b) = Ok nb ∧
                           niTimestamp na <= niTimestamp nb) good.
Proof.
  pose proof (sortg_sorted Blob (timeCmp reg) l timeCmp_weak) as Hs.
  pose proof (sortg_perm Blob (timeCmp reg) l) as Hp. unfold sortByTime.
  set (s := sortFuncG Blob (timeCmp reg) l) in *. clearbody s.
  enough (∃ bad good, s = bad ++ good ∧ Forall (λ b, ¬ is_ok (ParseName reg (bName b))) bad ∧
    StronglySorted (λ a b, bytes_Compare (bName a) (bName b) ≠ Gt) bad ∧
    Forall (λ b, is_ok (ParseName reg (bName b))) good ∧
    StronglySorted (λ a b, ∃ na nb, ParseName reg (bName a) = Ok na ∧ ParseName reg (bName b) = Ok nb ∧
                           niTimestamp na <= niTimestamp nb) good)
    as (bad & good & -> & H) by by exists bad, good.
  clear Hp. induction Hs as [|x s Hs IH Hx]; [exists [], []; by repeat constructor|].
  destruct IH as (bad & good & -> & Hb & Hbs & Hg & Hgs). rewrite Forall_app in Hx. destruct Hx as [Hxb Hxg].
  rewrite List.Forall_forall in Hxb, Hxg.
  assert (Hdec : is_ok (ParseName reg (bName x)) ∨ ¬ is_ok (ParseName reg (bName x))).
  { destruct (ParseName reg (bName x)); [by left; eexists|by right; intros []..]. }
  destruct Hdec as [[nx Ex]|Ex].
  2:{ exists (x :: bad), good. split; [done|]. split; [by constructor|]. split; [|done]. constructor; [done|].
      apply List.Forall_forall. intros y Hy. specialize (Hxb y Hy). rewrite timeCmp_key in Hxb.
      rewrite List.Forall_forall in Hb. specialize (Hb y Hy). unfold sortKey in Hxb.
      destruct (ParseName reg (bName x)); [by destruct Ex; eexists|..];
        (destruct (ParseName reg (bName y)); [by destruct Hb; eexists|done..]). }
  assert (bad = []) as ->.
  { destruct bad as [|y bad]; [done|]. specialize (Hxb y ltac:(by left)). rewrite timeCmp_key in Hxb.
    apply Forall_cons_1 in Hb as [Hb _]. unfold sortKey in Hxb. rewrite Ex in Hxb.
    destruct (ParseName reg (bName y)) eqn:Ey; try done. by destruct Hb; eexists. }
  exists [], (x :: good). split; [done|]. split; [constructor|]. split; [constructor|].
  split; [constructor; [by rewrite Ex; eexists|done]|].
  constructor; [done|]. apply List.Forall_forall. intros y Hy. specialize (Hxg y Hy).
  rewrite List.Forall_forall in Hg. destruct (Hg y Hy) as [ny Ey]. exists nx, ny. split_and!; try done.
  rewrite timeCmp_key in Hxg. unfold sortKey in Hxg. rewrite Ex, Ey in Hxg. simpl in Hxg.
  by apply Z.compare_le_iff.
Qed.
End order.

(** ** Uploading and downloading *)

Section transfer.
Context `{B : BlobStore} {BV : BlobView B} `{BL : !BlobLaws B BV} (reg : extensions).
Context (FS : Type) (os_ReadFile : FS → bytes → outcome bytes).
Context (os_WriteFile : FS → bytes → bytes → Z → outcome FS).

(** The name an upload uses. *)
Definition uploadName (path name : bytes) : bytes :=
  if bool_decide (name = []) then filepath_Base path else name.

Lemma put_stores st fs path name force st' :
  snapshotsPut reg FS os_ReadFile (Ok st) fs path name force = Ok st' →
  ∃ data, os_ReadFile fs path = Ok data ∧
    blobs st' = <[uploadName path name := data]> (blobs st) ∧
    (force = false → is_ok (ParseName reg (uploadName path name))).
Proof using BL.
  unfold snapshotsPut. fold (uploadName path name). intros E.
  destruct (ParseName reg (uploadName path name)) as [ni|e| |] eqn:En; try discriminate E.
  - rewrite !bind_ok in E. destruct (os_ReadFile fs path) as [data| | |]; try discriminate E.
    rewrite bind_ok in E. exists data. split; [done|]. split; [by eapply store_blob|]. by eexists.
  - destruct force; [|discriminate E]. rewrite !bind_ok in E.
    destruct (os_ReadFile fs path) as [data| | |]; try discriminate E. rewrite bind_ok in E.
    exists data. split; [done|]. split; [by eapply store_blob|done].
Qed.

(** A file that was uploaded and is downloaded again is written unchanged, and
    only valid names are used unless this is forced; other blobs stay. *)
Theorem put_get_roundtrip st fs path name force st' fs1 output fs2 :
  snapshotsPut reg FS os_ReadFile (Ok st) fs path name force = Ok st' →
  snapshotsGet FS os_WriteFile (Ok st') fs1 (uploadName path name) output = Ok fs2 →
  ∃ data, os_ReadFile fs path = Ok data ∧
    os_WriteFile fs1 (if bool_decide (output = []) then uploadName path name else output) data 438 = Ok fs2 ∧
    (force = false → is_ok (ParseName reg (uploadName path name))) ∧
    (∀ n, n ≠ uploadName path name → blobs st' !! n = blobs st !! n).
Proof using BL.
  intros (data & Er & Eb & Hf)%put_stores Eg. exists data. split; [done|]. unfold snapshotsGet in Eg.
  rewrite bind_ok in Eg. destruct (st_Load st' (uploadName path name)) as [data'| | |] eqn:El; try discriminate Eg.
  apply load_blob in El. rewrite Eb, lookup_insert_eq in El. injection El as <-. rewrite bind_ok in Eg.
  split; [done|]. split; [done|]. intros n Hn. by rewrite Eb, lookup_insert_ne.
Qed.

(** A listing without options prints the blobs with the prefix, in order. *)
Theorem list_prints_names `{F : SortFuncG} st prefix out :
  snapshotsList reg (Ok st) prefix false false = Ok out →
  ∃ l, out = (λ b, bName b ++ newline) <$> l ∧
    StronglySorted (λ a b, bytes_Compare (bName a) (bName b) = Lt) l ∧
    ∀ n, n ∈ bName <$> l ↔ is_Some (blobs st !! n) ∧ HasPrefix n prefix = true.
Proof using BL.
  unfold snapshotsList. rewrite bind_ok. intros E. destruct (st_List st prefix) as [l| | |] eqn:El; try discriminate E.
  rewrite bind_ok in E. injection E as <-. exists l. split; [done|].
  destruct (list_blobs _ _ _ El) as [Hs Hl]. split; [done|]. intros n. rewrite list_elem_of_fmap. split.
  - intros ([n' z] & -> & (d & Hd & _ & Hp)%Hl). split; [by eexists|done].
  - intros [[d Hd] Hp]. exists (MkBlob n (zlen d)). split; [done|]. apply Hl. by exists d.
Qed.
End transfer.

(** ** Dumps *)

Section dumps.
Context `{P : CSProto} `{D : CSDecoder}.

Lemma dumpEntries_list (ts ds : Z → bytes) fuel now d acc kvs :
  listLoop fuel d acc = Ok kvs →
  ∃ kvs', kvs = acc ++ kvs' ∧ dumpEntries ts ds fuel now d = (dumpEntry ts ds now <$> kvs', Ok tt).
Proof using.
  revert d acc. induction fuel as [|fuel IH]; intros d acc; [done|]. cbn [listLoop dumpEntries].
  destruct (Next d) as [d' [kv|e| |]]; try done.
  - intros (kvs' & -> & ->)%IH. exists (kv :: kvs'). by rewrite <- app_assoc.
  - case_bool_decide; [|done]. intros [= <-]. exists []. by rewrite app_nil_r.
Qed.

(** A dump prints every entry of every database, when all can be read. *)
Theorem dump_prints_entries (q : bytes → bytes) (ts ds : Z → bytes) now dbs (kvss : list (list KV)) :
  Forall2 (λ d kvs, AsInefficientKVList d = Ok kvs) dbs kvss →
  dumpDatabases q ts ds now dbs =
    (concat (zip_with (λ d kvs, dbiTitle q d :: (dumpEntry ts ds now <$> kvs)) dbs kvss), Ok tt).
Proof using.
  induction 1 as [|d kvs dbs kvss Hd _ IH]; [done|]. cbn [dumpDatabases].
  unfold AsInefficientKVList in Hd. destruct (dumpEntries_list ts ds _ now _ _ _ Hd) as (kvs' & -> & ->).
  by rewrite IH.
Qed.
End dumps.

(** ** Reference implementations *)

Module RefBlobs.
Definition blobLe (a b : Blob) : Prop := bytes_Compare (bName a) (bName b) ≠ Gt.

#[export] Instance blobLe_dec a b : Decision (blobLe a b).
Proof. unfold blobLe. apply _. Defined.

Definition notFound {A} : outcome A := Err (EMsg "file does not exist").

#[export] Instance RefStore : BlobStore := {|
  St := gmap bytes bytes;
  st_List st prefix :=
    Ok (merge_sort blobLe ((λ e, MkBlob e.1 (zlen e.2)) <$>
          filter (λ e, HasPrefix e.1 prefix = true) (map_to_list st)));
  st_Load st n := match st !! n with Some d => Ok d | None => notFound end;
  st_Store st n d := Ok (<[n:=d]> st);
  st_Delete st n := Ok (delete n st);
|}.

#[export] Instance RefBlobView : BlobView RefStore := λ st, st.

#[local] Instance blobLe_total : Total blobLe.
Proof.
  intros a b. unfold blobLe. rewrite (bytes_Compare_antisym (bName a)).
  destruct (bytes_Compare (bName a) (bName b)); [left|left|right]; done.
Qed.

#[local] Instance blobLe_trans : Transitive blobLe.
Proof. intros a b c. apply bytes_le_trans. Qed.

Lemma sorted_strict (l : list Blob) :
  StronglySorted blobLe l → NoDup (bName <$> l) →
  StronglySorted (λ a b, bytes_Compare (bName a) (bName b) = Lt) l.
Proof.
  induction 1 as [|x l Hs IH Hx]; [constructor|]. rewrite fmap_cons, list.NoDup_cons. intros [Hn Hnd].
  constructor; [by apply IH|]. rewrite List.Forall_forall in *. intros y Hy. specialize (Hx y Hy).
  unfold blobLe in Hx. destruct (bytes_Compare (bName x) (bName y)) eqn:E; try done.
  apply bytes_Compare_eq in E. destruct Hn. rewrite E. apply list_elem_of_fmap. exists y.
  split; [done|]. by apply list_elem_of_In.
Qed.

#[export] Instance RefBlob_laws : BlobLaws RefStore RefBlobView.
Proof.
  split.
  - intros st prefix l [= <-]. change (gmap bytes bytes) in st. set (l0 := (λ e, MkBlob e.1 (zlen e.2)) <$> filter (λ e, HasPrefix e.1 prefix = true) (map_to_list st)).
    pose proof (merge_sort_Permutation blobLe l0) as Hp.
    assert (Hmem : ∀ n z, MkBlob n z ∈ l0 ↔
      ∃ d, (st : gmap bytes bytes) !! n = Some d ∧ z = zlen d ∧ HasPrefix n prefix = true).
    { intros n z. unfold l0. rewrite list_elem_of_fmap. split.
      - intros ([n' d] & [= -> ->] & [Hpre Hin]%list_elem_of_filter). apply elem_of_map_to_list in Hin.
        by exists d.
      - intros (d & Hd & -> & Hpre). exists (n, d). split; [done|]. apply list_elem_of_filter.
        split; [done|]. by apply elem_of_map_to_list. }
    split.
    + apply sorted_strict; [apply (StronglySorted_merge_sort blobLe)|].
      rewrite (fmap_Permutation bName _ _ Hp). unfold l0. rewrite <- list_fmap_compose.
      change (NoDup (fst <$> filter (λ e, HasPrefix e.1 prefix = true) (map_to_list st))).
      eapply sublist_NoDup; [apply (NoDup_fst_map_to_list st)|]. apply fmap_sublist, sublist_filter.
    + intros n z. rewrite Hp. apply Hmem.
  - intros st n d. simpl. unfold blobs, RefBlobView. destruct (_ !! n); [|done]. by intros [= <-].
  - by intros st n d st' [= <-].
  - by intros st n st' [= <-].
Qed.

#[export] Instance RefSort : SortFuncG := λ A cmp l, merge_sort (λ a b, cmp a b ≠ Gt) l.

#[export] Instance RefSort_laws : SortFuncGLaws RefSort.
Proof.
  split.
  - intros A cmp l. apply merge_sort_Permutation.
  - intros A cmp l [Ha Ht]. apply StronglySorted_merge_sort.
    + intros a b c. apply Ht.
    + intros a b. rewrite (Ha a b). destruct (cmp a b); [left|left|right]; done.
Qed.
End RefBlobs.
