(* ===== verification/Startup.v ===== *)
(** * Starting up (config/config.go, config/logger/config.go,
    cmd/lightningstream/commands/root.go)

    Loading the configuration file, what the flags of the command line override,
    the choice of the log format, the minimum process ID and the exit codes.
    The YAML package is a pair of functions; [logrus.Fatalf] is an error. *)

From S2P Require Import Prelude Config.

(** ** The whole configuration

    [Config.Config] holds the settings the syncers use; the storage options and
    the version are added here.  [None] is a nil map. *)
Inductive any : Type :=
  | AString (s : bytes)
  | AOther (n : nat).

#[export] Instance any_eq_dec : EqDecision any.
Proof. solve_decision. Defined.

Record FullConfig : Type := MkFullConfig {
  fcConf : Config;
  StorageType : bytes;
  StorageOptions : option (gmap bytes any);
  StorageRootPath : bytes;
  Version : bytes;
}.

Definition withConf (f : Config → Config) (c : FullConfig) : FullConfig :=
  MkFullConfig (f (fcConf c)) (StorageType c) (StorageOptions c) (StorageRootPath c) (Version c).

Definition withOptions (o : option (gmap bytes any)) (c : FullConfig) : FullConfig :=
  MkFullConfig (fcConf c) (StorageType c) o (StorageRootPath c) (Version c).

Definition withVersion (v : bytes) (c : FullConfig) : FullConfig :=
  MkFullConfig (fcConf c) (StorageType c) (StorageOptions c) (StorageRootPath c) v.

Definition setLog (l : Log.LogConfig) (c : Config) : Config :=
  MkConfig (Instance c) (LMDBs c) (cSweeper c) (cCleanup c) (HTTPAddress c) l (cHealth c)
    (LMDBPollInterval c) (LMDBLogStatsInterval c) (StoragePollInterval c) (StorageRetryInterval c)
    (StorageRetryCount c) (StorageRetryForever c) (StorageForceSnapshotInterval c)
    (MemoryDownloadedSnapshots c) (MemoryDecompressedSnapshots c) (LMDBScrapeSmaps c) (OnlyOnce c).

Definition setInstance (i : bytes) (c : Config) : Config :=
  MkConfig i (LMDBs c) (cSweeper c) (cCleanup c) (HTTPAddress c) (cLog c) (cHealth c)
    (LMDBPollInterval c) (LMDBLogStatsInterval c) (StoragePollInterval c) (StorageRetryInterval c)
    (StorageRetryCount c) (StorageRetryForever c) (StorageForceSnapshotInterval c)
    (MemoryDownloadedSnapshots c) (MemoryDecompressedSnapshots c) (LMDBScrapeSmaps c) (OnlyOnce c).

Definition setOnlyOnce (b : bool) (c : Config) : Config :=
  MkConfig (Instance c) (LMDBs c) (cSweeper c) (cCleanup c) (HTTPAddress c) (cLog c) (cHealth c)
    (LMDBPollInterval c) (LMDBLogStatsInterval c) (StoragePollInterval c) (StorageRetryInterval c)
    (StorageRetryCount c) (StorageRetryForever c) (StorageForceSnapshotInterval c)
    (MemoryDownloadedSnapshots c) (MemoryDecompressedSnapshots c) (LMDBScrapeSmaps c) b.

Definition DefaultFull : FullConfig := MkFullConfig Default [] None [] [].

(** ** Environment variables in the file

    [os.ExpandEnv] *)
Definition isAlphaNum (c : byte) : bool :=
  bool_decide (c = Byte.x5f) || (48 <=? bz c) && (bz c <=? 57) ||
  (97 <=? bz c) && (bz c <=? 122) || (65 <=? bz c) && (bz c <=? 90).

Definition isShellSpecialVar (c : byte) : bool :=
  bool_decide (c ∈ str "*#$@!?-") || (48 <=? bz c) && (bz c <=? 57).

(** The index of the closing brace. *)
Definition braceIndex (s : bytes) : option nat := fst <$> list_find (λ c, c = Byte.x7d) s.

(** The name behind a dollar sign and the bytes it takes. *)
Definition getShellName (s : bytes) : bytes * nat :=
  match s with
  | c :: r =>
      if bool_decide (c = Byte.x7b) then
        match r with
        | c1 :: c2 :: _ =>
            if isShellSpecialVar c1 && bool_decide (c2 = Byte.x7d) then ([c1], 3%nat)
            else
              match braceIndex r with
              | Some O => ([], 2%nat)
              | Some i => (take i r, S (S i))
              | None => ([], 1%nat)
              end
        | _ =>
            match braceIndex r with
            | Some O => ([], 2%nat)
            | Some i => (take i r, S (S i))
            | None => ([], 1%nat)
            end
        end
      else if isShellSpecialVar c then ([c], 1%nat)
      else
        let i := default (length s) (fst <$> list_find (λ x, isAlphaNum x = false) s) in
        (take i s, i)
  | [] => ([], 0%nat)
  end.

(** [skip] bytes belong to a name that was handled. *)
Fixpoint expand (mapping : bytes → bytes) (skip : nat) (s : bytes) : bytes :=
  match s, skip with
  | [], _ => []
  | _ :: r, S skip => expand mapping skip r
  | c :: r, O =>
      if bool_decide (c = Byte.x24) && negb (bool_decide (r = [])) then
        let '(name, w) := getShellName r in
        (if bool_decide (name = []) then (if (0 <? Z.of_nat w) then [] else [c]) else mapping name) ++
        expand mapping w r
      else c :: expand mapping O r
  end.

Definition ExpandEnv (getenv : bytes → bytes) (s : bytes) : bytes := expand getenv O s.

Section yaml.
Context (yaml_Marshal : FullConfig → outcome bytes).
Context (yaml_UnmarshalStrict : bytes → FullConfig → outcome FullConfig).
Context (yaml_Unmarshal : bytes → outcome FullConfig).
Context (os_ReadFile : bytes → outcome bytes) (getenv : bytes → bytes).

Definition LoadYAML (yamlContents : bytes) (expandEnv : bool) (c : FullConfig) : outcome FullConfig :=
  let yamlContents := if expandEnv then ExpandEnv getenv yamlContents else yamlContents in
  yaml_UnmarshalStrict yamlContents c.

Definition LoadYAMLFile (fpath : bytes) (expandEnv : bool) (c : FullConfig) : outcome FullConfig :=
  contents ← wrap_err "open yaml file" (os_ReadFile fpath);
  LoadYAML contents expandEnv c.

Definition LoadConfig (configFile : bytes) : outcome FullConfig :=
  LoadYAMLFile configFile true DefaultFull.

(** [logrus.Panicf] *)
Definition orPanic {A} (m : outcome A) : outcome A :=
  match m with Err _ => Panic | _ => m end.

Definition Clone (c : FullConfig) : outcome FullConfig :=
  y ← orPanic (yaml_Marshal c);
  orPanic (yaml_Unmarshal y).

Definition secretKeys : list bytes := [str "secret_key"; str "secret"; str "password"].

Definition maskKey (opt : gmap bytes any) (key : bytes) : gmap bytes any :=
  match opt !! key with
  | Some (AString v) => if bool_decide (v = []) then opt else <[key := AString (str "***")]> opt
  | _ => opt
  end.

Definition maskOptions (opt : gmap bytes any) : gmap bytes any := foldl maskKey opt secretKeys.

Definition ConfigString (c : FullConfig) : outcome bytes :=
  cc ← Clone c;
  let cc := match StorageOptions cc with
            | None => cc
            | Some opt => withOptions (Some (maskOptions opt)) cc
            end in
  orPanic (yaml_Marshal cc).

(** ** Logging *)

(** The log formats; [TextFormatter] without colours is logfmt, [Namespace] is
    the one with the name of the database. *)
Inductive Formatter : Type :=
  | JSONFormatter (disableTimestamp : bool)
  | TextFormatter (disableColors disableTimestamp fullTimestamp : bool)
  | NamespaceFormatter (parent : Formatter).

(** The formatter and the level, which stay nil and unchanged when the
    configuration is not valid. *)
Definition Configure (parseLevel : bytes → bool) (c : Log.LogConfig) : option Formatter * option bytes :=
  let noTimestamp := bool_decide (Log.Timestamp c = str "disable") in
  let fullTimestamp := bool_decide (Log.Timestamp c = str "full") in
  let formatter :=
    if bool_decide (Log.Format c = str "json") then Some (JSONFormatter noTimestamp)
    else if bool_decide (Log.Format c = str "logfmt")
    then Some (TextFormatter true noTimestamp fullTimestamp)
    else if bool_decide (Log.Format c = str "human")
    then Some (NamespaceFormatter (TextFormatter false noTimestamp fullTimestamp))
    else None in
  (formatter, if parseLevel (Log.Level c) then Some (Log.Level c) else None).

(** [NamespaceFormatter.Format]: the message with the name of the database,
    padded to 14 characters. *)
Definition prefixMessage (db : option bytes) (message : bytes) : bytes :=
  match db with
  | Some ns => str "[" ++ ns ++ replicate (14 - length ns) Byte.x20 ++ str "] " ++ message
  | None => message
  end.

(** ** The root command *)

Record rootFlags : Type := MkRootFlags {
  configFile : bytes;
  instanceName : bytes;
  debug : bool;
  minimumPID : Z;
  logConfig : bool;
  timeout : Z;
  FlagConfig : Log.LogConfig;
}.

Definition MaximumMinPID : Z := 200.
Definition TimeoutExitCode : Z := 75.

(** The configuration of a command, before logging and the process ID are set
    up.  [load] is the variable [LoadConfig]. *)
Definition PersistentPreRun (parseLevel : bytes → bool) (load : bytes → outcome FullConfig)
    (version : bytes) (args : list bytes) (f : rootFlags) (conf : FullConfig) : outcome FullConfig :=
  if bool_decide (args !! 1%nat = Some (str "completion")) then Ok conf
  else
    conf ← wrap_err "Load config file" (load (configFile f));
    let conf := withVersion version conf in
    _ ← wrap_err "Config file error" (Check parseLevel (fcConf conf));
    conf ← (if bool_decide (StorageRootPath conf = []) then Ok conf
            else
              match StorageOptions conf with
              | None => Panic
              | Some opt => Ok (withOptions (Some (<[str "root_path" := AString (StorageRootPath conf)]> opt)) conf)
              end);
    let conf := withConf (λ c, setLog (Log.Merge (cLog c) (FlagConfig f)) c) conf in
    let conf :=
      if debug f
      then withConf (λ c, setLog (Log.MkLog (str "debug") (Log.Format (cLog c)) (Log.Timestamp (cLog c))) c) conf
      else conf in
    Ok (if bool_decide (instanceName f = []) then conf else withConf (setInstance (instanceName f)) conf).

(** The process goes on, or starts processes until the ID is high enough, runs
    itself again and exits with the code of that process. *)
Inductive pidResult : Type :=
  | Continue
  | Restarted (spawned : nat) (exitCode : Z).

(** [child] is the exit code of the second process, [None] when it cannot be
    started; [Fatal] exits with code 1. *)
Definition ensureMinimumPID (minimumPID pid : Z) (skipCheck : bytes) (child : option Z) : pidResult :=
  if minimumPID <=? 0 then Continue
  else
    let minimumPID := if MaximumMinPID <? minimumPID then MaximumMinPID else minimumPID in
    if minimumPID <=? pid then Continue
    else if negb (bool_decide (skipCheck = [])) then Continue
    else Restarted (Z.to_nat (minimumPID - pid)) (match child with Some c => c | None => 1 end).

(** The exit code of the program from the result of the command. *)
Definition Execute (timeout : Z) (result : option error) : Z :=
  match result with
  | None => 0
  | Some err => if errors_Is err Canceled && (0 <? timeout) then TimeoutExitCode else 1
  end.
End yaml.

(** ** Properties *)

(** A file without dollar signs is read as it is. *)
Theorem expand_plain getenv s : Byte.x24 ∉ s → ExpandEnv getenv s = s.
Proof.
  unfold ExpandEnv. induction s as [|c s IH]; [done|]. intros Hn. cbn [expand].
  rewrite (bool_decide_eq_false_2 (c = Byte.x24)) by (intros ->; apply Hn; left). cbn [andb].
  f_equal. apply IH. intros H. apply Hn. by right.
Qed.

Example expand_braces :
  ExpandEnv (λ n, if bool_decide (n = str "HOST") then str "h1" else []) (str "i: ${HOST}-$HOST$ ${}x$") =
    str "i: h1-h1$ x$".
Proof. by vm_compute. Qed.

Lemma maskKey_other opt key k : k ≠ key → maskKey opt key !! k = opt !! k.
Proof.
  intros Hne. unfold maskKey. destruct (opt !! key) as [[v|]|]; try done. case_bool_decide; [done|].
  by rewrite lookup_insert_ne.
Qed.

Lemma maskKey_self opt key :
  maskKey opt key !! key = None ∨ (∃ n, maskKey opt key !! key = Some (AOther n)) ∨
  maskKey opt key !! key = Some (AString []) ∨ maskKey opt key !! key = Some (AString (str "***")).
Proof.
  unfold maskKey. destruct (opt !! key) as [[v|n]|] eqn:E; [|rewrite E; eauto..].
  case_bool_decide as Hv; [subst; rewrite E; auto|]. rewrite lookup_insert_eq. auto.
Qed.

(** Whatever the options are, none of the keys for secrets has a value left
    that is not masked, and nothing else changes. *)
Theorem secrets_are_masked opt key :
  if bool_decide (key ∈ secretKeys)
  then maskOptions opt !! key = None ∨ (∃ n, maskOptions opt !! key = Some (AOther n)) ∨
       maskOptions opt !! key = Some (AString []) ∨ maskOptions opt !! key = Some (AString (str "***"))
  else maskOptions opt !! key = opt !! key.
Proof.
  unfold maskOptions, secretKeys. cbn [foldl].
  set (k1 := str "secret_key"). set (k2 := str "secret"). set (k3 := str "password").
  assert (N12 : k1 ≠ k2) by by vm_compute. assert (N13 : k1 ≠ k3) by by vm_compute.
  assert (N23 : k2 ≠ k3) by by vm_compute. clearbody k1 k2 k3. case_bool_decide as Hk.
  - apply elem_of_cons in Hk as [->|[->|[->|Hk%not_elem_of_nil]%elem_of_cons]%elem_of_cons]; [| | |done].
    + rewrite !maskKey_other by done. apply maskKey_self.
    + rewrite maskKey_other by done. apply maskKey_self.
    + apply maskKey_self.
  - assert (key ≠ k1 ∧ key ≠ k2 ∧ key ≠ k3) as (? & ? & ?).
    { split_and!; intros ->; apply Hk; set_solver. }
    by rewrite !maskKey_other.
Qed.

(** The text of the configuration shows the options masked. *)
Theorem config_string_masks marshal unmarshal c y :
  ConfigString marshal unmarshal c = Ok y →
  ∃ cc, marshal cc = Ok y ∧
    ∀ opt, StorageOptions cc = Some opt → ∃ opt0, opt = maskOptions opt0.
Proof.
  unfold ConfigString. intros E. destruct (Clone marshal unmarshal c) as [cc| | |]; try discriminate E.
  rewrite bind_ok in E. unfold orPanic in E.
  exists (match StorageOptions cc with None => cc | Some opt => withOptions (Some (maskOptions opt)) cc end).
  split; [by destruct (marshal _)|]. intros opt Ho. destruct (StorageOptions cc) as [o|] eqn:Eo; [|congruence].
  simpl in Ho. injection Ho as <-. by exists o.
Qed.

(** The key of an Azure storage account is not one of the masked options. *)
Theorem account_key_is_shown opt v :
  opt !! str "account_key" = Some (AString v) → maskOptions opt !! str "account_key" = Some (AString v).
Proof.
  intros E. pose proof (secrets_are_masked opt (str "account_key")) as H.
  rewrite bool_decide_eq_false_2 in H by (apply (bool_decide_unpack _); by vm_compute). by rewrite H.
Qed.

(** A valid log configuration has a formatter and a level. *)
Theorem configure_valid parseLevel c :
  Log.LogCheck parseLevel c = Ok tt →
  ∃ f, Configure parseLevel c = (Some f, Some (Log.Level c)).
Proof.
  unfold Log.LogCheck, Configure. destruct (parseLevel (Log.Level c)); [|done]. cbn [negb].
  case_bool_decide as Hf; [|done]. cbn [negb]. intros _. unfold Log.LogFormats in Hf.
  case_bool_decide; [by eexists|]. case_bool_decide; [by eexists|]. case_bool_decide; [by eexists|]. set_solver.
Qed.

Section prerun.
Context (parseLevel : bytes → bool) (load : bytes → outcome FullConfig) (version : bytes).
Context (args : list bytes) (f : rootFlags) (conf0 : FullConfig).
Context (Hargs : args !! 1%nat ≠ Some (str "completion")).

(** What a command runs with: the checked file with the overrides of the flags;
    the settings of the syncers are those of the file. *)
Theorem prerun_overrides conf :
  PersistentPreRun parseLevel load version args f conf0 = Ok conf →
  ∃ c, load (configFile f) = Ok c ∧ Check parseLevel (fcConf c) = Ok tt ∧ Version conf = version ∧
    Instance (fcConf conf) = (if bool_decide (instanceName f = []) then Instance (fcConf c) else instanceName f) ∧
    Log.Level (cLog (fcConf conf)) =
      (if debug f then str "debug" else Log.Level (Log.Merge (cLog (fcConf c)) (FlagConfig f))) ∧
    setInstance (Instance (fcConf c)) (setLog (cLog (fcConf c)) (fcConf conf)) = fcConf c ∧
    (StorageRootPath c = [] → StorageOptions conf = StorageOptions c).
Proof using Hargs.
  unfold PersistentPreRun. rewrite bool_decide_eq_false_2 by done. intros E.
  destruct (load (configFile f)) as [c| | |]; try discriminate E. cbn [wrap_err] in E. rewrite bind_ok in E.
  exists c. split; [done|]. cbn [fcConf withVersion] in E.
  destruct (Check parseLevel (fcConf c)) as [[]| | |]; try discriminate E. cbn [wrap_err] in E. rewrite bind_ok in E.
  split; [done|]. cbn [StorageRootPath StorageOptions withVersion] in E.
  destruct c as [[] ty opts rp v]. cbn [fcConf StorageRootPath StorageOptions] in *.
  destruct (bool_decide (rp = [])) eqn:Er.
  - rewrite bind_ok in E. injection E as <-.
    destruct (debug f), (bool_decide (instanceName f = [])); by split_and!.
  - destruct opts as [opt|]; [|discriminate E]. rewrite bind_ok in E. injection E as <-.
    apply bool_decide_eq_false in Er. destruct (debug f), (bool_decide (instanceName f = [])); by split_and!.
Qed.

(** The deprecated setting of the root path panics in a configuration without
    storage options: they are a nil map, which cannot be assigned to. *)
Theorem root_path_without_options_panics c :
  load (configFile f) = Ok c → Check parseLevel (fcConf c) = Ok tt →
  StorageRootPath c ≠ [] → StorageOptions c = None →
  PersistentPreRun parseLevel load version args f conf0 = Panic.
Proof using Hargs.
  intros El Ec Er Eo. unfold PersistentPreRun. rewrite bool_decide_eq_false_2 by done.
  rewrite El. cbn [wrap_err]. rewrite bind_ok. cbn [fcConf withVersion]. rewrite Ec. cbn [wrap_err]. rewrite bind_ok.
  cbn [StorageRootPath StorageOptions withVersion]. rewrite (bool_decide_eq_false_2 (StorageRootPath c = [])) by done. by rewrite Eo.
Qed.

(** The log flags are not checked: an unknown format leaves logging without a
    formatter. *)
Theorem log_format_flag_not_checked conf :
  PersistentPreRun parseLevel load version args f conf0 = Ok conf →
  Log.Format (FlagConfig f) ≠ [] → Log.Format (FlagConfig f) ∉ Log.LogFormats →
  (Configure parseLevel (cLog (fcConf conf))).1 = None.
Proof using Hargs.
  intros E Hne Hf. assert (Ef : Log.Format (cLog (fcConf conf)) = Log.Format (FlagConfig f)).
  { unfold PersistentPreRun in E. rewrite bool_decide_eq_false_2 in E by done.
    destruct (load (configFile f)) as [c| | |]; try discriminate E. cbn [wrap_err] in E. rewrite bind_ok in E.
    destruct (Check parseLevel _) as [[]| | |]; try discriminate E. cbn [wrap_err] in E. rewrite bind_ok in E.
    assert (Hm : ∀ l, Log.Format (Log.Merge l (FlagConfig f)) = Log.Format (FlagConfig f)).
    { intros l. unfold Log.Merge. cbn. by rewrite bool_decide_eq_false_2. }
    destruct (bool_decide (StorageRootPath _ = [])); [|destruct (StorageOptions _); [|discriminate E]];
      rewrite bind_ok in E; injection E as <-; destruct (debug f), (bool_decide (instanceName f = [])); apply Hm. }
  unfold Configure. rewrite Ef. unfold Log.LogFormats in Hf.
  do 3 (rewrite bool_decide_eq_false_2 by (intros E'; apply Hf; rewrite E'; set_solver)). done.
Qed.
End prerun.

(** The process restarts itself at most once, after at most 200 processes. *)
Theorem minimum_pid_restart minimumPID pid skip child n code :
  0 < pid → ensureMinimumPID minimumPID pid skip child = Restarted n code →
  pid < minimumPID ∧ pid + Z.of_nat n = Z.min minimumPID MaximumMinPID ∧ Z.of_nat n < MaximumMinPID ∧
  ∀ p child', ensureMinimumPID minimumPID p (str "1") child' = Continue.
Proof.
  unfold ensureMinimumPID. intros Hp. case_if; [done|]. unfold MaximumMinPID. intros E.
  assert (Hskip : ∀ p child', (let m := if 200 <? minimumPID then 200 else minimumPID in
    if m <=? p then Continue else if negb (bool_decide (str "1" = [])) then Continue
    else Restarted (Z.to_nat (m - p)) (match child' with Some c => c | None => 1 end)) = Continue).
  { intros p child'. cbv zeta. destruct (_ <=? p); [done|]. by rewrite bool_decide_eq_false_2. }
  destruct (200 <? minimumPID) eqn:E2; bool_arith; repeat (case_if_in E; [discriminate E|]);
    injection E as <- _; split_and!; try lia; done.
Qed.

(** ** The timeout *)

(** What the goroutine of [applyTimeout] does: [Arm] starts the timer that would
    exit the process at a later time, [Disarm] stops it. *)
Inductive timeoutStep : Type :=
  | Arm (at_ : Z)
  | CancelRoot
  | Disarm
  | Exit (code : Z).

(** The steps with their times. *)
Definition applyTimeout (timeout now : Z) : list (Z * timeoutStep) :=
  if timeout <=? 0 then []
  else
    let t := now + timeout in
    [(t, Arm (t + 10 * Second)); (t, CancelRoot); (t, Disarm); (t, Exit TimeoutExitCode)].

(** When the process exits at the latest, and with which code: by the timer while
    it is armed, or by the goroutine. *)
Fixpoint exitTime (timer : option Z) (steps : list (Z * timeoutStep)) : option (Z * Z) :=
  match steps with
  | [] => (λ t, (t, TimeoutExitCode)) <$> timer
  | (t, s) :: steps =>
      match timer with
      | Some t' => if t' <? t then Some (t', TimeoutExitCode)
                   else match s with
                        | Arm t'' => exitTime (Some t'') steps
                        | Disarm => exitTime None steps
                        | Exit code => Some (t, code)
                        | CancelRoot => exitTime timer steps
                        end
      | None => match s with
                | Arm t'' => exitTime (Some t'') steps
                | Exit code => Some (t, code)
                | _ => exitTime timer steps
                end
      end
  end.

(** The timer for a shutdown that takes too long is stopped as soon as the
    context is cancelled: the process exits at that moment, and no command has
    time to shut down. *)
Theorem timeout_leaves_no_grace timeout now :
  0 < timeout →
  (now + timeout, CancelRoot) ∈ applyTimeout timeout now ∧
  exitTime None (applyTimeout timeout now) = Some (now + timeout, TimeoutExitCode).
Proof.
  intros H. unfold applyTimeout. rewrite (proj2 (Z.leb_gt _ _)) by lia. split; [set_solver|].
  cbn [exitTime]. by rewrite (proj2 (Z.ltb_ge (now + timeout + 10 * Second) (now + timeout)))
    by (unfold Second, Millisecond; lia).
Qed.
