(* ===== verification/Options.v ===== *)
(** * Options of a syncer (syncer/options.go, syncer/hooks, syncer/events)

    The functions another program can run at points of the sync, the topics it
    can subscribe to, and the options that carry them to a syncer. *)

From S2P Require Import Prelude Header Dbi Lmdb Name Snapshot SyncLoop Topics SnapshotCmds.

(** ** Events *)

Record UpdateInfo : Type := MkUpdateInfo { uiNameInfo : NameInfo; uiMeta : Meta }.

Record Events : Type := MkEvents {
  evList : Topic (T := list Blob);
  evLastSeenSnapshotByInstance : Topic (T := gmap bytes NameInfo);
  evUpdateLoaded : Topic (T := UpdateInfo);
  evUpdateStored : Topic (T := UpdateInfo);
  evSnapshotOverdue : Topic (T := unit);
}.

Definition NewEvents : Events := MkEvents Topics.New Topics.New Topics.New Topics.New Topics.New.

(** ** Hooks *)

(** [None] is nil.  A hook that is given pointers returns what it left there. *)
Record Hooks `{L : LMDB} : Type := MkHooks {
  AfterSnapshotUnpack : option (Snapshot → outcome Snapshot);
  UpdateSnapshotInfo : option (Snapshot → NameInfo → outcome (Snapshot * NameInfo));
  UpdateStored : option (UpdateInfo → outcome unit);
  SnapshotOverdue : option (outcome unit);
  BeforeRead : option (Snapshot → Txn → outcome (Snapshot * Txn));
  hkFilterReadDBI : option (Timestamp → TxnID → Flags → bool);
  OtherUpdateSource : option (list SyncLoop.Update);
  InstanceReady : option (NameInfo → bool);
}.

Arguments MkHooks {L}.

Definition NewHooks `{L : LMDB} : Hooks := MkHooks None None None None None None None None.

(** ** Options *)

(** [None] is nil. *)
Record Options `{L : LMDB} : Type := MkOptions {
  ReceiveOnly : bool;
  optEvents : option Events;
  optHooks : option Hooks;
}.

Arguments MkOptions {L}.
