(* ===== verification/Run.v ===== *)
(** * Running the syncers (syncer/syncer.go, syncer/env.go,
    cmd/lightningstream/commands/sync.go)

    The constructor of a syncer, the command [sync] (and [receive], which is
    [sync] in receive-only mode), and the loops of the cleaner and the receiver
    around their single runs.  Goroutines other than these are parameters. *)

From stdpp Require Import sorting.
From S2P Require Import Prelude Proto Config Name Snapshot Utils Lmdb Shadow Syncer Cleaner Trackers.
From S2P Require Import Receiver Startup Options.

(** ** A new syncer *)

Record SyncerState `{L : LMDB} : Type := MkSyncerState {
  ssNode : Node;
  ssShadow : bool;
  ssEvents : Events;
  ssHooks : Hooks;
  ssLastByInstance : gmap bytes Z;
  ssLastSnapshotTime : Z;
  ssCleaner : Worker;
  ssStoreHealth : HealthTracker;
  ssStartTracker : StartTracker;
}.

Definition zeroCleanup : Cleanup := MkCleanup false 0 0 0.

Arguments MkSyncerState {L}.

(** [hostname] is what [os.Hostname] returned, empty when it failed. *)
Definition NewSyncer `{L : LMDB} (name : bytes) (c : Config) (lc : LMDBConf) (opt : Options)
    (hostname : bytes) (now : Z) : outcome SyncerState :=
  let cleanupConf := if ReceiveOnly opt then zeroCleanup else cCleanup c in
  let ev := match optEvents opt with Some ev => ev | None => NewEvents end in
  let h := match optHooks opt with Some h => h | None => NewHooks end in
  let s := {|
    ssNode := MkNode (MkSyncer name lc (cSweeper c) (hkFilterReadDBI h)) c hostname (ReceiveOnly opt);
    ssShadow := true;
    ssEvents := ev;
    ssHooks := h;
    ssLastByInstance := ∅;
    ssLastSnapshotTime := zeroTime;
    ssCleaner := NewWorker cleanupConf;
    ssStoreHealth := NewHealthTracker (StorageStore (cHealth c));
    ssStartTracker := NewStartTracker (Start (cHealth c)) now;
  |} in
  if bool_decide (instanceID (ssNode s) = [])
  then Err (EMsg "instance name could not be determined, please provide one with --instance")
  else Ok s.

(** ** The command *)

Record syncFlags : Type := MkSyncFlags {
  onlyOnce : bool;
  markerFile : bytes;
  onlyDBs : list bytes;
}.

(** The options the command gives to a syncer; [SyncerOptionsCallback], nil in
    this repository, lets a program that embeds the command replace them. *)
Definition syncerOptions `{L : LMDB} (callback : option (Options → Options)) (receiveOnly : bool)
    : Options :=
  let opt := MkOptions receiveOnly None None in
  match callback with Some f => f opt | None => opt end.

Section sync.
Context `{L : LMDB} {EN : LMDBEnv L} (open : LMDBConf → outcome Env) (hostname : bytes) (now : Z).
Context (SyncerOptionsCallback : option (Options → Options)).

Definition syncerOpenEnv (lc : LMDBConf) : outcome Env :=
  env ← open lc;
  _ ← env_Info env;
  Ok env.

(** The wait for the marker file: [load i] and [sleep i] are the results of the
    [i]th attempt and the sleep behind it. *)
Fixpoint waitMarker (fuel : nat) (load : nat → outcome bytes) (sleep : nat → outcome unit) (i : nat)
    : outcome nat :=
  match fuel with
  | O => Hang
  | S fuel =>
      match load i with
      | Ok _ => Ok i
      | Panic => Panic
      | Hang => Hang
      | Err _ => _ ← sleep i; waitMarker fuel load sleep (S i)
      end
  end.

Definition selected (f : syncFlags) (name : bytes) : bool :=
  bool_decide (onlyDBs f = []) || bool_decide (name ∈ onlyDBs f).

(** The syncers that were started, up to the first failure. *)
Fixpoint startSyncers (f : syncFlags) (c : Config) (receiveOnly : bool) (dbs : list (bytes * LMDBConf))
    : list (bytes * Env * SyncerState) * outcome unit :=
  match dbs with
  | [] => ([], Ok tt)
  | (name, lc) :: dbs =>
      if negb (selected f name) then startSyncers f c receiveOnly dbs
      else
        match
          env ← syncerOpenEnv lc;
          let opt := syncerOptions SyncerOptionsCallback receiveOnly in
          s ← NewSyncer name c lc opt hostname now;
          Ok (env, s)
        with
        | Ok (env, s) =>
            let '(started, r) := startSyncers f c receiveOnly dbs in ((name, env, s) :: started, r)
        | Err e => ([], Err e)
        | Panic => ([], Panic)
        | Hang => ([], Hang)
        end
  end.

(** [eg.Wait] returns the error of the goroutine that fails first; the results
    are in the order in which the goroutines end. *)
Fixpoint egWait (results : list (outcome unit)) : outcome unit :=
  match results with
  | [] => Ok tt
  | Ok _ :: results => egWait results
  | r :: _ => r
  end.

Record syncRun : Type := MkSyncRun {
  srStarted : list (bytes * Env * SyncerState);
  srHTTP : bool;
}.

(** [backend] is the result of [GetBackend]; [run] gives the results of the
    started syncers in the order in which they end. *)
Definition runSync (fuel : nat) (f : syncFlags) (c : Config) (receiveOnly : bool)
    (backend : outcome unit) (load : nat → outcome bytes) (sleep : nat → outcome unit)
    (run : list (bytes * Env * SyncerState) → list (outcome unit)) : syncRun * outcome unit :=
  let c := if onlyOnce f then setOnlyOnce true c else c in
  match
    _ ← backend;
    if bool_decide (markerFile f = []) then Ok tt
    else _ ← waitMarker fuel load sleep 0; Ok tt
  with
  | Ok _ =>
      match startSyncers f c receiveOnly (LMDBs c) with
      | (started, Ok _) => (MkSyncRun started (negb (OnlyOnce c)), egWait (run started))
      | (started, r) => (MkSyncRun started false, r)
      end
  | r => (MkSyncRun [] false, r)
  end.

(** The commands [sync] and [receive]: an error is fatal. *)
Definition exitOf (r : outcome unit) : option Z :=
  match r with Ok _ => Some 0 | Err _ => Some 1 | Panic => Some 2 | Hang => None end.

Definition syncCmd fuel f c backend load sleep run : syncRun * option Z :=
  let '(s, r) := runSync fuel f c false backend load sleep run in (s, exitOf r).

Definition receiveCmd fuel f c backend load sleep run : syncRun * option Z :=
  let '(s, r) := runSync fuel f c true backend load sleep run in (s, exitOf r).
End sync.

(** ** Background loops

    A loop of the form [for \{ step; sleep \}] that ends when the sleep is
    interrupted.  [step] and [sleep] get the time and return the new one. *)
Fixpoint periodically {S : Type} (fuel : nat) (step : Z → S → Z * S)
    (sleep : nat → Z → Z * outcome unit) (i : nat) (now : Z) (s : S) : S * outcome unit :=
  match fuel with
  | O => (s, Hang)
  | Datatypes.S fuel =>
      let '(now, s) := step now s in
      match sleep i now with
      | (now, Ok _) => periodically fuel step sleep (Datatypes.S i) now s
      | (_, r) => (s, r)
      end
  end.

Section cleaner.
Context `{F : SortFunc} (reg : extensions) (Delete : bytes → option error).
Context (listing : Z → outcome (list bytes)) (took : Z → Z).
Context (cancelAt : option Z) (pick : nat → bool) (rand : nat → Z).

(** The worker, and the times and calls of its runs. *)
Definition cleanStep (now : Z) (s : Worker * list (Z * Calls)) : Z * (Worker * list (Z * Calls)) :=
  let '(w, log) := s in
  (now + took now,
   match Cleaner.RunOnce reg Delete w now (listing now) with
   | Ok (w', c) => (w', log ++ [(now, c)])
   | _ => (w, log ++ [(now, MkCalls [] 0 0)])
   end).

Definition cleanerRun (fuel : nat) (w : Worker) (now : Z) : (Worker * list (Z * Calls)) * outcome unit :=
  if negb (cuEnabled (wConf w)) then
    ((w, []), match cancelAt with Some _ => Err Canceled | None => Hang end)
  else
    periodically fuel cleanStep
      (λ i now, SleepContextPerturb cancelAt (pick i) (rand i) now (cuInterval (wConf w))) 0 now (w, []).
End cleaner.

Section receiver.
Context (reg : extensions) (listing : Z → outcome (list bytes)) (took : Z → Z).
Context (background : Z → Receiver → Receiver).
Context (cancelAt : option Z) (pick : nat → bool).

(** A failed listing is logged; the other goroutines work meanwhile. *)
Definition receiveStep (now : Z) (r : Receiver) : Z * Receiver :=
  (now + took now,
   background now (match Receiver.RunOnce reg r false (listing now) with Ok r' => r' | _ => r end)).

Definition receiverRun (fuel : nat) (c : Config) (r : Receiver) (now : Z) : Receiver * outcome unit :=
  periodically fuel receiveStep (λ i now, SleepContext cancelAt (pick i) now (StoragePollInterval c)) 0 now r.
End receiver.

(** ** Properties *)

(** A syncer has a name of its instance and works for the database and with the
    configuration it was given. *)
Lemma new_syncer `{L : LMDB} name c lc opt hostname now s :
  NewSyncer name c lc opt hostname now = Ok s →
  instanceID (ssNode s) ≠ [] ∧
  nConf (ssNode s) = c ∧ sName (nSyncer (ssNode s)) = name ∧ sLC (nSyncer (ssNode s)) = lc ∧
  nReceiveOnly (ssNode s) = ReceiveOnly opt ∧
  FilterReadDBI (nSyncer (ssNode s)) = hkFilterReadDBI (ssHooks s) ∧
  wConf (ssCleaner s) = if ReceiveOnly opt then zeroCleanup else cCleanup c.
Proof.
  unfold NewSyncer. case_bool_decide as Hi; [done|]. intros [= <-]. split; [done|]. by split_and!.
Qed.

(** A name for the instance is required, from the configuration or the host. *)
Theorem new_syncer_needs_name `{L : LMDB} name c lc opt hostname now :
  is_ok (NewSyncer name c lc opt hostname now) ↔
  (Instance c ≠ [] ∨ hostname ≠ []).
Proof.
  assert (Hr : ∀ s, replaceUnsafe 0 s = [] ↔ s = []).
  { intros [|b s]; [done|]. split; [|intros H; discriminate H].
    cbn [replaceUnsafe]. destruct (safeByte b); intros H; discriminate H. }
  unfold NewSyncer, instanceID. cbn [ssNode nConf nHostname].
  destruct (decide (Instance c = [])) as [Hi|Hi].
  - rewrite (bool_decide_eq_true_2 (Instance c = [])) by done. case_bool_decide as Hh.
    + apply (proj1 (Hr _)) in Hh. split; [by intros [? ?]|]. intros [Hc|Hc]; [by destruct (Hc Hi)|by destruct (Hc Hh)].
    + split; [|by eexists]. right. intros Hh'. by apply Hh, Hr.
  - rewrite (bool_decide_eq_false_2 (Instance c = [])) by done. case_bool_decide as Hh; [by apply (proj1 (Hr _)) in Hh|].
    split; [by left|by eexists].
Qed.

Section sync_laws.
Context `{L : LMDB} {EN : LMDBEnv L} (open : LMDBConf → outcome Env) (hostname : bytes) (now : Z).
Context (callback : option (Options → Options)).

Lemma started_nodes f c receiveOnly dbs started r name env s :
  startSyncers open hostname now callback f c receiveOnly dbs = (started, r) → (name, env, s) ∈ started →
  selected f name = true ∧ (∃ lc, (name, lc) ∈ dbs ∧ syncerOpenEnv open lc = Ok env ∧
    NewSyncer name c lc (syncerOptions callback receiveOnly) hostname now = Ok s).
Proof using.
  revert started r. induction dbs as [|[n lc] dbs IH]; intros started r E Hin; simpl in E.
  { injection E as <- <-. by apply not_elem_of_nil in Hin. }
  assert (Hrest : ∀ started r, startSyncers open hostname now callback f c receiveOnly dbs = (started, r) →
    (name, env, s) ∈ started → selected f name = true ∧ ∃ lc0, (name, lc0) ∈ (n, lc) :: dbs ∧
      syncerOpenEnv open lc0 = Ok env ∧ NewSyncer name c lc0 (syncerOptions callback receiveOnly) hostname now = Ok s).
  { intros st0 r0 E0 Hin0. destruct (IH st0 r0 E0 Hin0) as (Hs & lc0 & Hlc & Ho & Hn).
    split; [done|]. exists lc0. split; [by right|done]. }
  destruct (selected f n) eqn:Es; cbn [negb] in E; [|by eapply Hrest].
  destruct (syncerOpenEnv open lc) as [e| | |] eqn:Eo;
    [|injection E as <- <-; by apply not_elem_of_nil in Hin..].
  rewrite bind_ok in E. destruct (NewSyncer n c lc (syncerOptions callback receiveOnly) hostname now) as [s0| | |] eqn:En;
    [|injection E as <- <-; by apply not_elem_of_nil in Hin..].
  rewrite bind_ok in E. destruct (startSyncers open hostname now callback f c receiveOnly dbs) as [st0 r0] eqn:Er.
  injection E as <- <-. apply elem_of_cons in Hin as [[= -> -> ->]|Hin]; [|by eapply Hrest].
  split; [done|]. exists lc. split; [left|done].
Qed.

(** C24: [receive] is safe, whatever is configured, unless a program that
    embeds the command replaces the option: every syncer it starts is
    receive-only, a send of it stores nothing and reports nothing to the
    cleaner, and its cleaner deletes nothing. *)
Theorem receive_only_is_safe fuel f c backend load sleep run :
  match callback with
  | Some g => ∀ opt, ReceiveOnly opt = true → ReceiveOnly (g opt) = true
  | None => True
  end →
  ∀ name env s,
  (name, env, s) ∈ srStarted (runSync open hostname now callback fuel f c true backend load sleep run).1 →
  nReceiveOnly (ssNode s) = true ∧
  (∀ `{P : CSProto} `{D : CSDecoder} `{G : Gzip} sizeHint isCanceled later others attempt
     interrupted fuel' e ts done lbi x,
     SendOnce (ssNode s) sizeHint isCanceled later others attempt interrupted fuel' e ts done lbi = Ok x →
     sentObject x = None ∧ sentTime x = None ∧ sentCommitted x = None) ∧
  ∀ `{F : SortFunc} reg Delete listing took cancelAt pick rand fuel' t,
    (cleanerRun reg Delete listing took cancelAt pick rand fuel' (ssCleaner s) t).1 = (ssCleaner s, []).
Proof using.
  intros Hcb name env s Hin. unfold runSync in Hin.
  destruct (_ ≫= _) as [[]| | |] in Hin; try by apply not_elem_of_nil in Hin.
  destruct (startSyncers _ _ _ _ _ _ _ _) as [started r] eqn:E.
  assert (Hs : (name, env, s) ∈ started) by (by destruct r).
  destruct (started_nodes _ _ _ _ _ _ _ _ _ E Hs) as (_ & lc & _ & _ & Hn).
  apply new_syncer in Hn as (_ & _ & _ & _ & Er & _ & Ec).
  assert (Eo : ReceiveOnly (syncerOptions callback true) = true).
  { unfold syncerOptions. destruct callback; [by apply Hcb|done]. }
  rewrite Eo in Er, Ec. split; [done|]. split.
  - intros P D G sizeHint isCanceled later others attempt interrupted fuel' e ts done' lbi x.
    unfold SendOnce. rewrite Er. intros H. inv_bind.
    repeat match goal with y : _ * _ |- _ => destruct y end. inv_bind. by simplify_eq.
  - intros F reg Delete listing took cancelAt pick rand fuel' t. unfold cleanerRun. by rewrite Ec.
Qed.

(** The databases that are not excluded are started, in the order of the
    configuration, when they can be opened. *)
Theorem selected_are_started f c receiveOnly dbs :
  (Instance c ≠ [] ∨ hostname ≠ []) →
  Forall (λ e, is_ok (syncerOpenEnv open e.2)) dbs →
  ∃ started, startSyncers open hostname now callback f c receiveOnly dbs = (started, Ok tt) ∧
    (λ x, x.1.1) <$> started = filter (λ n, selected f n = true) dbs.*1.
Proof using.
  intros Hn Hall. induction Hall as [|[n lc] dbs [e He] _ (started & E & Ef)]; [by exists []|]. simpl in He.
  rewrite fmap_cons. cbn [startSyncers]. rewrite filter_cons. cbn [fst].
  destruct (selected f n) eqn:Es; cbn [negb].
  - rewrite decide_True by done. rewrite He, bind_ok.
    destruct (proj2 (new_syncer_needs_name n c lc (syncerOptions callback receiveOnly) hostname now) Hn)
      as [s Hs]. rewrite Hs, bind_ok, E.
    eexists. split; [done|]. rewrite fmap_cons. by rewrite Ef.
  - rewrite decide_False by done. by exists started.
Qed.

(** The syncers wait for the marker file: as long as it is missing nothing
    is started, and once it is there the wait ends. *)
Theorem marker_found load sleep k :
  (∀ i, (i < k)%nat → (∃ e, load i = Err e) ∧ sleep i = Ok tt) → is_ok (load k) →
  ∀ fuel, (k < fuel)%nat → waitMarker fuel load sleep 0 = Ok k.
Proof using.
  intros Hmiss [d Hk] fuel Hf.
  assert (Hgen : ∀ j i fuel, (i + j = k)%nat → (j < fuel)%nat → waitMarker fuel load sleep i = Ok k).
  { induction j as [|j IH]; intros i fuel' Hij Hf'; (destruct fuel' as [|fuel']; [lia|]); cbn [waitMarker].
    - assert (i = k) as -> by lia. by rewrite Hk.
    - destruct (Hmiss i ltac:(lia)) as [[e ->] ->]. rewrite bind_ok. apply IH; lia. }
  by apply (Hgen k 0%nat).
Qed.

Theorem marker_missing_waits load sleep :
  (∀ i, (∃ e, load i = Err e) ∧ sleep i = Ok tt) → ∀ fuel i, waitMarker fuel load sleep i = Hang.
Proof using.
  intros Hmiss fuel. induction fuel as [|fuel IH]; intros i; [done|]. cbn [waitMarker].
  destruct (Hmiss i) as [[e ->] ->]. by rewrite bind_ok.
Qed.
End sync_laws.

(** A loop that sleeps at least a nanosecond ends when its context is
    cancelled, with that error. *)
Lemma periodically_canceled {S} (step : Z → S → Z * S) (sleep : nat → Z → Z * outcome unit) c fuel i now s :
  (∀ t s, t <= (step t s).1) →
  (∀ i t, match sleep i t with
          | (t', Ok _) => t + 1 <= t' <= Z.max (t + 1) c
          | (_, Err e) => e = Canceled
          | _ => False end) →
  (∀ i t, c <= t → (sleep i t).2 = Err Canceled) →
  c - now < Z.of_nat fuel → (0 < fuel)%nat →
  (periodically fuel step sleep i now s).2 = Err Canceled.
Proof.
  intros Hstep Hsleep Hend. revert i now s. induction fuel as [|fuel IH]; intros i now s Hf H0; [lia|].
  cbn [periodically]. destruct (step now s) as [now1 s1] eqn:E1. pose proof (Hstep now s) as H1. rewrite E1 in H1.
  simpl in H1. specialize (Hsleep i now1). specialize (Hend i now1).
  destruct (sleep i now1) as [t' [[]|e| |]] eqn:E2; [|simpl in *; by subst|done..].
  destruct (Z.le_gt_cases c now1) as [Hc|Hc]; [by specialize (Hend Hc)|].
  apply IH; lia.
Qed.

(** The cleaner ends when it is cancelled. *)
Theorem cleaner_stops `{F : SortFunc} reg Delete listing took c pick rand w now fuel :
  (∀ t, 0 <= took t) → (∀ i, 0 <= rand i < 400) → 2 <= cuInterval (wConf w) <= 89 * 24 * Hour →
  c - now < Z.of_nat fuel → (0 < fuel)%nat →
  (cleanerRun reg Delete listing took (Some c) pick rand fuel w now).2 = Err Canceled.
Proof.
  intros Ht Hr Hi Hf H0. unfold cleanerRun. destruct (cuEnabled (wConf w)); [|done]. cbn [negb].
  assert (Hp : ∀ i, 1 <= perturbed (rand i) (cuInterval (wConf w))).
  { intros i. destruct (perturbed_bounds (rand i) (cuInterval (wConf w)) (Hr i)) as [Hb _]; lia. }
  apply periodically_canceled with (c := c); try done.
  - intros t [w' l]. simpl. specialize (Ht t). lia.
  - intros i t. specialize (Hp i). unfold SleepContextPerturb, SleepContext.
    destruct (Z.max c t <? _) eqn:Hlt; [done|]. apply Z.ltb_ge in Hlt. cbn [orb].
    destruct ((_ =? _) && _); [done|]. lia.
  - intros i t Hc. specialize (Hp i). unfold SleepContextPerturb, SleepContext.
    rewrite (proj2 (Z.ltb_lt (Z.max c t) _)) by lia. done.
Qed.

(** So does the receiver, with the interval of a checked configuration. *)
Theorem receiver_stops parseLevel conf reg listing took background c pick r now fuel :
  Check parseLevel conf = Ok tt → (∀ t, 0 <= took t) → c - now < Z.of_nat fuel → (0 < fuel)%nat →
  (receiverRun reg listing took background (Some c) pick fuel conf r now).2 = Err Canceled.
Proof.
  intros Hc Ht Hf H0. assert (Hi : 1 <= StoragePollInterval conf).
  { unfold Check in Hc. destruct (Log.LogCheck _ _) as [[]| | |]; try done. rewrite bind_ok in Hc.
    case_if_in Hc; [done|]. destruct (checkLMDBs _) as [[]| | |]; try done. rewrite bind_ok in Hc.
    do 3 (case_if_in Hc; [done|]). unfold Millisecond in *. lia. }
  unfold receiverRun. apply periodically_canceled with (c := c); try done.
  - intros t r'. simpl. specialize (Ht t). lia.
  - intros i t. unfold SleepContext. destruct (Z.max c t <? _) eqn:Hlt; [done|]. apply Z.ltb_ge in Hlt.
    cbn [orb]. destruct ((_ =? _) && _); [done|]. lia.
  - intros i t Hct. unfold SleepContext. rewrite (proj2 (Z.ltb_lt (Z.max c t) _)) by lia. done.
Qed.

(** ** An example *)

Section examples.
#[local] Existing Instances Ref.RefLMDB RefEnv.

Definition exOpen (lc : LMDBConf) : outcome (@Env _ RefEnv) := Ok (Ref.MkTxn 3 ∅).
Definition exFlags : syncFlags := MkSyncFlags true [] [].

(** The configuration of the example enables the cleaner. *)
Definition exCleaning : Config :=
  MkConfig (str "one") [(str "main", ex_lmdb)] (cSweeper Default) (MkCleanup true Hour Hour (24 * Hour))
    [] (cLog Default) (cHealth Default) Second Second Second Second 3 false 0 2 3 false false.

(** A callback that adds hooks. *)
Definition exCallback (opt : Options) : Options :=
  MkOptions (ReceiveOnly opt) (optEvents opt) (Some NewHooks).

Definition exReceive := runSync (EN := RefEnv) exOpen [] 7 (Some exCallback) 1 exFlags exCleaning true
  (Ok tt) (λ _, Err EOF) (λ _, Ok tt) (λ _, []).

Lemma exStarted : ∃ s, (str "main", Ref.MkTxn 3 ∅, s) ∈ srStarted exReceive.1.
Proof. eexists. left. Qed.

Lemma receive_only_is_safe_witness : ∃ s,
  (str "main", Ref.MkTxn 3 ∅, s) ∈ srStarted exReceive.1 ∧ nReceiveOnly (ssNode s) = true.
Proof.
  destruct exStarted as [s Hs]. exists s. split; [exact Hs|].
  exact (proj1 (receive_only_is_safe (EN := RefEnv) exOpen [] 7 (Some exCallback) 1 exFlags exCleaning
    (Ok tt) (λ _, Err EOF) (λ _, Ok tt) (λ _, []) (λ opt E, E) (str "main") (Ref.MkTxn 3 ∅) s Hs)).
Defined.
End examples.
