(* ===== verification/Stats.v ===== *)
(** * Statistics (lmdbenv/stats, status/status.go, status/httpd.go,
    cmd/lightningstream/commands/stats.go)

    The Prometheus collector, the periodic log lines, the memory statistics
    read from the text of /proc/self/smaps, the registry behind the status page
    and the listing it serves.  Metrics and lines that were produced before an
    error are part of the result.  Conversions to floating point are left to
    the reader of a metric: it holds the integers. *)

From S2P Require Import Prelude Lmdb Strategy Config Shadow Syncer Transfer DBIFlags.
From S2P Require Import PdnsFix Commands SnapshotCmds.

(** ** Paths

    [filepath.Clean], [Join] and [Abs] on Unix: the components without empty
    ones and dots, and with every [..] resolved where possible. *)
Definition slash : byte := Byte.x2f.

Definition cleanStep (rooted : bool) (acc : list bytes) (c : bytes) : list bytes :=
  if bool_decide (c = []) || bool_decide (c = str ".") then acc
  else if bool_decide (c = str "..") then
    match acc with
    | [] => if rooted then [] else [c]
    | p :: acc' => if bool_decide (p = str "..") then c :: acc else acc'
    end
  else c :: acc.

Definition IsAbs (path : bytes) : bool := bool_decide (head path = Some slash).

Definition filepath_Clean (path : bytes) : bytes :=
  let rooted := IsAbs path in
  let body := PdnsFix.Join (rev (foldl (cleanStep rooted) [] (splitAt slash path))) [slash] in
  if rooted then slash :: body
  else if bool_decide (body = []) then str "." else body.

Definition filepath_Join (elems : list bytes) : bytes :=
  match filter (λ e, e ≠ []) elems with
  | [] => []
  | es => filepath_Clean (PdnsFix.Join es [slash])
  end.

(** [cwd] is the result of [os.Getwd]. *)
Definition filepath_Abs (cwd : outcome bytes) (path : bytes) : outcome bytes :=
  if IsAbs path then Ok (filepath_Clean path)
  else wd ← cwd; Ok (filepath_Join [wd; path]).

(** ** Memory statistics *)

(** [strings.Index] *)
Fixpoint indexFrom (i : Z) (s sub : bytes) : Z :=
  if HasPrefix s sub then i
  else match s with [] => -1 | _ :: s => indexFrom (i + 1) s sub end.

Definition strings_Index (s sub : bytes) : Z := indexFrom 0 s sub.

(** [strings.Fields] of ASCII text *)
Definition strings_Fields (s : bytes) : list bytes :=
  filter (λ f, f ≠ [])
    (foldr (λ b acc, if asciiSpace b then [] :: acc
                     else match acc with f :: fs => (b :: f) :: fs | [] => [[b]] end) [[]] s).

(** [strings.ToLower] of ASCII text *)
Definition lowerByte (b : byte) : byte :=
  if (65 <=? bz b) && (bz b <=? 90) then zb (bz b + 32) else b.

(** [strconv.ParseInt(s, 10, 64)] *)
Definition isDigit (b : byte) : bool := (48 <=? bz b) && (bz b <=? 57).

Definition parseInt64 (s : bytes) : option Z :=
  let '(neg, digits) :=
    match s with
    | b :: r => if bool_decide (b = Byte.x2d) then (true, r)
                else if bool_decide (b = Byte.x2b) then (false, r) else (false, s)
    | [] => (false, [])
    end in
  if bool_decide (digits = []) || negb (forallb isDigit digits) then None
  else
    let v := if neg then - undecimal digits else undecimal digits in
    if (- 2 ^ 63 <=? v) && (v <? 2 ^ 63) then Some v else None.

(** The lines after the first, up to one without a size. *)
Fixpoint memoryLines (lines : list bytes) (m : gmap bytes Z) : outcome (gmap bytes Z) :=
  match lines with
  | [] => Ok m
  | line :: lines =>
      if negb (PdnsFix.strings_Contains line (str " kB")) then Ok m
      else
        match strings_Fields line with
        | fullkey :: val :: _ :: _ =>
            key ← gslice fullkey 0 (zlen fullkey - 1);
            let lkey := lowerByte <$> key in
            match parseInt64 val with
            | None => memoryLines lines m
            | Some v => memoryLines lines (<[lkey := int64 (v * 1024)]> m)
            end
        | _ => memoryLines lines m
        end
  end.

(** A missing mapping gives a nil map. *)
Definition getMemoryStats (smaps dbpath : bytes) : outcome (option (gmap bytes Z)) :=
  let offset := strings_Index smaps dbpath in
  if offset <=? 0 then Ok None
  else
    text ← gslice smaps offset (offset + 1024);
    m ← memoryLines (tail (splitAt Byte.x0a text)) ∅;
    Ok (Some m).

(** ** The collector *)

Record EnvInfo : Type := MkEnvInfo {
  eiMapSize : Z;
  eiNumReaders : Z;
  eiLastTxnID : Z;
  eiMaxReaders : Z;
}.

Inductive desc : Type :=
  | envMapSize | envCurrentReaders | envMaxReaders | envLastTxnID | envFileSize
  | statUsageBytes | statTotalUsageBytes | statTotalUsageFraction
  | statEntries | statPages | statDepth | smapsBytes.

#[export] Instance desc_eq_dec : EqDecision desc.
Proof. solve_decision. Defined.

(** The value is the numerator and the denominator of the gauge. *)
Record metric : Type := MkMetric { mDesc : desc; mValue : Z * Z; mLabels : list bytes }.

Definition gauge (d : desc) (v : Z) (labels : list bytes) : metric := MkMetric d (v, 1) labels.

Section stats.
Context `{L : LMDB} {EN : LMDBEnv L}.
Context (env_FullInfo : Env → outcome EnvInfo) (env_Path : Env → outcome bytes).
(** [os.Stat]: whether it is a directory, and the size; [os.ReadFile] of the
    smaps file, [None] when it does not exist. *)
Context (os_Stat : bytes → outcome (bool * Z)) (cwd : outcome bytes) (smapsFile : outcome (option bytes)).
(** The order in which Go iterates a map. *)
Context (mapOrder : gmap bytes Z → list (bytes * Z)).

Definition lmdbFullPath (path : bytes) : outcome bytes :=
  '(isDir, _) ← wrap_err "stat" (os_Stat path);
  filepath_Abs cwd (if (isDir : bool) then filepath_Join [path; str "data.mdb"] else path).

Definition lmdbFileSize (path : bytes) : outcome Z :=
  path ← wrap_err "full path" (lmdbFullPath path);
  '(_, size) ← wrap_err "stat" (os_Stat path);
  Ok size.

Record Target : Type := MkTarget {
  tName : bytes;
  tDBNames : option (list bytes);
  tEnv : Env;
}.

Record Collector : Type := MkCollector { cTargets : gmap bytes Target; cSmaps : bool }.

Definition NewCollector (withSmaps : bool) : Collector := MkCollector ∅ withSmaps.

Definition AddTarget (c : Collector) (name : bytes) (dbnames : option (list bytes)) (env : Env) : Collector :=
  MkCollector (<[name := MkTarget name dbnames env]> (cTargets c)) (cSmaps c).

Definition EnableSmaps (c : Collector) (enabled : bool) : Collector := MkCollector (cTargets c) enabled.

Definition Describe : list desc :=
  [envMapSize; envCurrentReaders; envMaxReaders; envLastTxnID; envFileSize; statUsageBytes;
   statTotalUsageBytes; statTotalUsageFraction; statEntries; statPages; statDepth; smapsBytes].

(** Metrics sent before a result. *)
Definition sent (A : Type) : Type := list metric * outcome A.

Definition send_then {A B} (m : sent A) (f : A → sent B) : sent B :=
  match m with
  | (out, Ok a) => let '(out', r) := f a in (out ++ out', r)
  | (out, Err e) => (out, Err e)
  | (out, Panic) => (out, Panic)
  | (out, Hang) => (out, Hang)
  end.

Definition quietly {A} (r : outcome A) : sent A := ([], r).

Definition envMetrics (name : bytes) (info : EnvInfo) : list metric :=
  [gauge envMapSize (eiMapSize info) [name];
   gauge envCurrentReaders (eiNumReaders info) [name];
   gauge envLastTxnID (eiLastTxnID info) [name];
   gauge envMaxReaders (eiMaxReaders info) [name]].

Definition dbMetrics (name dbname : bytes) (stat : Stat) : list metric :=
  [gauge statUsageBytes (PageUsageBytes stat) [name; dbname];
   gauge statEntries (stEntries stat) [name; dbname];
   gauge statDepth (stDepth stat) [name; dbname];
   gauge statPages (stBranchPages stat) [name; dbname; str "branch"];
   gauge statPages (stLeafPages stat) [name; dbname; str "leaf"];
   gauge statPages (stOverflowPages stat) [name; dbname; str "overflow"]].

(** The databases of a target; the total is a [uint64]. *)
Fixpoint collectDBs (name : bytes) (t : Txn) (dbnames : list bytes) (total : Z) : sent Z :=
  match dbnames with
  | [] => ([], Ok total)
  | dbname :: dbnames =>
      match
        '(t, dbi) ← wrap_err "opendbi" (txn_OpenDBI t dbname 0);
        stat ← wrap_err "stat" (txn_Stat t dbi);
        Ok (t, stat)
      with
      | Ok (t, stat) =>
          let '(out, r) := collectDBs name t dbnames (uint64 (total + PageUsageBytes stat)) in
          (dbMetrics name dbname stat ++ out, r)
      | Err e => ([], Err e)
      | Panic => ([], Panic)
      | Hang => ([], Hang)
      end
  end.

Definition collectView (fuel : nat) (tg : Target) (info : EnvInfo) (t : Txn) : sent unit :=
  send_then (quietly (match tDBNames tg with Some ns => Ok ns | None => ReadDBINames fuel t end)) (λ dbnames,
  send_then (collectDBs (tName tg) t dbnames 0) (λ total,
    (gauge statTotalUsageBytes total [tName tg] ::
       (if 0 <? eiMapSize info then [MkMetric statTotalUsageFraction (total, eiMapSize info) [tName tg]] else []),
     Ok tt))).

(** The closure [do]; the caller logs its error. *)
Definition doCollect (fuel : nat) (smaps : bool) (tg : Target) : sent unit :=
  send_then (quietly (wrap_err "env info" (env_FullInfo (tEnv tg)))) (λ info,
  send_then (envMetrics (tName tg) info, Ok tt) (λ _,
  send_then (quietly (wrap_err "env path" (env_Path (tEnv tg)))) (λ path,
  send_then (quietly (wrap_err "file size" (lmdbFileSize path))) (λ filesize,
  send_then ([gauge envFileSize filesize [tName tg]], Ok tt) (λ _,
  send_then (match env_Begin (tEnv tg) true with
             | Ok t => let '(out, r) := collectView fuel tg info t in (out, wrap_err "open view" r)
             | Err e => ([], Err (EWrap "open view" e))
             | Panic => ([], Panic)
             | Hang => ([], Hang)
             end) (λ _,
    if smaps then
      send_then (quietly (wrap_err "full path" (lmdbFullPath path))) (λ fullpath,
      send_then (quietly (wrap_err "read smaps" smapsFile)) (λ data,
        match data with
        | None => ([], Ok tt)
        | Some data =>
            send_then (quietly (getMemoryStats data fullpath)) (λ m,
              ((λ kv, gauge smapsBytes kv.2 [tName tg; fullpath; kv.1]) <$> mapOrder (default ∅ m), Ok tt))
        end))
    else ([], Ok tt))))))).

(** The targets, in the order Go iterates the map.  A panic ends the
    collection; errors are logged. *)
Fixpoint collectAll (fuel : nat) (smaps : bool) (targets : list Target) : sent unit :=
  match targets with
  | [] => ([], Ok tt)
  | tg :: targets =>
      match doCollect fuel smaps tg with
      | (out, Panic) => (out, Panic)
      | (out, Hang) => (out, Hang)
      | (out, _) => let '(out', r) := collectAll fuel smaps targets in (out ++ out', r)
      end
  end.

Definition Collect (fuel : nat) (targetOrder : gmap bytes Target → list Target) (c : Collector) : sent unit :=
  collectAll fuel (cSmaps c) (targetOrder (cTargets c)).

(** ** Log lines (lmdbenv/stats/log.go) *)

Inductive logLine : Type :=
  | LInfo (info : EnvInfo) (filesize : Z)
  | LStat (dbname : bytes) (stat : Stat)
  | LMemory (m : gmap bytes Z)
  | LError (e : error).

Fixpoint logDBs (t : Txn) (dbnames : list bytes) : list logLine * outcome unit :=
  match dbnames with
  | [] => ([], Ok tt)
  | dbname :: dbnames =>
      match
        '(t, dbi) ← wrap_err "opendbi" (txn_OpenDBI t dbname 0);
        stat ← wrap_err "stat" (txn_Stat t dbi);
        Ok (t, stat)
      with
      | Ok (t, stat) => let '(out, r) := logDBs t dbnames in (LStat dbname stat :: out, r)
      | Err e => ([], Err e)
      | Panic => ([], Panic)
      | Hang => ([], Hang)
      end
  end.

Definition logView (fuel : nat) (dbnames : option (list bytes)) (t : Txn) : list logLine * outcome unit :=
  match (match dbnames with Some ns => Ok ns | None => ReadDBINames fuel t end) with
  | Ok ns => logDBs t ns
  | Err e => ([], Err e)
  | Panic => ([], Panic)
  | Hang => ([], Hang)
  end.

(** The lines of the closure [do], with its result. *)
Definition logAll (fuel : nat) (env : Env) (dbnames : option (list bytes)) (withSmaps : bool)
    : list logLine * outcome unit :=
  match
    info ← wrap_err "env info" (env_FullInfo env);
    path ← wrap_err "env path" (env_Path env);
    filesize ← wrap_err "file size" (lmdbFileSize path);
    Ok (info, path, filesize)
  with
  | Ok (info, path, filesize) =>
      let '(out, r) := match env_Begin env true with
                       | Ok t => logView fuel dbnames t
                       | Err e => ([], Err e)
                       | Panic => ([], Panic)
                       | Hang => ([], Hang)
                       end in
      let out := LInfo info filesize :: out in
      match wrap_err "open view" r with
      | Ok _ =>
          if withSmaps then
            match
              fullpath ← wrap_err "full path" (lmdbFullPath path);
              data ← wrap_err "read smaps" smapsFile;
              match (data : option bytes) with
              | None => Ok None
              | Some data => m ← getMemoryStats data fullpath; Ok (Some (default ∅ m))
              end
            with
            | Ok (Some m) => (out ++ [LMemory m], Ok tt)
            | Ok None => (out, Ok tt)
            | Err e => (out, Err e)
            | Panic => (out, Panic)
            | Hang => (out, Hang)
            end
          else (out, Ok tt)
      | r => (out, r)
      end
  | Err e => ([], Err e)
  | Panic => ([], Panic)
  | Hang => ([], Hang)
  end.

(** An error is one more line. *)
Definition Log (fuel : nat) (env : Env) (dbnames : option (list bytes)) (withSmaps : bool)
    : list logLine * outcome unit :=
  match logAll fuel env dbnames withSmaps with
  | (out, Err e) => (out ++ [LError e], Ok tt)
  | r => r
  end.

(** ** The statistics of a syncer (syncer/utils.go) *)

(** The [i]th wake-up of the logger is by its ticker ([ticked i]) or by the end
    of the context; [envs i] is the environment then.  A panic is one of the whole
    process. *)
Fixpoint statsLogger (fuel : nat) (wakeups : nat) (envs : nat → Env) (ticked : nat → bool)
    (withSmaps : bool) (i : nat) : list logLine * outcome unit :=
  match wakeups with
  | O => ([], Hang)
  | S wakeups =>
      if ticked i then
        match Log fuel (envs i) None withSmaps with
        | (out, Ok _) =>
            let '(out', r) := statsLogger fuel wakeups envs ticked withSmaps (S i) in (out ++ out', r)
        | r => r
        end
      else ([], Ok tt)
  end.

Definition startStatsLogger (fuel wakeups : nat) (c : Config) (envs : nat → Env) (ticked : nat → bool)
    : list logLine * outcome unit :=
  if LMDBLogStatsInterval c <=? 0 then ([], Ok tt)
  else statsLogger fuel wakeups envs ticked (LMDBScrapeSmaps c) 0.

Definition registerCollector (collector : Collector) (name : bytes) (c : Config) (env : Env) : Collector :=
  AddTarget (EnableSmaps collector (LMDBScrapeSmaps c)) name None env.

(** ** The command [stats] *)

(** The databases with their usage, and the total. *)
Fixpoint statsLoop (t : Txn) (names : list bytes) (usedBytes : Z) : list (bytes * Stat * Z) * outcome Z :=
  match names with
  | [] => ([], Ok usedBytes)
  | dbiName :: names =>
      match
        '(t, dbi) ← wrap_err "dbi" (txn_OpenDBI t dbiName 0);
        stat ← wrap_err "dbi" (txn_Stat t dbi);
        Ok (t, stat)
      with
      | Ok (t, stat) =>
          let used := PageUsageBytes stat in
          let '(out, r) := statsLoop t names (uint64 (usedBytes + used)) in ((dbiName, stat, used) :: out, r)
      | Err e => ([], Err e)
      | Panic => ([], Panic)
      | Hang => ([], Hang)
      end
  end.

(** What is printed: the information, the databases, and the total with the
    map size, of which the percentage is computed when it is not zero. *)
Definition statsForLMDB (fuel : nat) (open : LMDBConf → outcome Env) (lc : LMDBConf)
    : option EnvInfo * list (bytes * Stat * Z) * outcome (Z * Z) :=
  match
    env ← open lc;
    t ← env_Begin env true;
    info ← env_FullInfo env;
    Ok (t, info)
  with
  | Ok (t, info) =>
      match ReadDBINames fuel t with
      | Ok names =>
          let '(out, r) := statsLoop t names 0 in
          (Some info, out, used ← r; Ok (used, eiMapSize info))
      | Err e => (Some info, [], Err e)
      | Panic => (Some info, [], Panic)
      | Hang => (Some info, [], Hang)
      end
  | Err e => (None, [], Err e)
  | Panic => (None, [], Panic)
  | Hang => (None, [], Hang)
  end.

(** ** The registry of the status page (status/status.go) *)

(** Every configured database in the order of the names; an error is logged. *)
Definition statsCmd (fuel : nat) (open : LMDBConf → outcome Env) (conf : Config)
    : list (bytes * (option EnvInfo * list (bytes * Stat * Z) * outcome (Z * Z))) :=
  omap (λ name, (λ lc, (name, statsForLMDB fuel open lc)) <$> confOf conf name)
    (sortStrings (LMDBs conf).*1).

Record DBIStat : Type := MkDBIStat {
  dsName : bytes;
  dsStat : Stat;
  dsUsed : Z;
  dsFlags : Z;
  dsFlagsDisplay : bytes;
}.

Record DBInfo : Type := MkDBInfo {
  diName : bytes;
  diInfo : EnvInfo;
  diStats : list DBIStat;
  diUsed : Z;
  diErr : option error;
}.

Context `{B : BlobStore}.

Record info : Type := MkInfo { giDBs : list (bytes * Env); giStorage : option St }.

Definition ListBlobs (i : info) : outcome (list Blob) :=
  match giStorage i with
  | None => Err (EMsg "no storage registered with status page")
  | Some st => st_List st []
  end.

Fixpoint dbiStats (t : Txn) (names : list bytes) (acc : list DBIStat) (used : Z)
    : list DBIStat * Z * outcome unit :=
  match names with
  | [] => (acc, used, Ok tt)
  | dbiName :: names =>
      match
        '(t, dbi) ← txn_OpenDBI t dbiName 0;
        fl ← txn_Flags t dbi;
        st ← txn_Stat t dbi;
        Ok (t, fl, st)
      with
      | Ok (t, fl, st) =>
          let ds := MkDBIStat dbiName st (PageUsageBytes st) fl (FriendlyString fl) in
          dbiStats t names (acc ++ [ds]) (uint64 (used + dsUsed ds))
      | Err e => (acc, used, Err e)
      | Panic => (acc, used, Panic)
      | Hang => (acc, used, Hang)
      end
  end.

(** One database of the page; [None] is left out.  A panic is not an error. *)
Definition dbInfo (fuel : nat) (db : bytes * Env) : outcome (option DBInfo) :=
  match env_FullInfo db.2 with
  | Ok ei =>
      let '(stats, used, r) :=
        match env_Begin db.2 true with
        | Ok t =>
            match ReadDBINames fuel t with
            | Ok names => dbiStats t names [] 0
            | Err e => ([], 0, Err e)
            | Panic => ([], 0, Panic)
            | Hang => ([], 0, Hang)
            end
        | Err e => ([], 0, Err e)
        | Panic => ([], 0, Panic)
        | Hang => ([], 0, Hang)
        end in
      match r with
      | Ok _ => Ok (Some (MkDBInfo db.1 ei stats used None))
      | Err e => Ok (Some (MkDBInfo db.1 ei stats used (Some e)))
      | Panic => Panic
      | Hang => Hang
      end
  | Err _ => Ok None
  | Panic => Panic
  | Hang => Hang
  end.

Fixpoint allDBInfo (fuel : nat) (dbs : list (bytes * Env)) : outcome (list DBInfo) :=
  match dbs with
  | [] => Ok []
  | db :: dbs =>
      i ← dbInfo fuel db;
      rest ← allDBInfo fuel dbs;
      Ok (match (i : option DBInfo) with Some i => i :: rest | None => rest end)
  end.

Definition DBInfoPage (fuel : nat) (i : info) : outcome (list DBInfo) := allDBInfo fuel (giDBs i).

Definition AddLMDBEnv (name : bytes) (env : Env) (i : info) : info :=
  MkInfo (giDBs i ++ [(name, env)]) (giStorage i).

Definition RemoveLMDBEnv (name : bytes) (i : info) : info :=
  MkInfo (filter (λ db, db.1 ≠ name) (giDBs i)) (giStorage i).

Definition SetStorage (st : option St) (i : info) : info := MkInfo (giDBs i) st.

(** The page [/storage]: the status and the body. *)
Definition BlobListPage (errorText : error → bytes) (i : info) : Z * bytes :=
  match ListBlobs i with
  | Ok l => (200, str "Name" ++ [Byte.x09] ++ str "Size" ++ newline ++
                  concat ((λ b, bName b ++ [Byte.x09] ++ itoa (bSize b) ++ newline) <$> l))
  | Err e => (500, str "ERROR LISTING STORAGE: " ++ errorText e ++ newline)
  | _ => (500, [])
  end.
End stats.

(** ** Properties *)

Example clean_paths :
  filepath_Clean <$> [str "a/./b//../c/"; str "/../x"; str "../.."; str "a/.."; []; str "/"] =
    [str "a/c"; str "/x"; str "../.."; str "."; str "."; str "/"] ∧
  filepath_Join [str "/var/db/"; str "data.mdb"] = str "/var/db/data.mdb".
Proof. by vm_compute. Qed.

(** The last mapping of the file may be closer to the end than 1024 bytes: the
    slice then panics. *)
Theorem smaps_tail_panics smaps dbpath :
  0 < strings_Index smaps dbpath → zlen smaps < strings_Index smaps dbpath + 1024 →
  getMemoryStats smaps dbpath = Panic.
Proof.
  intros H1 H2. unfold getMemoryStats. rewrite (proj2 (Z.leb_gt _ _)) by lia.
  unfold gslice. rewrite (proj2 (Z.leb_gt (_ + 1024) (zlen smaps))) by lia. by rewrite andb_false_r.
Qed.

(** *** Lines of sizes *)

Definition memoryLine (e : bytes * nat * Z) : bytes :=
  e.1.1 ++ str ":" ++ replicate (S e.1.2) Byte.x20 ++ itoa e.2 ++ str " kB".

Definition solid (s : bytes) : Prop := Forall (λ b, asciiSpace b = false) s.

Definition fieldsFold (s : bytes) (acc : list bytes) : list bytes :=
  foldr (λ b acc, if asciiSpace b then [] :: acc
                  else match acc with f :: fs => (b :: f) :: fs | [] => [[b]] end) acc s.

Lemma fieldsFold_solid s f fs : solid s → fieldsFold s (f :: fs) = (s ++ f) :: fs.
Proof. unfold fieldsFold. induction 1 as [|b s Hb _ IH]; [done|]. simpl. by rewrite Hb, IH. Qed.

Lemma fieldsFold_spaces n acc : fieldsFold (replicate n Byte.x20) acc = replicate n [] ++ acc.
Proof. unfold fieldsFold. induction n as [|n IH]; [done|]. simpl. by rewrite IH. Qed.

Lemma fields_three a n b c :
  solid a → solid b → solid c → a ≠ [] → b ≠ [] → c ≠ [] →
  strings_Fields (a ++ replicate (S n) Byte.x20 ++ b ++ [Byte.x20] ++ c) = [a; b; c].
Proof.
  intros Ha Hb Hc Na Nb Nc. unfold strings_Fields. fold (fieldsFold (a ++ replicate (S n) Byte.x20 ++ b ++ [Byte.x20] ++ c) [[]]).
  unfold fieldsFold. rewrite !foldr_app. fold (fieldsFold c [[]]). rewrite fieldsFold_solid, app_nil_r by done.
  change (foldr _ [c] [Byte.x20]) with ([] :: [c]). fold (fieldsFold b ([] :: [c])).
  rewrite fieldsFold_solid, app_nil_r by done. fold (fieldsFold (replicate (S n) Byte.x20) [b; c]).
  rewrite fieldsFold_spaces. fold (fieldsFold a (replicate (S n) [] ++ [b; c])).
  change (replicate (S n) [] ++ [b; c]) with ([] :: (replicate n [] ++ [b; c])).
  rewrite fieldsFold_solid, app_nil_r by done. rewrite filter_cons_True by done. f_equal.
  rewrite list.filter_app, filter_none.
  - by rewrite !filter_cons_True by done.
  - intros x Hx. apply elem_of_replicate in Hx as [-> _]. tauto.
Qed.

Lemma digits_solid s : Forall (λ b, 48 <= bz b <= 57) s → solid s.
Proof.
  apply Forall_impl. intros b Hb. unfold asciiSpace. rewrite orb_false_iff, andb_false_iff.
  rewrite Z.leb_gt, Z.leb_gt, Z.eqb_neq. lia.
Qed.

Lemma parseInt64_itoa v : 0 <= v < 2 ^ 63 → parseInt64 (itoa v) = Some v.
Proof.
  intros Hv. pose proof (itoa_digits v ltac:(lia)) as Hd. pose proof (undecimal_itoa v ltac:(lia)) as Hu.
  unfold parseInt64. assert (Hhead : match itoa v with
    | b :: r => if bool_decide (b = Byte.x2d) then (true, r)
                else if bool_decide (b = Byte.x2b) then (false, r) else (false, itoa v)
    | [] => (false, []) end = (false, itoa v)).
  { destruct (itoa v) as [|b r]; [done|]. apply Forall_cons_1 in Hd as [Hb _].
    rewrite !bool_decide_eq_false_2; [done|..]; intros ->; vm_compute in Hb; by destruct Hb. }
  rewrite Hhead. assert (Hne : itoa v ≠ []).
  { intros E. rewrite E in Hu. assert (v = 0) as -> by done. by vm_compute in E. }
  rewrite bool_decide_eq_false_2 by done. assert (forallb isDigit (itoa v) = true) as ->.
  { apply forallb_forall. intros b Hb. rewrite Forall_forall in Hd. specialize (Hd b Hb).
    unfold isDigit. rewrite (proj2 (Z.leb_le _ _)), (proj2 (Z.leb_le _ _)) by lia. done. }
  cbn [orb negb]. rewrite Hu, (proj2 (Z.leb_le _ _)), (proj2 (Z.ltb_lt _ _)) by lia. done.
Qed.

Lemma strings_Contains_app p s sub : HasPrefix s sub = true → PdnsFix.strings_Contains (p ++ s) sub = true.
Proof.
  intros H. induction p as [|b p IH]; simpl.
  - destruct s; simpl; by rewrite H.
  - rewrite IH. apply orb_true_r.
Qed.

Lemma memoryLine_parts e :
  solid e.1.1 → 0 <= e.2 < 2 ^ 53 →
  PdnsFix.strings_Contains (memoryLine e) (str " kB") = true ∧
  strings_Fields (memoryLine e) = [e.1.1 ++ str ":"; itoa e.2; str "kB"].
Proof.
  intros Hs Hv. unfold memoryLine. split.
  - rewrite !app_assoc. apply strings_Contains_app. by vm_compute.
  - rewrite app_assoc. change (str " kB") with ([Byte.x20] ++ str "kB"). apply fields_three.
    + apply Forall_app. split; [done|]. by repeat constructor.
    + apply digits_solid, itoa_digits. lia.
    + by repeat constructor.
    + by destruct e.1.1.
    + intros E. pose proof (parseInt64_itoa e.2 ltac:(lia)) as H. by rewrite E in H.
    + done.
Qed.

(** The sizes of a mapping are read back from its lines, in bytes; the lines
    end at the first one without a size. *)
Theorem memory_lines_read (l : list (bytes * nat * Z)) (rest : list bytes) m :
  Forall (λ e, solid e.1.1 ∧ 0 <= e.2 < 2 ^ 53) l →
  match rest with [] => True | line :: _ => PdnsFix.strings_Contains line (str " kB") = false end →
  memoryLines ((memoryLine <$> l) ++ rest) m =
    Ok (foldl (λ m e, <[lowerByte <$> e.1.1 := 1024 * e.2]> m) m l).
Proof.
  intros Hl Hrest. revert m. induction Hl as [|e l [Hs Hv] _ IH]; intros m.
  { destruct rest as [|line rest]; [done|]. simpl. by rewrite Hrest. }
  rewrite fmap_cons. cbn [app memoryLines foldl]. destruct (memoryLine_parts e Hs Hv) as [-> ->]. cbn [negb].
  rewrite zlen_app. change (zlen (str ":")) with 1. pose proof (zlen_nonneg e.1.1).
  rewrite gslice_ok by (rewrite ?zlen_app; change (zlen (str ":")) with 1; lia). rewrite bind_ok.
  replace (zlen e.1.1 + 1 - 1 - 0) with (zlen e.1.1) by lia. unfold zlen. rewrite Nat2Z.id.
  change (Z.to_nat 0) with 0%nat. rewrite drop_0, take_app_length.
  rewrite parseInt64_itoa by lia. rewrite int64_small by lia. rewrite (Z.mul_comm e.2). apply IH.
Qed.

(** *** Totals *)

Section laws.
Context `{V : LMDBView} `{HL : !LMDBLaws L V}.

(** The metrics of a target cover every database, and the total is the sum. *)
Theorem collected_total name t dbnames total :
  (∀ n, n ∈ dbnames → is_Some (dbi_of t n)) →
  ∃ stats, length stats = length dbnames ∧
    collectDBs name t dbnames total =
      (concat (zip_with (dbMetrics name) dbnames stats),
       Ok (foldl (λ s st, uint64 (s + PageUsageBytes st)) total stats)).
Proof using HL.
  revert total. induction dbnames as [|n dbnames IH]; intros total Hall; [by exists []|]. cbn [collectDBs].
  destruct (Hall n ltac:(left)) as [h Hh]. rewrite (open_existing _ _ _ _ Hh). cbn [wrap_err]. rewrite bind_ok.
  destruct (get_stat t h) as [st Hst]; [right; by exists n|]. rewrite Hst. cbn [wrap_err]. rewrite bind_ok.
  destruct (IH (uint64 (total + PageUsageBytes st))) as (stats & Hlen & E); [intros; apply Hall; by right|].
  exists (st :: stats). split; [simpl; lia|]. by rewrite E.
Qed.
End laws.

Section registry.
Context `{L : LMDB} {EN : LMDBEnv L} `{B : BlobStore} (env_FullInfo : Env → outcome EnvInfo).

(** A database whose information cannot be read is missing from the page,
    together with the error that the page has a column for. *)
Theorem info_error_hides_database fuel dbs name env e :
  env_FullInfo env = Err e →
  allDBInfo env_FullInfo fuel ((name, env) :: dbs) = allDBInfo env_FullInfo fuel dbs.
Proof using. intros E. cbn [allDBInfo]. unfold dbInfo at 1. simpl. rewrite E, bind_ok. by destruct (allDBInfo _ _ _). Qed.

(** A syncer that ends takes its database, and only that, off the page. *)
Theorem registered_until_removed (i : info) name env n :
  (∃ e, (n, e) ∈ giDBs (RemoveLMDBEnv name (AddLMDBEnv name env i))) ↔
  n ≠ name ∧ ∃ e, (n, e) ∈ giDBs i.
Proof using.
  unfold RemoveLMDBEnv, AddLMDBEnv. cbn [giDBs]. split.
  - intros [e [Hn He]%list_elem_of_filter]. simpl in Hn. split; [done|].
    apply elem_of_app in He as [He|He]; [by exists e|]. apply list_elem_of_singleton in He as [= -> ->]. done.
  - intros [Hn [e He]]. exists e. apply list_elem_of_filter. split; [done|]. apply elem_of_app. by left.
Qed.

(** The logger writes the lines of every tick up to the end of the context, if
    none of them panics. *)
Theorem logger_logs_every_tick env_Path os_Stat cwd smapsFile fuel n envs ticked withSmaps i lines :
  (∀ j, (j < n)%nat → ticked (i + j)%nat = true ∧
     Log env_FullInfo env_Path os_Stat cwd smapsFile fuel (envs (i + j)%nat) None withSmaps =
       (lines (i + j)%nat, Ok tt)) →
  ticked (i + n)%nat = false →
  statsLogger env_FullInfo env_Path os_Stat cwd smapsFile fuel (S n) envs ticked withSmaps i =
    (concat (lines <$> seq i n), Ok tt).
Proof using.
  revert i. induction n as [|n IH]; intros i Hl He; cbn [statsLogger].
  { rewrite Nat.add_0_r in He. by rewrite He. }
  destruct (Hl 0%nat ltac:(lia)) as [Ht El]. rewrite Nat.add_0_r in Ht, El. rewrite Ht, El.
  pose proof (IH (S i)) as IH'. cbn [statsLogger] in IH'. rewrite IH'; [done| |].
  - intros j Hj. replace (S i + j)%nat with (i + S j)%nat by lia. apply Hl. lia.
  - by replace (S i + n)%nat with (i + S n)%nat by lia.
Qed.
End registry.
