(* ===== verification/Hooks.v ===== *)
(** * The use of hooks and events (syncer/send.go, sync.go, receiver.go)

    [SendOnce] with all it does to the syncer: hooks, events, the health of the
    storage, the time of the last snapshot and the report to the cleaner; and
    the hooks of the loop and of the receiver.  The hooks and events themselves
    are in Options.v.  Without hooks it is the [SendOnce] of Syncer.v. *)

From S2P Require Import Prelude Header Proto Dbi Lmdb Strategy Iterators Config Shadow Name Snapshot.
From S2P Require Import Syncer Transfer Cleaner Trackers SyncLoop Receiver Topics SnapshotCmds Options Run.

(** ** SendOnce *)

Definition setMeta (m : Meta) (s : Snapshot) : Snapshot :=
  MkSnapshot (snFormatVersion s) (snCompatVersion s) m (Databases s).
Definition setDatabases (ds : list DBI) (s : Snapshot) : Snapshot :=
  MkSnapshot (snFormatVersion s) (snCompatVersion s) (snMeta s) ds.
Definition setTimestampNano (z : Z) (m : Meta) : Meta :=
  MkMeta (mGenerationID m) (mInstanceID m) (mHostname m) (mLmdbTxnID m) z (mDatabaseName m)
    (mFromLmdbTxnID m).
Definition setLmdbTxnID (z : Z) (m : Meta) : Meta :=
  MkMeta (mGenerationID m) (mInstanceID m) (mHostname m) z (mTimestampNano m) (mDatabaseName m)
    (mFromLmdbTxnID m).

Definition setHealth `{L : LMDB} (ht : HealthTracker) (s : SyncerState) : SyncerState :=
  MkSyncerState (ssNode s) (ssShadow s) (ssEvents s) (ssHooks s) (ssLastByInstance s)
    (ssLastSnapshotTime s) (ssCleaner s) ht (ssStartTracker s).
Definition setSnapshotTime `{L : LMDB} (z : Z) (s : SyncerState) : SyncerState :=
  MkSyncerState (ssNode s) (ssShadow s) (ssEvents s) (ssHooks s) (ssLastByInstance s) z
    (ssCleaner s) (ssStoreHealth s) (ssStartTracker s).
Definition setCleaner `{L : LMDB} (w : Worker) (s : SyncerState) : SyncerState :=
  MkSyncerState (ssNode s) (ssShadow s) (ssEvents s) (ssHooks s) (ssLastByInstance s)
    (ssLastSnapshotTime s) w (ssStoreHealth s) (ssStartTracker s).

(** The syncer, the stored object and the published event after a send, which
    are there also when it fails. *)
Record SendState `{L : LMDB} : Type := MkSend {
  sdSyncer : SyncerState;
  sdObject : option (bytes * bytes);
  sdPublished : list UpdateInfo;
}.

Arguments MkSend {L}.

Definition runHook {A} (msg : String.string) (hook : option (A → outcome A)) (a : A) : outcome A :=
  match hook with Some f => wrap_err msg (f a) | None => Ok a end.

Arguments runHook {A} msg%_string_scope hook a.

Section send.
Context `{P : CSProto} `{D : CSDecoder} `{G : Gzip} `{L : LMDB} `{E : !LMDBEnv L}.
Context (h : Hooks) (sizeHint : Z → Z → bool → Z) (isCanceled : bytes → bool → bool).
Context (later : Z → Z) (others : Env → Env).
(** The store as in Syncer.v, with the time of a failure and the text of its error. *)
Context (attempt : nat → option error) (interrupted : nat → bool) (failedAt : nat → Z).
Context (errorText : error → bytes).

(** The transaction: [BeforeRead] comes first and may change the message and the
    transaction. *)
Definition sendTxnHooked (n : Node) (fuel : nat) (ts : Z) (msg : Snapshot) (t : Txn)
    : outcome (Txn * (Z * Snapshot)) :=
  '(msg, t) ← runHook "hooks.BeforeRead" ((λ f p, f p.1 p.2) <$> BeforeRead h) (msg, t);
  let msg := setMeta (setTimestampNano (TimestampFromTime ts) (snMeta msg)) msg in
  let txnID := uint64 (txn_ID t) in
  t ← (if negb (schemaTracksChanges n)
       then mainToShadow (nSyncer n) sizeHint isCanceled fuel t (later ts) (TimestampFromTime ts)
       else Ok t);
  if nReceiveOnly n then Ok (t, (txnID, msg))
  else
    dbiNames ← ReadDBINames fuel t;
    '(t, dbis) ← dumpDBIs n sizeHint isCanceled fuel t dbiNames (Databases msg);
    Ok (t, (txnID, setDatabases dbis msg)).

(** The retry loop: a failure goes to the health tracker; after a success the
    hook may still fail, and only then the event and the success are reported. *)
Fixpoint storeHooked (fuel i : nat) (err : option error) (name out : bytes) (info : UpdateInfo)
    (sd : SendState) : SendState * outcome unit :=
  match fuel with
  | O => (sd, Hang)
  | S fuel =>
      let c := nConf (ssNode (sdSyncer sd)) in
      if (Z.of_nat i <? StorageRetryCount c) || StorageRetryForever c then
        match attempt i with
        | Some e =>
            let ht := AddFailure (ssStoreHealth (sdSyncer sd)) (failedAt i) (errorText e) in
            let sd := MkSend (setHealth ht (sdSyncer sd)) (sdObject sd) (sdPublished sd) in
            if interrupted i then (sd, Err Canceled)
            else storeHooked fuel (S i) (Some e) name out info sd
        | None =>
            let sd := MkSend (sdSyncer sd) (Some (name, out)) (sdPublished sd) in
            match (match UpdateStored h with Some f => f info | None => Ok tt end) with
            | Ok _ =>
                let ht := AddSuccess (ssStoreHealth (sdSyncer sd)) in
                (MkSend (setHealth ht (sdSyncer sd)) (sdObject sd) (sdPublished sd ++ [info]), Ok tt)
            | r => (sd, r)
            end
        end
      else (sd, match err with Some e => Err e | None => Ok tt end)
  end.

Definition firstMessage (n : Node) : Snapshot :=
  MkSnapshot CurrentFormatVersion WriteCompatFormatVersion
    (MkMeta generationID (instanceID n) (nHostname n) 0 0 (sName (nSyncer n)) 0) [].

Definition firstNameInfo (n : Node) (ts : Z) : NameInfo :=
  MkNameInfo [] [] DefaultExtension KindSnapshot (sName (nSyncer n)) (instanceID n) generationID [] ts [].

(** Everything up to the store: the environment, the transaction ID and, unless
    the syncer only receives, the metadata, the name and the object. *)
Definition prepare (n : Node) (fuel : nat) (e : Env) (ts : Z)
    : outcome (Env * Z * option (Meta * NameInfo * bytes)) :=
  '(e, (txnID, msg)) ←
    (if schemaTracksChanges n then env_View e (sendTxnHooked n fuel ts (firstMessage n))
     else env_Update e (sendTxnHooked n fuel ts (firstMessage n)));
  let e := others e in
  txnID ← adjustTxnID e txnID;
  let msg := setMeta (setLmdbTxnID (int64 txnID) (snMeta msg)) msg in
  if nReceiveOnly n then Ok (e, txnID, None)
  else
    '(msg, ni) ← runHook "hooks.UpdateSnapshotInfo" ((λ f p, f p.1 p.2) <$> UpdateSnapshotInfo h)
                   (msg, firstNameInfo n ts);
    '(msg, out, _) ← DumpData msg;
    Ok (e, txnID, Some (snMeta msg, ni, out)).

End send.

Section send_once.
Context `{P : CSProto} `{D : CSDecoder} `{G : Gzip} `{L : LMDB} `{E : !LMDBEnv L}.
Context (sizeHint : Z → Z → bool → Z) (isCanceled : bytes → bool → bool).
Context (later : Z → Z) (others : Env → Env).
Context (attempt : nat → option error) (interrupted : nat → bool) (failedAt : nat → Z).
Context (errorText : error → bytes).

(** With the hooks of the syncer; [done] is the time at the end. *)
Definition SendOnceHooked (fuel : nat) (e : Env) (ts done : Z) (s : SyncerState)
    : SendState * outcome (Env * Z) :=
  let h := ssHooks s in
  let sd := MkSend s None [] in
  match prepare h sizeHint isCanceled later others (ssNode s) fuel e ts with
  | Ok (e, txnID, None) => (sd, Ok (e, txnID))
  | Ok (e, txnID, Some (meta, ni, out)) =>
      match storeHooked h attempt interrupted failedAt errorText fuel 0 None (BuildName ni) out
              (MkUpdateInfo ni meta) sd with
      | (sd, Ok _) =>
          let s := sdSyncer sd in
          let s := if bool_decide (Kind ni = KindSnapshot) then setSnapshotTime done s else s in
          let s := setCleaner (SetCommitted (ssCleaner s) (ssLastByInstance s)) s in
          (MkSend s (sdObject sd) (sdPublished sd), Ok (e, txnID))
      | (sd, Err e) => (sd, Err e)
      | (sd, Panic) => (sd, Panic)
      | (sd, Hang) => (sd, Hang)
      end
  | Err e => (sd, Err e)
  | Panic => (sd, Panic)
  | Hang => (sd, Hang)
  end.
End send_once.

(** ** Without hooks *)

Section without_hooks.
Context `{P : CSProto} `{D : CSDecoder} `{G : Gzip} `{L : LMDB} `{E : !LMDBEnv L}.
Context (h : Hooks) (sizeHint : Z → Z → bool → Z) (isCanceled : bytes → bool → bool).
Context (later : Z → Z) (others : Env → Env).
Context (attempt : nat → option error) (interrupted : nat → bool) (failedAt : nat → Z).
Context (errorText : error → bytes).

#[local] Notation txnHooked := (sendTxnHooked h sizeHint isCanceled later).
#[local] Notation storeIt := (storeHooked h attempt interrupted failedAt errorText).
#[local] Notation prepareIt := (prepare h sizeHint isCanceled later others).
#[local] Notation sendIt :=
  (SendOnceHooked sizeHint isCanceled later others attempt interrupted failedAt errorText).

Lemma txnHooked_nil n fuel ts t :
  BeforeRead h = None →
  txnHooked n fuel ts (firstMessage n) t =
    '(t, (txnID, ds)) ← sendTxn n sizeHint isCanceled later fuel ts t;
    Ok (t, (txnID, MkSnapshot CurrentFormatVersion WriteCompatFormatVersion (newMeta n ts 0) ds)).
Proof.
  intros Hb. unfold sendTxnHooked, sendTxn, runHook. rewrite Hb. cbn [fmap option_fmap option_map].
  rewrite bind_ok. cbn [firstMessage snMeta setMeta Databases].
  destruct (if negb (schemaTracksChanges n) then _ else _) as [t1| | |]; [|done..]. rewrite !bind_ok.
  destruct (nReceiveOnly n); [done|].
  destruct (ReadDBINames fuel t1) as [names| | |]; [|done..]. rewrite !bind_ok.
  by destruct (dumpDBIs _ _ _ _ _ _ _) as [[t2 ds]| | |].
Qed.

(** What the retry loop leaves alone. *)
Definition same_but_health (s s' : SyncerState) : Prop :=
  ssNode s' = ssNode s ∧ ssLastByInstance s' = ssLastByInstance s ∧
  ssLastSnapshotTime s' = ssLastSnapshotTime s ∧ ssCleaner s' = ssCleaner s.

Lemma storeIt_same fuel i err name out info sd :
  same_but_health (sdSyncer sd) (sdSyncer (storeIt fuel i err name out info sd).1).
Proof.
  revert i err sd. induction fuel as [|fuel IH]; intros i err sd; [done|]. cbn [storeHooked].
  destruct (_ || _); [|done]. destruct (attempt i) as [e|].
  - destruct (interrupted i); [done|].
    match goal with |- context [storeHooked _ _ _ _ _ _ _ _ _ _ _ ?sd'] =>
      pose proof (IH (S i) (Some e) sd') as H end. exact H.
  - destruct (match UpdateStored h with Some f => _ | None => _ end); done.
Qed.

(** The loop of Syncer.v, with what it reports. *)
Lemma storeIt_nil fuel i err name out info sd :
  UpdateStored h = None →
  let r := storeIt fuel i err name out info sd in
  match storeLoop (ssNode (sdSyncer sd)) attempt interrupted fuel i err with
  | Ok (Some _) => r.2 = Ok tt ∧ sdObject r.1 = Some (name, out) ∧
                   sdPublished r.1 = sdPublished sd ++ [info]
  | Ok None => r.2 = Ok tt ∧ sdObject r.1 = sdObject sd ∧ sdPublished r.1 = sdPublished sd
  | Err e => r.2 = Err e
  | Panic => r.2 = Panic
  | Hang => r.2 = Hang
  end.
Proof.
  intros Hh. revert i err sd. induction fuel as [|fuel IH]; intros i err sd; [done|].
  cbn [storeHooked storeLoop]. destruct (_ || _).
  - destruct (attempt i) as [e|]; [|by rewrite Hh]. destruct (interrupted i); [done|].
    match goal with |- context [storeHooked _ _ _ _ _ _ _ _ _ _ _ ?sd'] => exact (IH (S i) (Some e) sd') end.
  - by destruct err.
Qed.

Definition nil_hooks : Prop :=
  BeforeRead h = None ∧ UpdateSnapshotInfo h = None ∧ UpdateStored h = None.

(** Without hooks, [SendOnce] is the one the rest of the library is about:
    the same result and stored object, and the time of the last snapshot and the
    committed snapshots of the cleaner are set exactly when it says so. *)
Theorem send_without_hooks fuel e ts done s :
  ssHooks s = h → nil_hooks →
  let r := sendIt fuel e ts done s in
  match SendOnce (ssNode s) sizeHint isCanceled later others attempt interrupted fuel e ts done
          (ssLastByInstance s) with
  | Ok x => r.2 = Ok (sentEnv x, sentTxnID x) ∧ sdObject r.1 = sentObject x ∧
      ssLastSnapshotTime (sdSyncer r.1) = default (ssLastSnapshotTime s) (sentTime x) ∧
      ssCleaner (sdSyncer r.1) =
        match sentCommitted x with Some l => SetCommitted (ssCleaner s) l | None => ssCleaner s end
  | Err er => r.2 = Err er
  | Panic => r.2 = Panic
  | Hang => r.2 = Hang
  end.
Proof.
  intros Eh (Hb & Hu & Hs). unfold SendOnceHooked, SendOnce. rewrite Eh. cbv zeta. set (n := ssNode s).
  assert (Ep : prepareIt n fuel e ts =
    '(e, (txnID, dbis)) ← (if schemaTracksChanges n
        then env_View e (sendTxn n sizeHint isCanceled later fuel ts)
        else env_Update e (sendTxn n sizeHint isCanceled later fuel ts));
    txnID ← adjustTxnID (others e) txnID;
    if nReceiveOnly n then Ok (others e, txnID, None)
    else '(m, out, _) ← DumpData (MkSnapshot CurrentFormatVersion WriteCompatFormatVersion
                          (newMeta n ts txnID) dbis);
         Ok (others e, txnID, Some (snMeta m, firstNameInfo n ts, out))).
  { unfold prepare, env_View, env_Update, runHook. rewrite Hu.
    destruct (schemaTracksChanges n);
      (destruct (env_Begin e _) as [t| | |]; [|done..]); rewrite !bind_ok, (txnHooked_nil n fuel ts t Hb);
      (destruct (sendTxn _ _ _ _ _ _ _) as [[t1 [id ds]]| | |]; [|done..]); rewrite !bind_ok; [done|].
    by destruct (env_Commit e t1). }
  rewrite Ep. destruct (if schemaTracksChanges n then _ else _) as [[e1 [id ds]]| | |]; [|done..].
  rewrite !bind_ok. destruct (adjustTxnID (others e1) id) as [z| | |]; [|done..]. rewrite !bind_ok.
  destruct (nReceiveOnly n); [done|].
  destruct (DumpData _) as [[[m out] st]| | |]; [|done..]. rewrite !bind_ok.
  pose proof (storeIt_nil fuel 0 None (BuildName (firstNameInfo n ts)) out
    (MkUpdateInfo (firstNameInfo n ts) (snMeta m)) (MkSend s None []) Hs) as Hst.
  pose proof (storeIt_same fuel 0 None (BuildName (firstNameInfo n ts)) out
    (MkUpdateInfo (firstNameInfo n ts) (snMeta m)) (MkSend s None [])) as (_ & El & Et & Ec).
  cbv zeta in Hst. cbn [sdSyncer] in *. fold n in Hst.
  destruct (storeIt _ _ _ _ _ _ _) as [sd r]. simpl in Hst, El, Et, Ec.
  destruct (storeLoop n attempt interrupted fuel 0 None) as [[j|]|er| |].
  - destruct Hst as (-> & Eo & _). simpl. by rewrite El, Ec.
  - destruct Hst as (-> & Eo & _). simpl. by rewrite El, Ec.
  - by rewrite Hst.
  - by rewrite Hst.
  - by rewrite Hst.
Qed.
End without_hooks.

(** ** With any hooks *)

Section with_hooks.
Context `{L : LMDB} (h : Hooks).
Context (attempt : nat → option error) (interrupted : nat → bool) (failedAt : nat → Z).
Context (errorText : error → bytes).

#[local] Notation storeIt := (storeHooked h attempt interrupted failedAt errorText).

(** A store loop that succeeds has stored the object, announced it once and
    reset the health; one that fails has announced nothing, and has stored the
    object only when the hook failed. *)
Lemma storeIt_reports fuel i err name out info sd :
  let c := nConf (ssNode (sdSyncer sd)) in
  (err = None → Z.of_nat i < StorageRetryCount c ∨ StorageRetryForever c = true) →
  let r := storeIt fuel i err name out info sd in
  match r.2 with
  | Ok _ => sdObject r.1 = Some (name, out) ∧ sdPublished r.1 = sdPublished sd ++ [info] ∧
      htSequence (ssStoreHealth (sdSyncer r.1)) = 0
  | _ => sdPublished r.1 = sdPublished sd ∧
      (sdObject r.1 = sdObject sd ∨
       sdObject r.1 = Some (name, out) ∧ ∃ f, UpdateStored h = Some f ∧ ∀ x, f info ≠ Ok x)
  end.
Proof.
  revert i err sd. induction fuel as [|fuel IH]; intros i err sd c Hc; [split; [done|by left]|]. cbn [storeHooked].
  fold c. destruct ((Z.of_nat i <? StorageRetryCount c) || StorageRetryForever c) eqn:Et.
  - destruct (attempt i) as [e|].
    + destruct (interrupted i); [split; [done|by left]|].
      match goal with |- context [storeHooked _ _ _ _ _ _ _ _ _ _ _ ?sd'] =>
        exact (IH (S i) (Some e) sd' ltac:(done)) end.
    + destruct (UpdateStored h) as [f|] eqn:Ef; [|done].
      destruct (f info) as [[]|e| |] eqn:Efi; [done|..];
        (split; [done|right; split; [done|exists f; split; [done|intros x; by rewrite Efi]]]).
  - destruct err as [e|]; [split; [done|by left]|]. exfalso. apply orb_false_iff in Et as [Hi%Z.ltb_ge Hf].
    destruct (Hc eq_refl); [lia|congruence].
Qed.
End with_hooks.

(** *** What a send reports *)

Section reports.
Context `{P : CSProto} `{D : CSDecoder} `{G : Gzip} `{L : LMDB} `{E : !LMDBEnv L}.
Context (sizeHint : Z → Z → bool → Z) (isCanceled : bytes → bool → bool).
Context (later : Z → Z) (others : Env → Env).
Context (attempt : nat → option error) (interrupted : nat → bool) (failedAt : nat → Z).
Context (errorText : error → bytes).

#[local] Notation prepareIt s :=
  (prepare (ssHooks s) sizeHint isCanceled later others (ssNode s)).
#[local] Notation sendIt :=
  (SendOnceHooked sizeHint isCanceled later others attempt interrupted failedAt errorText).

Lemma prepare_receiveOnly (s : SyncerState) fuel e ts e' z o :
  prepareIt s fuel e ts = Ok (e', z, o) → (nReceiveOnly (ssNode s) = true ↔ o = None).
Proof.
  unfold prepare. intros H. inv_bind. repeat match goal with y : _ * _ |- _ => destruct y end. inv_bind.
  destruct (nReceiveOnly (ssNode s)); [by simplify_eq|]. inv_bind.
  repeat match goal with y : _ * _ |- _ => destruct y end. inv_bind.
  repeat match goal with y : _ * _ |- _ => destruct y end. by simplify_eq.
Qed.

(** C38: a send reports what it did, whatever the hooks of the syncer do.  When
    it succeeds, it has stored the object and announced it once, under the name
    it has in the storage, the storage counts as healthy, and the cleaner learns
    which snapshots of other instances are in it; a syncer that only receives
    does nothing of this.  When it fails, nothing is announced and neither the
    cleaner nor the time of the last snapshot changes; the object can then be
    in the storage only because the [UpdateStored] hook failed. *)
Theorem send_reports fuel e ts done s sd r :
  1 <= StorageRetryCount (nConf (ssNode s)) ∨ StorageRetryForever (nConf (ssNode s)) = true →
  sendIt fuel e ts done s = (sd, r) →
  match r with
  | Ok (e', txnID) =>
      if nReceiveOnly (ssNode s) then sd = MkSend s None []
      else ∃ meta ni out, prepareIt s fuel e ts = Ok (e', txnID, Some (meta, ni, out)) ∧
        sdObject sd = Some (BuildName ni, out) ∧ sdPublished sd = [MkUpdateInfo ni meta] ∧
        htSequence (ssStoreHealth (sdSyncer sd)) = 0 ∧
        ssLastSnapshotTime (sdSyncer sd) =
          (if bool_decide (Kind ni = KindSnapshot) then done else ssLastSnapshotTime s) ∧
        ssCleaner (sdSyncer sd) = SetCommitted (ssCleaner s) (ssLastByInstance s)
  | _ =>
      sdPublished sd = [] ∧ ssLastSnapshotTime (sdSyncer sd) = ssLastSnapshotTime s ∧
      ssCleaner (sdSyncer sd) = ssCleaner s ∧
      (sdObject sd = None ∨
       ∃ e' txnID meta ni out f, prepareIt s fuel e ts = Ok (e', txnID, Some (meta, ni, out)) ∧
         sdObject sd = Some (BuildName ni, out) ∧ UpdateStored (ssHooks s) = Some f ∧
         ∀ x, f (MkUpdateInfo ni meta) ≠ Ok x)
  end.
Proof.
  intros Ht. unfold SendOnceHooked. cbv zeta.
  destruct (prepareIt s fuel e ts) as [[[e1 z] [[[m ni] out]|]]| | |] eqn:Ep;
    try (intros [= <- <-]; by auto).
  2:{ intros [= <- <-]. by rewrite (proj2 (prepare_receiveOnly _ _ _ _ _ _ _ Ep) eq_refl). }
  assert (Hro : nReceiveOnly (ssNode s) = false).
  { apply not_true_is_false. by rewrite (prepare_receiveOnly _ _ _ _ _ _ _ Ep). }
  pose proof (storeIt_reports (ssHooks s) attempt interrupted failedAt errorText fuel 0 None
    (BuildName ni) out (MkUpdateInfo ni m) (MkSend s None [])) as Hr.
  pose proof (storeIt_same (ssHooks s) attempt interrupted failedAt errorText fuel 0 None
    (BuildName ni) out (MkUpdateInfo ni m) (MkSend s None [])) as (_ & El & Et & Ec).
  cbv zeta in Hr. destruct (storeHooked _ _ _ _ _ _ _ _ _ _ _ _) as [sd1 r1].
  cbn [fst snd sdSyncer sdObject sdPublished app] in *.
  specialize (Hr ltac:(intros _; destruct Ht; [left; lia|by right])).
  destruct r1 as [[]|er| |]; intros [= <- <-]; cbn [sdSyncer sdObject sdPublished].
  - rewrite Hro. destruct Hr as (Ho & Hp & Hh). exists m, ni, out.
    split_and!; try done; destruct (bool_decide (Kind ni = KindSnapshot)); simpl; congruence.
  - destruct Hr as [Hp Ho]. split_and!; try done. destruct Ho as [|(Ho & f & Hf & Hx)]; [by left|right].
    by exists e1, z, m, ni, out, f.
  - destruct Hr as [Hp Ho]. split_and!; try done. destruct Ho as [|(Ho & f & Hf & Hx)]; [by left|right].
    by exists e1, z, m, ni, out, f.
  - destruct Hr as [Hp Ho]. split_and!; try done. destruct Ho as [|(Ho & f & Hf & Hx)]; [by left|right].
    by exists e1, z, m, ni, out, f.
Qed.
End reports.

Section more_hooks.
Context `{P : CSProto} `{D : CSDecoder} `{G : Gzip} `{L : LMDB} `{E : !LMDBEnv L}.
Context (h : Hooks) (sizeHint : Z → Z → bool → Z) (isCanceled : bytes → bool → bool).
Context (later : Z → Z) (others : Env → Env).
Context (attempt : nat → option error) (interrupted : nat → bool) (failedAt : nat → Z).
Context (errorText : error → bytes).

#[local] Notation storeIt := (storeHooked h attempt interrupted failedAt errorText).
#[local] Notation prepareIt := (prepare h sizeHint isCanceled later others).
#[local] Notation sendIt :=
  (SendOnceHooked sizeHint isCanceled later others attempt interrupted failedAt errorText).

(** The hook runs after the store: when it fails, the send fails although the
    object is in the storage, the event is not published, and the health of the
    storage is not reset. *)
Theorem failing_hook_after_store fuel e ts done s e1 z m ni out f er :
  ssHooks s = h →
  prepareIt (ssNode s) fuel e ts = Ok (e1, z, Some (m, ni, out)) → (0 < fuel)%nat →
  1 <= StorageRetryCount (nConf (ssNode s)) → attempt 0%nat = None →
  UpdateStored h = Some f → f (MkUpdateInfo ni m) = Err er →
  sendIt fuel e ts done s = (MkSend s (Some (BuildName ni, out)) [], Err er).
Proof.
  intros Eh Ep Hf Hc Ha Hh Hfe. unfold SendOnceHooked. rewrite Eh, Ep.
  destruct fuel as [|fuel]; [lia|]. cbn [storeHooked sdSyncer].
  rewrite (proj2 (Z.ltb_lt _ _)) by lia. by rewrite Ha, Hh, Hfe.
Qed.

(** The failed attempts [i] to [i + j - 1], for the health tracker. *)
Definition failures (i j : nat) : list Trackers.attempt :=
  (λ i, Trackers.MkAttempt (failedAt i) (errorText <$> attempt i)) <$> seq i j.

(** The health tracker is told every failed attempt in order, and then the
    success. *)
Theorem store_attempts_tracked fuel i j err name out info sd :
  UpdateStored h = None → (∀ k, (i <= k < i + j)%nat → is_Some (attempt k) ∧ interrupted k = false) →
  attempt (i + j)%nat = None → (j < fuel)%nat →
  Z.of_nat (i + j) < StorageRetryCount (nConf (ssNode (sdSyncer sd))) →
  ssStoreHealth (sdSyncer (storeIt fuel i err name out info sd).1) =
    AddSuccess (foldl track (ssStoreHealth (sdSyncer sd)) (failures i j)).
Proof.
  intros Hh. unfold failures. revert fuel i err sd.
  induction j as [|j IH]; intros [|fuel] i err sd Hk Hj Hl Hc; try lia; cbn [storeHooked];
    rewrite (proj2 (Z.ltb_lt _ _)) by lia; cbn [orb].
  - rewrite Nat.add_0_r in Hj. by rewrite Hj, Hh.
  - destruct (Hk i) as [[er Er] Ei]; [lia|]. rewrite Er, Ei. rewrite IH.
    + cbn [seq fmap list_fmap foldl]. rewrite Er. done.
    + intros k Hk'. apply Hk. lia.
    + by rewrite Nat.add_succ_comm.
    + lia.
    + cbn [sdSyncer setHealth ssNode]. lia.
Qed.
End more_hooks.

(** ** Hooks of the loop and the receiver *)

(** The check of an overdue snapshot: the hook runs before the snapshot and its
    error ends the loop. *)
Section overdue.
Context `{SW : SyncWorld} `{L : LMDB} (h : Hooks) (c : LoopConf).

Definition overdue (st : LoopState) : bool :=
  negb (lcReceiveOnly c) && (0 <? lcForceInterval c) &&
  (lcForceInterval c <? (w_SinceSnapshot (lsWorld st)).2).

Definition storeChangesHooked (hasDataAtStart : bool) (st : LoopState) : outcome LoopState :=
  _ ← (if overdue st then match SnapshotOverdue h with Some r => r | None => Ok tt end else Ok tt);
  storeChanges c hasDataAtStart st.

(** A hook that returns changes nothing; one that fails keeps every overdue
    snapshot, and only those, from being stored. *)
Theorem overdue_hook b st :
  storeChangesHooked b st =
    match SnapshotOverdue h with
    | Some (Err e) => if overdue st then Err e else storeChanges c b st
    | Some Panic => if overdue st then Panic else storeChanges c b st
    | Some Hang => if overdue st then Hang else storeChanges c b st
    | _ => storeChanges c b st
    end.
Proof.
  unfold storeChangesHooked. by destruct (SnapshotOverdue h) as [[[]| | |]|], (overdue st).
Qed.
End overdue.

(** [Receiver.Next] with the updates of another source: [pick] is where the
    iteration over the ready snapshots starts, [None] when there is none. *)
Inductive nextUpdate : Type :=
  | FromSnapshot (instance : bytes) (u : ReadyUpdate)
  | FromSource (instance : bytes) (u : SyncLoop.Update)
  | NoUpdate.

Definition NextUpdate (r : Receiver) (pick : option bytes) (source : list SyncLoop.Update)
    : Receiver * list SyncLoop.Update * nextUpdate :=
  match pick ≫= λ i, (λ x, (i, x)) <$> Receiver.Next r i with
  | Some (i, (r, u)) => (r, source, FromSnapshot i u)
  | None =>
      match source with
      | u :: source => (r, source, FromSource (InstanceID (upNameInfo u)) u)
      | [] => (r, [], NoUpdate)
      end
  end.

(** Where the iteration may start. *)
Definition startsAt (r : Receiver) (pick : option bytes) : Prop :=
  match pick with Some i => is_Some (rReady r !! i) | None => rReady r = ∅ end.

(** Other updates wait for the snapshots: one is taken only when no snapshot of
    a named instance is ready, and it leaves the receiver as it is. *)
Theorem snapshots_come_first r pick source r' source' i u :
  startsAt r pick → rReady r !! [] = None →
  NextUpdate r pick source = (r', source', FromSource i u) →
  rReady r = ∅ ∧ r' = r ∧ source = u :: source'.
Proof.
  intros Hs Hn. unfold NextUpdate. destruct pick as [j|]; simpl in *.
  - destruct Hs as [x Hx]. unfold Receiver.Next. rewrite Hx. case_bool_decide; [congruence|done].
  - destruct source; [done|]. by intros [= <- <- <- <-].
Qed.

(** ** Example *)

Section examples.
#[local] Existing Instances RefProto RefProto_laws RefDecoder RefDecoder_laws RefGzip RefGzip_laws
  Ref.RefLMDB Ref.RefView Ref.RefLMDB_laws RefEnv.

Definition exSyncer (h : Hooks) : SyncerState :=
  MkSyncerState exA true NewEvents h ∅ 0 (NewWorker zeroCleanup)
    (NewHealthTracker (StorageStore (cHealth Default))) (NewStartTracker (Start (cHealth Default)) 0).

Definition exSend (h : Hooks) : SendState * outcome (Env * Z) :=
  SendOnceHooked (λ _ _ _, 0) (λ _ _, false) id id (pAttempt exPass) (pInterrupted exPass) (λ _, 7)
    (λ _, []) 9 (exState 9 exRowsA) ex_ts ex_ts (exSyncer h).

Lemma exSend_plain : ∃ x,
  SendOnce exA (λ _ _ _, 0) (λ _ _, false) id id (pAttempt exPass) (pInterrupted exPass) 9
    (exState 9 exRowsA) ex_ts ex_ts ∅ = Ok x ∧ is_Some (sentObject x).
Proof.
  destruct (SendOnce_ok (λ _ _ _, 0) (λ _ _, false) id ltac:(done) ltac:(done) exA id 9 exPass
    (exState 9 exRowsA) (exState 9 exRowsA) (exState 10 exRowsA)) as (x & out & m & Ex & Eo & _);
    [apply exNode_native|by apply exState_works|apply exA_send|done|done|lia|].
  exists x. split; [exact Ex|]. by rewrite Eo.
Qed.

Lemma exSend_ok : ∃ sd x, exSend NewHooks = (sd, Ok x).
Proof.
  destruct exSend_plain as (x & Ex & Ho).
  pose proof (send_without_hooks NewHooks (λ _ _ _, 0) (λ _ _, false) id id (pAttempt exPass)
    (pInterrupted exPass) (λ _, 7) (λ _, []) 9 (exState 9 exRowsA) ex_ts ex_ts (exSyncer NewHooks)
    eq_refl (conj eq_refl (conj eq_refl eq_refl))) as H.
  change (ssNode (exSyncer NewHooks)) with exA in H.
  change (ssLastByInstance (exSyncer NewHooks)) with (∅ : gmap bytes Z) in H.
  rewrite Ex in H. destruct H as (H1 & _). exists (exSend NewHooks).1, (sentEnv x, sentTxnID x).
  rewrite (surjective_pairing (exSend NewHooks)) at 1. f_equal. exact H1.
Qed.

Lemma send_reports_witness : ∃ sd x name out info,
  exSend NewHooks = (sd, Ok x) ∧ sdObject sd = Some (name, out) ∧ sdPublished sd = [info] ∧
  BuildName (uiNameInfo info) = name.
Proof.
  destruct exSend_ok as (sd & [e' z] & E).
  destruct (send_reports (E := RefEnv) (λ _ _ _, 0) (λ _ _, false) id id (pAttempt exPass)
    (pInterrupted exPass) (λ _, 7) (λ _, []) 9 (exState 9 exRowsA) ex_ts ex_ts (exSyncer NewHooks)
    sd (Ok (e', z)) (or_introl (proj1 (Z.leb_le 1 (StorageRetryCount (nConf exA))) eq_refl)) E) as (m & ni & out & _ & Ho & Hp & _).
  exists sd, (e', z), (BuildName ni), out, (MkUpdateInfo ni m).
  split; [exact E|]. split; [exact Ho|]. split; [exact Hp|reflexivity].
Defined.
End examples.
