(* ===== verification/StatusPage.v ===== *)
(** * The status page (status/httpd.go)

    The HTML page with the databases and their statistics, the routes of the
    server and the answers to a request.  The page is the template of the source
    with its actions filled in; what html/template puts into the text of an
    element is escaped.  The formatting of sizes (datasize) is a function. *)

From S2P Require Import Prelude Lmdb Config Shadow Syncer DBIFlags Commands SnapshotCmds Stats.

(** ** The template *)

(** The text of the source, with single quotes for double ones. *)
Definition html (s : String.string) : bytes :=
  (λ b, if bool_decide (b = Byte.x27) then Byte.x22 else b) <$> str s.

Arguments html s%_string_scope.

Definition pageHead : bytes := html "<!DOCTYPE html>
<html>
<head>
	<meta charset='UTF-8'>
	<title>Lightning Stream Status</title>
	<style>
		body          { font-family: sans-serif; }
		table, td, th { border: 1px solid #ccc; border-collapse: collapse; }
		td, th        { padding: 5px; text-align: left; }
		td.last       { text-align: right; }
		td.size       { text-align: right; }
		td.entries    { text-align: right; }
		td.error      { background-color: #ffb8b8; }
		td.no-error   { background-color: #a6f3a6; }
		a             { text-decoration: none; color: #3c6ac5; }
	</style>
</head>
<body>
	<h1>⚡ Lightning Stream Status</h1>
	<p>
		<a href='/metrics'>Prometheus metrics</a>
		|
		<a href='/healthz'>healthz</a>
	</p>

	<h2>LMDBs</h2>

	<table>
	<thead>
		<tr>
			<th>DB Name</th>
			<th>MapSize</th>
			<th>Used</th>
			<th>LastTxnID</th>
			<th>Readers</th>
			<th>Error</th>
		</tr>
	</thead>
	<tbody>
	".

Definition rowOpen : bytes := html "
		<tr>
			<td>".

Definition nextSize : bytes := html "</td>
			<td class='size'>".

Definition nextCell : bytes := html "</td>
			<td>".

Definition rowClose : bytes := html "</td>
		</tr>
	".

Definition tableClose : bytes := html "
	</tbody>
	</table>

	".

Definition sectionOpen : bytes := html "
		<h3>DBIs in ".

Definition sectionHead : bytes := html "</h3>
		<table>
		<thead>
			<tr>
				<th>DBI</th>
				<th>Used</th>
				<th>Entries</th>
				<th>Depth</th>
				<th>BranchPages</th>
				<th>LeafPages</th>
				<th>OverflowPages</th>
				<th>Flags</th>
			</tr>
		</thead>
		<tbody>
		".

Definition dbiRowOpen : bytes := html "
			<tr>
				<td>".

Definition dbiNextSize : bytes := html "</td>
				<td class='size'>".

Definition dbiNextCell : bytes := html "</td>
				<td>".

Definition dbiRowClose : bytes := html "</td>
			</tr>
		".

Definition sectionClose : bytes := html "
		</tbody>
		</table>
	".

Definition pageTail : bytes := html "

	<h2>Storage</h2>
	<p><a href='storage'>Storage snapshot listing (text)</a></p>

</body>
</html>".

(** The escaping of html/template in the text of an element. *)
Definition escapeByte (b : byte) : bytes :=
  match b with
  | Byte.x00 => [Byte.xef; Byte.xbf; Byte.xbd]
  | Byte.x22 => str "&#34;"
  | Byte.x26 => str "&amp;"
  | Byte.x27 => str "&#39;"
  | Byte.x2b => str "&#43;"
  | Byte.x3c => str "&lt;"
  | Byte.x3e => str "&gt;"
  | b => [b]
  end.

Definition escape (s : bytes) : bytes := concat (escapeByte <$> s).

Section page.
Context (humanReadable : Z → bytes) (errorText : error → bytes).

(** A nil error is printed as nothing. *)
Definition errText (e : option error) : bytes := match e with Some e => errorText e | None => [] end.

Definition dbRow (d : DBInfo) : bytes :=
  rowOpen ++ escape (diName d) ++ nextSize ++ escape (humanReadable (eiMapSize (diInfo d))) ++
  nextSize ++ escape (humanReadable (diUsed d)) ++ nextSize ++ escape (itoa (eiLastTxnID (diInfo d))) ++
  nextCell ++ escape (itoa (eiNumReaders (diInfo d))) ++ str " / " ++
  escape (itoa (eiMaxReaders (diInfo d))) ++ nextCell ++ escape (errText (diErr d)) ++ rowClose.

Definition dbiRow (s : DBIStat) : bytes :=
  dbiRowOpen ++ escape (dsName s) ++ dbiNextSize ++ escape (humanReadable (dsUsed s)) ++
  dbiNextSize ++ escape (itoa (stEntries (dsStat s))) ++ dbiNextSize ++ escape (itoa (stDepth (dsStat s))) ++
  dbiNextSize ++ escape (itoa (stBranchPages (dsStat s))) ++
  dbiNextSize ++ escape (itoa (stLeafPages (dsStat s))) ++
  dbiNextSize ++ escape (itoa (stOverflowPages (dsStat s))) ++
  dbiNextCell ++ escape (dsFlagsDisplay s) ++ dbiRowClose.

Definition dbSection (d : DBInfo) : bytes :=
  sectionOpen ++ escape (diName d) ++ sectionHead ++ concat (dbiRow <$> diStats d) ++ sectionClose.

Definition statusTemplate (dbs : list DBInfo) : bytes :=
  pageHead ++ concat (dbRow <$> dbs) ++ tableClose ++ concat (dbSection <$> dbs) ++ pageTail.

(** ** Requests *)

Inductive handler : Type := HMetrics | HHealthz | HStorage | HPage.

(** The routes: a path that is not registered goes to the page. *)
Definition route (path : bytes) : handler :=
  if bool_decide (path = str "/metrics") then HMetrics
  else if bool_decide (path = str "/healthz") then HHealthz
  else if bool_decide (path = str "/storage") then HStorage
  else HPage.

(** [None]: no server is started. *)
Definition StartHTTPServer (c : Config) : option (bytes * (bytes → handler)) :=
  if bool_decide (HTTPAddress c = []) then None else Some (HTTPAddress c, route).

Context `{L : LMDB} {EN : LMDBEnv L} `{B : BlobStore} (env_FullInfo : Env → outcome EnvInfo).

(** [ServeHTTP]: status and body. *)
Definition ServeHTTP (fuel : nat) (i : info) (path : bytes) : outcome (Z * bytes) :=
  if negb (bool_decide (path = str "/")) then Ok (404, str "404 page not found" ++ newline)
  else
    dbs ← DBInfoPage env_FullInfo fuel i;
    Ok (200, statusTemplate dbs).
End page.

(** ** The markup does not depend on the data *)

(** How often a byte occurs. *)
Definition occurs (b : byte) (s : bytes) : nat := length (filter (λ x, x = b) s).

Lemma occurs_app b s s' : occurs b (s ++ s') = (occurs b s + occurs b s')%nat.
Proof. unfold occurs. by rewrite list.filter_app, length_app. Qed.

Lemma occurs_concat {A} b (f : A → bytes) l k :
  (∀ x, x ∈ l → occurs b (f x) = k x) → occurs b (concat (f <$> l)) = sum_list_with k l.
Proof.
  induction l as [|x l IH]; intros H; [done|]. simpl. rewrite occurs_app, H by by left.
  f_equal. apply IH. intros y Hy. apply H. by right.
Qed.

Definition lt : byte := Byte.x3c.

Lemma escape_lt s : occurs lt (escape s) = 0%nat.
Proof.
  induction s as [|b s IH]; [done|]. unfold escape in *. cbn [fmap list_fmap concat].
  rewrite occurs_app, IH. by destruct b.
Qed.

(** The tags of a part of the page are counted, data has none. *)
Ltac count_tags :=
  repeat rewrite occurs_app; rewrite ?escape_lt;
  repeat match goal with
  | |- context [occurs lt ?c] =>
      first [is_const c | lazymatch c with str _ => idtac end];
      let n := eval vm_compute in (occurs lt c) in change (occurs lt c) with n
  end.

Section markup.
Context (humanReadable : Z → bytes) (errorText : error → bytes).

Lemma dbRow_tags d : occurs lt (dbRow humanReadable errorText d) = 14%nat.
Proof. unfold dbRow. count_tags. done. Qed.

Lemma dbiRow_tags d : occurs lt (dbiRow humanReadable d) = 18%nat.
Proof. unfold dbiRow. count_tags. done. Qed.

Lemma dbSection_tags d :
  occurs lt (dbSection humanReadable d) = (26 + 18 * length (diStats d))%nat.
Proof.
  unfold dbSection. count_tags. rewrite (occurs_concat _ _ _ (λ _, 18%nat)) by (intros; apply dbiRow_tags).
  induction (diStats d); simpl in *; lia.
Qed.

(** The tags of the page depend only on the number of databases: no name, error
    or other text of a database can add markup to it. *)
Theorem markup_is_fixed dbs :
  occurs lt (statusTemplate humanReadable errorText dbs) =
    (occurs lt (statusTemplate humanReadable errorText []) +
     sum_list_with (λ d, 40 + 18 * length (diStats d)) dbs)%nat.
Proof.
  unfold statusTemplate. cbn [fmap list_fmap concat]. count_tags.
  rewrite (occurs_concat _ _ _ (λ _, 14%nat)) by (intros; apply dbRow_tags).
  rewrite (occurs_concat _ _ _ (λ d, 26 + 18 * length (diStats d))%nat) by (intros; apply dbSection_tags).
  change (occurs lt []) with 0%nat. induction dbs as [|d dbs IH]; simpl in *; lia.
Qed.

(** No path other than the root is served by the page. *)
Theorem only_root_is_served `{L : LMDB} {EN : LMDBEnv L} `{B : BlobStore} full fuel (i : info) path r :
  ServeHTTP humanReadable errorText full fuel i path = Ok r → r.1 = 200 ↔ path = str "/".
Proof.
  unfold ServeHTTP. case_bool_decide as Hp; simpl.
  - destruct (DBInfoPage full fuel i) as [dbs| | |]; [|done..]. by intros [= <-].
  - by intros [= <-].
Qed.
End markup.
